(* ===== verification/_CoqProject ===== *)
-Q . S2P
Prelude.v
Serialization.v
Crypto.v
Transaction.v
UTXO.v
Ownership.v
Coinbase.v
Consensus.v
Block.v
NetworkParams.v
Timestamp.v
ChainValidator.v
ChainWork.v
Mempool.v
BlockBuilder.v
ChainReplacement.v
MempoolReorg.v
Storage.v
Node.v
P2PWire.v
P2PStream.v
Socket.v
PeerManager.v
RateLimiter.v
P2PServer.v
P2PThreads.v
RelayWire.v
Relay.v
RelayFacts.v
RelaySync.v
RelayReader.v
Text.v
Cli.v
Wordlist.v
Bip39.v
Double.v
PoolState.v
Wallet.v
Derivation.v
SecureWallet.v
KeyStore.v
Pool.v
PoolFacts.v
PoolPayout.v
PoolRun.v
PoolMining.v
Worker.v
Otp.v
Session.v
SessionFacts.v
Spending.v
SpendingFacts.v
Settlement.v
Pages.v
Startup.v
Daemon.v
Users.v
UsersFacts.v
Mail.v
GoogleAuth.v
