(* ===== verification/Prelude.v ===== *)
(** * Caesar CZR: the node, its wallet and its mining pool, modelled and verified

    The program is a proof-of-work blockchain node written as C++ headers under
    src/include/caesar, with three executables under src/src. A transaction
    spends outputs of earlier ones and carries a witness per input; blocks of
    transactions are chained by hash and sealed by a memory-hard proof of work;
    the chain with more work wins. The node keeps the chain in one checksummed
    file, waiting transactions in a pool, and talks to peers in length-prefixed
    frames. Around it are a wallet (mnemonics, derived keys, an encrypted key
    file), an HTTP server with accounts and payments, and a mining pool with
    its worker. This library models those parts as executable functions with
    the source's names, and proves what they promise each other.

    ** Files

    From the bottom up; every file requires only files listed before it.

    - [Prelude]: bytes, 16/32/64-bit integers with their wrap-around, the
      [result] type of calls that may throw, loops with exceptions, [op], the
      monad of stateful operations that may throw and emit events, tactics
      ([ints], [zbool], [result_inv], [decide_vm]) and the hint databases.
    - [Serialization] (serialization.hpp): [BinaryWriter] and [BinaryReader];
      [Codec], the interface every message format is proved against.
    - [Crypto] (crypto.hpp): hashes, the Merkle root. OpenSSL is not in the
      sources: its digest and Ed25519 calls are the class [OpenSSL], of which
      every component is a function. [Toy] is an instance for the witnesses.

    The chain:
    - [Transaction] (transaction.hpp, witness.hpp), [UTXO] (utxo.hpp),
      [Ownership] (address.hpp, key_encoding.hpp, signature.hpp,
      transaction_signature.hpp, ownership.hpp), [Coinbase] (coinbase.hpp).
    - [Consensus] (consensus.hpp): the proof-of-work hash, the nonce search and
      the retargeting rule; [Block] (block.hpp), [NetworkParams]
      (network_params.hpp), [Timestamp] (timestamp_consensus.hpp).
    - [ChainValidator] (chain_validator.hpp): full and incremental validation.
      [valid_chain] is the abstract specification: chains grown one block at a
      time. [ChainWork] (chain_work.hpp): the 512-bit work accumulator.
    - [Mempool] (mempool.hpp, mempool_validation.hpp), [BlockBuilder]
      (block_builder.hpp), [ChainReplacement] (chain_replacement.hpp),
      [MempoolReorg] (mempool_reorg.hpp). The iteration order of the hash map is
      the class [UnorderedMap].
    - [Storage] (blockchain_storage.hpp): the file format and the
      write-fsync-rename protocol on a [Disk], under any [Faults]. A read that
      fails ends the file early for the reader ([load_until]), so it throws or
      gives the chain itself; the operations above are run with reads that
      succeed, a failing one being their branch for an exception of [load].
    - [Node] (node.hpp): the node's state, its operations in a state and
      exception monad with the events its peers see, and [node_step], the
      transition system of its sections under the lock. The check of [running_]
      outside the lock is not part of them, so a call may finish after a stop,
      and a mining job takes part through the locked section after its search,
      with any block at any time. Two switches narrow the steps: [s], no sync of
      the directory fails (a failure stores the chain but leaves the cache
      behind); [p], incoming transactions are well-formed with fresh ids and
      replacements leave the pool readmissible. [node_ok s p] is what holds
      under them: the chain always, the cache under [s], the pool under both.

    The network:
    - [P2PWire] (p2p_protocol.hpp, p2p_frame.hpp, p2p_ping.hpp, p2p_hello.hpp,
      p2p_sync_protocol.hpp, p2p_peer_discovery.hpp): frames and payloads, with
      [WireMessage] as the interface of a payload. [P2PStream] (p2p_tcp.hpp,
      p2p_connection.hpp, p2p_handshake.hpp): framing over a byte stream that
      arrives in arbitrary pieces, with interruptions, timeouts and failures as
      a script of system-call outcomes, and the hello handshake.
    - [Socket] (p2p_tcp.hpp): the life of a socket object. A method is a program
      of its accesses to the atomic descriptor and its system calls, [sock_step]
      the interleaving of threads that run them, and [effect] the kernel, which
      may refuse any call and reuse any free descriptor.
    - [PeerManager] (p2p_peer_manager.hpp): the peer table, scores, bans and the
      discovery cache, a method with one lock one function on the state and
      [penalize_among] with what happens between its three; the iteration order
      of the table is the class [PeerOrder]. [RateLimiter] (rate_limiter.hpp,
      security_layer.hpp).
    - [P2PServer] (p2p_server.hpp): the limit on attempts, outbound connections
      and discovery runs. Network operations run without locks, so each carries
      what other threads do meanwhile; [server_step] is any section of any
      thread, whatever it holds, and what it cannot break.
    - [P2PThreads] (p2p_server.hpp): start, stop and the publication of a
      connection, point by point under the lifecycle mutex ([holder_section]),
      the accept thread, point by point without it ([accept_section]), and the
      other clients; [run_threads] runs a schedule of them. The accept thread
      looks at the flag and adds a peer in two steps, stop takes the flag down,
      closes the listener, joins the thread and clears the table in four.
    - [RelayWire] and [Relay] (p2p_relay.hpp): the relay's payloads, and its
      handlers, requests, synchronisation sessions, periodic round and readers,
      on a state that holds the node and the peer table; the trace of a handler
      is the frames it hands to connections, under any outcomes of the sends.
      A handler that takes several locks is cut into its sections: a [Task] is
      what it has still to do, [begin_frame] its first section and [run_task]
      the next ones; [handle_frame] is the handler when nothing gets in between.
    - [RelayFacts]: the relay's invariant over [relay_step], which runs sections
      of any number of handlers in any order, and the batch of relayed blocks; [RelaySync]: an exchange between two nodes; [RelayReader]:
      the reader of a connection on any script of the socket.

    The wallet, the pool and the accounts:
    - [Text]: the parts of [std::string] and the number conversions the sources
      use on requests and files. [Cli] (src/main.cpp, src/web.cpp): command
      lines and the run of the node.
    - [Wordlist] and [Bip39] (bip39_wordlist.hpp, bip39.hpp), [Derivation]
      (slip10.hpp, wallet_hd.hpp), [SecureWallet] (secure_wallet.hpp: the
      encrypted envelope), [KeyStore] (persistent_wallet.hpp: the key file,
      saved, loaded and unlocked under any failures). HMAC, PBKDF2 and AES-GCM
      are the class [WalletSSL].
    - [Double]: the double arithmetic of the pool's fee. [PoolState], [Wallet],
      [Pool] and [PoolPayout] (http_rpc.hpp, wallet.hpp): the pool's variables
      and file, the wallet's view of its coins, jobs, shares and payouts; each
      handler carries what other threads do between its locked sections.
      [PoolFacts] and [PoolRun]: the ledger of shares, and the handlers as runs
      of atomic steps. [PoolMining]: a block mined through the pool. [Worker]
      (src/pool_worker.cpp): the worker, against the pool's handlers.
    - [Otp] (otp_auth.hpp): one-time codes. [Session] and [SessionFacts]
      (http_rpc.hpp, wallet_auth.hpp): PIN, sessions, the guards of a request
      and the account requests. [Spending] and [SpendingFacts]: balance and
      payment. [Settlement]: a payment followed into the next block. [Pages]:
      the pages that show the chain, the history and the pool. [Startup]: the
      constructor of [HttpRpcServer]. [Daemon] (src/web.cpp, node.hpp): the
      web wallet's run, the start of the listener and the thread that keeps a
      peer connected.
    - [Users] and [UsersFacts] (http_rpc.hpp): registrations and the tree of
      invitations. [Mail] (smtp_sender.hpp): the shell command of a mail.
      [GoogleAuth] (src/auth_google.cpp): the sign-in.

    ** What the theorems show

    - Money: the unspent outputs of a validated chain never exceed the subsidy
      schedule, itself below the maximum supply; an output is spent only under
      a signature of its owner over that very input; value checks never wrap.
    - Validation: the loop over a chain accepts exactly the chains of the
      abstract relation, agrees with the one-block check, and returns on every
      chain of blocks that can be decoded.
    - Commitment: Merkle roots, signing messages and tip hashes determine what
      they hash, up to a collision of SHA-256, which is never assumed away.
    - Selection: work is exact 512-bit arithmetic; a replacement is planned
      exactly for a valid chain with the same genesis and more work.
    - Pool of transactions: admission, ordering, removal and revalidation keep
      one invariant ([pool_inv]); what the builder takes from the pool makes a
      block that the validator accepts.
    - Storage: whatever call fails, the canonical file is the old chain or the
      new one; what is saved loads back equal, within the reader's limits.
    - Node: [node_ok] is kept by every step, and the chain only changes to one
      with more work, with any system call of a save failing and blocks that do
      not fit into the file refused; a run with --mine extends the chain by one
      block.
    - Relay: [relay_inv] is kept whatever frames peers send, with the sections
      of their handlers interleaved with each other and with calls of the node
      and the peer table; a batch of blocks is taken exactly
      as one by one; a node that is behind ends an exchange with the chain of
      its peer, on its own branch or on a fork; the locator reaches the genesis
      block; readers end on every script and leave no registration.
    - Peers: the table and the attempt limits keep their invariants under every
      interleaving; once stop has returned the accept thread has ended and the
      table is empty, although a peer may join after the flag went down; a stop
      waits for at most seven turns of that thread; a connection is published
      only after all checks held; a banned address stays out for the whole ban; no
      address exceeds the request and attempt limits in any window.
    - Wire: payloads have one encoding; frames survive any cutting of the
      stream; reads respect their deadline; the handshake admits exactly the
      peers of the same network; discovered endpoints are unicast.
    - Sockets: under every interleaving a descriptor has one owner, who alone
      closes it, and none leaks; opening a socket succeeds or leaves it closed.
    - Wallet: the mnemonics accepted are those of some entropy; a save leaves
      the old key file or the complete new one; what was encrypted under a PIN
      is restored by it; a start never changes a key file that exists.
    - Accounts: without the PIN or the words no sequence of account requests
      changes the wallet, the PIN or the session or gets one, and only a request
      from the machine itself can set [unlocked_]; guesses of PINs and codes are bounded;
      the registers of users keep their well-formedness, and the tree page
      lists exactly the descendants.
    - Payments: the balance shown is what consensus holds; a payment pays the
      amount and the change and nothing else; once its block is mined, every
      balance has changed by exactly the amount, and the miner's by the subsidy.
    - Mining pool: shares are credited once per address and nonce, and only for
      a nonce that meets the share difficulty; once the state file was read,
      handlers in any interleaving refine the ledger of shares; payouts divide exactly below
      the overflow bound; a found block extends the chain; the state file is
      read back; the worker is credited for exactly what it finds.
    - Some theorems state defects: a chain that is saved but cannot be loaded,
      a pool blocked by a relayed block, a cache left behind by a failed
      directory sync, a peer dropped for a pause within a frame, discovery
      broken by a peer on loopback, an accept on a descriptor that was reused, a
      coinbase that passes at another height,
      a payout paid twice after a failed broadcast, signatures given to
      strangers, a registration that blocks the pool, a session that outlives
      a restart.

    ** Bounds and fuel

    Loops over containers are structural. Fuel appears where the code loops
    until a condition holds: [merkle_loop] gets the length of the list, which
    halves at every level; [ordered_loop] gets the size of the pool,
    [removal_loop] and [reinsert_loop] one more, and a pass that makes progress
    shrinks what is pending ([ordered_loop_fuel], [reinsert_loop_fuel]: more
    fuel changes nothing); [ease_loop] and [harden_loop] get 64, and the
    clamped interval leaves at most two steps; [locator_loop] adds at most nine hashes
    and [locators_loop] 32 ([locators_loop_fuel]); [reader_loop] ends within one
    turn per byte and event of the script ([reader_loop_returns]);
    [mine_pow_loop] is bounded by [max_attempts], [worker_scan] by [TESTS] and
    [http_wait] by [STARTUP_LOOKS], as in the code. Sizes are
    bounded as the machine bounds them: chains of at most 2^64-1 blocks, fields
    within their integer types ([block_typed], [tx_full_ok]).

    ** Not modelled

    OpenSSL, the C library's [inet_pton], the kernel, the random generators,
    the HTTP library, curl and the iteration order of hash maps are parameters;
    clocks, signals and the outcomes of file-system calls appear as the values
    the code observes, and the text of [errno] in messages is left out. Threads
    interleave at their locked sections, and at single accesses in [Socket] and
    [P2PThreads]; the memory model below is not described. The HTML, scripts,
    styles and pictures of http_rpc.hpp and web_assets.hpp, the QR picture
    (drawn by the qrcodegen library), the echo of request headers in
    /api/whoami and the routing itself have no state and are left out; so are
    the counters of the reference-counted keys of OpenSSL.
*)

From Stdlib Require Export ZArith Lia.
From Stdlib Require Strings.Byte.
From stdpp Require Export prelude gmap strings list sorting.
From stdpp Require Import options.

#[global] Open Scope Z_scope.

(** The lemmas that say what a writer appends ([autorewrite with writer]) and
    the facts that close side conditions of the codecs ([auto with caesar]). *)
Create HintDb writer.
Create HintDb caesar.
(** The equations of operations on state ([autorewrite with run]). *)
Create HintDb run.

(** ** Bytes *)

Abbreviation byte := Corelib.Init.Byte.byte.
Abbreviation bytes := (list byte).

#[global] Instance byte_eq_dec : EqDecision byte.
Proof. intros x y. destruct (Byte.eqb x y) eqn:E.
  - left. by apply Byte.byte_dec_bl.
  - right. intros ->. by rewrite Byte.byte_dec_lb in E.
Defined.
#[global] Program Instance byte_countable : Countable byte :=
  inj_countable Byte.to_N Byte.of_N Byte.of_to_N.
#[global] Instance byte_inhabited : Inhabited byte := populate Byte.x00.

(** The value of a byte, and [static_cast<std::uint8_t>]. *)
Definition byteZ (b : byte) : Z := Z.of_N (Byte.to_N b).
Definition u8 (z : Z) : byte := default Byte.x00 (Byte.of_N (Z.to_N (z mod 256))).

(** String literals as the bytes a [std::string] holds. *)
Definition str (s : string) : bytes := String.list_byte_of_string s.

Lemma byteZ_bound b : 0 <= byteZ b < 256.
Proof. unfold byteZ. pose proof (Byte.to_N_bounded b). lia. Qed.

Lemma byteZ_u8 z : byteZ (u8 z) = z mod 256.
Proof.
  unfold byteZ, u8. pose proof (Z.mod_pos_bound z 256 ltac:(lia)).
  destruct (Byte.of_N _) as [b|] eqn:E; simpl.
  - apply Byte.to_of_N in E. rewrite E. lia.
  - apply Byte.of_N_None_iff in E. lia.
Qed.

Lemma byteZ_inj b1 b2 : byteZ b1 = byteZ b2 -> b1 = b2.
Proof.
  unfold byteZ. intros E%N2Z.inj.
  pose proof (Byte.of_to_N b1). pose proof (Byte.of_to_N b2). congruence.
Qed.

Lemma u8_byteZ b : u8 (byteZ b) = b.
Proof. apply byteZ_inj. rewrite byteZ_u8. apply Z.mod_small, byteZ_bound. Qed.

Lemma u8_mod z : u8 (z mod 256) = u8 z.
Proof. apply byteZ_inj. by rewrite !byteZ_u8, Z.mod_mod. Qed.

(** ** Machine integers *)

Abbreviation UINT8_MAX := 255 (only parsing).
Definition UINT16_MAX : Z := 65535.
Definition UINT32_MAX : Z := 4294967295.
Definition UINT64_MAX : Z := 18446744073709551615.

Definition u16 (z : Z) : Z := z mod 2 ^ 16.
Definition u32 (z : Z) : Z := z mod 2 ^ 32.
Definition u64 (z : Z) : Z := z mod 2 ^ 64.

Definition is_u16 (z : Z) : Prop := 0 <= z <= UINT16_MAX.
Definition is_u32 (z : Z) : Prop := 0 <= z <= UINT32_MAX.
Definition is_u64 (z : Z) : Prop := 0 <= z <= UINT64_MAX.
#[global] Instance is_u16_dec z : Decision (is_u16 z) := ltac:(unfold is_u16; apply _).
#[global] Instance is_u32_dec z : Decision (is_u32 z) := ltac:(unfold is_u32; apply _).
#[global] Instance is_u64_dec z : Decision (is_u64 z) := ltac:(unfold is_u64; apply _).

Ltac unfold_ints :=
  unfold is_u16, is_u32, is_u64, UINT16_MAX, UINT32_MAX, UINT64_MAX in *.
Ltac ints := unfold_ints; lia.

Lemma u64_small z : is_u64 z -> u64 z = z.
Proof. intros H. apply Z.mod_small. ints. Qed.
Lemma u32_small z : is_u32 z -> u32 z = z.
Proof. intros H. apply Z.mod_small. ints. Qed.
Lemma u16_small z : is_u16 z -> u16 z = z.
Proof. intros H. apply Z.mod_small. ints. Qed.
Lemma u64_range z : is_u64 (u64 z).
Proof. pose proof (Z.mod_pos_bound z (2 ^ 64) ltac:(lia)). unfold u64. ints. Qed.
Lemma u32_range z : is_u32 (u32 z).
Proof. pose proof (Z.mod_pos_bound z (2 ^ 32) ltac:(lia)). unfold u32. ints. Qed.

(** [v.size()] of a container, as the integer the code compares. *)
Definition sizeZ {A} (l : list A) : Z := Z.of_nat (length l).

Lemma sizeZ_nonneg {A} (l : list A) : 0 <= sizeZ l.
Proof. unfold sizeZ. lia. Qed.
Lemma sizeZ_cons {A} (a : A) l : sizeZ (a :: l) = sizeZ l + 1.
Proof. unfold sizeZ. simpl length. lia. Qed.
Lemma sizeZ_app {A} (l k : list A) : sizeZ (l ++ k) = sizeZ l + sizeZ k.
Proof. unfold sizeZ. rewrite length_app. lia. Qed.

(** ** Sums *)

Definition sumZ {A} (f : A -> Z) (l : list A) : Z := foldr (fun a s => f a + s) 0 l.

Lemma sumZ_app {A} (f : A -> Z) l k : sumZ f (l ++ k) = sumZ f l + sumZ f k.
Proof. unfold sumZ. induction l; simpl; lia. Qed.
Lemma sumZ_nonneg {A} (f : A -> Z) l : Forall (fun a => 0 <= f a) l -> 0 <= sumZ f l.
Proof. unfold sumZ. induction 1; simpl; lia. Qed.
Lemma sumZ_ext {A} (f g : A -> Z) l : Forall (fun a => f a = g a) l -> sumZ f l = sumZ g l.
Proof. unfold sumZ. induction 1; simpl; congruence. Qed.
Lemma sumZ_const {A} (k : Z) (l : list A) : sumZ (fun _ => k) l = k * Z.of_nat (length l).
Proof. unfold sumZ. induction l; simpl length; simpl foldr; lia. Qed.
Lemma sumZ_add {A} (f g : A -> Z) l : sumZ (fun a => f a + g a) l = sumZ f l + sumZ g l.
Proof. unfold sumZ. induction l; simpl; lia. Qed.
#[global] Instance sumZ_perm {A} (f : A -> Z) : Proper ((≡ₚ) ==> (=)) (sumZ f).
Proof. unfold sumZ. induction 1; simpl in *; lia. Qed.

(** ** Exceptions

    A call that can throw returns a [result]; the string is the exception's
    [what()]. *)
Inductive result (A : Type) : Type :=
  | Ok (a : A)
  | Throw (what : string).
Arguments Ok {A} a.
Arguments Throw {A} what.

#[global] Instance result_eq_dec `{EqDecision A} : EqDecision (result A).
Proof. solve_decision. Defined.
#[global] Instance result_ret : MRet result := fun A a => Ok a.
#[global] Instance result_bind : MBind result := fun A B f m =>
  match m with Ok a => f a | Throw e => Throw e end.
#[global] Instance result_fmap : FMap result := fun A B f m =>
  match m with Ok a => Ok (f a) | Throw e => Throw e end.

(** [if (c) throw std::runtime_error(e);] *)
Definition throw_if (c : bool) (e : string) : result unit :=
  if c then Throw e else Ok tt.

(** Short-circuit [&&] whose operands may throw. *)
Definition and_r (x y : result bool) : result bool :=
  b ← x; if (b : bool) then y else Ok false.

(** [for (x : l) out.push_back(f(x));] *)
Fixpoint mapM_r {A B} (f : A -> result B) (l : list A) : result (list B) :=
  match l with
  | [] => Ok []
  | a :: l => b ← f a; k ← mapM_r f l; Ok (b :: k)
  end.

(** [for (x : l) s = f(s, x);] with exceptions leaving the loop. *)
Fixpoint foldM_r {A S} (f : S -> A -> result S) (s : S) (l : list A) : result S :=
  match l with
  | [] => Ok s
  | a :: l => s' ← f s a; foldM_r f s' l
  end.

Lemma bind_Ok {A B} (m : result A) (f : A -> result B) b :
  (m ≫= f) = Ok b <-> exists a, m = Ok a /\ f a = Ok b.
Proof. destruct m; simpl; split; [eauto|intros (?&[=->]&?)|done|intros (?&?&?)]; done. Qed.
Lemma bind_Throw {A B} (m : result A) (f : A -> result B) e :
  m ≫= f = Throw e <-> m = Throw e \/ exists a, m = Ok a /\ f a = Throw e.
Proof. destruct m; simpl; naive_solver. Qed.
Lemma bind_Ok_r {A B} (m : result A) (f : A -> result B) a b :
  m = Ok a -> f a = Ok b -> (m ≫= f) = Ok b.
Proof. by intros ->. Qed.
Lemma throw_if_Ok c e u : throw_if c e = Ok u <-> c = false.
Proof. unfold throw_if. by destruct c, u. Qed.
Lemma and_r_true x y : and_r x y = Ok true <-> x = Ok true /\ y = Ok true.
Proof. unfold and_r. destruct x as [[]|]; simpl; intuition congruence. Qed.

Lemma mapM_r_Forall2 {A B} (f : A -> result B) l k :
  mapM_r f l = Ok k <-> Forall2 (fun a b => f a = Ok b) l k.
Proof.
  revert k. induction l as [|a l IH]; intros k; simpl.
  - split; [by intros [= <-] | by inversion 1].
  - rewrite bind_Ok. split.
    + intros (b & Hb & (k' & Hk & [= <-])%bind_Ok). constructor; [done|]. by apply IH.
    + inversion 1; subst. eexists; split; [done|]. apply bind_Ok.
      eexists; split; [by apply IH|done].
Qed.
Lemma mapM_r_length {A B} (f : A -> result B) l k :
  mapM_r f l = Ok k -> length k = length l.
Proof. intros H%mapM_r_Forall2. symmetry. by eapply Forall2_length. Qed.
Lemma mapM_r_app {A B} (f : A -> result B) l1 l2 :
  mapM_r f (l1 ++ l2) = (k1 ← mapM_r f l1; k2 ← mapM_r f l2; Ok (k1 ++ k2)).
Proof.
  induction l1 as [|a l IH]; simpl; [by destruct (mapM_r f l2)|].
  destruct (f a); simpl; [|done]. rewrite IH.
  destruct (mapM_r f l); simpl; [|done]. by destruct (mapM_r f l2).
Qed.
Lemma mapM_r_total {A B} (f : A -> result B) l :
  Forall (fun a => exists b, f a = Ok b) l -> exists k, mapM_r f l = Ok k.
Proof.
  induction 1 as [|a l [b Hb] _ [k Hk]]; simpl; eauto.
  rewrite Hb, Hk. eauto.
Qed.
Lemma foldM_r_app {A S} (f : S -> A -> result S) s l1 l2 :
  foldM_r f s (l1 ++ l2) = (s' ← foldM_r f s l1; foldM_r f s' l2).
Proof.
  revert s. induction l1 as [|a l IH]; intros s; simpl; [done|].
  destruct (f s a); simpl; [|done]. apply IH.
Qed.

(** The call returns: no exception escapes. *)
Definition returns {A} (m : result A) : Prop := exists a, m = Ok a.

Lemma returns_Ok {A} (a : A) : returns (Ok a).
Proof. by exists a. Qed.
Lemma returns_bind {A B} (m : result A) (f : A -> result B) :
  returns m -> (forall a, m = Ok a -> returns (f a)) -> returns (m ≫= f).
Proof. intros [a ->] H. exact (H a eq_refl). Qed.
Lemma returns_and_r x y : returns x -> returns y -> returns (and_r x y).
Proof. intros [[] ->] [b ->]; eexists; reflexivity. Qed.
Lemma returns_if {A} (c : bool) (x y : result A) :
  (c = true -> returns x) -> (c = false -> returns y) -> returns (if c then x else y).
Proof. destruct c; auto. Qed.
Lemma returns_mapM_r {A B} (f : A -> result B) l :
  Forall (fun a => returns (f a)) l -> returns (mapM_r f l).
Proof. apply mapM_r_total. Qed.
#[export] Hint Resolve returns_Ok returns_and_r : caesar.

(** Invert a hypothesis of the form [computation = Ok v]: binds are opened,
    conditionals split, impossible branches discarded. *)
Ltac result_inv_step :=
  match goal with
  | H : Throw _ = Ok _ |- _ => discriminate H
  | H : Ok _ = Throw _ |- _ => discriminate H
  | H : Ok _ = Ok _ |- _ => injection H; clear H; intros
  | H : true = false |- _ => discriminate H
  | H : false = true |- _ => discriminate H
  | H : throw_if _ _ = Ok _ |- _ => apply throw_if_Ok in H
  | H : mbind _ _ = Ok _ |- _ =>
      apply bind_Ok in H; let x := fresh "x" in let E := fresh "E" in
      destruct H as (x & E & H)
  | H : and_r _ _ = Ok true |- _ => apply and_r_true in H; destruct H
  | H : negb _ = true |- _ => apply negb_true_iff in H
  | H : negb _ = false |- _ => apply negb_false_iff in H
  | H : (_ && _)%bool = true |- _ => apply andb_true_iff in H; destruct H
  | H : (_ || _)%bool = false |- _ => apply orb_false_iff in H; destruct H
  | H : bool_decide _ = true |- _ => apply bool_decide_eq_true in H
  | H : bool_decide _ = false |- _ => apply bool_decide_eq_false in H
  | H : (if ?b then _ else _) = Ok _ |- _ => let E := fresh "E" in destruct b eqn:E
  | H : (let '(_, _) := ?p in _) = Ok _ |- _ => let E := fresh "E" in destruct p eqn:E
  end.
Ltac result_inv := repeat (result_inv_step; simpl in *); simplify_eq.

(** ** Operations

    A method of an object with state: it may throw, what it changed stays
    changed, and it leaves a trace of the calls it made to the outside. *)
Definition op (S E A : Type) : Type := S -> result A * S * list E.

Section Operations.
Context {S E : Type}.
Implicit Types (s : S).

#[global] Instance op_ret : MRet (op S E) := fun A a s => (Ok a, s, []).
#[global] Instance op_bind : MBind (op S E) := fun A B f m s =>
  match m s with
  | (Ok a, s1, ev1) => let '(r, s2, ev2) := f a s1 in (r, s2, ev1 ++ ev2)
  | (Throw e, s1, ev1) => (Throw e, s1, ev1)
  end.
(** A call that reads the state and may throw. *)
Definition reading {A} (f : S -> result A) : op S E A := fun s => (f s, s, []).
Definition require_op (c : bool) (e : string) : op S E unit := fun s =>
  (if c then Ok tt else Throw e, s, []).
Definition emit (ev : E) : op S E unit := fun s => (Ok tt, s, [ev]).
Definition update (f : S -> S) : op S E unit := fun s => (Ok tt, f s, []).
(** Code that looks at the state. *)
Definition asking {A} (k : S -> op S E A) : op S E A := fun s => k s s.
Definition throw {A} (e : string) : op S E A := fun s => (Throw e, s, []).
(** [try { m } catch (...) { h }]: what [m] did stays done. *)
Definition catching {A} (m : op S E A) (h : string -> op S E A) : op S E A := fun s =>
  match m s with
  | (Ok a, s, out) => (Ok a, s, out)
  | (Throw e, s, out) => let '(r, s, out') := h e s in (r, s, out ++ out')
  end.

(** Running them: one rewriting rule per primitive. *)
Lemma run_nil {B} (x : result B * S * list E) :
  (let '(r, s2, ev2) := x in (r, s2, [] ++ ev2)) = x.
Proof. by destruct x as [[? ?] ?]. Qed.
Lemma run_reading {A B} (g : S -> result A) (f : A -> op S E B) s :
  (reading g ≫= f) s = match g s with Ok a => f a s | Throw e => (Throw e, s, []) end.
Proof. unfold mbind, op_bind, reading. destruct (g s); [apply run_nil|done]. Qed.
Lemma run_ret {A B} (a : A) (f : A -> op S E B) s : (mret a ≫= f) s = f a s.
Proof. apply run_nil. Qed.
Lemma run_require {B} c e (f : unit -> op S E B) s :
  (require_op c e ≫= f) s = if c then f tt s else (Throw e, s, []).
Proof. unfold mbind, op_bind, require_op. destruct c; [apply run_nil|done]. Qed.
Lemma run_update {B} g (f : unit -> op S E B) s : (update g ≫= f) s = f tt (g s).
Proof. apply run_nil. Qed.

(** What a run that returns says about its parts. *)
Lemma bind_returns {A B} (m : op S E A) (f : A -> op S E B) s b s' ev :
  (m ≫= f) s = (Ok b, s', ev) ->
  exists a s1 ev1 ev2, m s = (Ok a, s1, ev1) /\ f a s1 = (Ok b, s', ev2) /\ ev = ev1 ++ ev2.
Proof.
  unfold mbind, op_bind. destruct (m s) as [[[a|] s1] ev1]; [|done].
  destruct (f a s1) as [[r s2] ev2] eqn:Hf. intros [= -> -> <-]. eauto 8.
Qed.
Lemma require_returns {B} c e (f : unit -> op S E B) s b s' ev :
  (require_op c e ≫= f) s = (Ok b, s', ev) -> c = true /\ f tt s = (Ok b, s', ev).
Proof. rewrite run_require. by destruct c. Qed.
Lemma reading_returns {A B} (g : S -> result A) (f : A -> op S E B) s b s' ev :
  (reading g ≫= f) s = (Ok b, s', ev) -> exists a, g s = Ok a /\ f a s = (Ok b, s', ev).
Proof. rewrite run_reading. destruct (g s); [eauto|done]. Qed.
End Operations.
#[global] Hint Rewrite @run_reading @run_ret @run_require @run_update : run.

(** Decide a closed proposition by evaluating its decision procedure. *)
Ltac decide_vm := apply (bool_decide_unpack _); vm_compute; exact I.

(** Boolean comparisons of integers, as [lia] reads them. *)
Ltac zbool_hyp :=
  match goal with
  | H : (_ <? _) = true |- _ => apply Z.ltb_lt in H
  | H : (_ <? _) = false |- _ => apply Z.ltb_ge in H
  | H : (_ <=? _) = true |- _ => apply Z.leb_le in H
  | H : (_ <=? _) = false |- _ => apply Z.leb_gt in H
  | H : (_ =? _) = true |- _ => apply Z.eqb_eq in H
  | H : (_ =? _) = false |- _ => apply Z.eqb_neq in H
  end.
Ltac zbool :=
  repeat zbool_hyp;
  rewrite ?Z.ltb_lt, ?Z.ltb_ge, ?Z.leb_le, ?Z.leb_gt, ?Z.eqb_eq, ?Z.eqb_neq.

(** ** Little-endian encodings *)

Fixpoint le_encode (n : nat) (v : Z) : bytes :=
  match n with O => [] | S n => u8 v :: le_encode n (v / 256) end.
Fixpoint le_decode (bs : bytes) : Z :=
  match bs with [] => 0 | b :: bs => byteZ b + 256 * le_decode bs end.

Lemma le_encode_length n v : length (le_encode n v) = n.
Proof. revert v. induction n; intros; simpl; auto. Qed.

Lemma le_decode_bound bs : 0 <= le_decode bs < 256 ^ Z.of_nat (length bs).
Proof.
  induction bs as [|b bs IH]; [simpl; lia|].
  cbn [le_decode length]. rewrite Nat2Z.inj_succ, Z.pow_succ_r by lia.
  pose proof (byteZ_bound b). lia.
Qed.

Lemma le_decode_encode n v : le_decode (le_encode n v) = v mod 256 ^ Z.of_nat n.
Proof.
  revert v. induction n as [|n IH]; intros v; [simpl; by rewrite Z.mod_1_r|].
  cbn [le_encode le_decode]. rewrite IH, byteZ_u8, Nat2Z.inj_succ, Z.pow_succ_r by lia.
  rewrite Z.rem_mul_r by lia. lia.
Qed.

Lemma le_encode_decode bs : le_encode (length bs) (le_decode bs) = bs.
Proof.
  induction bs as [|b bs IH]; [done|]. cbn [length le_encode le_decode].
  pose proof (byteZ_bound b). f_equal.
  - apply byteZ_inj. rewrite byteZ_u8, Z.mul_comm, Z.mod_add by lia. by apply Z.mod_small.
  - rewrite Z.mul_comm, Z.div_add by lia. rewrite Z.div_small by lia. simpl. exact IH.
Qed.

Lemma le_decode_encode_small n v :
  0 <= v < 256 ^ Z.of_nat n -> le_decode (le_encode n v) = v.
Proof. intros. rewrite le_decode_encode. by apply Z.mod_small. Qed.
#[global] Arguments le_encode : simpl never.
