(* ===== verification/Serialization.v ===== *)
(** The binary codec of serialization.hpp.

    [BinaryWriter] is the growing byte vector it wraps; [BinaryReader] keeps
    the input and a position, every read is guarded by [require] and a read
    past the end throws. [Codec] is the interface the message formats are
    proved against: it relates a reader method to the bytes it consumes, in
    both directions, and is closed under the ways the formats compose. *)

From S2P Require Import Prelude.
From stdpp Require Import options.
Local Open Scope Z_scope.

(** ** BinaryWriter *)

Definition BinaryWriter := bytes.

Definition write_u8 (value : byte) (data_ : BinaryWriter) : BinaryWriter :=
  data_ ++ [value].

(** The loop of [write_u32] and [write_u64]: byte [i] is [(value >> 8i) & 0xff]. *)
Definition write_le (n : Z) (value : Z) (data_ : BinaryWriter) : BinaryWriter :=
  foldl (fun d i => d ++ [u8 (Z.land (Z.shiftr value (i * 8)) 255)]) data_ (seqZ 0 n).

Definition write_u32 (value : Z) (data_ : BinaryWriter) : BinaryWriter :=
  write_le 4 value data_.

Definition write_u64 (value : Z) (data_ : BinaryWriter) : BinaryWriter :=
  write_le 8 value data_.

Definition write_bytes (bs : bytes) (data_ : BinaryWriter) : BinaryWriter :=
  data_ ++ bs.

Definition write_string (value : bytes) (data_ : BinaryWriter) : result BinaryWriter :=
  throw_if (UINT32_MAX <? sizeZ value) "serialized string too large" ;;
  Ok (write_u32 (u32 (sizeZ value)) data_ ++ value).

(** ** BinaryReader *)

Record BinaryReader := mkReader { data_ : bytes; position_ : nat }.

Definition parser (A : Type) : Type := BinaryReader -> result (A * BinaryReader).
#[global] Instance parser_ret : MRet parser := fun A a r => Ok (a, r).
#[global] Instance parser_bind : MBind parser := fun A B f p r =>
  match p r with Ok (a, r') => f a r' | Throw e => Throw e end.

(** A throw inside a reading function. *)
Definition reject_if (c : bool) (e : string) : parser unit := fun r =>
  if c then Throw e else Ok (tt, r).

Definition new_reader (data : bytes) : BinaryReader := mkReader data 0.

Definition remaining (r : BinaryReader) : nat := (length (data_ r) - position_ r)%nat.

Definition reader_empty (r : BinaryReader) : bool :=
  bool_decide (position_ r = length (data_ r)).

Definition require (size : nat) (r : BinaryReader) : result unit :=
  throw_if (bool_decide (remaining r < size)%nat) "truncated binary data".

(** [data_[position_++]]. *)
Definition next_byte (r : BinaryReader) : byte * BinaryReader :=
  (default Byte.x00 (data_ r !! position_ r), mkReader (data_ r) (S (position_ r))).

Definition read_u8 : parser byte := fun r =>
  require 1 r ;; Ok (next_byte r).

(** The loop [value |= uint(data_[position_++]) << (i * 8)]. *)
Fixpoint read_le_loop (n : nat) (i : Z) (value : Z) (r : BinaryReader) : Z * BinaryReader :=
  match n with
  | O => (value, r)
  | S n =>
      let '(b, r') := next_byte r in
      read_le_loop n (i + 1) (Z.lor value (Z.shiftl (byteZ b) (i * 8))) r'
  end.

Definition read_u32 : parser Z := fun r =>
  require 4 r ;; Ok (read_le_loop 4 0 0 r).

Definition read_u64 : parser Z := fun r =>
  require 8 r ;; Ok (read_le_loop 8 0 0 r).

Definition read_bytes (size : nat) : parser bytes := fun r =>
  require size r ;;
  Ok (take size (drop (position_ r) (data_ r)), mkReader (data_ r) (position_ r + size)).

Definition read_string : parser bytes := fun r =>
  match read_u32 r with
  | Throw e => Throw e
  | Ok (size, r) =>
      if Z.of_nat (remaining r) <? size then Throw "serialized string exceeds input"
      else Ok (take (Z.to_nat size) (drop (position_ r) (data_ r)),
               mkReader (data_ r) (position_ r + Z.to_nat size))
  end.

(** [for (i = 0; i < count; ++i) out.push_back(p(reader));] *)
Fixpoint read_n {A} (n : nat) (p : parser A) : parser (list A) :=
  match n with
  | O => mret []
  | S n => a ← p; l ← read_n n p; mret (a :: l)
  end.

(** [if (!reader.empty()) throw ...] *)
Definition reject_trailing (e : string) : parser unit := fun r =>
  if reader_empty r then Ok (tt, r) else Throw e.

Definition run {A} (p : parser A) (data : bytes) : result A :=
  '(a, _) ← p (new_reader data); Ok a.

Definition bytes_to_binary_string (bs : bytes) : bytes := bs.

(** ** What a writer appends *)

Lemma shiftr_byte value i :
  0 <= i -> u8 (Z.land (Z.shiftr value (i * 8)) 255) = u8 (value / 256 ^ i).
Proof.
  intros Hi. apply byteZ_inj. rewrite !byteZ_u8.
  rewrite (Z.land_ones _ 8), Z.shiftr_div_pow2 by lia.
  change (2 ^ 8) with 256. rewrite Z.mod_mod by lia.
  by replace (2 ^ (i * 8)) with (256 ^ i) by (change 256 with (2 ^ 8); rewrite <- Z.pow_mul_r by lia; f_equal; lia).
Qed.

Lemma le_encode_seqZ n v k :
  0 <= k ->
  (fun i => u8 (v / 256 ^ i)) <$> seqZ k (Z.of_nat n) = le_encode n (v / 256 ^ k).
Proof.
  revert k. induction n as [|n IH]; intros k Hk; [done|].
  rewrite Nat2Z.inj_succ, seqZ_cons by lia. cbn [fmap list_fmap le_encode]. f_equal.
  rewrite Z.pred_succ. setoid_rewrite IH; [|lia].
  rewrite Z.pow_succ_r, (Z.mul_comm 256), <- Z.div_div by lia. done.
Qed.

Lemma write_le_encode n v w : write_le (Z.of_nat n) v w = w ++ le_encode n v.
Proof.
  unfold write_le.
  assert (forall (f : Z -> byte) l d, foldl (fun d i => d ++ [f i]) d l = d ++ (f <$> l)) as Hf.
  { intros f l. induction l as [|x l IH]; intros d; simpl; [by rewrite app_nil_r|].
    by rewrite IH, <- app_assoc. }
  rewrite Hf. f_equal. replace (le_encode n v) with (le_encode n (v / 256 ^ 0))
    by (by rewrite Z.pow_0_r, Z.div_1_r).
  rewrite <- le_encode_seqZ by lia. apply list_fmap_ext. intros i x Hx.
  apply lookup_seqZ in Hx. apply shiftr_byte. lia.
Qed.

Lemma write_u32_encode v w : write_u32 v w = w ++ le_encode 4 v.
Proof. apply (write_le_encode 4). Qed.
Lemma write_u64_encode v w : write_u64 v w = w ++ le_encode 8 v.
Proof. apply (write_le_encode 8). Qed.

(** Length-prefixed bytes, the wire form of a string. *)
Definition enc_string (s : bytes) : bytes := le_encode 4 (sizeZ s) ++ s.

Lemma write_string_encode s w :
  write_string s w =
    if UINT32_MAX <? sizeZ s then Throw "serialized string too large"
    else Ok (w ++ enc_string s).
Proof.
  unfold write_string, throw_if, enc_string. destruct (_ <? _) eqn:E; [done|]. simpl.
  rewrite write_u32_encode, u32_small, <- app_assoc; [done|].
  pose proof (sizeZ_nonneg s). zbool. ints.
Qed.

Lemma foldl_write_bytes {A} (f : A -> bytes) l w :
  foldl (fun w a => write_bytes (f a) w) w l = w ++ mjoin (f <$> l).
Proof.
  revert w. induction l as [|a l IH]; intros w; simpl; [by rewrite app_nil_r|].
  rewrite IH. unfold write_bytes. by rewrite <- app_assoc.
Qed.

Lemma foldM_write {A} (f : BinaryWriter -> A -> result BinaryWriter) (enc : A -> bytes) l w :
  Forall (fun a => forall w, f w a = Ok (w ++ enc a)) l ->
  foldM_r f w l = Ok (w ++ mjoin (enc <$> l)).
Proof.
  revert w. induction l as [|a l IH]; intros w; simpl; [by rewrite app_nil_r|].
  intros [Ha Hl]%Forall_cons. rewrite Ha. simpl. rewrite IH by done.
  by rewrite <- app_assoc.
Qed.

Lemma sizeZ_u32 {A} (l : list A) : sizeZ l <= UINT32_MAX -> u32 (sizeZ l) = sizeZ l.
Proof. intros. apply u32_small. pose proof (sizeZ_nonneg l). ints. Qed.

#[global] Hint Rewrite write_u32_encode write_u64_encode : writer.
#[global] Arguments write_u32 : simpl never.
#[global] Arguments write_bytes : simpl never.
#[global] Arguments write_u64 : simpl never.
#[global] Arguments write_string : simpl never.
#[global] Arguments enc_string : simpl never.
#[global] Arguments read_n : simpl nomatch.

(** ** The reader's invariant and the codec interface *)

Definition reader_wf (r : BinaryReader) : Prop := (position_ r <= length (data_ r))%nat.
Definition rest (r : BinaryReader) : bytes := drop (position_ r) (data_ r).

(** [r'] is [r] advanced over [bs]. *)
Record advances (r : BinaryReader) (bs : bytes) (r' : BinaryReader) : Prop := {
  adv_data : data_ r' = data_ r;
  adv_wf : reader_wf r';
  adv_rest : rest r = bs ++ rest r'
}.

(** A reader method [p] and the encoding [enc] of the values satisfying [ok]:
    reading an encoding gives the value back, and what is read was its
    encoding. *)
Class Codec {A} (p : parser A) (enc : A -> bytes) (ok : A -> Prop) : Prop := {
  codec_complete r a tl :
    reader_wf r -> ok a -> rest r = enc a ++ tl ->
    exists r', p r = Ok (a, r') /\ advances r (enc a) r' /\ rest r' = tl;
  codec_sound r a r' :
    reader_wf r -> p r = Ok (a, r') -> ok a /\ advances r (enc a) r'
}.

Lemma rest_length r : reader_wf r -> length (rest r) = remaining r.
Proof. intros _. unfold rest, remaining. by rewrite length_drop. Qed.

Lemma rest_drop r n : rest (mkReader (data_ r) (position_ r + n)) = drop n (rest r).
Proof. unfold rest. simpl. by rewrite drop_drop. Qed.

Lemma advances_take r n :
  reader_wf r -> (n <= remaining r)%nat ->
  advances r (take n (rest r)) (mkReader (data_ r) (position_ r + n)).
Proof.
  intros Hwf Hn. split; [done| |].
  - unfold reader_wf, remaining in *. simpl. lia.
  - by rewrite rest_drop, take_drop.
Qed.

Lemma advances_trans r1 r2 r3 bs1 bs2 :
  advances r1 bs1 r2 -> advances r2 bs2 r3 -> advances r1 (bs1 ++ bs2) r3.
Proof.
  intros [D1 W1 R1] [D2 W2 R2]. split; [congruence|done|].
  by rewrite R1, R2, app_assoc.
Qed.

Lemma advances_refl r : reader_wf r -> advances r [] r.
Proof. by split. Qed.

Lemma advances_rest r bs r' tl : advances r bs r' -> rest r = bs ++ tl -> rest r' = tl.
Proof. intros [_ _ E] E'. rewrite E in E'. by apply app_inv_head in E'. Qed.

Lemma require_Ok n r u : require n r = Ok u <-> (n <= remaining r)%nat.
Proof. unfold require. rewrite throw_if_Ok, bool_decide_eq_false. lia. Qed.

(** A fixed-size read whose value is a bijection of the bytes taken. *)
Lemma codec_fixed {A} n (p : parser A) (enc : A -> bytes) (dec : bytes -> A) (ok : A -> Prop) :
  (forall r, p r = (require n r ;;
     Ok (dec (take n (rest r)), mkReader (data_ r) (position_ r + n)))) ->
  (forall a, ok a -> length (enc a) = n /\ dec (enc a) = a) ->
  (forall bs, length bs = n -> ok (dec bs) /\ enc (dec bs) = bs) ->
  Codec p enc ok.
Proof.
  intros Hp Henc Hdec. split.
  - intros r a tl Hwf Hok Hr. destruct (Henc a Hok) as [Hl Hd].
    assert (n <= remaining r)%nat as Hn.
    { rewrite <- rest_length, Hr, length_app by done. lia. }
    rewrite Hp. destruct (require n r) as [[]|] eqn:Hreq; [|by apply (require_Ok n r tt) in Hn; congruence].
    assert (take n (rest r) = enc a) as Ht by (rewrite Hr, <- Hl; apply take_app_length).
    pose proof (advances_take r n Hwf Hn) as Hadv. rewrite Ht in *.
    eexists; split; [simpl; by rewrite Hd|]. split; [done|]. by eapply advances_rest.
  - intros r a r' Hwf H. rewrite Hp in H. apply bind_Ok in H as (? & Hreq%require_Ok & [= <- <-]).
    destruct (Hdec (take n (rest r))) as [? E].
    { rewrite length_take, rest_length by done. lia. }
    split; [done|]. rewrite E. by apply advances_take.
Qed.

Lemma take_S_rest r n :
  (S n <= remaining r)%nat ->
  take (S n) (rest r) = default Byte.x00 (data_ r !! position_ r)
    :: take n (rest (mkReader (data_ r) (S (position_ r)))).
Proof.
  unfold remaining, rest. intros H. simpl.
  destruct (data_ r !! position_ r) as [b|] eqn:E.
  - erewrite (drop_S _ _ _ E). done.
  - apply lookup_ge_None in E. lia.
Qed.

Lemma read_le_loop_decode n i v r :
  0 <= i -> 0 <= v < 256 ^ i -> reader_wf r -> (n <= remaining r)%nat ->
  read_le_loop n i v r =
    (v + 256 ^ i * le_decode (take n (rest r)), mkReader (data_ r) (position_ r + n)).
Proof.
  revert i v r. induction n as [|n IH]; intros i v r Hi Hv Hwf Hn.
  - simpl. destruct r; simpl. f_equal; [lia|]. f_equal. lia.
  - cbn [read_le_loop]. unfold next_byte.
    set (b := default _ _). pose proof (byteZ_bound b) as Hb.
    assert (Z.lor v (Z.shiftl (byteZ b) (i * 8)) = v + 256 ^ i * byteZ b) as ->.
    { rewrite Z.shiftl_mul_pow2 by lia.
      replace (2 ^ (i * 8)) with (256 ^ i) by
        (change 256 with (2 ^ 8); rewrite <- Z.pow_mul_r by lia; f_equal; lia).
      pose proof (Z.add_lor_land v (byteZ b * 256 ^ i)) as Hadd.
      enough (Z.land v (byteZ b * 256 ^ i) = 0) by lia. clear Hadd.
      replace (256 ^ i) with (2 ^ (8 * i)) in * by (rewrite Z.pow_mul_r by lia; done).
      rewrite <- Z.shiftl_mul_pow2 by lia.
      apply Z.bits_inj'. intros k Hk. rewrite Z.land_spec, Z.bits_0.
      destruct (Z.lt_ge_cases k (8 * i)).
      - rewrite Z.shiftl_spec_low by done. by rewrite andb_false_r.
      - replace (Z.testbit v k) with false; [done|]. symmetry.
        destruct (Z.eq_dec v 0) as [->|]; [apply Z.bits_0|].
        apply Z.bits_above_log2; [lia|].
        apply Z.log2_lt_pow2; [lia|]. eapply Z.lt_le_trans; [apply Hv|].
        apply Z.pow_le_mono_r; lia. }
    rewrite IH; simpl.
    + rewrite (take_S_rest r n Hn). fold b. cbn [le_decode].
      rewrite Z.pow_add_r, Z.pow_1_r by lia. f_equal; [lia|]. f_equal. lia.
    + lia.
    + rewrite Z.pow_add_r, Z.pow_1_r by lia. nia.
    + unfold reader_wf, remaining in *. simpl. lia.
    + unfold reader_wf, remaining in *. simpl. lia.
Qed.

(** ** The primitive codecs *)

#[global] Instance read_u8_codec : Codec read_u8 (fun b => [b]) (fun _ => True).
Proof.
  apply (codec_fixed 1 _ _ (fun bs => hd Byte.x00 bs)).
  - intros r. unfold read_u8, next_byte. destruct (require 1 r) as [u|] eqn:E; [|done].
    apply require_Ok in E. simpl. rewrite (take_S_rest r 0 E). simpl.
    by rewrite Nat.add_1_r.
  - done.
  - intros [|b [|]]; naive_solver.
Qed.

Lemma read_le_fixed n r :
  reader_wf r ->
  (require n r ;; Ok (read_le_loop n 0 0 r)) =
  (require n r ;; Ok (le_decode (take n (rest r)), mkReader (data_ r) (position_ r + n))).
Proof.
  intros Hwf. destruct (require n r) as [u|] eqn:E; [|done]. simpl.
  apply require_Ok in E. rewrite read_le_loop_decode by (done || lia).
  rewrite Z.pow_0_r. do 2 f_equal. lia.
Qed.

Lemma read_le_codec n (p : parser Z) (bound : Z) :
  (forall r, p r = (require n r ;; Ok (read_le_loop n 0 0 r))) ->
  bound + 1 = 256 ^ Z.of_nat n ->
  Codec p (le_encode n) (fun v => 0 <= v <= bound).
Proof.
  intros Hp Hb.
  assert (Codec (fun r => require n r ;; Ok (le_decode (take n (rest r)), mkReader (data_ r) (position_ r + n)))
            (le_encode n) (fun v => 0 <= v <= bound)) as [C S].
  { apply (codec_fixed n _ _ le_decode); [done| |].
    - intros v Hv. split; [apply le_encode_length|]. apply le_decode_encode_small. lia.
    - intros bs <-. split; [pose proof (le_decode_bound bs); lia|apply le_encode_decode]. }
  split.
  - intros r a tl Hwf Hok Hr. destruct (C r a tl Hwf Hok Hr) as (r' & E & ?).
    exists r'. by rewrite Hp, read_le_fixed.
  - intros r a r' Hwf H. rewrite Hp, read_le_fixed in H by done. by apply S.
Qed.

#[global] Instance read_u32_codec : Codec read_u32 (le_encode 4) is_u32.
Proof. by apply read_le_codec. Qed.
#[global] Instance read_u64_codec : Codec read_u64 (le_encode 8) is_u64.
Proof. by apply read_le_codec. Qed.

#[global] Instance read_bytes_codec n :
  Codec (read_bytes n) (fun bs => bs) (fun bs => length bs = n).
Proof. apply (codec_fixed n _ _ (fun bs => bs)); [done|naive_solver..]. Qed.

#[global] Instance read_string_codec :
  Codec read_string enc_string (fun s => sizeZ s <= UINT32_MAX).
Proof.
  split.
  - intros r s tl Hwf Hok Hr. unfold enc_string in *. rewrite <- app_assoc in Hr.
    assert (is_u32 (sizeZ s)) as Hs by (pose proof (sizeZ_nonneg s); ints).
    destruct (codec_complete r (sizeZ s) (s ++ tl) Hwf Hs Hr) as (r1 & E1 & A1 & R1).
    unfold read_string. rewrite E1.
    assert (length s <= remaining r1)%nat as Hn.
    { rewrite <- rest_length, R1, length_app by apply A1. lia. }
    destruct (_ <? _) eqn:Hlt; [unfold sizeZ in Hlt; zbool; lia|].
    unfold sizeZ. rewrite Nat2Z.id. fold (rest r1).
    pose proof (advances_take r1 (length s) (adv_wf _ _ _ A1) Hn) as A2.
    rewrite R1, take_app_length in A2 |- *.
    eexists; split; [done|]. split; [by eapply advances_trans|].
    by eapply advances_rest.
  - intros r s r' Hwf H. unfold read_string in H.
    destruct (read_u32 r) as [[size r1]|] eqn:E1; [|done].
    apply codec_sound in E1 as [Hu A1]; [|done].
    destruct (_ <? _) eqn:Hlt; [done|]. zbool. injection H as <- <-. fold (rest r1).
    assert (Z.to_nat size <= remaining r1)%nat as Hn by ints.
    pose proof (advances_take r1 _ (adv_wf _ _ _ A1) Hn) as A2.
    assert (sizeZ (take (Z.to_nat size) (rest r1)) = size) as Hsz.
    { unfold sizeZ. rewrite length_take, rest_length by apply A1. ints. }
    split; [rewrite Hsz; ints|]. unfold enc_string. rewrite Hsz.
    by eapply advances_trans.
Qed.

(** Sequences: [n] elements one after the other. *)
#[global] Instance read_n_codec {A} (p : parser A) enc ok n :
  Codec p enc ok ->
  Codec (read_n n p) (fun l => mjoin (enc <$> l)) (fun l => Forall ok l /\ length l = n).
Proof.
  intros Hc. split.
  - induction n as [|n IH]; intros r l tl Hwf [Hok Hl] Hr.
    + destruct l; [|done]. exists r. by split_and!; [|apply advances_refl|].
    + destruct l as [|a l]; [done|]. apply Forall_cons in Hok as [Ha Hok].
      simpl in Hr. rewrite <- app_assoc in Hr.
      destruct (codec_complete r a _ Hwf Ha Hr) as (r1 & E1 & A1 & R1).
      destruct (IH r1 l tl (adv_wf _ _ _ A1) ltac:(simpl in Hl; split; [done|lia]) R1) as (r2 & E2 & A2 & R2).
      exists r2. split; [|split; [by eapply advances_trans|done]].
      cbn [read_n]. unfold mbind, parser_bind. rewrite E1.
      unfold mbind, parser_bind in E2. by rewrite E2.
  - induction n as [|n IH]; intros r l r' Hwf H.
    + injection H as <- <-. split; [done|]. by apply advances_refl.
    + cbn [read_n] in H. unfold mbind, parser_bind in H.
      destruct (p r) as [[a r1]|] eqn:E1; [|done].
      apply codec_sound in E1 as [Ha A1]; [|done].
      unfold mbind, parser_bind in IH. specialize (IH r1).
      destruct (read_n n p r1) as [[k r2]|] eqn:E2; [|done].
      injection H as <- <-. destruct (IH k r2 (adv_wf _ _ _ A1) eq_refl) as [[Hk Hl] A2].
      split; [split; [by constructor|simpl; lia]|]. by eapply advances_trans.
Qed.

(** Sequencing of readers, as hypothesis and as goal. *)
Lemma parser_bind_Ok {A B} (p : parser A) (f : A -> parser B) r x :
  (p ≫= f) r = Ok x <-> exists a r', p r = Ok (a, r') /\ f a r' = Ok x.
Proof.
  unfold mbind, parser_bind. destruct (p r) as [[a r']|]; split; try naive_solver.
Qed.
Lemma parser_bind_run {A B} (p : parser A) (f : A -> parser B) r a r' :
  p r = Ok (a, r') -> (p ≫= f) r = f a r'.
Proof. intros E. unfold mbind, parser_bind. by rewrite E. Qed.
Lemma reject_if_Ok c e r x :
  reject_if c e r = Ok x <-> c = false /\ x = (tt, r).
Proof. unfold reject_if. destruct c; naive_solver. Qed.
Lemma reject_trailing_Ok e r x :
  reader_wf r -> reject_trailing e r = Ok x <-> rest r = [] /\ x = (tt, r).
Proof.
  intros Hwf. unfold reject_trailing, reader_empty, rest.
  case_bool_decide as E.
  - rewrite E, drop_all. naive_solver.
  - split; [done|]. intros [Hd _]. apply (f_equal length) in Hd.
    rewrite length_drop in Hd. unfold reader_wf in Hwf. simpl in Hd. lia.
Qed.
Lemma mret_Ok {A} (a : A) r x : (mret a : parser A) r = Ok x <-> x = (a, r).
Proof. unfold mret, parser_ret. naive_solver. Qed.

Lemma new_reader_wf data : reader_wf (new_reader data).
Proof. unfold reader_wf, new_reader. simpl. lia. Qed.
Lemma new_reader_rest data : rest (new_reader data) = data.
Proof. done. Qed.

(** Inverting a successful read step by step: each primitive read becomes the
    fact [advances], each check the condition that held. *)
Ltac parse_inv :=
  repeat match goal with
  | H : mbind _ _ _ = Ok _ |- _ =>
      apply parser_bind_Ok in H as (? & ? & ? & H); cbn beta iota in *
  | H : reject_if _ _ _ = Ok _ |- _ => apply reject_if_Ok in H as [? H]; simplify_eq
  | H : mret _ _ = Ok _ |- _ => apply mret_Ok in H; simplify_eq
  | W : reader_wf ?r, H : ?p ?r = Ok (_, _) |- _ =>
      let A := fresh "A" in
      apply (codec_sound r) in H as [? A]; [|exact W];
      pose proof (adv_wf _ _ _ A)
  end.

(** A complete message: the body, then a check that nothing trails. *)
Definition whole {A} (p : parser A) (e : string) : parser A :=
  a ← p; _ ← reject_trailing e; mret a.

Lemma run_whole_complete {A} (p : parser A) enc ok e a :
  Codec p enc ok -> ok a -> run (whole p e) (enc a) = Ok a.
Proof.
  intros Hc Hok. unfold run, whole.
  destruct (codec_complete (new_reader (enc a)) a [] (new_reader_wf _) Hok)
    as (r & E & A1 & R); [by rewrite app_nil_r|].
  erewrite (parser_bind_run p) by exact E. cbn beta.
  erewrite (parser_bind_run (reject_trailing e)).
  2: { apply reject_trailing_Ok; [apply A1|]. split; [exact R|reflexivity]. }
  done.
Qed.

Lemma run_whole_sound {A} (p : parser A) enc ok e bs a :
  Codec p enc ok -> run (whole p e) bs = Ok a -> ok a /\ bs = enc a.
Proof.
  intros Hc H. unfold run, whole in H.
  apply bind_Ok in H as ([a' r] & H & [= ->]).
  apply parser_bind_Ok in H as (a2 & r1 & E & H).
  apply codec_sound in E as [Hok A1]; [|apply new_reader_wf].
  apply parser_bind_Ok in H as (? & r2 & H1 & H2).
  apply reject_trailing_Ok in H1 as [R [= -> ->]]; [|apply A1].
  apply mret_Ok in H2 as [= -> ->]. split; [done|].
  pose proof (adv_rest _ _ _ A1) as R'. rewrite R, app_nil_r in R'. done.
Qed.

(** No encoding is a proper prefix of another. *)
Lemma codec_prefix {A} (p : parser A) enc ok a b tl :
  Codec p enc ok -> ok a -> ok b -> enc a = enc b ++ tl -> a = b.
Proof.
  intros Hc Ha Hb E.
  destruct (codec_complete (new_reader (enc a)) a [] (new_reader_wf _) Ha) as (r1 & E1 & _);
    [by rewrite app_nil_r|].
  destruct (codec_complete (new_reader (enc a)) b tl (new_reader_wf _) Hb E) as (r2 & E2 & _).
  congruence.
Qed.

(** ** Composing codecs

    A record is read field by field; [codec_step] peels the first field off,
    [codec_reject] a check between fields, [codec_ret] closes the record. *)

Lemma codec_step {A T} (p : parser A) encA okA (proj : T -> A)
    (f : A -> parser T) encR (okT : T -> Prop) :
  Codec p encA okA ->
  (forall t, okT t -> okA (proj t)) ->
  (forall a, okA a -> Codec (f a) encR (fun t => okT t /\ proj t = a)) ->
  Codec (p ≫= f) (fun t => encA (proj t) ++ encR t) okT.
Proof.
  intros Hp Hproj Hf. split.
  - intros r t tl Hwf Ht Hr. rewrite <- app_assoc in Hr.
    destruct (codec_complete r (proj t) _ Hwf (Hproj t Ht) Hr) as (r1 & E1 & A1 & R1).
    destruct (Hf _ (Hproj t Ht)) as [C _].
    destruct (C r1 t tl (adv_wf _ _ _ A1) (conj Ht eq_refl) R1) as (r2 & E2 & A2 & R2).
    exists r2. erewrite parser_bind_run by exact E1.
    split; [done|]. split; [by eapply advances_trans|done].
  - intros r t r2 Hwf (a & r1 & E1 & E2)%parser_bind_Ok.
    apply codec_sound in E1 as [Ha A1]; [|done].
    destruct (Hf a Ha) as [_ S]. apply S in E2 as [[Ht <-] A2]; [|apply A1].
    split; [done|]. by eapply advances_trans.
Qed.

Lemma codec_reject {T} c e (f : parser T) enc (ok : T -> Prop) :
  (forall t, ok t -> c = false) ->
  (c = false -> Codec f enc ok) ->
  Codec (reject_if c e ≫= fun _ => f) enc ok.
Proof.
  intros Hc Hf. destruct c.
  - split; [intros r t tl _ Ht; by specialize (Hc t Ht)|].
    intros r t r' _ H. by apply parser_bind_Ok in H as (? & ? & [? _]%reject_if_Ok & _).
  - exact (Hf eq_refl).
Qed.

Lemma codec_ret {T} (t0 : T) (ok : T -> Prop) :
  (forall t, ok t <-> t = t0) -> Codec (mret t0) (fun _ => []) ok.
Proof.
  intros Hok. split.
  - intros r t tl Hwf ->%Hok Hr. exists r. by split_and!; [|apply advances_refl|].
  - intros r t r' Hwf [= -> ->]%mret_Ok. split; [by apply Hok|]. by apply advances_refl.
Qed.

Lemma codec_ext {T} (p : parser T) enc enc' (ok ok' : T -> Prop) :
  Codec p enc ok ->
  (forall t, ok' t <-> ok t) -> (forall t, ok t -> enc' t = enc t) ->
  Codec p enc' ok'.
Proof.
  intros [C S] Hok Henc. split.
  - intros r t tl Hwf Ht%Hok Hr. rewrite (Henc t Ht) in *. by apply C.
  - intros r t r' Hwf H. destruct (S r t r' Hwf H) as [Ht A1].
    rewrite (Henc t Ht). split; [by apply Hok|done].
Qed.

Lemma codec_enc_ext {T} (p : parser T) enc enc' (ok : T -> Prop) :
  Codec p enc ok -> (forall t, ok t -> enc' t = enc t) -> Codec p enc' ok.
Proof. intros Hc Henc. by apply (codec_ext p enc enc' ok ok). Qed.

(** [codec_field proj side]: the next field is [proj]; [side] proves that it is
    in the range its reader accepts. [codec_check side]: the next statement
    is a check. [codec_done side]: the record is complete. *)
Ltac codec_field proj side :=
  refine (codec_step _ _ _ proj _ _ _ _ _ _);
  [apply _ | intros ? ?; cbn beta in *; side | intros ? ?; cbn beta in *].
Ltac codec_check side :=
  apply codec_reject; [intros ? ?; cbn beta in *; side | intros ?].
Ltac codec_done side := apply codec_ret; intros; cbn beta in *; side.

(** ** Size-prefixed messages inside a message *)

(** A call, inside a reading function, of a function that may throw. *)
Definition lift {A} (m : result A) : parser A := fun r =>
  match m with Ok a => Ok (a, r) | Throw e => Throw e end.

(** [size = read_u32(); if (size > limit) throw; decode(read_bytes(size))] *)
Definition read_sized {A} (limit : Z) (e : string) (dec : bytes -> result A) : parser A :=
  size ← read_u32;
  _ ← reject_if (limit <? size) e;
  d ← read_bytes (Z.to_nat size);
  lift (dec d).

Lemma lift_Ok {A} (m : result A) r x : lift m r = Ok x <-> exists a, m = Ok a /\ x = (a, r).
Proof. unfold lift. destruct m; naive_solver. Qed.

Lemma codec_lift {T} (m : result T) (ok : T -> Prop) :
  (forall t, ok t <-> m = Ok t) -> Codec (lift m) (fun _ => []) ok.
Proof.
  intros Hok. split.
  - intros r t tl Hwf Ht%Hok Hr. exists r. rewrite Ht. by split_and!; [|apply advances_refl|].
  - intros r t r' Hwf (a & Ha & [= -> ->])%lift_Ok. split; [by apply Hok|]. by apply advances_refl.
Qed.

Lemma read_sized_codec {A} limit e (dec : bytes -> result A) (enc : A -> bytes) (ok : A -> Prop) :
  limit <= UINT32_MAX ->
  (forall a, ok a -> dec (enc a) = Ok a) ->
  (forall bs a, dec bs = Ok a -> ok a /\ bs = enc a) ->
  Codec (read_sized limit e dec) (fun a => enc_string (enc a))
    (fun a => ok a /\ sizeZ (enc a) <= limit).
Proof.
  intros Hlim Hc Hs. unfold enc_string. split.
  - intros r a tl Hwf [Ha Hsz] Hr. rewrite <- app_assoc in Hr.
    assert (is_u32 (sizeZ (enc a))) as Hu by (pose proof (sizeZ_nonneg (enc a)); ints).
    destruct (codec_complete r _ _ Hwf Hu Hr) as (r1 & E1 & A1 & R1).
    destruct (codec_complete (p := read_bytes (length (enc a))) r1 _ _ (adv_wf _ _ _ A1) eq_refl R1)
      as (r2 & E2 & A2 & R2).
    exists r2. split; [|split; [by eapply advances_trans|done]].
    unfold read_sized. erewrite parser_bind_run by exact E1. cbn beta.
    erewrite parser_bind_run by (apply reject_if_Ok; split; [by apply Z.ltb_ge|done]). cbn beta.
    unfold sizeZ. rewrite Nat2Z.id. erewrite parser_bind_run by exact E2.
    apply lift_Ok. eauto.
  - intros r a r' Hwf H. unfold read_sized in H. parse_inv.
    apply lift_Ok in H as (a' & Hd & [= -> ->]). apply Hs in Hd as [Ha ->].
    zbool. unfold_ints. assert (sizeZ (enc a') = x) as Hx by (unfold sizeZ; lia).
    rewrite Hx. split; [split; [done|lia]|]. by eapply advances_trans.
Qed.

(** ** Counted sequences *)

(** [count = read_u32(); if (bad(count)) throw;] then [count] elements. *)
Definition read_counted {A} (bad : Z -> bool) (e : string) (p : parser A) : parser (list A) :=
  count ← read_u32;
  _ ← reject_if (bad count) e;
  read_n (Z.to_nat count) p.
Definition enc_counted {A} (enc : A -> bytes) (l : list A) : bytes :=
  le_encode 4 (sizeZ l) ++ mjoin (enc <$> l).

Lemma read_counted_codec {A} bad e (p : parser A) enc ok limit :
  Codec p enc ok -> limit <= UINT32_MAX -> (forall n, limit < n -> bad n = true) ->
  Codec (read_counted bad e p) (enc_counted enc) (fun l => Forall ok l /\ bad (sizeZ l) = false).
Proof.
  intros Hc Hlim Hbad. unfold read_counted, enc_counted.
  assert (forall l : list A, bad (sizeZ l) = false -> is_u32 (sizeZ l)) as Hu.
  { intros l H. pose proof (sizeZ_nonneg l). destruct (Z_lt_le_dec limit (sizeZ l)); [|ints].
    by rewrite Hbad in H by done. }
  refine (codec_step _ _ _ (fun l => sizeZ l) _ _ _ read_u32_codec _ _); [naive_solver|].
  intros n Hn. apply codec_reject; [intros l [[_ H] <-]; done|]. intros Hb.
  eapply codec_ext; [apply read_n_codec, Hc| |by intros].
  intros l. unfold sizeZ. unfold_ints. split.
  - intros [[? ?] <-]. split; [done|]. lia.
  - intros [? Hl]. assert (Z.of_nat (length l) = n) as -> by lia. done.
Qed.

Lemma counted_size {A} (enc : A -> bytes) l :
  sizeZ (enc_counted enc l) = 4 + sumZ (fun a => sizeZ (enc a)) l.
Proof.
  unfold enc_counted. rewrite sizeZ_app. unfold sizeZ at 1. rewrite le_encode_length. f_equal.
  induction l as [|a l IH]; [done|]. 
  change (sizeZ (enc a ++ mjoin (enc <$> l)) = sizeZ (enc a) + sumZ (fun a => sizeZ (enc a)) l).
  by rewrite sizeZ_app, IH.
Qed.
#[global] Arguments enc_counted : simpl never.
