(* ===== verification/Crypto.v ===== *)
(** crypto.hpp: 32-byte hashes, hex printing and the Merkle root.

    OpenSSL is not part of the sources: its digest and Ed25519 primitives are
    the operations of the class [OpenSSL], on which the whole development is
    parametric. Allocation failures inside OpenSSL are outside the model. *)

From S2P Require Import Prelude Serialization.
From stdpp Require Import options.
Local Open Scope Z_scope.

(** [Hash256] is [std::array<std::uint8_t, 32>]. *)
Record Hash256 := mkHash {
  hash_bytes : bytes;
  hash_size : Is_true (bool_decide (length hash_bytes = 32%nat))
}.

Lemma hash_length h : length (hash_bytes h) = 32%nat.
Proof. destruct h as [l H]. exact (bool_decide_unpack _ H). Qed.

Lemma hash_eq h1 h2 : hash_bytes h1 = hash_bytes h2 -> h1 = h2.
Proof.
  destruct h1 as [l1 H1], h2 as [l2 H2]. simpl. intros ->. f_equal. apply proof_irrel.
Qed.

(** A size proof that evaluates to the canonical one on a concrete array. *)
Definition canon (b : bool) : Is_true b -> Is_true b :=
  match b with true => fun _ => I | false => fun H => H end.

(** Copying bytes into a zero-initialised array. *)
Definition hash_of_bytes (l : bytes) : Hash256 :=
  mkHash (resize 32 Byte.x00 l) (canon _ (bool_decide_pack _ (length_resize l 32 Byte.x00))).

Lemma hash_of_bytes_id h : hash_of_bytes (hash_bytes h) = h.
Proof. apply hash_eq. simpl. apply resize_all_alt. symmetry. apply hash_length. Qed.
Lemma hash_bytes_of l : length l = 32%nat -> hash_bytes (hash_of_bytes l) = l.
Proof. intros H. simpl. by apply resize_all_alt. Qed.

#[global] Instance hash_eq_dec : EqDecision Hash256.
Proof.
  intros h1 h2. destruct (decide (hash_bytes h1 = hash_bytes h2)) as [E|E].
  - left. by apply hash_eq.
  - right. by intros ->.
Defined.
#[global] Program Instance hash_countable : Countable Hash256 :=
  inj_countable' hash_bytes hash_of_bytes hash_of_bytes_id.

(** [Hash256{}]. *)
Definition zero_hash : Hash256 := hash_of_bytes [].
#[global] Instance hash_inhabited : Inhabited Hash256 := populate zero_hash.

Definition hash_eqb (h1 h2 : Hash256) : bool := bool_decide (h1 = h2).

(** [operator<] of [std::array]: lexicographic on the bytes. *)
Fixpoint lex_ltb (l k : bytes) : bool :=
  match l, k with
  | _, [] => false
  | [], _ :: _ => true
  | a :: l, b :: k =>
      if byteZ a <? byteZ b then true
      else if byteZ b <? byteZ a then false else lex_ltb l k
  end.
Definition hash_ltb (h1 h2 : Hash256) : bool := lex_ltb (hash_bytes h1) (hash_bytes h2).

(** Reading and writing a hash as 32 raw bytes. *)
Definition write_hash (h : Hash256) (w : BinaryWriter) : BinaryWriter :=
  foldl (fun w b => write_u8 b w) w (hash_bytes h).
Definition read_hash_bytewise : parser Hash256 :=
  l ← read_n 32 read_u8; mret (hash_of_bytes l).
Definition read_hash_block : parser Hash256 :=
  l ← read_bytes 32; mret (hash_of_bytes l).

(** ** The OpenSSL primitives the sources call *)

Class OpenSSL := {
  (** EVP_DigestInit_ex / Update / Final_ex with EVP_sha256; the digest has 32 bytes. *)
  EVP_sha256 : bytes -> Hash256;
  EVP_PKEY : Type;
  (** EVP_PKEY_new_raw_public_key(EVP_PKEY_ED25519, ...): null on rejection. *)
  EVP_PKEY_new_raw_public_key : bytes -> option EVP_PKEY;
  EVP_PKEY_get_raw_public_key : EVP_PKEY -> bytes;
  (** EVP_DigestVerify on an Ed25519 key: key, message, signature. *)
  EVP_DigestVerify : EVP_PKEY -> bytes -> bytes -> bool;
  (** EVP_DigestSign with the private half of a key. *)
  EVP_DigestSign : EVP_PKEY -> bytes -> bytes
}.

Section Hashing.
Context {ssl : OpenSSL}.

Definition sha256 (input : bytes) : Hash256 := EVP_sha256 input.

Definition hash_pair (lft rgt : Hash256) : Hash256 :=
  sha256 (hash_bytes lft ++ hash_bytes rgt).

(** One pass of the [for (i = 0; i < hashes.size(); i += 2)] loop; an odd
    last hash is paired with itself. *)
Fixpoint merkle_level (hashes : list Hash256) : list Hash256 :=
  match hashes with
  | lft :: rgt :: hashes => hash_pair lft rgt :: merkle_level hashes
  | [lft] => [hash_pair lft lft]
  | [] => []
  end.

(** The [while (hashes.size() > 1)] loop. *)
Fixpoint merkle_loop (fuel : nat) (hashes : list Hash256) : list Hash256 :=
  match fuel with
  | O => hashes
  | S fuel =>
      if bool_decide (1 < length hashes)%nat
      then merkle_loop fuel (merkle_level hashes) else hashes
  end.

Definition merkle_root (hashes : list Hash256) : Hash256 :=
  match hashes with
  | [] => sha256 []
  | _ => hd zero_hash (merkle_loop (length hashes) hashes)
  end.

(** Two distinct inputs with one digest. *)
Definition sha256_collision : Prop := exists m1 m2, m1 <> m2 /\ sha256 m1 = sha256 m2.
End Hashing.

(** ** Hex printing *)

Definition hex_digit (v : Z) : byte :=
  nth (Z.to_nat v) (str "0123456789abcdef") Byte.x00.
(** [std::hex << setw(2) << setfill('0')] of each byte. *)
Definition bytes_to_hex (bs : bytes) : bytes :=
  mjoin ((fun b => [hex_digit (Z.land (Z.shiftr (byteZ b) 4) 15);
                     hex_digit (Z.land (byteZ b) 15)]) <$> bs).
Definition hash_to_hex (h : Hash256) : bytes := bytes_to_hex (hash_bytes h).

(** ** Lemmas *)

Lemma write_hash_encode h w : write_hash h w = w ++ hash_bytes h.
Proof.
  unfold write_hash, write_u8. generalize (hash_bytes h) as l. intros l. revert w.
  induction l as [|b l IH]; intros w; simpl; [by rewrite app_nil_r|].
  by rewrite IH, <- app_assoc.
Qed.
#[global] Hint Rewrite write_hash_encode : writer.
#[global] Arguments write_hash : simpl never.

Lemma read_hash_codec (p : parser bytes) :
  Codec p (fun l => l) (fun l => length l = 32%nat) ->
  Codec (l ← p; mret (hash_of_bytes l)) hash_bytes (fun _ => True).
Proof.
  intros Hp. eapply codec_ext.
  - apply (codec_step p (fun l => l) (fun l => length l = 32%nat) hash_bytes _ (fun _ => []) (fun _ => True)).
    + done.
    + intros h _. apply hash_length.
    + intros l Hl. apply (codec_ret (hash_of_bytes l)). intros h. split.
      * intros [_ <-]. symmetry. apply hash_of_bytes_id.
      * intros ->. split; [exact I|]. by apply hash_bytes_of.
  - done.
  - intros h _. cbn beta. by rewrite app_nil_r.
Qed.

#[global] Instance read_hash_bytewise_codec :
  Codec read_hash_bytewise hash_bytes (fun _ => True).
Proof.
  apply read_hash_codec. eapply codec_ext; [apply read_n_codec, read_u8_codec| |].
  - intros l. split; [intros; split; [|done]|naive_solver]. by apply Forall_true.
  - intros l _. induction l; simpl; by f_equal.
Qed.
#[global] Instance read_hash_block_codec :
  Codec read_hash_block hash_bytes (fun _ => True).
Proof. apply read_hash_codec, _. Qed.

Section Merkle.
Context {ssl : OpenSSL}.
Implicit Types l : list Hash256.

Lemma hash_pair_inj a b c d :
  hash_pair a b = hash_pair c d -> (a = c /\ b = d) \/ sha256_collision.
Proof.
  unfold hash_pair. intros E.
  destruct (decide (hash_bytes a ++ hash_bytes b = hash_bytes c ++ hash_bytes d)) as [E'|N].
  - left. apply app_inj_1 in E' as [E1 E2]; [|by rewrite !hash_length].
    split; by apply hash_eq.
  - right. by eexists _, _.
Qed.

(** Induction two elements at a time. *)
Lemma list_pair_ind {A} (P : list A -> Prop) :
  P [] -> (forall a, P [a]) -> (forall a b k, P k -> P (a :: b :: k)) -> forall k, P k.
Proof.
  intros H0 H1 H2 k. enough (P k /\ forall a, P (a :: k)) by tauto.
  induction k as [|a k [IH1 IH2]]; split; auto.
Qed.

Lemma merkle_level_length l : length (merkle_level l) = Nat.div2 (S (length l)).
Proof. induction l using list_pair_ind; simpl; auto. Qed.

Lemma merkle_level_inj l1 l2 :
  length l1 = length l2 -> merkle_level l1 = merkle_level l2 ->
  l1 = l2 \/ sha256_collision.
Proof.
  revert l2. induction l1 as [|a|a b l1 IH] using list_pair_ind; intros [|c [|d l2]] Hl E;
    try done; auto; simpl in E.
  - injection E as E. destruct (hash_pair_inj a a c c E) as [[-> _]|]; auto.
  - injection E as E1 E2. destruct (hash_pair_inj _ _ _ _ E1) as [[-> ->]|]; auto.
    simpl in Hl. destruct (IH l2 ltac:(lia) E2) as [->|]; auto.
Qed.

Lemma div2_le n : (1 < n -> Nat.div2 (S n) < n)%nat.
Proof. intros. rewrite Nat.div2_div. apply Nat.div_lt_upper_bound; lia. Qed.
Lemma div2_pos n : (0 < n -> 0 < Nat.div2 (S n))%nat.
Proof. intros. rewrite Nat.div2_div. apply Nat.div_str_pos. lia. Qed.

(** The loop ends with one hash whenever the fuel is the initial size. *)
Lemma merkle_loop_single fuel l :
  l <> [] -> (length l <= fuel)%nat -> length (merkle_loop fuel l) = 1%nat.
Proof.
  revert l. induction fuel as [|fuel IH]; intros l Hne Hl; [destruct l; simpl in *; [done|lia]|].
  simpl. case_bool_decide as Hc; [|destruct l as [|? [|]]; simpl in *; done || lia].
  pose proof (merkle_level_length l) as Hlev. pose proof (div2_le _ Hc).
  pose proof (div2_pos (length l) ltac:(lia)).
  apply IH; [|lia]. intros E. rewrite E in Hlev. cbn [length] in Hlev. lia.
Qed.

Lemma merkle_loop_fuel fuel1 fuel2 l :
  (length l <= fuel1)%nat -> (length l <= fuel2)%nat ->
  merkle_loop fuel1 l = merkle_loop fuel2 l.
Proof.
  revert fuel2 l. induction fuel1 as [|f1 IH]; intros [|f2] l H1 H2; simpl;
    try (case_bool_decide; [lia|done]); [done|].
  case_bool_decide as Hc; [|done]. pose proof (merkle_level_length l).
  pose proof (div2_le _ Hc). apply IH; lia.
Qed.

Lemma merkle_loop_inj fuel l1 l2 :
  length l1 = length l2 -> merkle_loop fuel l1 = merkle_loop fuel l2 ->
  l1 = l2 \/ sha256_collision.
Proof.
  revert l1 l2. induction fuel as [|fuel IH]; intros l1 l2 Hl E; simpl in E; [auto|].
  rewrite <- Hl in E. case_bool_decide; [|auto].
  apply IH in E; [|by rewrite !merkle_level_length, Hl].
  destruct E as [E|]; [|auto]. by apply merkle_level_inj.
Qed.

Lemma merkle_root_inj l1 l2 :
  length l1 = length l2 -> merkle_root l1 = merkle_root l2 ->
  l1 = l2 \/ sha256_collision.
Proof.
  intros Hl E. destruct l1 as [|a l1], l2 as [|b l2]; try done; [auto|].
  unfold merkle_root in E. rewrite <- Hl in E.
  pose proof (merkle_loop_single _ (a :: l1) ltac:(done) ltac:(done)) as S1.
  pose proof (merkle_loop_single (length (a :: l1)) (b :: l2) ltac:(done) ltac:(lia)) as S2.
  apply (merkle_loop_inj (length (a :: l1))); [done|].
  destruct (merkle_loop _ (a :: l1)) as [|x [|]], (merkle_loop _ (b :: l2)) as [|y [|]];
    simplify_eq/=; done.
Qed.

Lemma merkle_level_dup l x :
  Nat.Even (length l) -> merkle_level (l ++ [x]) = merkle_level (l ++ [x; x]).
Proof.
  induction l as [|a|a b l IH] using list_pair_ind; intros He; simpl; [done| |].
  - destruct He as [k Hk]. simpl in Hk. lia.
  - f_equal. apply IH. destruct He as [k Hk]. exists (k - 1)%nat. simpl in Hk. lia.
Qed.
End Merkle.

Section MerkleClaims.
Context {ssl : OpenSSL}.

(** The Merkle root commits to the list of hashes: two lists of the same
    length with the same root are equal, unless SHA-256 collides. *)
Theorem merkle_root_binding (l1 l2 : list Hash256) :
  length l1 = length l2 -> merkle_root l1 = merkle_root l2 ->
  l1 = l2 \/ sha256_collision.
Proof. apply merkle_root_inj. Qed.

(** The root does not commit to the number of leaves: repeating the last
    hash of an odd list of at least three leaves leaves the root unchanged. *)
Theorem merkle_root_duplicate_last (l : list Hash256) (x : Hash256) :
  Nat.Even (length l) -> l <> [] ->
  merkle_root (l ++ [x]) = merkle_root (l ++ [x; x]).
Proof.
  intros He Hne. destruct l as [|a l]; [done|]. unfold merkle_root. cbn [app].
  f_equal. cbn [length merkle_loop].
  rewrite !bool_decide_eq_true_2 by (rewrite length_app; simpl; lia).
  change (a :: l ++ [x]) with ((a :: l) ++ [x]).
  change (a :: l ++ [x; x]) with ((a :: l) ++ [x; x]).
  rewrite (merkle_level_dup (a :: l) x He).
  assert (length (merkle_level ((a :: l) ++ [x; x])) <= length (l ++ [x]))%nat as Hb.
  { rewrite <- (merkle_level_dup (a :: l) x He), merkle_level_length.
    pose proof (div2_le (length ((a :: l) ++ [x]))) as Hd.
    rewrite !length_app in *. cbn [length] in *. lia. }
  apply merkle_loop_fuel; [done|]. rewrite length_app in *. simpl in *. lia.
Qed.
End MerkleClaims.

(** ** A concrete instance

    Used only to evaluate the model on concrete inputs: a checksum in place of
    SHA-256, with sixteen leading zero bits, and keys that sign with
    themselves. *)
Module Toy.
Definition checksum (m : bytes) : Z :=
  foldl (fun acc b => (acc * 257 + byteZ b + 1) mod (2 ^ 61 - 1)) 7 m.
Definition digest (m : bytes) : Hash256 :=
  hash_of_bytes (Byte.x00 :: Byte.x00 :: Byte.x80 :: le_encode 29 (checksum m)).

Definition ssl : OpenSSL := {|
  EVP_sha256 := digest;
  EVP_PKEY := bytes;
  EVP_PKEY_new_raw_public_key := fun raw => Some raw;
  EVP_PKEY_get_raw_public_key := fun key => key;
  EVP_DigestVerify := fun key _ sig => bool_decide (sig = key);
  EVP_DigestSign := fun key _ => key
|}.
End Toy.

Definition sample_hash (n : Z) : Hash256 := hash_of_bytes [u8 n].

Lemma merkle_root_binding_witness :
  [sample_hash 1; sample_hash 2] = [sample_hash 1; sample_hash 2] \/
  sha256_collision (ssl := Toy.ssl).
Proof.
  apply (merkle_root_binding (ssl := Toy.ssl) [sample_hash 1; sample_hash 2]
    [sample_hash 1; sample_hash 2]); reflexivity.
Defined.

Lemma merkle_root_duplicate_last_witness :
  merkle_root (ssl := Toy.ssl) [sample_hash 1; sample_hash 2; sample_hash 3] =
  merkle_root (ssl := Toy.ssl) [sample_hash 1; sample_hash 2; sample_hash 3; sample_hash 3].
Proof.
  apply (merkle_root_duplicate_last (ssl := Toy.ssl) [sample_hash 1; sample_hash 2] (sample_hash 3));
    [by exists 1%nat|done].
Defined.
