(* ===== verification/Transaction.v ===== *)
(** transaction.hpp and witness.hpp: transactions, their binary forms and the
    context-free check [Transaction::validate]. *)

From S2P Require Import Prelude Serialization Crypto.
From stdpp Require Import pretty.
From stdpp Require Import options.
Local Open Scope Z_scope.

(** ** Data *)

Record TransactionInput := mkInput {
  previous_txid : Hash256;
  output_index : Z (* u32 *)
}.

Record TransactionOutput := mkOutput {
  amount : Z; (* u64 *)
  recipient : bytes
}.

Record TransactionWitness := mkWitness {
  public_key : bytes;
  signature : bytes
}.

(** [TransactionWitnessSet] wraps the vector. *)
Record TransactionWitnessSet := mkWitnessSet { witness_inputs : list TransactionWitness }.

Record Transaction := mkTx {
  tx_version : Z; (* u32 *)
  coinbase_data : bytes;
  inputs : list TransactionInput;
  outputs : list TransactionOutput;
  witness : TransactionWitnessSet
}.

#[global] Instance TransactionInput_eq_dec : EqDecision TransactionInput.
Proof. solve_decision. Defined.
#[global] Instance TransactionOutput_eq_dec : EqDecision TransactionOutput.
Proof. solve_decision. Defined.
#[global] Instance TransactionWitness_eq_dec : EqDecision TransactionWitness.
Proof. solve_decision. Defined.
#[global] Instance TransactionWitnessSet_eq_dec : EqDecision TransactionWitnessSet.
Proof. solve_decision. Defined.
#[global] Instance Transaction_eq_dec : EqDecision Transaction.
Proof. solve_decision. Defined.

Definition witness_empty (w : TransactionWitnessSet) : bool :=
  bool_decide (witness_inputs w = []).
Definition witness_size (w : TransactionWitnessSet) : nat := length (witness_inputs w).

(** A default-constructed [Transaction]. *)
Definition default_tx : Transaction := mkTx 1 [] [] [] (mkWitnessSet []).

(** ** Text forms *)

Definition dec_str (z : Z) : bytes := str (pretty z).

Definition input_serialize (i : TransactionInput) : bytes :=
  hash_to_hex (previous_txid i) ++ str ":" ++ dec_str (output_index i).

Definition output_serialize (o : TransactionOutput) : bytes :=
  dec_str (amount o) ++ str ":" ++ dec_str (sizeZ (recipient o)) ++ str ":" ++ recipient o.

Definition tx_serialize (tx : Transaction) : bytes :=
  str "TX" ++ str "|" ++ dec_str (tx_version tx) ++ str "|" ++ dec_str (sizeZ (inputs tx))
  ++ mjoin ((fun i => str "|" ++ input_serialize i) <$> inputs tx)
  ++ str "|" ++ dec_str (sizeZ (outputs tx))
  ++ mjoin ((fun o => str "|" ++ output_serialize o) <$> outputs tx).

(** ** Binary forms: writing *)

Definition input_serialize_binary (i : TransactionInput) : bytes :=
  write_u32 (output_index i) (write_hash (previous_txid i) []).

Definition output_serialize_binary (o : TransactionOutput) : result bytes :=
  write_string (recipient o) (write_u64 (amount o) []).

Definition tx_serialize_binary (tx : Transaction) : result bytes :=
  let w := write_u32 (tx_version tx) [] in
  throw_if (128 <? sizeZ (coinbase_data tx)) "coinbase data too large" ;;
  let w := write_u32 (u32 (sizeZ (coinbase_data tx))) w in
  let w := write_bytes (coinbase_data tx) w in
  throw_if (UINT32_MAX <? sizeZ (inputs tx)) "too many transaction inputs" ;;
  let w := write_u32 (u32 (sizeZ (inputs tx))) w in
  let w := foldl (fun w i => write_bytes (input_serialize_binary i) w) w (inputs tx) in
  throw_if (UINT32_MAX <? sizeZ (outputs tx)) "too many transaction outputs" ;;
  let w := write_u32 (u32 (sizeZ (outputs tx))) w in
  foldM_r (fun w o => bs ← output_serialize_binary o; Ok (write_bytes bs w)) w (outputs tx).

Definition witness_serialize (item : TransactionWitness) (w : BinaryWriter) : result BinaryWriter :=
  w ← write_string (public_key item) w;
  throw_if (UINT32_MAX <? sizeZ (signature item)) "transaction signature too large" ;;
  Ok (write_bytes (signature item) (write_u32 (u32 (sizeZ (signature item))) w)).

Definition tx_serialize_full_binary (tx : Transaction) : result bytes :=
  base ← tx_serialize_binary tx;
  let w := write_bytes base [] in
  throw_if (UINT32_MAX <? sizeZ (witness_inputs (witness tx))) "too many transaction witnesses" ;;
  let w := write_u32 (u32 (sizeZ (witness_inputs (witness tx)))) w in
  foldM_r (fun w item => witness_serialize item w) w (witness_inputs (witness tx)).

(** ** Binary forms: reading *)

Definition input_deserialize : parser TransactionInput :=
  h ← read_hash_block; idx ← read_u32; mret (mkInput h idx).

Definition output_deserialize : parser TransactionOutput :=
  a ← read_u64; rc ← read_string; mret (mkOutput a rc).

(** The part [deserialize] and [deserialize_full] share, up to the outputs. *)
Definition read_tx_base : parser Transaction :=
  v ← read_u32;
  cd_size ← read_u32;
  _ ← reject_if (128 <? cd_size) "coinbase data too large";
  cd ← read_bytes (Z.to_nat cd_size);
  input_count ← read_u32;
  _ ← reject_if (1000000 <? input_count) "too many transaction inputs";
  ins ← read_n (Z.to_nat input_count) input_deserialize;
  output_count ← read_u32;
  _ ← reject_if (1000000 <? output_count) "too many transaction outputs";
  outs ← read_n (Z.to_nat output_count) output_deserialize;
  mret (mkTx v cd ins outs (mkWitnessSet [])).

Definition witness_deserialize : parser TransactionWitness :=
  pk ← read_string;
  sig_size ← read_u32;
  _ ← reject_if (1000000 <? sig_size) "transaction signature too large";
  sig ← read_bytes (Z.to_nat sig_size);
  mret (mkWitness pk sig).

Definition set_witness (tx : Transaction) (w : list TransactionWitness) : Transaction :=
  mkTx (tx_version tx) (coinbase_data tx) (inputs tx) (outputs tx) (mkWitnessSet w).

Definition read_tx_full : parser Transaction :=
  tx ← read_tx_base;
  witness_count ← read_u32;
  _ ← reject_if (1000000 <? witness_count) "too many transaction witnesses";
  items ← read_n (Z.to_nat witness_count) witness_deserialize;
  mret (set_witness tx items).

Definition tx_deserialize_full (data : bytes) : result Transaction :=
  run (whole read_tx_full "trailing bytes after full transaction") data.

Definition tx_deserialize (data : bytes) : result Transaction :=
  run (whole read_tx_base "trailing bytes after transaction") data.

(** ** Identifiers and the context-free check *)

Section Ids.
Context {ssl : OpenSSL}.

Definition txid (tx : Transaction) : result Hash256 :=
  bs ← tx_serialize_binary tx; Ok (sha256 (bytes_to_binary_string bs)).

Definition wtxid (tx : Transaction) : result Hash256 :=
  bs ← tx_serialize_full_binary tx; Ok (sha256 (bytes_to_binary_string bs)).
End Ids.

(** The output loop of [validate]; [None] is the early [return false]. *)
Fixpoint validate_outputs (outs : list TransactionOutput) (output_sum : Z) : option Z :=
  match outs with
  | [] => Some output_sum
  | o :: outs =>
      if amount o =? 0 then None
      else if bool_decide (recipient o = []) then None
      else if UINT64_MAX - output_sum <? amount o then None
      else validate_outputs outs (u64 (output_sum + amount o))
  end.

Definition tx_validate (tx : Transaction) : bool :=
  if tx_version tx =? 0 then false
  else if bool_decide (inputs tx = []) || bool_decide (outputs tx = []) then false
  else match validate_outputs (outputs tx) 0 with
       | None => false
       | Some output_sum => 0 <? output_sum
       end.

(** ** Type invariants and reference encodings *)

(** Fields hold values of their C++ types. *)
Definition input_typed (i : TransactionInput) : Prop := is_u32 (output_index i).
Definition output_typed (o : TransactionOutput) : Prop := is_u64 (amount o).
Definition tx_typed (tx : Transaction) : Prop :=
  is_u32 (tx_version tx) /\ Forall input_typed (inputs tx) /\ Forall output_typed (outputs tx).

(** The limits [deserialize] and [deserialize_full] impose. *)
Definition output_ok (o : TransactionOutput) : Prop :=
  output_typed o /\ sizeZ (recipient o) <= UINT32_MAX.
Definition tx_base_ok (tx : Transaction) : Prop :=
  is_u32 (tx_version tx) /\ sizeZ (coinbase_data tx) <= 128 /\
  (Forall input_typed (inputs tx) /\ sizeZ (inputs tx) <= 1000000) /\
  (Forall output_ok (outputs tx) /\ sizeZ (outputs tx) <= 1000000).
Definition witness_ok (w : TransactionWitness) : Prop :=
  sizeZ (public_key w) <= UINT32_MAX /\ sizeZ (signature w) <= 1000000.
Definition tx_full_ok (tx : Transaction) : Prop :=
  tx_base_ok tx /\
  (Forall witness_ok (witness_inputs (witness tx)) /\
   sizeZ (witness_inputs (witness tx)) <= 1000000).

#[global] Instance input_typed_dec i : Decision (input_typed i) :=
  ltac:(unfold input_typed; apply _).
#[global] Instance output_typed_dec o : Decision (output_typed o) :=
  ltac:(unfold output_typed; apply _).
#[global] Instance output_ok_dec o : Decision (output_ok o) := ltac:(unfold output_ok; apply _).
#[global] Instance tx_typed_dec tx : Decision (tx_typed tx) := ltac:(unfold tx_typed; apply _).
#[global] Instance tx_base_ok_dec tx : Decision (tx_base_ok tx) :=
  ltac:(unfold tx_base_ok; apply _).
#[global] Instance witness_ok_dec w : Decision (witness_ok w) := ltac:(unfold witness_ok; apply _).
#[global] Instance tx_full_ok_dec tx : Decision (tx_full_ok tx) :=
  ltac:(unfold tx_full_ok; apply _).

Definition enc_input (i : TransactionInput) : bytes :=
  hash_bytes (previous_txid i) ++ le_encode 4 (output_index i).
Definition enc_output (o : TransactionOutput) : bytes :=
  le_encode 8 (amount o) ++ enc_string (recipient o).
Definition enc_tx_base (tx : Transaction) : bytes :=
  le_encode 4 (tx_version tx) ++
  le_encode 4 (sizeZ (coinbase_data tx)) ++ coinbase_data tx ++
  le_encode 4 (sizeZ (inputs tx)) ++ mjoin (enc_input <$> inputs tx) ++
  le_encode 4 (sizeZ (outputs tx)) ++ mjoin (enc_output <$> outputs tx).
Definition enc_witness (w : TransactionWitness) : bytes :=
  enc_string (public_key w) ++ le_encode 4 (sizeZ (signature w)) ++ signature w.
Definition enc_tx_full (tx : Transaction) : bytes :=
  enc_tx_base tx ++ le_encode 4 (sizeZ (witness_inputs (witness tx))) ++
  mjoin (enc_witness <$> witness_inputs (witness tx)).

(** ** The writers produce the reference encodings *)

Lemma input_serialize_encode i : input_serialize_binary i = enc_input i.
Proof. unfold input_serialize_binary. by autorewrite with writer. Qed.

Lemma output_serialize_encode o :
  sizeZ (recipient o) <= UINT32_MAX -> output_serialize_binary o = Ok (enc_output o).
Proof.
  intros H. unfold output_serialize_binary. rewrite write_string_encode.
  destruct (_ <? _) eqn:E; [zbool; lia|]. by autorewrite with writer.
Qed.

Lemma tx_serialize_encode tx :
  tx_base_ok tx -> tx_serialize_binary tx = Ok (enc_tx_base tx).
Proof.
  intros (Hv & Hcd & [Hi Hin] & [Ho Hon]). unfold tx_serialize_binary, throw_if.
  destruct (128 <? _) eqn:E1; [zbool; lia|].
  destruct (UINT32_MAX <? sizeZ (inputs tx)) eqn:E2; [zbool; ints|].
  destruct (UINT32_MAX <? sizeZ (outputs tx)) eqn:E3; [zbool; ints|]. simpl.
  rewrite !sizeZ_u32 by ints. rewrite foldl_write_bytes.
  rewrite (foldM_write _ enc_output).
  - autorewrite with writer. unfold write_bytes, enc_tx_base. rewrite <- !app_assoc.
    by rewrite (list_fmap_ext _ enc_input (inputs tx)
      (fun _ i _ => input_serialize_encode i)).
  - eapply Forall_impl; [exact Ho|]. intros o [_ Hr] w. cbn beta.
    by rewrite output_serialize_encode.
Qed.

Lemma witness_serialize_encode item w :
  witness_ok item -> witness_serialize item w = Ok (w ++ enc_witness item).
Proof.
  intros [Hp Hs]. unfold witness_serialize. rewrite write_string_encode.
  destruct (UINT32_MAX <? sizeZ (public_key item)) eqn:E1; [zbool; ints|].
  unfold throw_if. simpl.
  destruct (UINT32_MAX <? sizeZ (signature item)) eqn:E2; [zbool; ints|]. simpl.
  rewrite sizeZ_u32 by ints. autorewrite with writer. unfold write_bytes, enc_witness.
  by rewrite <- !app_assoc.
Qed.

Lemma tx_serialize_full_encode tx :
  tx_full_ok tx -> tx_serialize_full_binary tx = Ok (enc_tx_full tx).
Proof.
  intros [Hb [Hw Hn]]. unfold tx_serialize_full_binary, throw_if.
  rewrite tx_serialize_encode by done. simpl.
  destruct (UINT32_MAX <? _) eqn:E; [zbool; ints|]. simpl.
  rewrite sizeZ_u32 by ints. rewrite (foldM_write _ enc_witness).
  - autorewrite with writer. unfold write_bytes, enc_tx_full. by rewrite <- !app_assoc.
  - eapply Forall_impl; [exact Hw|]. intros. by apply witness_serialize_encode.
Qed.

(** ** The readers are codecs of the reference encodings *)

#[global] Instance input_codec : Codec input_deserialize enc_input input_typed.
Proof.
  eapply codec_enc_ext.
  - codec_field previous_txid done. codec_field output_index ltac:(by destruct_and?).
    codec_done ltac:(destruct t; unfold input_typed in *; naive_solver).
  - intros. cbn beta. by rewrite app_nil_r.
Qed.

#[global] Instance output_codec : Codec output_deserialize enc_output output_ok.
Proof.
  eapply codec_enc_ext.
  - codec_field amount ltac:(unfold output_ok, output_typed in *; naive_solver).
    codec_field recipient ltac:(unfold output_ok in *; naive_solver).
    codec_done ltac:(destruct t; unfold output_ok, output_typed in *; naive_solver).
  - intros. cbn beta. by rewrite app_nil_r.
Qed.

Lemma sizeZ_range {A} (l : list A) b : sizeZ l <= b -> b <= UINT32_MAX -> is_u32 (sizeZ l).
Proof. pose proof (sizeZ_nonneg l). ints. Qed.

(** Side conditions of a counted field: the count is the size of the field. *)
Ltac count_side :=
  unfold tx_base_ok, tx_full_ok, witness_ok in *; destruct_and?; simplify_eq;
  first
    [ done
    | eapply sizeZ_range; [eassumption|ints]
    | apply Z.ltb_ge; done || lia
    | split; [done|]; unfold sizeZ in *; lia
    | unfold sizeZ in *; lia
    | naive_solver ].

#[global] Instance tx_base_codec :
  Codec read_tx_base enc_tx_base (fun tx => tx_base_ok tx /\ witness tx = mkWitnessSet []).
Proof.
  eapply codec_enc_ext.
  - codec_field tx_version count_side.
    codec_field (fun tx => sizeZ (coinbase_data tx)) count_side. codec_check count_side.
    codec_field coinbase_data count_side.
    codec_field (fun tx => sizeZ (inputs tx)) count_side. codec_check count_side.
    codec_field inputs count_side.
    codec_field (fun tx => sizeZ (outputs tx)) count_side. codec_check count_side.
    codec_field outputs count_side.
    apply codec_ret. intros tx. split.
    + destruct tx as [? ? ? ? []]. intros. destruct_and?. by simplify_eq/=.
    + intros ->. cbn. zbool. unfold tx_base_ok, sizeZ in *. simpl. destruct_and?.
      split_and!; done || ints.
  - intros. cbn beta. unfold enc_tx_base. by rewrite app_nil_r.
Qed.

#[global] Instance witness_codec : Codec witness_deserialize enc_witness witness_ok.
Proof.
  eapply codec_enc_ext.
  - codec_field public_key count_side.
    codec_field (fun w => sizeZ (signature w)) count_side. codec_check count_side.
    codec_field signature count_side.
    apply codec_ret. intros w. split.
    + destruct w. intros. destruct_and?. by simplify_eq/=.
    + intros ->. cbn. zbool. unfold witness_ok, sizeZ in *. simpl. destruct_and?.
      split_and!; done || ints.
  - intros. cbn beta. unfold enc_witness. by rewrite app_nil_r.
Qed.

Lemma set_witness_id tx : set_witness tx (witness_inputs (witness tx)) = tx.
Proof. by destruct tx as [? ? ? ? []]. Qed.

#[global] Instance tx_full_codec : Codec read_tx_full enc_tx_full tx_full_ok.
Proof.
  eapply codec_enc_ext.
  - codec_field (fun tx => set_witness tx []) count_side.
    codec_field (fun tx => sizeZ (witness_inputs (witness tx))) count_side.
    codec_check count_side.
    codec_field (fun tx => witness_inputs (witness tx)) count_side.
    apply codec_ret. intros tx. split.
    + destruct tx as [? ? ? ? []]. intros. destruct_and?. simplify_eq/=. done.
    + intros ->. unfold tx_full_ok, tx_base_ok, set_witness, sizeZ in *. zbool. simpl.
      destruct_and?. destruct a as [? ? ? ? []]. simplify_eq/=.
      split_and!; done || ints.
  - intros. cbn beta. unfold enc_tx_full. by rewrite app_nil_r.
Qed.

(** ** [Transaction::validate] *)

Lemma validate_outputs_spec outs s r :
  Forall output_typed outs -> is_u64 s ->
  validate_outputs outs s = Some r <->
  Forall (fun o => 0 < amount o /\ recipient o <> []) outs /\
  s + sumZ amount outs <= UINT64_MAX /\ r = s + sumZ amount outs.
Proof.
  revert s. induction outs as [|o outs IH]; intros s Ht Hs; simpl.
  - split; [intros [= <-]; split_and!; [done|ints|lia]|]. intros (_ & _ & ->). f_equal. lia.
  - apply Forall_cons in Ht as [Ho Ht]. unfold output_typed in Ho. rewrite Forall_cons.
    assert (0 <= sumZ amount outs) as Hp.
    { apply sumZ_nonneg. eapply Forall_impl; [exact Ht|]. intros o' ?. cbn beta.
      unfold output_typed in *. ints. }
    destruct (amount o =? 0) eqn:E1; zbool; [split; [done|naive_solver lia]|].
    case_bool_decide as E2; [split; [done|naive_solver]|].
    destruct (UINT64_MAX - s <? amount o) eqn:E3; zbool.
    { split; [done|]. intros (_ & ? & _). lia. }
    rewrite u64_small by ints. rewrite IH by (done || ints).
    rewrite Z.add_assoc. unfold is_u64 in Ho. split.
    + intros (? & ? & ?). split_and!; try done; lia.
    + intros ([? ?] & ? & ?). done.
Qed.

(** What [validate] accepts: a non-zero version, at least one input and one
    output, every output positive and addressed, and a total that fits u64. *)
Definition tx_wellformed (tx : Transaction) : Prop :=
  tx_version tx <> 0 /\ inputs tx <> [] /\ outputs tx <> [] /\
  Forall (fun o => 0 < amount o /\ recipient o <> []) (outputs tx) /\
  sumZ amount (outputs tx) <= UINT64_MAX.

Lemma tx_validate_spec tx :
  tx_typed tx -> tx_validate tx = true <-> tx_wellformed tx.
Proof.
  intros (Hv & Hi & Ho). unfold tx_validate, tx_wellformed.
  destruct (tx_version tx =? 0) eqn:E0; zbool; [naive_solver|].
  case_bool_decide as E1; [naive_solver|]. case_bool_decide as E2; [naive_solver|]. simpl.
  pose proof (validate_outputs_spec (outputs tx) 0) as Hs.
  destruct (validate_outputs (outputs tx) 0) as [r|] eqn:E3.
  - destruct (proj1 (Hs r Ho ltac:(ints)) eq_refl) as (Hf & Hb & ->). zbool. simpl.
    split; [intros; split_and!; done|]. intros _.
    destruct (outputs tx) as [|o outs]; [done|]. simpl.
    apply Forall_cons in Hf as [[? _] Hf].
    enough (0 <= sumZ amount outs) by lia. apply sumZ_nonneg.
    eapply Forall_impl; [exact Hf|]. simpl. lia.
  - split; [done|]. intros (_ & _ & _ & Hf & Hb).
    specialize (Hs (sumZ amount (outputs tx)) Ho ltac:(ints)).
    enough (None = Some (sumZ amount (outputs tx))) by done.
    apply Hs. split_and!; done || lia.
Qed.

(** ** Claims *)

(** A transaction within the protocol limits serializes, and reading the
    bytes back gives the same transaction. *)
Theorem tx_full_roundtrip tx :
  tx_full_ok tx ->
  exists bs, tx_serialize_full_binary tx = Ok bs /\ tx_deserialize_full bs = Ok tx.
Proof.
  intros H. exists (enc_tx_full tx). split; [by apply tx_serialize_full_encode|].
  by apply (run_whole_complete _ _ _ _ _ tx_full_codec).
Qed.

(** The full encoding is canonical: whatever bytes [deserialize_full]
    accepts are exactly the serialization of the transaction it returns, which
    is within the protocol limits. *)
Theorem tx_full_canonical bs tx :
  tx_deserialize_full bs = Ok tx ->
  tx_full_ok tx /\ tx_serialize_full_binary tx = Ok bs.
Proof.
  intros H. apply (run_whole_sound _ enc_tx_full tx_full_ok) in H as [Hok ->]; [|apply _].
  split; [done|]. by apply tx_serialize_full_encode.
Qed.

Lemma tx_base_roundtrip tx :
  tx_base_ok tx -> tx_deserialize (enc_tx_base tx) = Ok (set_witness tx []).
Proof.
  intros H. change (enc_tx_base tx) with (enc_tx_base (set_witness tx [])).
  apply (run_whole_complete _ enc_tx_base _ _ _ tx_base_codec). done.
Qed.

Lemma enc_tx_base_inj tx1 tx2 :
  tx_base_ok tx1 -> tx_base_ok tx2 -> enc_tx_base tx1 = enc_tx_base tx2 ->
  set_witness tx1 [] = set_witness tx2 [].
Proof.
  intros H1 H2 E. pose proof (tx_base_roundtrip tx1 H1) as R1.
  rewrite E, (tx_base_roundtrip tx2 H2) in R1. congruence.
Qed.

(** A transaction id commits to everything but the witness: two
    transactions within the limits that share a txid agree on version,
    coinbase data, inputs and outputs, unless SHA-256 collides. *)
Theorem txid_binding {ssl : OpenSSL} tx1 tx2 :
  tx_base_ok tx1 -> tx_base_ok tx2 -> txid tx1 = txid tx2 ->
  set_witness tx1 [] = set_witness tx2 [] \/ sha256_collision.
Proof.
  intros H1 H2 E. unfold txid in E. rewrite !tx_serialize_encode in E by done.
  simpl in E. injection E as E. unfold bytes_to_binary_string in E.
  destruct (decide (enc_tx_base tx1 = enc_tx_base tx2)) as [Ee|Ne].
  - left. by apply enc_tx_base_inj.
  - right. by eexists _, _.
Qed.

(** [Transaction::validate] decides well-formedness: in particular the sum
    of the outputs of an accepted transaction never wraps around u64. *)
Theorem tx_validate_correct tx :
  tx_typed tx -> tx_validate tx = true <-> tx_wellformed tx.
Proof. apply tx_validate_spec. Qed.

(** ** Witnesses *)

Definition sample_tx : Transaction :=
  mkTx 1 (str "x") [mkInput zero_hash 7] [mkOutput 5 (str "bob"); mkOutput 6 (str "al")]
    (mkWitnessSet [mkWitness (str "k") (str "sig")]).

Lemma sample_tx_ok : tx_full_ok sample_tx.
Proof. decide_vm. Qed.

Lemma tx_full_roundtrip_witness :
  exists bs, tx_serialize_full_binary sample_tx = Ok bs /\ tx_deserialize_full bs = Ok sample_tx.
Proof. apply (tx_full_roundtrip sample_tx sample_tx_ok). Defined.

Lemma tx_full_canonical_witness :
  tx_full_ok sample_tx /\ tx_serialize_full_binary sample_tx = Ok (enc_tx_full sample_tx).
Proof. apply (tx_full_canonical (enc_tx_full sample_tx) sample_tx). vm_compute. reflexivity. Defined.

Lemma tx_validate_correct_witness :
  tx_typed sample_tx /\ (tx_validate sample_tx = true <-> tx_wellformed sample_tx).
Proof.
  assert (tx_typed sample_tx) as H by (decide_vm).
  split; [exact H|]. exact (tx_validate_correct sample_tx H).
Defined.

(** A second transaction that differs from the first in its witness only. *)
Lemma txid_binding_witness :
  set_witness sample_tx [] = set_witness (set_witness sample_tx []) [] \/
  sha256_collision (ssl := Toy.ssl).
Proof.
  apply (txid_binding (ssl := Toy.ssl) sample_tx (set_witness sample_tx []));
    [decide_vm..|reflexivity].
Defined.
