(* ===== verification/UTXO.v ===== *)
(** utxo.hpp: the set of unspent outputs and the value check of a transaction
    against it. The loops that spend a transaction's inputs and add its
    outputs, which the validator and the mempool repeat, are here too. *)

From S2P Require Import Prelude Serialization Crypto Transaction.
From stdpp Require Import options.
Local Open Scope Z_scope.

Record OutPoint := mkOutPoint { op_txid : Hash256; op_index : Z }.

#[global] Instance OutPoint_eq_dec : EqDecision OutPoint.
Proof. solve_decision. Defined.
#[global] Program Instance OutPoint_countable : Countable OutPoint :=
  inj_countable' (fun p => (op_txid p, op_index p)) (fun '(h, i) => mkOutPoint h i) _.
Next Obligation. by intros []. Qed.

(** [std::unordered_map<OutPoint, TransactionOutput>]. *)
Abbreviation UTXOSet := (gmap OutPoint TransactionOutput).

(** [entries_.emplace(outpoint, output).second]: an existing entry stays. *)
Definition utxo_add (p : OutPoint) (o : TransactionOutput) (entries : UTXOSet) : bool * UTXOSet :=
  match entries !! p with
  | Some _ => (false, entries)
  | None => (true, <[p := o]> entries)
  end.

Definition utxo_contains (p : OutPoint) (entries : UTXOSet) : bool :=
  bool_decide (is_Some (entries !! p)).

Definition utxo_get (p : OutPoint) (entries : UTXOSet) : option TransactionOutput :=
  entries !! p.

(** [entries_.erase(outpoint) == 1]. *)
Definition utxo_spend (p : OutPoint) (entries : UTXOSet) : bool * UTXOSet :=
  (bool_decide (is_Some (entries !! p)), delete p entries).

Definition utxo_size (entries : UTXOSet) : nat := size entries.

(** The outpoint an input refers to. *)
Definition point (i : TransactionInput) : OutPoint :=
  mkOutPoint (previous_txid i) (output_index i).

(** The input loop of [validate_transaction_against_utxo]. *)
Fixpoint sum_inputs (ins : list TransactionInput) (utxos : UTXOSet)
    (seen_inputs : gset OutPoint) (input_sum : Z) : option Z :=
  match ins with
  | [] => Some input_sum
  | i :: ins =>
      if bool_decide (point i ∈ seen_inputs) then None
      else match utxo_get (point i) utxos with
           | None => None
           | Some previous =>
               if UINT64_MAX - input_sum <? amount previous then None
               else sum_inputs ins utxos ({[point i]} ∪ seen_inputs)
                      (u64 (input_sum + amount previous))
           end
  end.

(** Its output loop. *)
Fixpoint sum_outputs (outs : list TransactionOutput) (output_sum : Z) : option Z :=
  match outs with
  | [] => Some output_sum
  | o :: outs =>
      if UINT64_MAX - output_sum <? amount o then None
      else sum_outputs outs (u64 (output_sum + amount o))
  end.

Definition validate_transaction_against_utxo (tx : Transaction) (utxos : UTXOSet) : bool :=
  if negb (tx_validate tx) then false
  else match sum_inputs (inputs tx) utxos ∅ 0 with
       | None => false
       | Some input_sum =>
           match sum_outputs (outputs tx) 0 with
           | None => false
           | Some output_sum => output_sum <=? input_sum
           end
       end.

(** [for (input : tx.inputs) if (!utxos.spend(point)) return false;] *)
Fixpoint spend_inputs (ins : list TransactionInput) (utxos : UTXOSet) : bool * UTXOSet :=
  match ins with
  | [] => (true, utxos)
  | i :: ins =>
      let '(ok, utxos) := utxo_spend (point i) utxos in
      if ok then spend_inputs ins utxos else (false, utxos)
  end.

(** [for (i = 0; i < outputs.size(); ++i) if (!utxos.add({txid, i}, outputs[i])) return false;]
    with the guard on an index that does not fit u32. *)
Fixpoint add_outputs (id : Hash256) (i : Z) (outs : list TransactionOutput) (utxos : UTXOSet)
    : bool * UTXOSet :=
  match outs with
  | [] => (true, utxos)
  | o :: outs =>
      if UINT32_MAX <? i then (false, utxos)
      else
        let '(ok, utxos) := utxo_add (mkOutPoint id (u32 i)) o utxos in
        if ok then add_outputs id (i + 1) outs utxos else (false, utxos)
  end.

(** ** Specification *)

Definition utxo_typed (u : UTXOSet) : Prop := map_Forall (fun _ o => output_typed o) u.

(** The value of the outputs an input list refers to. *)
Definition spent_value (u : UTXOSet) (ins : list TransactionInput) : Z :=
  sumZ (fun i => from_option amount 0 (u !! point i)) ins.

(** The total value of a set of outputs. *)
Definition utxo_total (u : UTXOSet) : Z := sumZ (fun kv => amount kv.2) (map_to_list u).

(** Every input present and referred to once. *)
Definition inputs_available (ins : list TransactionInput) (u : UTXOSet) : Prop :=
  NoDup (point <$> ins) /\ Forall (fun i => is_Some (u !! point i)) ins.

Definition tx_spendable (tx : Transaction) (u : UTXOSet) : Prop :=
  tx_wellformed tx /\ inputs_available (inputs tx) u /\
  spent_value u (inputs tx) <= UINT64_MAX /\
  sumZ amount (outputs tx) <= spent_value u (inputs tx).

Lemma sum_outputs_spec outs s r :
  Forall output_typed outs -> is_u64 s ->
  sum_outputs outs s = Some r <->
  s + sumZ amount outs <= UINT64_MAX /\ r = s + sumZ amount outs.
Proof.
  revert s. induction outs as [|o outs IH]; intros s Ht Hs; simpl.
  - split; [intros [= <-]; ints|]. intros [_ ->]. f_equal. lia.
  - apply Forall_cons in Ht as [Ho Ht].
    assert (0 <= sumZ amount outs) as Hp.
    { apply sumZ_nonneg. eapply Forall_impl; [exact Ht|]. intros o' ?. cbn beta.
      unfold output_typed in *. ints. }
    unfold output_typed in Ho.
    destruct (_ <? _) eqn:E; zbool; [split; [done|]; intros [? _]; ints|].
    rewrite u64_small by ints. rewrite IH by (done || ints). rewrite Z.add_assoc. done.
Qed.

Lemma spent_value_nonneg u ins : utxo_typed u -> 0 <= spent_value u ins.
Proof.
  intros Ht. apply sumZ_nonneg, Forall_forall. intros i _.
  destruct (u !! point i) as [o|] eqn:E; simpl; [|lia].
  apply Ht in E. unfold output_typed in E. ints.
Qed.

Lemma sum_inputs_spec ins u seen s r :
  utxo_typed u -> is_u64 s ->
  sum_inputs ins u seen s = Some r <->
  NoDup (point <$> ins) /\ Forall (fun i => point i ∉ seen) ins /\
  Forall (fun i => is_Some (u !! point i)) ins /\
  s + spent_value u ins <= UINT64_MAX /\ r = s + spent_value u ins.
Proof.
  intros Hu. revert seen s. induction ins as [|i ins IH]; intros seen s Hs; simpl.
  - unfold spent_value. simpl. rewrite Z.add_0_r. split.
    + intros [= <-]. split_and!; try constructor. ints.
    + by intros (_ & _ & _ & _ & ->).
  - rewrite NoDup_cons, !Forall_cons. unfold spent_value in *. simpl.
    case_bool_decide as Hin; [naive_solver|]. unfold utxo_get.
    destruct (u !! point i) as [o|] eqn:E; simpl; [|split; [done|intros (_ & _ & [[? [=]] _] & _)]].
    pose proof (Hu _ _ E) as Ho. unfold output_typed in Ho.
    pose proof (spent_value_nonneg u ins Hu) as Hp. unfold spent_value in Hp.
    destruct (_ <? _) eqn:Elt; zbool; [split; [done|]; intros (_ & _ & _ & ? & _); ints|].
    rewrite u64_small by ints. rewrite IH by ints. rewrite Z.add_assoc.
    assert (Forall (fun x => point x ∉ {[point i]} ∪ seen) ins <->
            (point i ∉ point <$> ins) /\ Forall (fun x => point x ∉ seen) ins) as ->.
    { rewrite !Forall_forall. rewrite list_elem_of_fmap. split.
      - intros H. split.
        + intros (x & Hx & Hxi). apply (H x Hxi). rewrite Hx. by apply elem_of_union_l, elem_of_singleton.
        + intros x Hx Hs'. apply (H x Hx). by apply elem_of_union_r.
      - intros [H1 H2] x Hx. specialize (H2 x Hx). intros [H|H]%elem_of_union; [|done].
        apply elem_of_singleton in H. apply H1. eauto. }
    naive_solver.
Qed.

Lemma sum_inputs_available ins u seen s r :
  sum_inputs ins u seen s = Some r ->
  NoDup (point <$> ins) /\ Forall (fun i => point i ∉ seen) ins /\
  Forall (fun i => is_Some (u !! point i)) ins.
Proof.
  revert seen s. induction ins as [|i ins IH]; intros seen s; simpl.
  { intros _. split_and!; constructor. }
  case_bool_decide as Hs; [done|]. unfold utxo_get.
  destruct (u !! point i) as [o|] eqn:E; [|done]. destruct (_ <? _); [done|].
  intros (Hnd & Hseen & Hall)%IH. rewrite Forall_forall in Hseen. split_and!.
  - apply NoDup_cons. split; [|done]. intros (x & Hx & Hin)%list_elem_of_fmap.
    apply (Hseen x Hin). rewrite Hx. set_solver.
  - constructor; [done|]. apply Forall_forall. intros x Hx. specialize (Hseen x Hx). set_solver.
  - constructor; [eauto|done].
Qed.

Lemma validate_against_utxo_available tx u :
  validate_transaction_against_utxo tx u = true -> inputs_available (inputs tx) u.
Proof.
  unfold validate_transaction_against_utxo. destruct (tx_validate tx); [simpl|done].
  destruct (sum_inputs _ _ _ _) eqn:E; [|done]. intros _.
  by destruct (sum_inputs_available _ _ _ _ _ E) as (? & _ & ?).
Qed.

Lemma validate_against_utxo_spec tx u :
  tx_typed tx -> utxo_typed u ->
  validate_transaction_against_utxo tx u = true <-> tx_spendable tx u.
Proof.
  intros Ht Hu. unfold validate_transaction_against_utxo, tx_spendable, inputs_available.
  rewrite <- tx_validate_spec by done. destruct (tx_validate tx) eqn:Ev; simpl; [|naive_solver].
  apply tx_validate_spec in Ev; [|done]. destruct Ev as (_ & _ & _ & _ & Hsum).
  destruct Ht as (_ & _ & Ho).
  pose proof (sum_inputs_spec (inputs tx) u ∅ 0) as Hin.
  pose proof (sum_outputs_spec (outputs tx) 0 (sumZ amount (outputs tx)) Ho ltac:(ints)) as Hout.
  rewrite Z.add_0_l in Hout. rewrite (proj2 Hout) by done.
  assert (Forall (fun i => point i ∉ (∅ : gset OutPoint)) (inputs tx)) as Hne
    by (apply Forall_forall; intros; apply not_elem_of_empty).
  destruct (sum_inputs (inputs tx) u ∅ 0) as [s|] eqn:Es.
  - destruct (proj1 (Hin s Hu ltac:(ints)) eq_refl) as (? & _ & ? & ? & ->). zbool. naive_solver lia.
  - split; [done|]. intros (_ & [? ?] & ? & _).
    enough (None = Some (0 + spent_value u (inputs tx))) by done.
    apply Hin; [done|ints|]. split_and!; done || lia.
Qed.

(** ** Totals *)

Lemma utxo_total_insert p o u :
  u !! p = None -> utxo_total (<[p := o]> u) = amount o + utxo_total u.
Proof. intros H. unfold utxo_total. by rewrite map_to_list_insert. Qed.

Lemma utxo_total_delete p o u :
  u !! p = Some o -> utxo_total u = amount o + utxo_total (delete p u).
Proof.
  intros H. rewrite <- (insert_delete_id u p o) at 1 by done.
  apply utxo_total_insert, lookup_delete_eq.
Qed.

Lemma utxo_total_empty : utxo_total ∅ = 0.
Proof. unfold utxo_total. by rewrite map_to_list_empty. Qed.

Lemma utxo_total_nonneg u : utxo_typed u -> 0 <= utxo_total u.
Proof.
  intros Hu. apply sumZ_nonneg, Forall_forall. intros [p o] H%elem_of_map_to_list.
  apply Hu in H. unfold output_typed in H. simpl. ints.
Qed.

(** ** The spending loop *)

Lemma spend_inputs_spec ins u u' :
  spend_inputs ins u = (true, u') <->
  inputs_available ins u /\ u' = foldl (fun u i => delete (point i) u) u ins.
Proof.
  unfold inputs_available. revert u. induction ins as [|i ins IH]; intros u; simpl.
  - split; [intros [= <-]; split_and!; constructor|]. by intros [_ ->].
  - rewrite NoDup_cons, Forall_cons. case_bool_decide as H; [|naive_solver].
    rewrite IH. split.
    + intros ([Hnd Hall] & ->). split_and!; try done.
      * intros (x & Hx & Hxi)%list_elem_of_fmap. rewrite Forall_forall in Hall.
        specialize (Hall x Hxi). rewrite <- Hx, lookup_delete_eq in Hall. by destruct Hall.
      * eapply Forall_impl; [exact Hall|]. intros x. rewrite lookup_delete_is_Some. naive_solver.
    + intros ([[Hni Hnd] [_ Hall]] & ->). split_and!; try done.
      apply Forall_forall. intros x Hx. rewrite lookup_delete_is_Some. split.
      * intros E. apply Hni. rewrite E. by apply list_elem_of_fmap_2.
      * rewrite Forall_forall in Hall. auto.
Qed.

Lemma spend_inputs_total ins u u' :
  spend_inputs ins u = (true, u') -> utxo_total u = spent_value u ins + utxo_total u'.
Proof.
  revert u. induction ins as [|i ins IH]; intros u; simpl; [intros [= <-]; done|].
  intros H. pose proof H as Hs.
  case_bool_decide as Hp; [|done]. destruct Hp as [o Ho].
  assert (spend_inputs (i :: ins) u = (true, u')) as Hfull.
  { simpl. rewrite bool_decide_eq_true_2 by eauto. done. }
  apply spend_inputs_spec in Hfull as ([Hnd _] & _). apply NoDup_cons in Hnd as [Hni _].
  apply IH in H. rewrite (utxo_total_delete _ _ _ Ho), H.
  unfold spent_value. simpl. rewrite Ho. simpl.
  rewrite (sumZ_ext _ (fun i => from_option amount 0 (u !! point i))); [lia|].
  apply Forall_forall. intros x Hx. rewrite lookup_delete_ne; [done|].
  intros E. apply Hni. rewrite E. by apply list_elem_of_fmap_2.
Qed.

Lemma spend_inputs_subseteq ins u u' : spend_inputs ins u = (true, u') -> u' ⊆ u.
Proof.
  intros [_ ->]%spend_inputs_spec. revert u. induction ins as [|i ins IH]; intros u; simpl; [done|].
  etrans; [apply IH|apply delete_subseteq].
Qed.

Lemma spend_inputs_lookup ins u u' p :
  spend_inputs ins u = (true, u') ->
  u' !! p = if decide (p ∈ point <$> ins) then None else u !! p.
Proof.
  intros [_ ->]%spend_inputs_spec. revert u. induction ins as [|i ins IH]; intros u; cbn [foldl].
  - case_decide as H; [by apply not_elem_of_nil in H|done].
  - rewrite IH, lookup_delete, fmap_cons.
    repeat case_decide; try done; rewrite elem_of_cons in *; naive_solver.
Qed.

(** ** The adding loop *)

Lemma add_outputs_total id i outs u u' :
  add_outputs id i outs u = (true, u') -> utxo_total u' = utxo_total u + sumZ amount outs.
Proof.
  revert i u. induction outs as [|o outs IH]; intros i u; simpl; [intros [= <-]; lia|].
  destruct (_ <? _); [done|]. unfold utxo_add.
  destruct (u !! _) eqn:E; [done|]. intros H%IH. rewrite H, utxo_total_insert by done. lia.
Qed.

Lemma add_outputs_typed id i outs u u' :
  Forall output_typed outs -> utxo_typed u ->
  add_outputs id i outs u = (true, u') -> utxo_typed u'.
Proof.
  revert i u. induction outs as [|o outs IH]; intros i u Ho Hu; simpl; [by intros [= <-]|].
  apply Forall_cons in Ho as [? ?]. destruct (_ <? _); [done|]. unfold utxo_add.
  destruct (u !! _) eqn:E; [done|]. apply IH; [done|]. by apply map_Forall_insert_2.
Qed.

Lemma add_outputs_subseteq id i outs u u' : add_outputs id i outs u = (true, u') -> u ⊆ u'.
Proof.
  revert i u. induction outs as [|o outs IH]; intros i u; simpl; [by intros [= <-]|].
  destruct (_ <? _); [done|]. unfold utxo_add.
  destruct (u !! _) eqn:E; [done|]. intros H%IH. etrans; [|exact H]. by apply insert_subseteq.
Qed.

Lemma spend_inputs_typed ins u u' :
  utxo_typed u -> spend_inputs ins u = (true, u') -> utxo_typed u'.
Proof. 
  intros Hu H%spend_inputs_subseteq p o Ho. apply (Hu p). by eapply lookup_weaken.
Qed.

(** Output [p] of transaction [id] with outputs [outs] numbered from [i]. *)
Definition output_at (id : Hash256) (i : Z) (outs : list TransactionOutput) (p : OutPoint)
    : option TransactionOutput :=
  if bool_decide (op_txid p = id) && (i <=? op_index p)
  then outs !! Z.to_nat (op_index p - i) else None.

Lemma output_at_cons id i o outs p :
  output_at id i (o :: outs) p =
    if decide (p = mkOutPoint id i) then Some o else output_at id (i + 1) outs p.
Proof.
  unfold output_at. destruct p as [h k]. simpl. case_bool_decide as E; simpl.
  - subst h. case_decide as E'; simplify_eq.
    + by rewrite Z.leb_refl, Z.sub_diag.
    + assert (k <> i) by congruence. destruct (i <=? k) eqn:E1, (i + 1 <=? k) eqn:E2; zbool; try lia; [|done].
      replace (Z.to_nat (k - i)) with (S (Z.to_nat (k - (i + 1)))) by lia. done.
  - rewrite decide_False; [done|]. congruence.
Qed.

(** Adding the outputs of a transaction none of whose points is present. *)
Lemma add_outputs_fresh id i outs u :
  0 <= i -> i + sizeZ outs <= UINT32_MAX + 1 ->
  (forall p, op_txid p = id -> i <= op_index p -> u !! p = None) ->
  exists u', add_outputs id i outs u = (true, u').
Proof.
  revert i u. induction outs as [|o outs IH]; intros i u Hi Hs Hf; simpl; [eauto|].
  unfold sizeZ in Hs. cbn [length] in Hs.
  rewrite (proj2 (Z.ltb_ge UINT32_MAX i)) by lia. unfold utxo_add.
  rewrite u32_small by ints. rewrite Hf by (simpl; done || lia).
  apply IH; [lia|unfold sizeZ; lia|]. intros p Hp Hk. rewrite lookup_insert_ne.
  - apply Hf; [done|lia].
  - intros <-. simpl in Hk. lia.
Qed.

Lemma add_outputs_lookup id i outs u u' p :
  0 <= i -> add_outputs id i outs u = (true, u') ->
  u' !! p = match output_at id i outs p with Some o => Some o | None => u !! p end.
Proof.
  revert i u. induction outs as [|o outs IH]; intros i u Hi; simpl.
  - intros [= <-]. unfold output_at. destruct (_ && _); by rewrite ?lookup_nil.
  - destruct (_ <? _) eqn:E; [done|]. zbool. unfold utxo_add.
    rewrite u32_small by ints. destruct (u !! _) eqn:El; [done|].
    intros H%IH; [|lia]. rewrite H, output_at_cons. case_decide as Ep.
    + subst p. rewrite lookup_insert_eq. unfold output_at. simpl.
      rewrite bool_decide_eq_true_2 by done. by rewrite (proj2 (Z.leb_gt _ _)) by lia.
    + destruct (output_at _ _ _ p); [done|]. by rewrite lookup_insert_ne.
Qed.

(** ** Claims *)

(** C20: the value check accepts exactly the transactions that are well formed,
    spend distinct existing outputs, and create no more value than they
    consume; no sum it computes wraps around. *)
Theorem validate_transaction_against_utxo_correct tx u :
  tx_typed tx -> utxo_typed u ->
  validate_transaction_against_utxo tx u = true <-> tx_spendable tx u.
Proof. apply validate_against_utxo_spec. Qed.

Lemma validate_transaction_against_utxo_correct_witness :
  validate_transaction_against_utxo sample_tx {[mkOutPoint zero_hash 7 := mkOutput 12 (str "me")]}
    = true <->
  tx_spendable sample_tx {[mkOutPoint zero_hash 7 := mkOutput 12 (str "me")]}.
Proof.
  apply (validate_transaction_against_utxo_correct sample_tx).
  - decide_vm.
  - apply map_Forall_singleton. decide_vm.
Defined.
