(* ===== verification/Ownership.v ===== *)
(** address.hpp, key_encoding.hpp, signature.hpp (verification side),
    transaction_signature.hpp and ownership.hpp: addresses, hex keys, the
    message an input signs and the check that a transaction's witnesses
    authorize its inputs. *)

From S2P Require Import Prelude Serialization Crypto Transaction UTXO.
From stdpp Require Import options.
Local Open Scope Z_scope.

(** A character literal. *)
Definition chr (s : string) : Z := byteZ (hd Byte.x00 (str s)).

(** ** Addresses *)

Section Address.
Context {ssl : OpenSSL}.

Definition address_checksum (payload : bytes) : bytes :=
  let first := sha256 payload in
  let second := sha256 (hash_to_hex first) in
  take 8 (hash_to_hex second).

(** Only A-F are lowered. *)
Definition canonicalize_public_key (pk : bytes) : bytes :=
  (fun c => if (chr "A" <=? byteZ c) && (byteZ c <=? chr "F")
            then u8 (byteZ c - chr "A" + chr "a") else c) <$> pk.

Definition address_from_public_key (pk : bytes) : bytes :=
  let hash := sha256 (canonicalize_public_key pk) in
  let payload := str "CZ1" ++ hash_to_hex hash in
  payload ++ address_checksum payload.

Definition is_lower_hex (c : byte) : bool :=
  ((chr "0" <=? byteZ c) && (byteZ c <=? chr "9"))
  || ((chr "a" <=? byteZ c) && (byteZ c <=? chr "f")).

Definition is_valid_address (address : bytes) : bool :=
  if negb (bool_decide (length address = 75%nat)) then false
  else if negb (bool_decide (take 3 address = str "CZ1")) then false
  else if negb (forallb is_lower_hex (drop 3 address)) then false
  else
    let payload := take 67 address in
    let checksum := take 8 (drop 67 address) in
    bool_decide (checksum = address_checksum payload).
End Address.

(** ** Hex keys *)

Definition hex_value (c : byte) : result Z :=
  if (chr "0" <=? byteZ c) && (byteZ c <=? chr "9") then Ok (byteZ c - chr "0")
  else if (chr "a" <=? byteZ c) && (byteZ c <=? chr "f") then Ok (byteZ c - chr "a" + 10)
  else if (chr "A" <=? byteZ c) && (byteZ c <=? chr "F") then Ok (byteZ c - chr "A" + 10)
  else Throw "invalid hex character".

(** The loop [for (i = 0; i < hex.size(); i += 2)]. *)
Fixpoint hex_pairs (hex : bytes) : result bytes :=
  match hex with
  | hi :: lo :: hex =>
      h ← hex_value hi; l ← hex_value lo; r ← hex_pairs hex;
      Ok (u8 (Z.lor (Z.shiftl h 4) l) :: r)
  | _ => Ok []
  end.

Definition hex_to_bytes (hex : bytes) : result bytes :=
  throw_if (negb (sizeZ hex mod 2 =? 0)) "invalid hex length" ;; hex_pairs hex.

Section Keys.
Context {ssl : OpenSSL}.

(** A null key throws. *)
Definition public_key_to_hex (key : option EVP_PKEY) : result bytes :=
  match key with
  | None => Throw "missing public key"
  | Some key => Ok (bytes_to_hex (EVP_PKEY_get_raw_public_key key))
  end.

Definition public_key_from_hex (hex : bytes) : result EVP_PKEY :=
  raw ← hex_to_bytes hex;
  throw_if (negb (sizeZ raw =? 32)) "Ed25519 public key must be 32 bytes" ;;
  match EVP_PKEY_new_raw_public_key raw with
  | None => Throw "failed to create Ed25519 public key"
  | Some key => Ok key
  end.

(** ** Signatures *)

Definition sign_message (private_key : option EVP_PKEY) (message : bytes) : result bytes :=
  match private_key with
  | None => Throw "missing private key"
  | Some key => Ok (EVP_DigestSign key message)
  end.

Definition verify_signature (key : option EVP_PKEY) (message sig : bytes) : bool :=
  match key with
  | None => false
  | Some key => if bool_decide (sig = []) then false else EVP_DigestVerify key message sig
  end.

Definition transaction_signing_message (tx : Transaction) (input_index : nat) : result bytes :=
  throw_if (bool_decide (length (inputs tx) <= input_index)%nat) "input index out of range" ;;
  w ← write_string (str "CAESAR_TX_INPUT_SIGNATURE_V1") [];
  base ← tx_serialize_binary tx;
  let w := write_bytes base w in
  throw_if (UINT32_MAX <? Z.of_nat input_index) "input index exceeds protocol limit" ;;
  Ok (bytes_to_binary_string (write_u32 (u32 (Z.of_nat input_index)) w)).

Definition sign_transaction_input (tx : Transaction) (input_index : nat)
    (private_key : option EVP_PKEY) : result bytes :=
  m ← transaction_signing_message tx input_index; sign_message private_key m.

Definition verify_transaction_input_signature (tx : Transaction) (input_index : nat)
    (key : option EVP_PKEY) (sig : bytes) : result bool :=
  if bool_decide (length (inputs tx) <= input_index)%nat then Ok false
  else m ← transaction_signing_message tx input_index; Ok (verify_signature key m sig).

(** The loop of [validate_signed_transaction] over [i < tx.inputs.size()]. *)
Fixpoint verify_signatures (tx : Transaction) (i : nat) (n : nat)
    (keys : list (option EVP_PKEY)) (sigs : list bytes) : result bool :=
  match n with
  | O => Ok true
  | S n =>
      ok ← verify_transaction_input_signature tx i (nth i keys None) (nth i sigs []);
      if (ok : bool) then verify_signatures tx (S i) n keys sigs else Ok false
  end.

Definition validate_signed_transaction (tx : Transaction) (utxos : UTXOSet)
    (keys : list (option EVP_PKEY)) (sigs : list bytes) : result bool :=
  if negb (tx_validate tx) then Ok false
  else if negb (bool_decide (length keys = length (inputs tx))) then Ok false
  else if negb (bool_decide (length sigs = length (inputs tx))) then Ok false
  else if negb (validate_transaction_against_utxo tx utxos) then Ok false
  else verify_signatures tx 0 (length (inputs tx)) keys sigs.

(** ** Ownership *)

Definition public_key_to_address (pk : bytes) : bytes := address_from_public_key pk.

Definition verify_utxo_ownership (previous_output : TransactionOutput) (pk : bytes) : bool :=
  if bool_decide (recipient previous_output = []) || bool_decide (pk = []) then false
  else bool_decide (recipient previous_output = public_key_to_address pk).

(** The loop of [validate_signed_transaction_ownership]; [ins] is the part of
    [tx.inputs] from index [i] on. *)
Fixpoint verify_owned_inputs (tx : Transaction) (utxos : UTXOSet)
    (keys : list (option EVP_PKEY)) (pks sigs : list bytes)
    (i : nat) (ins : list TransactionInput) : result bool :=
  match ins with
  | [] => Ok true
  | input :: ins =>
      match utxo_get (point input) utxos with
      | None => Ok false
      | Some previous =>
          if negb (verify_utxo_ownership previous (nth i pks [])) then Ok false
          else
            ok ← verify_transaction_input_signature tx i (nth i keys None) (nth i sigs []);
            if (ok : bool) then verify_owned_inputs tx utxos keys pks sigs (S i) ins
            else Ok false
      end
  end.

Definition validate_signed_transaction_ownership (tx : Transaction) (utxos : UTXOSet)
    (keys : list (option EVP_PKEY)) (pks sigs : list bytes) : result bool :=
  if negb (tx_validate tx) then Ok false
  else if negb (bool_decide (length keys = length (inputs tx))) then Ok false
  else if negb (bool_decide (length pks = length (inputs tx))) then Ok false
  else if negb (bool_decide (length sigs = length (inputs tx))) then Ok false
  else if negb (validate_transaction_against_utxo tx utxos) then Ok false
  else verify_owned_inputs tx utxos keys pks sigs 0 (inputs tx).

(** The loop collecting keys; [None] is [goto cleanup]. An exception of
    [public_key_from_hex] is caught and also goes there. *)
Fixpoint collect_keys (ws : list TransactionWitness) : option (list (option EVP_PKEY)) :=
  match ws with
  | [] => Some []
  | w :: ws =>
      if bool_decide (public_key w = []) || bool_decide (signature w = []) then None
      else match public_key_from_hex (public_key w) with
           | Throw _ => None
           | Ok key => keys ← collect_keys ws; Some (Some key :: keys)
           end
  end.

Definition validate_transaction_witness (tx : Transaction) (utxos : UTXOSet) : result bool :=
  if negb (tx_validate tx) then Ok false
  else
    let ws := witness_inputs (witness tx) in
    if negb (bool_decide (length ws = length (inputs tx))) then Ok false
    else match collect_keys ws with
         | None => Ok false
         | Some keys =>
             validate_signed_transaction_ownership tx utxos keys
               (public_key <$> ws) (signature <$> ws)
         end.

(** ** Specification *)

(** Input [i] of [tx] is authorized by witness [i]: the spent output is
    addressed to the witness key, and the key verifies the signature of the
    message of input [i]. *)
Definition input_authorized (tx : Transaction) (u : UTXOSet) (i : nat) : Prop :=
  exists input w o key m,
    inputs tx !! i = Some input /\ witness_inputs (witness tx) !! i = Some w /\
    u !! point input = Some o /\
    recipient o = address_from_public_key (public_key w) /\
    public_key_from_hex (public_key w) = Ok key /\
    transaction_signing_message tx i = Ok m /\
    signature w <> [] /\ EVP_DigestVerify key m (signature w) = true.

Lemma collect_keys_spec ws keys :
  collect_keys ws = Some keys <->
  Forall2 (fun w k => public_key w <> [] /\ signature w <> [] /\
    exists key, public_key_from_hex (public_key w) = Ok key /\ k = Some key) ws keys.
Proof.
  revert keys. induction ws as [|w ws IH]; intros keys; simpl.
  - split; [intros [= <-]; constructor|by inversion 1].
  - split.
    + case_bool_decide; [done|]. case_bool_decide; [done|]. simpl.
      destruct (public_key_from_hex _) as [key|] eqn:E; [|done].
      intros (ks & Hks & [= <-])%bind_Some. constructor; [eauto|]. by apply IH.
    + inversion 1 as [|? ? ? ks (Hp & Hs & key & Hk & ->) Hks]; subst.
      rewrite !bool_decide_eq_false_2 by done. simpl. rewrite Hk.
      by rewrite (proj2 (IH ks) Hks).
Qed.

Lemma verify_owned_inputs_spec tx u keys pks sigs i ins :
  verify_owned_inputs tx u keys pks sigs i ins = Ok true <->
  forall j input, ins !! j = Some input ->
    exists o, u !! point input = Some o /\
      verify_utxo_ownership o (nth (i + j) pks []) = true /\
      verify_transaction_input_signature tx (i + j) (nth (i + j) keys None)
        (nth (i + j) sigs []) = Ok true.
Proof.
  revert i. induction ins as [|input ins IH]; intros i; simpl; [done|].
  unfold utxo_get. split.
  - intros H. destruct (u !! point input) as [o|] eqn:E; [|done].
    destruct (verify_utxo_ownership _ _) eqn:Eo; [simpl in H|done].
    apply bind_Ok in H as ([] & Hs & H); [|done].
    intros [|j] input' Hj; simplify_eq/=.
    + exists o. by rewrite Nat.add_0_r.
    + rewrite IH in H. destruct (H j input' Hj) as (o' & ?).
      exists o'. by replace (i + S j)%nat with (S i + j)%nat by lia.
  - intros H. destruct (H 0%nat input eq_refl) as (o & -> & Ho & Hs).
    rewrite Nat.add_0_r in *. rewrite Ho, Hs. simpl. apply IH. intros j input' Hj.
    destruct (H (S j) input' Hj) as (o' & ?). exists o'.
    by replace (S i + j)%nat with (i + S j)%nat by lia.
Qed.

Lemma verify_utxo_ownership_spec o pk :
  pk <> [] ->
  verify_utxo_ownership o pk = true <-> recipient o = address_from_public_key pk.
Proof.
  intros Hpk. unfold verify_utxo_ownership, public_key_to_address.
  rewrite (bool_decide_eq_false_2 (pk = [])) by done. rewrite orb_false_r.
  case_bool_decide as E; [|by rewrite bool_decide_eq_true].
  rewrite E. split; done.
Qed.

Lemma verify_input_signature_spec tx i key sig :
  (i < length (inputs tx))%nat -> sig <> [] ->
  verify_transaction_input_signature tx i (Some key) sig = Ok true <->
  exists m, transaction_signing_message tx i = Ok m /\ EVP_DigestVerify key m sig = true.
Proof.
  intros Hi Hs. unfold verify_transaction_input_signature.
  rewrite bool_decide_eq_false_2 by lia.
  destruct (transaction_signing_message tx i) as [m|]; simpl.
  - rewrite bool_decide_eq_false_2 by done. split; [intros [=]; eauto|].
    intros (? & [= <-] & ?). congruence.
  - split; [done|]. by intros (? & ? & _).
Qed.

Lemma public_key_from_hex_nonempty pk key : public_key_from_hex pk = Ok key -> pk <> [].
Proof. by intros H ->. Qed.

Lemma owned_inputs_authorized tx u keys :
  length (witness_inputs (witness tx)) = length (inputs tx) ->
  collect_keys (witness_inputs (witness tx)) = Some keys ->
  verify_owned_inputs tx u keys (public_key <$> witness_inputs (witness tx))
    (signature <$> witness_inputs (witness tx)) 0 (inputs tx) = Ok true <->
  forall i, (i < length (inputs tx))%nat -> input_authorized tx u i.
Proof.
  intros Hl Hk%collect_keys_spec. rewrite verify_owned_inputs_spec. simpl.
  assert (forall i input w, inputs tx !! i = Some input ->
    witness_inputs (witness tx) !! i = Some w ->
    exists key, public_key_from_hex (public_key w) = Ok key /\ signature w <> [] /\
      nth i (public_key <$> witness_inputs (witness tx)) [] = public_key w /\
      nth i (signature <$> witness_inputs (witness tx)) [] = signature w /\
      nth i keys None = Some key) as Hnth.
  { intros i input w Hi Hw. destruct (Forall2_lookup_l _ _ _ _ _ Hk Hw)
      as (k & Hki & Hp & Hs & key & Hkey & ->).
    exists key. split_and!; try done; apply nth_lookup_Some;
      by rewrite ?list_lookup_fmap, ?Hw, ?Hki. }
  split.
  - intros H i [input Hi]%lookup_lt_is_Some_2.
    destruct (lookup_lt_is_Some_2 (witness_inputs (witness tx)) i) as [w Hw].
    { rewrite Hl. by eapply lookup_lt_Some. }
    destruct (H i input Hi) as (o & Ho & Hown & Hsig).
    destruct (Hnth i input w Hi Hw) as (key & Hkey & Hs & E1 & E2 & E3).
    rewrite E1 in Hown. rewrite E2, E3 in Hsig.
    apply verify_utxo_ownership_spec in Hown; [|by eapply public_key_from_hex_nonempty].
    apply verify_input_signature_spec in Hsig as (m & Hm & Hv); [|by eapply lookup_lt_Some|done].
    exists input, w, o, key, m. done.
  - intros H i input Hi. destruct (H i) as (input' & w & o & key & m & Hi' & Hw & Ho & Hr & Hkey & Hm & Hs & Hv);
      [by eapply lookup_lt_Some|]. simplify_eq.
    destruct (Hnth i input w Hi Hw) as (key' & Hkey' & _ & -> & -> & ->).
    rewrite Hkey in Hkey'. injection Hkey' as <-.
    exists o. split; [done|]. split.
    + apply verify_utxo_ownership_spec; [by eapply public_key_from_hex_nonempty|done].
    + apply verify_input_signature_spec; [by eapply lookup_lt_Some|done|eauto].
Qed.

Lemma authorized_collect tx u :
  length (witness_inputs (witness tx)) = length (inputs tx) ->
  (forall i, (i < length (inputs tx))%nat -> input_authorized tx u i) ->
  exists keys, collect_keys (witness_inputs (witness tx)) = Some keys.
Proof.
  intros Hl Ha.
  assert (Forall (fun w => signature w <> [] /\ exists key, public_key_from_hex (public_key w) = Ok key)
            (witness_inputs (witness tx))) as Hf.
  { apply Forall_lookup. intros i w Hw.
    destruct (Ha i) as (? & w' & ? & key & ? & _ & Hw' & _ & _ & Hkey & _ & Hs & _);
      [rewrite <- Hl; by eapply lookup_lt_Some|]. simplify_eq. eauto. }
  clear Ha Hl. induction Hf as [|w ws [Hs [key Hkey]] _ [keys IH]]; simpl; [eauto|].
  rewrite bool_decide_eq_false_2 by (by eapply public_key_from_hex_nonempty).
  rewrite bool_decide_eq_false_2 by done. simpl. rewrite Hkey, IH. simpl. eauto.
Qed.

Lemma validate_witness_spec tx u :
  tx_typed tx -> utxo_typed u ->
  validate_transaction_witness tx u = Ok true <->
  tx_spendable tx u /\
  length (witness_inputs (witness tx)) = length (inputs tx) /\
  forall i, (i < length (inputs tx))%nat -> input_authorized tx u i.
Proof.
  intros Ht Hu. unfold validate_transaction_witness, validate_signed_transaction_ownership.
  rewrite <- validate_against_utxo_spec by done. split.
  - intros H. destruct (tx_validate tx); [simpl in H|done].
    case_bool_decide as Hl; [simpl in H|done].
    destruct (collect_keys _) as [keys|] eqn:Hk; [|done].
    repeat (case_bool_decide; [simpl in H|done]).
    destruct (validate_transaction_against_utxo tx u); [simpl in H|done].
    split_and!; [done..|]. by apply (owned_inputs_authorized tx u keys Hl Hk).
  - intros (Hv & Hl & Ha). destruct (authorized_collect tx u Hl Ha) as [keys Hk].
    pose proof Hv as Hv'. unfold validate_transaction_against_utxo in Hv.
    destruct (tx_validate tx); [simpl|done].
    rewrite (bool_decide_eq_true_2 (length (witness_inputs _) = _)) by done. simpl.
    rewrite Hk. pose proof (Forall2_length _ _ _ (proj1 (collect_keys_spec _ _) Hk)).
    rewrite !bool_decide_eq_true_2 by (rewrite ?length_fmap; congruence). simpl.
    rewrite Hv'. simpl. by apply owned_inputs_authorized.
Qed.
End Keys.

(** ** Hex and addresses *)

Lemma hex_value_hi b :
  hex_value (hex_digit (Z.land (Z.shiftr (byteZ b) 4) 15)) = Ok (Z.land (Z.shiftr (byteZ b) 4) 15).
Proof. by destruct b. Qed.
Lemma hex_value_lo b : hex_value (hex_digit (Z.land (byteZ b) 15)) = Ok (Z.land (byteZ b) 15).
Proof. by destruct b. Qed.
Lemma nibble_join b :
  u8 (Z.lor (Z.shiftl (Z.land (Z.shiftr (byteZ b) 4) 15) 4) (Z.land (byteZ b) 15)) = b.
Proof. by destruct b. Qed.
Lemma hex_digits_lower b :
  is_lower_hex (hex_digit (Z.land (Z.shiftr (byteZ b) 4) 15)) = true /\
  is_lower_hex (hex_digit (Z.land (byteZ b) 15)) = true.
Proof. by destruct b. Qed.

Lemma bytes_to_hex_cons b bs :
  bytes_to_hex (b :: bs) = hex_digit (Z.land (Z.shiftr (byteZ b) 4) 15)
    :: hex_digit (Z.land (byteZ b) 15) :: bytes_to_hex bs.
Proof. done. Qed.
#[global] Arguments bytes_to_hex : simpl never.

Lemma bytes_to_hex_length bs : length (bytes_to_hex bs) = (2 * length bs)%nat.
Proof. induction bs; [done|]. rewrite bytes_to_hex_cons. cbn [length]. lia. Qed.
Lemma hash_to_hex_length h : length (hash_to_hex h) = 64%nat.
Proof. unfold hash_to_hex. by rewrite bytes_to_hex_length, hash_length. Qed.

Lemma bytes_to_hex_lower bs : forallb is_lower_hex (bytes_to_hex bs) = true.
Proof.
  induction bs as [|b bs IH]; [done|]. rewrite bytes_to_hex_cons. cbn [forallb].
  destruct (hex_digits_lower b) as [-> ->]. by rewrite IH.
Qed.

Lemma hex_pairs_of_bytes bs : hex_pairs (bytes_to_hex bs) = Ok bs.
Proof.
  induction bs as [|b bs IH]; [done|]. rewrite bytes_to_hex_cons. cbn [hex_pairs].
  rewrite hex_value_hi, hex_value_lo. cbn [mbind result_bind]. rewrite IH. simpl.
  by rewrite nibble_join.
Qed.

Lemma forallb_take (f : byte -> bool) n l : forallb f l = true -> forallb f (take n l) = true.
Proof.
  revert n. induction l as [|a l IH]; intros [|n]; simpl; try done.
  intros [-> Hl]%andb_true_iff. by apply IH.
Qed.

(** The bytes a signature covers. *)
Lemma signing_message_encode tx i m :
  tx_base_ok tx -> transaction_signing_message tx i = Ok m ->
  m = enc_string (str "CAESAR_TX_INPUT_SIGNATURE_V1") ++ enc_tx_base tx ++ le_encode 4 (Z.of_nat i)
  /\ Z.of_nat i <= UINT32_MAX.
Proof.
  intros Htx. unfold transaction_signing_message, throw_if.
  case_bool_decide; [done|]. rewrite write_string_encode, tx_serialize_encode by done.
  generalize (str "CAESAR_TX_INPUT_SIGNATURE_V1") as sep. intros sep.
  destruct (UINT32_MAX <? sizeZ sep); [done|].
  destruct (UINT32_MAX <? Z.of_nat i) eqn:E; [done|]. simpl. intros [= <-]. zbool.
  rewrite write_u32_encode, u32_small by ints. unfold write_bytes. by rewrite <- app_assoc.
Qed.

(** The checks read the set at the points of the inputs only. *)
Section Agreement.
Context {ssl : OpenSSL}.

Definition agree_on (ins : list TransactionInput) (u1 u2 : UTXOSet) : Prop :=
  Forall (fun i => u1 !! point i = u2 !! point i) ins.

Lemma sum_inputs_agree ins u1 u2 seen s :
  agree_on ins u1 u2 -> sum_inputs ins u1 seen s = sum_inputs ins u2 seen s.
Proof.
  intros H. revert seen s. induction H as [|i ins E H IH]; intros seen s; simpl; [done|].
  unfold utxo_get. rewrite E. case_bool_decide; [done|].
  destruct (u2 !! point i); [|done]. by destruct (_ <? _).
Qed.

Lemma verify_owned_inputs_agree tx u1 u2 keys pks sigs i ins :
  agree_on ins u1 u2 ->
  verify_owned_inputs tx u1 keys pks sigs i ins = verify_owned_inputs tx u2 keys pks sigs i ins.
Proof.
  intros H. revert i. induction H as [|x ins E H IH]; intros i; simpl; [done|].
  unfold utxo_get. rewrite E. destruct (u2 !! point x); [|done].
  destruct (negb _); [done|].
  destruct (verify_transaction_input_signature _ _ _ _) as [[]|]; simpl; auto.
Qed.

Lemma validate_witness_agree tx u1 u2 :
  agree_on (inputs tx) u1 u2 ->
  validate_transaction_witness tx u1 = validate_transaction_witness tx u2.
Proof.
  intros H. unfold validate_transaction_witness, validate_signed_transaction_ownership,
    validate_transaction_against_utxo. rewrite (sum_inputs_agree _ _ _ _ _ H).
  destruct (collect_keys _); [|done]. by rewrite (verify_owned_inputs_agree _ _ _ _ _ _ _ _ H).
Qed.
End Agreement.

(** No exception leaves the witness check of a transaction within the limits. *)
Section NoThrow.
Context {ssl : OpenSSL}.

Lemma signing_message_returns tx i :
  tx_base_ok tx -> (i < length (inputs tx))%nat -> returns (transaction_signing_message tx i).
Proof.
  intros Htx Hi. unfold transaction_signing_message, throw_if.
  rewrite bool_decide_eq_false_2 by lia.
  rewrite write_string_encode, tx_serialize_encode by done.
  destruct Htx as (_ & _ & [_ Hn] & _). unfold sizeZ in Hn.
  rewrite (proj2 (Z.ltb_ge UINT32_MAX (Z.of_nat i))) by ints.
  destruct (UINT32_MAX <? _) eqn:E; [by vm_compute in E|]. eexists. reflexivity.
Qed.

Lemma verify_owned_inputs_returns tx u keys pks sigs i ins :
  tx_base_ok tx -> (i + length ins <= length (inputs tx))%nat ->
  returns (verify_owned_inputs tx u keys pks sigs i ins).
Proof.
  intros Htx. revert i. induction ins as [|input ins IH]; intros i Hi; simpl in *; auto with caesar.
  destruct (utxo_get _ _); auto with caesar. apply returns_if; auto with caesar. intros _.
  apply returns_bind.
  - unfold verify_transaction_input_signature. rewrite bool_decide_eq_false_2 by lia.
    apply returns_bind; [|auto with caesar]. apply signing_message_returns; [done|lia].
  - intros [] _; auto with caesar. apply IH. lia.
Qed.

Lemma validate_witness_returns tx u :
  tx_base_ok tx -> returns (validate_transaction_witness tx u).
Proof.
  intros Htx. unfold validate_transaction_witness, validate_signed_transaction_ownership.
  repeat (apply returns_if; auto with caesar; intros ?).
  destruct (collect_keys _); auto with caesar.
  repeat (apply returns_if; auto with caesar; intros ?).
  by apply verify_owned_inputs_returns.
Qed.
End NoThrow.

Section OwnershipClaims.
Context {ssl : OpenSSL}.

(** C21: a transaction passes the witness check exactly when it is spendable
    against the set and every input is authorized: the output it spends is
    addressed to the witness key, and that key verifies the signature over
    the message of exactly that input. *)
Theorem witness_authorizes tx u :
  tx_typed tx -> utxo_typed u ->
  validate_transaction_witness tx u = Ok true <->
  tx_spendable tx u /\
  length (witness_inputs (witness tx)) = length (inputs tx) /\
  forall i, (i < length (inputs tx))%nat -> input_authorized tx u i.
Proof. apply validate_witness_spec. Qed.

(** The signed message determines the transaction (all but its witness)
    and the index of the input it authorizes: a signature cannot be moved to
    another input or another transaction. *)
Theorem signing_message_binding tx1 tx2 i j m :
  tx_base_ok tx1 -> tx_base_ok tx2 ->
  transaction_signing_message tx1 i = Ok m -> transaction_signing_message tx2 j = Ok m ->
  set_witness tx1 [] = set_witness tx2 [] /\ i = j.
Proof.
  intros H1 H2 [-> L1]%signing_message_encode [E L2]%signing_message_encode; [|done..].
  apply app_inv_head in E. apply app_inj_2 in E as [Eb Ei]; [|by rewrite !le_encode_length].
  split; [by apply enc_tx_base_inj|].
  apply (f_equal le_decode) in Ei. rewrite !le_decode_encode_small in Ei by (simpl; ints). lia.
Qed.

(** Every derived address is accepted by [is_valid_address], whatever the
    key's text, and the letter case of A-F in the key does not matter. *)
Theorem derived_address_valid pk :
  is_valid_address (address_from_public_key pk) = true /\
  address_from_public_key (canonicalize_public_key pk) = address_from_public_key pk.
Proof.
  split.
  - unfold address_from_public_key, is_valid_address.
    set (h := sha256 _). set (payload := str "CZ1" ++ hash_to_hex h).
    assert (length payload = 67%nat) as Hp.
    { unfold payload. rewrite length_app, hash_to_hex_length. done. }
    assert (length (address_checksum payload) = 8%nat) as Hc.
    { unfold address_checksum. rewrite length_take, hash_to_hex_length. done. }
    rewrite (bool_decide_eq_true_2 (length _ = 75%nat)) by (rewrite length_app; lia).
    change (negb true) with false. cbn iota.
    rewrite (bool_decide_eq_true_2 (take 3 _ = _)) by reflexivity. change (negb true) with false. cbn iota.
    replace (drop 3 (payload ++ address_checksum payload))
      with (hash_to_hex h ++ address_checksum payload) by reflexivity.
    rewrite forallb_app. unfold hash_to_hex at 1. rewrite bytes_to_hex_lower.
    unfold address_checksum at 1, hash_to_hex at 1.
    rewrite (forallb_take _ 8 _ (bytes_to_hex_lower _)). change (true && true)%bool with true. change (negb true) with false. cbn iota.
    rewrite take_app_length' by done. rewrite drop_app_length' by done.
    rewrite take_ge by lia. by apply bool_decide_eq_true_2.
  - unfold address_from_public_key.
    replace (canonicalize_public_key (canonicalize_public_key pk))
      with (canonicalize_public_key pk); [done|].
    unfold canonicalize_public_key. rewrite <- list_fmap_compose.
    apply list_fmap_ext. intros _ c _. unfold compose. by destruct c.
Qed.

(** Hex decoding inverts hex encoding of key bytes. *)
Theorem hex_roundtrip bs : hex_to_bytes (bytes_to_hex bs) = Ok bs.
Proof.
  unfold hex_to_bytes, sizeZ. rewrite bytes_to_hex_length, hex_pairs_of_bytes.
  replace (Z.of_nat (2 * length bs) mod 2) with 0; [done|].
  rewrite Nat2Z.inj_mul, Z.mul_comm. symmetry. by apply Z.mod_mul.
Qed.
End OwnershipClaims.

(** ** Witnesses *)

(** A key, an output addressed to it and a transaction spending that output. *)
Definition sample_key : bytes := bytes_to_hex (hash_bytes (sample_hash 9)).
Definition sample_spend : Transaction :=
  mkTx 1 [] [mkInput (sample_hash 5) 0] [mkOutput 40 (str "bob")]
    (mkWitnessSet [mkWitness sample_key (hash_bytes (sample_hash 9))]).
Definition sample_utxo : UTXOSet :=
  {[mkOutPoint (sample_hash 5) 0 :=
      mkOutput 50 (address_from_public_key (ssl := Toy.ssl) sample_key)]}.

Lemma sample_spend_typed : tx_typed sample_spend.
Proof. decide_vm. Qed.
Lemma sample_utxo_typed : utxo_typed sample_utxo.
Proof. apply map_Forall_singleton, (bool_decide_unpack _). vm_compute. exact I. Qed.

Lemma witness_authorizes_witness :
  input_authorized (ssl := Toy.ssl) sample_spend sample_utxo 0.
Proof.
  apply (witness_authorizes (ssl := Toy.ssl) sample_spend sample_utxo
    sample_spend_typed sample_utxo_typed); [vm_compute; reflexivity|simpl; lia].
Defined.

Lemma signing_message_binding_witness :
  exists m, transaction_signing_message sample_spend 0 = Ok m /\
    set_witness sample_spend [] = set_witness (set_witness sample_spend []) [].
Proof.
  eexists. split; [vm_compute; reflexivity|].
  eapply (signing_message_binding sample_spend (set_witness sample_spend []) 0 0);
    [decide_vm..| |]; vm_compute; reflexivity.
Defined.
