(* ===== verification/Coinbase.v ===== *)
(** coinbase.hpp: supply constants, the subsidy schedule and the coinbase
    transaction of a block. *)

From S2P Require Import Prelude Serialization Crypto Transaction.
From stdpp Require Import options.
Local Open Scope Z_scope.

Definition CZR_ATOMIC_UNITS : Z := 100000000.
Definition CZR_MAX_SUPPLY : Z := 21000000 * CZR_ATOMIC_UNITS.
Definition CZR_INITIAL_SUBSIDY : Z := 50 * CZR_ATOMIC_UNITS.
Definition CZR_HALVING_INTERVAL : Z := 210000.

Definition is_zero_hash (hash : Hash256) : bool :=
  forallb (fun b => bool_decide (b = Byte.x00)) (hash_bytes hash).
Lemma is_zero_hash_zero h : is_zero_hash h = true -> h = zero_hash.
Proof.
  intros E. apply hash_eq. unfold is_zero_hash in E. rewrite forallb_forall in E.
  apply list_eq_same_length with (n := 32%nat); [apply hash_length|apply hash_length|].
  intros k x y _ Hx Hy. assert (x = Byte.x00) as ->.
  { specialize (E x). rewrite bool_decide_eq_true in E. apply E, list_elem_of_In. by eapply list_elem_of_lookup_2. }
  assert (hash_bytes zero_hash = replicate 32 Byte.x00) as Ez by reflexivity.
  rewrite Ez in Hy. apply lookup_replicate in Hy as [-> _]. done.
Qed.

Definition block_subsidy (height : Z) : Z :=
  if height =? 0 then 0
  else
    let halvings := height / CZR_HALVING_INTERVAL in
    if 64 <=? halvings then 0 else Z.shiftr CZR_INITIAL_SUBSIDY halvings.

Definition make_coinbase_transaction (height : Z) (rcpt : bytes) (extra_nonce : Z)
    : result Transaction :=
  throw_if (height =? 0) "genesis block cannot use normal coinbase" ;;
  throw_if (bool_decide (rcpt = [])) "coinbase recipient is empty" ;;
  let input := mkInput zero_hash UINT32_MAX in
  let cd := (fun i => u8 (Z.land (Z.shiftr extra_nonce (i * 8)) 255)) <$> seqZ 0 8 in
  let output := mkOutput (block_subsidy height) rcpt in
  Ok (mkTx 1 cd [input] [output] (mkWitnessSet [])).

Definition is_coinbase_transaction (tx : Transaction) : bool :=
  match inputs tx with
  | [input] =>
      if negb (output_index input =? UINT32_MAX) then false
      else if negb (is_zero_hash (previous_txid input)) then false
      else true
  | _ => false
  end.

Definition validate_coinbase_transaction (tx : Transaction) (height : Z) : bool :=
  if negb (is_coinbase_transaction tx) then false
  else if height =? 0 then false
  else match outputs tx with
       | [output] =>
           if negb (amount output =? block_subsidy height) then false
           else if bool_decide (recipient output = []) then false
           else true
       | _ => false
       end.

Definition validate_coinbase_position_and_reward (transactions : list Transaction) (height : Z)
    : bool :=
  match transactions with
  | [] => false
  | front :: rest =>
      if negb (is_coinbase_transaction front) then false
      else if negb (validate_coinbase_transaction front height) then false
      else forallb (fun tx => negb (is_coinbase_transaction tx)) rest
  end.

(** The height is not part of what is checked: the coinbase of one height is
    a coinbase of every other height of the same subsidy, so the same transaction,
    and with it its id, can come again. *)
Theorem coinbase_of_other_height tx h h' :
  validate_coinbase_transaction tx h = true -> block_subsidy h' = block_subsidy h -> h' <> 0 ->
  validate_coinbase_transaction tx h' = true.
Proof.
  unfold validate_coinbase_transaction. intros H -> Hne. rewrite (proj2 (Z.eqb_neq _ _) Hne).
  destruct (negb _); [done|]. by destruct (h =? 0).
Qed.

(** ** The subsidy schedule *)

(** Everything issued by the blocks at heights [1..n]. *)
Fixpoint issued (n : nat) : Z :=
  match n with O => 0 | S m => issued m + block_subsidy (Z.of_nat (S m)) end.

(** The reward of a block of epoch [k], and of one block of each epoch below [k]. *)
Definition epoch_reward (k : nat) : Z := CZR_INITIAL_SUBSIDY / 2 ^ Z.of_nat k.
Fixpoint epoch_sum (k : nat) : Z :=
  match k with O => 0 | S j => epoch_sum j + epoch_reward j end.

Lemma epoch_reward_nonneg k : 0 <= epoch_reward k.
Proof. apply Z.div_pos; [by vm_compute|lia]. Qed.

Lemma epoch_reward_halves k : 2 * epoch_reward (S k) <= epoch_reward k.
Proof.
  unfold epoch_reward. rewrite Nat2Z.inj_succ, Z.pow_succ_r by lia.
  rewrite (Z.mul_comm 2 (2 ^ _)), <- Z.div_div by lia. apply Z.mul_div_le. lia.
Qed.

Lemma epoch_sum_bound k : epoch_sum k + 2 * epoch_reward k <= 2 * CZR_INITIAL_SUBSIDY.
Proof.
  induction k as [|k IH]; [by vm_compute|].
  cbn [epoch_sum]. pose proof (epoch_reward_halves k). lia.
Qed.

Lemma block_subsidy_epoch h q r :
  0 < h -> h = 210000 * Z.of_nat q + r -> 0 <= r < 210000 ->
  0 <= block_subsidy h <= epoch_reward q.
Proof.
  intros Hh E Hr. unfold block_subsidy.
  rewrite (proj2 (Z.eqb_neq _ 0)) by lia.
  assert (h / CZR_HALVING_INTERVAL = Z.of_nat q) as ->.
  { symmetry. apply (Z.div_unique _ _ _ r); unfold CZR_HALVING_INTERVAL; lia. }
  pose proof (epoch_reward_nonneg q).
  destruct (64 <=? _); [lia|]. rewrite Z.shiftr_div_pow2 by lia.
  fold (epoch_reward q). lia.
Qed.

Lemma issued_epochs n q r :
  Z.of_nat (S n) = 210000 * Z.of_nat q + r -> 0 <= r < 210000 ->
  0 <= issued n <= 210000 * epoch_sum q + r * epoch_reward q.
Proof.
  revert q r. induction n as [|n IH]; intros q r E Hr.
  { assert (q = 0%nat) as -> by lia. pose proof (epoch_reward_nonneg 0).
    cbn [issued epoch_sum]. nia. }
  cbn [issued]. destruct (decide (r = 0)) as [->|N].
  - destruct q as [|q]; [lia|]. cbn [epoch_sum].
    pose proof (IH q 209999 ltac:(lia) ltac:(lia)).
    pose proof (block_subsidy_epoch (Z.of_nat (S n)) q 209999 ltac:(lia) ltac:(lia) ltac:(lia)).
    lia.
  - pose proof (IH q (r - 1) ltac:(lia) ltac:(lia)).
    pose proof (block_subsidy_epoch (Z.of_nat (S n)) q (r - 1) ltac:(lia) ltac:(lia) ltac:(lia)).
    lia.
Qed.

Lemma issued_bound n : 0 <= issued n <= CZR_MAX_SUPPLY.
Proof.
  pose proof (Z.div_mod (Z.of_nat (S n)) 210000 ltac:(lia)) as Hd.
  pose proof (Z.mod_pos_bound (Z.of_nat (S n)) 210000 ltac:(lia)) as Hm.
  set (r := _ mod _) in *. set (k := _ / _) in *.
  assert (0 <= k) by (apply Z.div_pos; lia).
  pose proof (issued_epochs n (Z.to_nat k) r ltac:(lia) Hm) as H1.
  pose proof (epoch_sum_bound (Z.to_nat k)). pose proof (epoch_reward_nonneg (Z.to_nat k)).
  assert (r * epoch_reward (Z.to_nat k) <= 210000 * epoch_reward (Z.to_nat k)) by nia.
  change CZR_MAX_SUPPLY with (420000 * CZR_INITIAL_SUBSIDY). lia.
Qed.

Lemma block_subsidy_u64 h : 0 <= h -> is_u64 (block_subsidy h).
Proof.
  intros Hh. unfold block_subsidy. destruct (h =? 0); [by vm_compute|].
  destruct (64 <=? _) eqn:E; [by vm_compute|]. zbool.
  assert (0 <= h / CZR_HALVING_INTERVAL) by (apply Z.div_pos; unfold CZR_HALVING_INTERVAL; lia).
  rewrite Z.shiftr_div_pow2 by done.
  assert (0 <= CZR_INITIAL_SUBSIDY / 2 ^ (h / CZR_HALVING_INTERVAL) <= CZR_INITIAL_SUBSIDY).
  { split; [apply Z.div_pos; [by vm_compute|lia]|].
    apply Z.div_le_upper_bound; [lia|]. assert (1 <= 2 ^ (h / CZR_HALVING_INTERVAL)) by lia.
    unfold CZR_INITIAL_SUBSIDY, CZR_ATOMIC_UNITS. nia. }
  unfold CZR_INITIAL_SUBSIDY, CZR_ATOMIC_UNITS in *. ints.
Qed.

(** ** Coinbase transactions *)

Lemma coinbase_transaction_spec tx h :
  validate_coinbase_transaction tx h = true <->
  is_coinbase_transaction tx = true /\ h <> 0 /\
  exists o, outputs tx = [o] /\ amount o = block_subsidy h /\ recipient o <> [].
Proof.
  unfold validate_coinbase_transaction.
  destruct (is_coinbase_transaction tx); simpl; [|naive_solver].
  destruct (h =? 0) eqn:E; zbool; [naive_solver|].
  destruct (outputs tx) as [|o [|]]; [naive_solver| |naive_solver].
  destruct (amount o =? block_subsidy h) eqn:Ea; zbool; simpl; [|naive_solver].
  case_bool_decide; naive_solver.
Qed.

Lemma make_coinbase_valid h rcpt nonce tx :
  make_coinbase_transaction h rcpt nonce = Ok tx ->
  validate_coinbase_transaction tx h = true.
Proof.
  unfold make_coinbase_transaction. intros H. result_inv.
  apply coinbase_transaction_spec. split; [done|]. zbool. split; [done|]. by eexists.
Qed.

(** ** Claims *)

(** The subsidy schedule never issues more than [CZR_MAX_SUPPLY]: the
    rewards of the blocks at heights 1 to n sum to at most 21 million coins,
    for every n. *)
Theorem subsidy_within_max_supply n : 0 <= issued n <= CZR_MAX_SUPPLY.
Proof. apply issued_bound. Qed.
