(* ===== verification/Consensus.v ===== *)
(** consensus.hpp: the memory-hard proof of work, the miner's search loop and
    the retargeting of the difficulty from a window of block intervals. *)

From S2P Require Import Prelude Serialization Crypto.
From stdpp Require Import options.
Local Open Scope Z_scope.

Definition CZR_POW_VERSION : Z := 2.
Definition CZR_POW_MEMORY_WORDS : Z := 65536.
Definition CZR_POW_ROUNDS : Z := 4.

(** ** The proof-of-work function *)

Definition pow_mix64 (x : Z) : Z :=
  let x := Z.lxor x (Z.shiftr x 30) in
  let x := u64 (x * 0xbf58476d1ce4e5b9) in
  let x := Z.lxor x (Z.shiftr x 27) in
  let x := u64 (x * 0x94d049bb133111eb) in
  Z.lxor x (Z.shiftr x 31).

Definition pow_load64 (state : Hash256) (offset : Z) : Z :=
  foldl (fun value i =>
      Z.lor value (Z.shiftl (byteZ (nth (Z.to_nat ((offset + i) mod 32)) (hash_bytes state) Byte.x00))
                     (i * 8)))
    0 (seqZ 0 8).

(** [memory[i]] of the [std::vector<std::uint64_t>]. *)
Definition mem_get (memory : list Z) (i : Z) : Z := nth (Z.to_nat i) memory 0.
Definition mem_set (memory : list Z) (i v : Z) : list Z := <[Z.to_nat i := v]> memory.

Definition xor4 (a b c d : Z) : Z := Z.lxor (Z.lxor (Z.lxor a b) c) d.

(** The loop that fills the memory from the first digest. *)
Definition pow_fill (state : Hash256) (nonce : Z) : list Z :=
  let seed := Z.lxor (Z.lxor (pow_load64 state 0) (pow_load64 state 8)) nonce in
  foldl (fun memory i =>
      let previous := if i =? 0 then seed else mem_get memory (i - 1) in
      mem_set memory i
        (pow_mix64 (xor4 previous (pow_load64 state (Z.land i 24))
                      (u64 (i * 0x9e3779b97f4a7c15)) nonce)))
    (replicate (Z.to_nat CZR_POW_MEMORY_WORDS) 0) (seqZ 0 CZR_POW_MEMORY_WORDS).

(** One iteration of the mixing loop of a round: the accumulator and the memory. *)
Definition pow_mix_step (nonce round : Z) (s : Z * list Z) (i : Z) : Z * list Z :=
  let '(accumulator, memory) := s in
  let index := pow_mix64 (xor4 accumulator (mem_get memory i) nonce round) mod sizeZ memory in
  let other := Z.lxor index (u64 (i * 0x9e3779b9)) mod sizeZ memory in
  let mixed := pow_mix64 (xor4 (mem_get memory index) (mem_get memory other) accumulator i) in
  (pow_mix64 (Z.lxor accumulator mixed), mem_set memory index mixed).

Section PoW.
Context {ssl : OpenSSL}.

Definition pow_round (nonce : Z) (s : Hash256 * list Z) (round : Z) : Hash256 * list Z :=
  let '(state, memory) := s in
  let '(accumulator, memory) :=
    foldl (pow_mix_step nonce round) (pow_load64 state (u32 (round * 8)), memory)
      (seqZ 0 (sizeZ memory)) in
  let w := write_u64 accumulator [] in
  let w := foldl (fun w i =>
      write_u64 (mem_get memory (Z.shiftr accumulator (i * 8) mod sizeZ memory)) w)
    w (seqZ 0 8) in
  (sha256 (bytes_to_binary_string w), memory).

(** The digest and the memory after the rounds. *)
Definition pow_rounds (state : Hash256) (nonce : Z) : Hash256 * list Z :=
  foldl (pow_round nonce) (state, pow_fill state nonce) (seqZ 0 CZR_POW_ROUNDS).

Definition pow_final (nonce : Z) (s : Hash256 * list Z) : Hash256 :=
  let state := s.1 in
  let memory := s.2 in
  let w := write_u64 nonce (write_bytes (hash_bytes state) (write_u32 CZR_POW_VERSION [])) in
  let w := foldl (fun w i => write_u64 (mem_get memory (pow_load64 state (i * 4) mod sizeZ memory)) w)
    w (seqZ 0 8) in
  sha256 (bytes_to_binary_string w).

Definition calculate_pow_hash (header : bytes) (nonce : Z) : Hash256 :=
  let w := write_u64 nonce (write_bytes header (write_u32 CZR_POW_VERSION [])) in
  let state := sha256 (bytes_to_binary_string w) in
  pow_final nonce (pow_rounds state nonce).
End PoW.

(** Unification must not run the puzzle; witnesses make it transparent again. *)
#[global] Opaque calculate_pow_hash.

(** The bit loop on one byte: the count, and whether the function returned. *)
Fixpoint count_bits_loop (b : byte) (bits : list Z) (count : Z) : Z * bool :=
  match bits with
  | [] => (count, false)
  | bit :: bits =>
      if Z.land (byteZ b) (Z.shiftl 1 bit) =? 0 then count_bits_loop b bits (u32 (count + 1))
      else (count, true)
  end.

Fixpoint count_zero_loop (bs : bytes) (count : Z) : Z :=
  match bs with
  | [] => count
  | b :: bs =>
      if byteZ b =? 0 then count_zero_loop bs (u32 (count + 8))
      else
        let '(count, returned) := count_bits_loop b [7; 6; 5; 4; 3; 2; 1; 0] count in
        if returned : bool then count else count_zero_loop bs count
  end.

Definition count_leading_zero_bits (hash : Hash256) : Z := count_zero_loop (hash_bytes hash) 0.

Definition pow_meets_difficulty (hash : Hash256) (difficulty : Z) : bool :=
  if 256 <? difficulty then false else difficulty <=? count_leading_zero_bits hash.

Section Mining.
Context {ssl : OpenSSL}.

Definition validate_pow (header : bytes) (nonce difficulty : Z) : bool :=
  pow_meets_difficulty (calculate_pow_hash header nonce) difficulty.

(** The search loop, from iteration [i]; [attempts] iterations are left. *)
Fixpoint mine_pow_loop (header : bytes) (difficulty start_nonce : Z) (attempts : nat) (i : Z)
    : option (Z * Hash256) :=
  match attempts with
  | O => None
  | S attempts =>
      if UINT64_MAX - i <? start_nonce then None
      else
        let nonce := u64 (start_nonce + i) in
        let hash := calculate_pow_hash header nonce in
        if pow_meets_difficulty hash difficulty then Some (nonce, hash)
        else mine_pow_loop header difficulty start_nonce attempts (i + 1)
  end.

(** [Some] carries [found_nonce] and [found_hash] of a [true] return. *)
Definition mine_pow (header : bytes) (difficulty start_nonce max_attempts : Z)
    : option (Z * Hash256) :=
  if 256 <? difficulty then None
  else mine_pow_loop header difficulty start_nonce (Z.to_nat max_attempts) 0.
End Mining.

(** ** Difficulty *)

Definition CZR_DIFFICULTY_WINDOW : Z := 11.
Definition CZR_TARGET_BLOCK_TIME : Z := 120.
Definition CZR_MIN_DIFFICULTY : Z := 8.
Definition CZR_INITIAL_MINING_DIFFICULTY : Z := 12.
Definition CZR_MAX_DIFFICULTY : Z := 256.
Definition CZR_EASY_FORK_HEIGHT : Z := 19.
Definition CZR_EASY_FORK_DIFFICULTY : Z := 13.

(** [std::sort] of a vector of integers. *)
Definition std_sort (l : list Z) : list Z := merge_sort Z.le l.

Definition difficulty_median_interval (intervals : list Z) : Z :=
  if negb (sizeZ intervals =? CZR_DIFFICULTY_WINDOW) then 0
  else nth (length intervals / 2) (std_sort intervals) 0.

(** [while (observed >= 2 * target && next > min) { observed /= 2; --next; }] *)
Fixpoint ease_loop (fuel : nat) (observed next : Z) : Z :=
  match fuel with
  | O => next
  | S fuel =>
      if (CZR_TARGET_BLOCK_TIME * 2 <=? observed) && (CZR_MIN_DIFFICULTY <? next)
      then ease_loop fuel (observed / 2) (next - 1) else next
  end.

(** [while (observed * 2 <= target && next < max) { observed *= 2; ++next; }] *)
Fixpoint harden_loop (fuel : nat) (observed next : Z) : Z :=
  match fuel with
  | O => next
  | S fuel =>
      if (u64 (observed * 2) <=? CZR_TARGET_BLOCK_TIME) && (next <? CZR_MAX_DIFFICULTY)
      then harden_loop fuel (u64 (observed * 2)) (next + 1) else next
  end.

Definition adjust_difficulty_window (current_difficulty : Z) (intervals : list Z) : Z :=
  if (CZR_MAX_DIFFICULTY <? current_difficulty)
     || negb (sizeZ intervals =? CZR_DIFFICULTY_WINDOW) then current_difficulty
  else
    let observed := difficulty_median_interval intervals in
    let observed := if observed =? 0 then 1 else observed in
    let min_time := CZR_TARGET_BLOCK_TIME / 4 in
    let max_time := CZR_TARGET_BLOCK_TIME * 4 in
    let observed := Z.max min_time (Z.min observed max_time) in
    if CZR_TARGET_BLOCK_TIME <? observed then ease_loop 64 observed current_difficulty
    else if observed <? CZR_TARGET_BLOCK_TIME then harden_loop 64 observed current_difficulty
    else current_difficulty.

(** ** Leading zero bits *)

(** The hash read as one big-endian integer. *)
Fixpoint be_value (bs : bytes) : Z :=
  match bs with [] => 0 | b :: bs => byteZ b * 256 ^ sizeZ bs + be_value bs end.

Lemma be_value_bound bs : 0 <= be_value bs < 256 ^ sizeZ bs.
Proof.
  induction bs as [|b bs IH]; [done|]. cbn [be_value].
  replace (sizeZ (b :: bs)) with (Z.succ (sizeZ bs)) by (unfold sizeZ; simpl; lia).
  rewrite Z.pow_succ_r by apply sizeZ_nonneg. pose proof (byteZ_bound b). nia.
Qed.

Lemma count_bits_byte b count :
  byteZ b <> 0 -> 0 <= count <= 65535 ->
  exists k, count_bits_loop b [7; 6; 5; 4; 3; 2; 1; 0] count = (count + k, true) /\
    0 <= k <= 7 /\ 2 ^ (7 - k) <= byteZ b < 2 ^ (8 - k).
Proof.
  intros Hb Hc.
  assert (forall k, 0 <= k <= 7 -> u32 (count + k + 1) = count + (k + 1)) as Hu.
  { intros k Hk. rewrite u32_small by ints. lia. }
  assert (forall n, (n <= 7)%nat -> count + Z.of_nat n = Nat.iter n (fun c => u32 (c + 1)) count) as Hi.
  { induction n as [|n IH]; intros Hn; [simpl; lia|].
    change (count + Z.of_nat (S n) = u32 (Nat.iter n (fun c => u32 (c + 1)) count + 1)).
    rewrite <- IH, Hu by lia. lia. }
  exists (7 - Z.log2 (byteZ b)).
  replace (7 - Z.log2 (byteZ b)) with (Z.of_nat (Z.to_nat (7 - Z.log2 (byteZ b)))).
  2: { clear -Hb. destruct b; vm_compute; done. }
  rewrite Hi by (clear; destruct b; vm_compute; lia).
  clear -Hb. destruct b; try (by destruct Hb); (split; [reflexivity|vm_compute; intuition discriminate]).
Qed.

Lemma pow256 n : 0 <= n -> 256 ^ n = 2 ^ (8 * n).
Proof. intros. by rewrite Z.pow_mul_r by lia. Qed.

(** Below [2 ^ (8n - count)] exactly when [count] bits lead. *)
Lemma count_zero_loop_spec bs count d :
  0 <= count -> count + 8 * sizeZ bs <= 65535 -> 0 <= d <= count + 8 * sizeZ bs ->
  d <= count_zero_loop bs count <-> (d <= count \/ be_value bs < 2 ^ (count + 8 * sizeZ bs - d)).
Proof.
  revert count. induction bs as [|b bs IH]; intros count Hc Hmax Hd.
  { unfold sizeZ in *. simpl in *. split; [auto|]. intros [|H]; [done|]. lia. }
  replace (sizeZ (b :: bs)) with (1 + sizeZ bs) in * by (unfold sizeZ; simpl; lia).
  pose proof (sizeZ_nonneg bs) as Hn. cbn [count_zero_loop be_value].
  pose proof (be_value_bound bs) as Hv. rewrite pow256 in Hv |- * by done.
  destruct (byteZ b =? 0) eqn:E; zbool.
  - rewrite E, u32_small, IH by ints. rewrite Z.mul_0_l, Z.add_0_l.
    replace (count + 8 + 8 * sizeZ bs - d) with (count + 8 * (1 + sizeZ bs) - d) by lia.
    split; [|naive_solver lia]. intros [H|H]; [|auto]. right.
    eapply Z.lt_le_trans; [apply Hv|]. apply Z.pow_le_mono_r; lia.
  - destruct (count_bits_byte b count E ltac:(lia)) as (k & -> & Hk & Hb).
    set (n := sizeZ bs) in *. set (v := be_value bs) in *.
    assert (2 ^ (8 * n + 7 - k) <= byteZ b * 2 ^ (8 * n) + v < 2 ^ (8 * n + 8 - k)) as Hr.
    { replace (8 * n + 7 - k) with (8 * n + (7 - k)) by lia.
      replace (8 * n + 8 - k) with (8 * n + (8 - k)) by lia.
      rewrite !Z.pow_add_r by lia. nia. }
    split.
    + intros H. right. eapply Z.lt_le_trans; [apply Hr|]. apply Z.pow_le_mono_r; lia.
    + intros [H|H]; [lia|]. apply Z.nlt_ge. intros Hlt.
      enough (2 ^ (count + 8 * (1 + n) - d) <= 2 ^ (8 * n + 7 - k)) by lia.
      apply Z.pow_le_mono_r; lia.
Qed.

Lemma pow_meets_difficulty_spec hash d :
  0 <= d -> pow_meets_difficulty hash d = true <-> d <= 256 /\ be_value (hash_bytes hash) < 2 ^ (256 - d).
Proof.
  intros Hd. unfold pow_meets_difficulty, count_leading_zero_bits.
  assert (sizeZ (hash_bytes hash) = 32) as Hl by (unfold sizeZ; rewrite hash_length; done).
  destruct (256 <? d) eqn:E; zbool; [intuition lia|].
  rewrite count_zero_loop_spec by lia. rewrite Hl.
  replace (0 + 8 * 32 - d) with (256 - d) by lia. split; [|tauto].
  intros [H|H]; [|done]. split; [done|]. assert (d = 0) as -> by lia.
  pose proof (be_value_bound (hash_bytes hash)) as Hb. rewrite Hl in Hb. apply Hb.
Qed.

(** ** The search *)

Section MiningSpec.
Context {ssl : OpenSSL}.

(** [nonce] solves the puzzle. *)
Definition solves (header : bytes) (difficulty nonce : Z) : Prop :=
  difficulty <= 256 /\
  be_value (hash_bytes (calculate_pow_hash header nonce)) < 2 ^ (256 - difficulty).

Lemma mine_pow_loop_spec header d s attempts i n h :
  0 <= d <= 256 -> is_u64 s -> 0 <= i ->
  mine_pow_loop header d s attempts i = Some (n, h) <->
  s + i <= n < s + i + Z.of_nat attempts /\ n <= UINT64_MAX /\
  h = calculate_pow_hash header n /\ solves header d n /\
  forall m, s + i <= m < n -> ~ solves header d m.
Proof.
  intros Hd Hs. revert i. induction attempts as [|a IH]; intros i Hi; cbn [mine_pow_loop].
  { split; [done|]. intros (? & _). lia. }
  destruct (_ <? _) eqn:E; zbool; [split; [done|]; intros (? & ? & _); ints|].
  rewrite u64_small by ints.
  destruct (pow_meets_difficulty _ d) eqn:Ep.
  - apply pow_meets_difficulty_spec in Ep; [|lia]. split.
    + intros [= <- <-]. do 2 (split; [ints|]). split; [done|]. split; [exact Ep|]. intros m Hm. lia.
    + intros (Hr & _ & -> & Hn & Hall). assert (n = s + i) as ->; [|reflexivity].
      destruct (decide (n = s + i)); [assumption|]. destruct (Hall (s + i)); [lia|exact Ep].
  - assert (~ solves header d (s + i)) as Hns.
    { intros H%pow_meets_difficulty_spec; [|lia]. congruence. }
    rewrite IH by lia. split.
    + intros (Hr & Hn & Eh & Hsol & Hall).
      split; [lia|]. do 3 (split; [assumption|]). intros m Hm.
      destruct (decide (m = s + i)) as [->|]; [assumption|]. apply Hall. lia.
    + intros (Hr & Hn & Eh & Hsol & Hall).
      assert (n <> s + i) by (intros ->; apply Hns, Hsol).
      split; [lia|]. do 3 (split; [assumption|]). intros m Hm. apply Hall. lia.
Qed.

Lemma mine_pow_spec header d s max_attempts n h :
  0 <= d -> is_u64 s -> is_u64 max_attempts ->
  mine_pow header d s max_attempts = Some (n, h) <->
  s <= n < s + max_attempts /\ n <= UINT64_MAX /\
  h = calculate_pow_hash header n /\ solves header d n /\
  forall m, s <= m < n -> ~ solves header d m.
Proof.
  intros Hd Hs Hm. unfold mine_pow. destruct (256 <? d) eqn:E; zbool.
  - split; [intros [=]|]. intros (_ & _ & _ & [? _] & _). lia.
  - rewrite mine_pow_loop_spec by (assumption || lia).
    rewrite Z2Nat.id by ints. by rewrite Z.add_0_r.
Qed.
End MiningSpec.

(** ** Retargeting *)

Lemma ease_loop_small fuel o n : o < 240 -> ease_loop fuel o n = n.
Proof.
  intros H. destruct fuel; simpl; [done|]. unfold CZR_TARGET_BLOCK_TIME.
  destruct (_ <=? _) eqn:E; zbool; [lia|done].
Qed.

Lemma ease_loop_step fuel o n :
  240 <= o -> ease_loop (S fuel) o n = if 8 <? n then ease_loop fuel (o / 2) (n - 1) else n.
Proof.
  intros H. simpl. unfold CZR_TARGET_BLOCK_TIME, CZR_MIN_DIFFICULTY.
  destruct (_ <=? _) eqn:E; zbool; [done|lia].
Qed.

Lemma harden_loop_big fuel o n : 60 < o <= 1000 -> harden_loop fuel o n = n.
Proof.
  intros H. destruct fuel; simpl; [done|]. rewrite u64_small by ints. unfold CZR_TARGET_BLOCK_TIME.
  destruct (_ <=? _) eqn:E; zbool; [lia|done].
Qed.

Lemma harden_loop_step fuel o n :
  0 <= o <= 60 -> harden_loop (S fuel) o n = if n <? 256 then harden_loop fuel (o * 2) (n + 1) else n.
Proof.
  intros H. simpl. rewrite u64_small by ints. unfold CZR_TARGET_BLOCK_TIME, CZR_MAX_DIFFICULTY.
  destruct (_ <=? _) eqn:E; zbool; [done|lia].
Qed.

(** The change of difficulty a median interval causes. *)
Definition retarget (median current : Z) : Z :=
  if 480 <=? median then (if 8 <? current then Z.max 8 (current - 2) else current)
  else if 240 <=? median then (if 8 <? current then current - 1 else current)
  else if median <=? 30 then Z.min 256 (current + 2)
  else if median <=? 60 then Z.min 256 (current + 1)
  else current.

Lemma difficulty_median_nonneg ivs :
  Forall (fun i => 0 <= i) ivs -> 0 <= difficulty_median_interval ivs.
Proof.
  intros H. unfold difficulty_median_interval. destruct (negb _); [lia|].
  unfold std_sort. rewrite <- (merge_sort_Permutation Z.le ivs) in H.
  destruct (nth_in_or_default (length ivs / 2) (merge_sort Z.le ivs) 0) as [Hin| ->]; [|lia].
  rewrite Forall_forall in H. apply H. by apply list_elem_of_In.
Qed.

Lemma adjust_difficulty_window_spec current ivs :
  0 <= current -> Forall (fun i => 0 <= i) ivs ->
  adjust_difficulty_window current ivs =
    if (current <=? 256) && (sizeZ ivs =? 11)
    then retarget (difficulty_median_interval ivs) current else current.
Proof.
  intros Hc Hi. unfold adjust_difficulty_window, CZR_DIFFICULTY_WINDOW, CZR_MAX_DIFFICULTY.
  pose proof (difficulty_median_nonneg ivs Hi) as Hm.
  generalize dependent (difficulty_median_interval ivs). intros m Hm.
  rewrite Z.ltb_antisym. destruct (current <=? 256) eqn:E1; [|done].
  destruct (sizeZ ivs =? 11); [|done]. simpl orb. cbn [negb andb]. zbool.
  unfold retarget, CZR_TARGET_BLOCK_TIME. change (120 / 4) with 30. change (120 * 4) with 480.
  set (o := Z.max _ _).
  assert (o = Z.max 30 (Z.min m 480)) as Ho by (unfold o; destruct (m =? 0) eqn:E; zbool; lia).
  clearbody o.
  destruct (480 <=? m) eqn:E480; zbool.
  { assert (o = 480) as -> by lia. cbn [Z.ltb Z.compare Pos.compare Pos.compare_cont].
    rewrite ease_loop_step by lia. destruct (8 <? current) eqn:E8; zbool; [|done].
    change (480 / 2) with 240. rewrite ease_loop_step by lia.
    destruct (8 <? current - 1) eqn:E9; zbool; [|lia].
    rewrite ease_loop_small by (change (240 / 2) with 120; lia). lia. }
  destruct (240 <=? m) eqn:E240; zbool.
  { destruct (120 <? o) eqn:E; zbool; [|lia]. rewrite ease_loop_step by lia.
    destruct (8 <? current); [|done]. rewrite ease_loop_small; [done|].
    apply Z.div_lt_upper_bound; lia. }
  destruct (m <=? 30) eqn:E30; zbool.
  { assert (o = 30) as -> by lia. cbn [Z.ltb Z.compare Pos.compare Pos.compare_cont].
    rewrite harden_loop_step by lia. destruct (current <? 256) eqn:E; zbool; [|lia].
    rewrite harden_loop_step by lia. destruct (current + 1 <? 256) eqn:E'; zbool; [|lia].
    rewrite harden_loop_big by lia. lia. }
  destruct (m <=? 60) eqn:E60; zbool.
  { destruct (120 <? o) eqn:Ea; zbool; [lia|]. destruct (o <? 120) eqn:Eb; zbool; [|lia].
    rewrite harden_loop_step by lia. destruct (current <? 256) eqn:E; zbool; [|lia].
    rewrite harden_loop_big by lia. lia. }
  destruct (120 <? o) eqn:Ea; zbool; [by apply ease_loop_small; lia|].
  destruct (o <? 120) eqn:Eb; zbool; [|done]. apply harden_loop_big. lia.
Qed.

(** ** Claims *)

(** A hash meets difficulty d exactly when d is at most 256 and the hash,
    read as a 256-bit big-endian number, is below 2^(256-d). *)
Theorem pow_target hash d :
  0 <= d ->
  pow_meets_difficulty hash d = true <->
  d <= 256 /\ be_value (hash_bytes hash) < 2 ^ (256 - d).
Proof. apply pow_meets_difficulty_spec. Qed.

Lemma pow_target_witness :
  pow_meets_difficulty (sample_hash 3) 6 = true <->
  6 <= 256 /\ be_value (hash_bytes (sample_hash 3)) < 2 ^ (256 - 6).
Proof. apply (pow_target (sample_hash 3) 6). lia. Defined.

(** The miner's loop finds the least nonce, among the attempts and below
    2^64, that solves the puzzle, and reports failure only when none does. *)
Theorem mine_pow_correct {ssl : OpenSSL} header d s max_attempts n h :
  0 <= d -> is_u64 s -> is_u64 max_attempts ->
  mine_pow header d s max_attempts = Some (n, h) <->
  s <= n < s + max_attempts /\ n <= UINT64_MAX /\
  h = calculate_pow_hash header n /\ solves header d n /\
  forall m, s <= m < n -> ~ solves header d m.
Proof. apply mine_pow_spec. Qed.

Lemma mine_pow_correct_witness :
  let h := calculate_pow_hash (ssl := Toy.ssl) [] 5 in
  mine_pow (ssl := Toy.ssl) [] 8 5 3 = Some (5, h) <->
  5 <= 5 < 5 + 3 /\ 5 <= UINT64_MAX /\ h = h /\ solves (ssl := Toy.ssl) [] 8 5 /\
  forall m, 5 <= m < 5 -> ~ solves (ssl := Toy.ssl) [] 8 m.
Proof.
  exact (mine_pow_correct (ssl := Toy.ssl) [] 8 5 3 5 (calculate_pow_hash (ssl := Toy.ssl) [] 5)
    ltac:(lia) ltac:(ints) ltac:(ints)).
Defined.

(** The retargeting rule as a table over the median of the eleven
    intervals: 480 s or more eases by two, 240 s or more by one, 60 s or less
    hardens by one, 30 s or less by two, never through the floor of 8 or the
    cap of 256; a window of another size leaves the difficulty alone. *)
Theorem adjust_difficulty_table current ivs :
  0 <= current -> Forall (fun i => 0 <= i) ivs ->
  adjust_difficulty_window current ivs =
    if (current <=? 256) && (sizeZ ivs =? 11)
    then retarget (difficulty_median_interval ivs) current else current.
Proof. apply adjust_difficulty_window_spec. Qed.

Lemma adjust_difficulty_table_witness :
  let ivs := [500; 500; 500; 500; 500; 500; 1; 1; 1; 1; 1] in
  adjust_difficulty_window 12 ivs = 10 /\
  adjust_difficulty_window 12 ivs =
    if (12 <=? 256) && (sizeZ ivs =? 11)
    then retarget (difficulty_median_interval ivs) 12 else 12.
Proof.
  split; [reflexivity|].
  apply (adjust_difficulty_table 12 [500; 500; 500; 500; 500; 500; 1; 1; 1; 1; 1]);
    [lia|]. repeat constructor; lia.
Defined.
