(* ===== verification/Block.v ===== *)
(** block.hpp: headers and blocks, their encodings, the context-free check
    [Block::validate_basic], the links of a chain and the difficulty the chain
    prescribes at a position. *)

From S2P Require Import Prelude Serialization Crypto Transaction Coinbase Consensus.
From stdpp Require Import options.
Local Open Scope Z_scope.

Record BlockHeader := mkHeader {
  version : Z; (* u32 *)
  height : Z; (* u64 *)
  previous_hash : Hash256;
  header_merkle_root : Hash256;
  witness_root : Hash256;
  timestamp : Z; (* u64 *)
  nonce : Z; (* u64 *)
  difficulty : Z (* u32 *)
}.

Record Block := mkBlock {
  header : BlockHeader;
  transactions : list Transaction
}.

#[global] Instance BlockHeader_eq_dec : EqDecision BlockHeader.
Proof. solve_decision. Defined.
#[global] Instance Block_eq_dec : EqDecision Block.
Proof. solve_decision. Defined.

(** ** BlockHeader *)

Definition header_serialize_binary (h : BlockHeader) : bytes :=
  let w := write_u64 (height h) (write_u32 (version h) []) in
  let w := write_hash (previous_hash h) w in
  let w := write_hash (header_merkle_root h) w in
  let w := write_hash (witness_root h) w in
  write_u32 (difficulty h) (write_u64 (nonce h) (write_u64 (timestamp h) w)).

Definition read_header : parser BlockHeader :=
  v ← read_u32;
  ht ← read_u64;
  prev ← read_hash_bytewise;
  mr ← read_hash_bytewise;
  wr ← read_hash_bytewise;
  ts ← read_u64;
  n ← read_u64;
  d ← read_u32;
  mret (mkHeader v ht prev mr wr ts n d).

Definition header_deserialize_binary (data : bytes) : result BlockHeader :=
  run (whole read_header "trailing bytes after block header") data.

(** ** Block encodings *)

Definition block_serialize_binary (b : Block) : result bytes :=
  let w := write_bytes (header_serialize_binary (header b)) [] in
  throw_if (UINT32_MAX <? sizeZ (transactions b)) "too many block transactions" ;;
  let w := write_u32 (u32 (sizeZ (transactions b))) w in
  foldM_r (fun w tx => bs ← tx_serialize_binary tx; Ok (write_bytes bs w)) w (transactions b).

Definition write_block_transaction (w : BinaryWriter) (tx : Transaction) : result BinaryWriter :=
  serialized_tx ← tx_serialize_full_binary tx;
  throw_if (UINT32_MAX <? sizeZ serialized_tx) "serialized transaction too large" ;;
  Ok (write_bytes serialized_tx (write_u32 (u32 (sizeZ serialized_tx)) w)).

Definition block_serialize_full_binary (b : Block) : result bytes :=
  let w := write_bytes (header_serialize_binary (header b)) [] in
  throw_if (UINT32_MAX <? sizeZ (transactions b)) "too many block transactions" ;;
  let w := write_u32 (u32 (sizeZ (transactions b))) w in
  foldM_r write_block_transaction w (transactions b).

Definition read_block_transaction : parser Transaction :=
  read_sized 1000000 "serialized transaction too large" tx_deserialize_full.

Definition read_block_full : parser Block :=
  h ← read_header;
  transaction_count ← read_u32;
  _ ← reject_if (1000000 <? transaction_count) "too many block transactions";
  txs ← read_n (Z.to_nat transaction_count) read_block_transaction;
  mret (mkBlock h txs).

Definition block_deserialize_full (data : bytes) : result Block :=
  run (whole read_block_full "trailing bytes after full block") data.

Section BlockOps.
Context {ssl : OpenSSL}.

Definition header_hash (h : BlockHeader) : Hash256 :=
  sha256 (bytes_to_binary_string (header_serialize_binary h)).

Definition block_hash (b : Block) : Hash256 := header_hash (header b).

Definition calculate_merkle_root (b : Block) : result Hash256 :=
  txids ← mapM_r txid (transactions b); Ok (merkle_root txids).

Definition calculate_witness_root (b : Block) : result Hash256 :=
  witness_ids ← mapM_r wtxid (transactions b); Ok (merkle_root witness_ids).

Definition update_merkle_root (b : Block) : result Block :=
  mr ← calculate_merkle_root b;
  wr ← calculate_witness_root b;
  let h := header b in
  Ok (mkBlock (mkHeader (version h) (height h) (previous_hash h) mr wr (timestamp h) (nonce h)
                 (difficulty h)) (transactions b)).

Definition validate_witness_root (b : Block) : result bool :=
  wr ← calculate_witness_root b; Ok (hash_eqb (witness_root (header b)) wr).

Definition validate_merkle_root (b : Block) : result bool :=
  mr ← calculate_merkle_root b; Ok (hash_eqb (header_merkle_root (header b)) mr).

(** The header with the nonce cleared. *)
Definition pow_header (b : Block) : bytes :=
  let h := header b in
  header_serialize_binary
    (mkHeader (version h) (height h) (previous_hash h) (header_merkle_root h) (witness_root h)
       (timestamp h) 0 (difficulty h)).

Definition pow_hash (b : Block) : Hash256 := calculate_pow_hash (pow_header b) (nonce (header b)).

Definition block_validate_pow (b : Block) : bool :=
  validate_pow (pow_header b) (nonce (header b)) (difficulty (header b)).

(** One transaction of a genesis block: the marker without inputs, or an
    ordinary transaction. *)
Definition genesis_transaction_ok (tx : Transaction) : bool :=
  if is_coinbase_transaction tx then false
  else if bool_decide (inputs tx = []) then
    match outputs tx with
    | [output] =>
        if negb (amount output =? 1) then false
        else if bool_decide (recipient output = []) then false
        else if negb (witness_empty (witness tx)) then false
        else true
    | _ => false
    end
  else tx_validate tx.

Definition validate_basic (b : Block) : result bool :=
  if version (header b) =? 0 then Ok false
  else if negb (block_validate_pow b) then Ok false
  else if height (header b) =? 0 then
    if negb (forallb (fun byte => bool_decide (byte = Byte.x00)) (hash_bytes (previous_hash (header b))))
    then Ok false
    else if negb (forallb genesis_transaction_ok (transactions b)) then Ok false
    else and_r (Ok (negb (bool_decide (transactions b = []))))
           (and_r (validate_merkle_root b) (validate_witness_root b))
  else if negb (validate_coinbase_position_and_reward (transactions b) (height (header b)))
  then Ok false
  else if negb (forallb tx_validate (tail (transactions b))) then Ok false
  else and_r (validate_merkle_root b) (validate_witness_root b).
End BlockOps.

(** ** The prescribed difficulty *)

(** The intervals between the blocks [first .. first + n - 1] and their
    predecessors; [None] when a timestamp decreases or block 0 is reached. *)
Fixpoint window_intervals (chain : list Block) (first n : nat) : option (list Z) :=
  match n with
  | O => Some []
  | S n =>
      if bool_decide (first = 0%nat) then None
      else
        match chain !! first, chain !! (first - 1)%nat with
        | Some current, Some previous =>
            if timestamp (header current) <? timestamp (header previous) then None
            else
              rest ← window_intervals chain (S first) n;
              Some (timestamp (header current) - timestamp (header previous) :: rest)
        | _, _ => None
        end
  end.

Definition expected_difficulty_at_position (chain : list Block) (position : nat) : Z :=
  if (CZR_EASY_FORK_HEIGHT <=? Z.of_nat position)
     && (Z.of_nat position <? CZR_EASY_FORK_HEIGHT + CZR_DIFFICULTY_WINDOW)
  then CZR_EASY_FORK_DIFFICULTY
  else if 40 <=? Z.of_nat position then 8
  else if bool_decide (position = 0%nat) || bool_decide (length chain < position)%nat
  then CZR_INITIAL_MINING_DIFFICULTY
  else
    match chain !! (position - 1)%nat with
    | None => CZR_INITIAL_MINING_DIFFICULTY
    | Some previous =>
        if (height (header previous) =? 0) && (difficulty (header previous) =? 0)
        then CZR_INITIAL_MINING_DIFFICULTY
        else if Z.of_nat position <? CZR_DIFFICULTY_WINDOW + 1
        then difficulty (header previous)
        else
          match window_intervals chain (position - Z.to_nat CZR_DIFFICULTY_WINDOW)
                  (Z.to_nat CZR_DIFFICULTY_WINDOW) with
          | None => difficulty (header previous)
          | Some intervals => adjust_difficulty_window (difficulty (header previous)) intervals
          end
    end.

Definition expected_next_difficulty (chain : list Block) : Z :=
  expected_difficulty_at_position chain (length chain).

(** ** Checks against a history *)

Section History.
Context {ssl : OpenSSL}.

Definition validate_difficulty_against_history (b : Block) (previous_difficulty : Z)
    (intervals : list Z) : bool :=
  difficulty (header b) =? adjust_difficulty_window previous_difficulty intervals.

Definition validate_against_history (b : Block) (previous_difficulty : Z) (intervals : list Z)
    : result bool :=
  and_r (validate_basic b)
    (Ok (validate_difficulty_against_history b previous_difficulty intervals)).

Definition validate_against_chain_history (b : Block) (chain : list Block) : result bool :=
  if sizeZ chain <? CZR_DIFFICULTY_WINDOW + 1 then Ok false
  else and_r (validate_basic b)
    match last chain,
          window_intervals chain (length chain - Z.to_nat CZR_DIFFICULTY_WINDOW)
            (Z.to_nat CZR_DIFFICULTY_WINDOW) with
    | Some previous, Some intervals =>
        Ok (validate_difficulty_against_history b (difficulty (header previous)) intervals)
    | _, _ => Ok false
    end.

Definition validate_against_chain (b : Block) (chain : list Block) : result bool :=
  match last chain with
  | None => Ok false
  | Some previous =>
      if negb (height (header b) =? u64 (height (header previous) + 1)) then Ok false
      else if negb (hash_eqb (previous_hash (header b)) (block_hash previous)) then Ok false
      else if timestamp (header b) <? timestamp (header previous) then Ok false
      else if sizeZ chain <? CZR_DIFFICULTY_WINDOW + 1 then Ok false
      else and_r (validate_basic b)
             (Ok (difficulty (header b) =? expected_next_difficulty chain))
  end.

Definition validate_block_link (previous current : Block) : result bool :=
  and_r (validate_basic previous) (and_r (validate_basic current)
    (if negb (height (header current) =? u64 (height (header previous) + 1)) then Ok false
     else Ok (hash_eqb (previous_hash (header current)) (block_hash previous)))).

(** The loop over consecutive pairs. *)
Fixpoint validate_links (previous : Block) (chain : list Block) : result bool :=
  match chain with
  | [] => Ok true
  | current :: chain =>
      and_r (validate_block_link previous current) (validate_links current chain)
  end.

Definition validate_block_chain (chain : list Block) : result bool :=
  match chain with
  | [] => Ok false
  | genesis :: chain =>
      and_r (validate_basic genesis)
        (if negb (height (header genesis) =? 0) then Ok false
         else validate_links genesis chain)
  end.
End History.

(** ** Encodings *)

Definition header_typed (h : BlockHeader) : Prop :=
  is_u32 (version h) /\ is_u64 (height h) /\ is_u64 (timestamp h) /\ is_u64 (nonce h) /\
  is_u32 (difficulty h).
Definition block_typed (b : Block) : Prop :=
  header_typed (header b) /\ Forall tx_typed (transactions b).

(** What [deserialize_full] accepts. *)
Definition block_full_ok (b : Block) : Prop :=
  header_typed (header b) /\
  Forall (fun tx => tx_full_ok tx /\ sizeZ (enc_tx_full tx) <= 1000000) (transactions b) /\
  sizeZ (transactions b) <= 1000000.

#[global] Instance header_typed_dec h : Decision (header_typed h) :=
  ltac:(unfold header_typed; apply _).
#[global] Instance block_typed_dec b : Decision (block_typed b) :=
  ltac:(unfold block_typed; apply _).
#[global] Instance block_full_ok_dec b : Decision (block_full_ok b) :=
  ltac:(unfold block_full_ok; apply _).

Definition enc_header (h : BlockHeader) : bytes :=
  le_encode 4 (version h) ++ le_encode 8 (height h) ++ hash_bytes (previous_hash h) ++
  hash_bytes (header_merkle_root h) ++ hash_bytes (witness_root h) ++
  le_encode 8 (timestamp h) ++ le_encode 8 (nonce h) ++ le_encode 4 (difficulty h).
Definition enc_block (b : Block) : bytes :=
  enc_header (header b) ++ le_encode 4 (sizeZ (transactions b)) ++
  mjoin ((fun tx => enc_string (enc_tx_full tx)) <$> transactions b).

Lemma header_serialize_encode h : header_serialize_binary h = enc_header h.
Proof.
  unfold header_serialize_binary, enc_header. autorewrite with writer.
  by rewrite <- !app_assoc, app_nil_l.
Qed.

Lemma enc_header_length h : sizeZ (enc_header h) = 128.
Proof.
  unfold enc_header, sizeZ. rewrite !length_app, !le_encode_length, !hash_length. done.
Qed.

Ltac header_side := unfold header_typed in *; naive_solver.

#[global] Instance header_codec : Codec read_header enc_header header_typed.
Proof.
  eapply codec_enc_ext.
  - codec_field version header_side. codec_field height header_side.
    codec_field previous_hash done. codec_field header_merkle_root done.
    codec_field witness_root done. codec_field timestamp header_side.
    codec_field nonce header_side. codec_field difficulty header_side.
    apply codec_ret. intros h. split.
    + destruct h. intros. destruct_and?. by simplify_eq/=.
    + intros ->. unfold header_typed. simpl. naive_solver.
  - intros. cbn beta. unfold enc_header. by rewrite app_nil_r.
Qed.

Lemma tx_deserialize_full_enc tx : tx_full_ok tx -> tx_deserialize_full (enc_tx_full tx) = Ok tx.
Proof. by apply (run_whole_complete _ _ _ _ _ tx_full_codec). Qed.
Lemma tx_deserialize_full_sound bs tx :
  tx_deserialize_full bs = Ok tx -> tx_full_ok tx /\ bs = enc_tx_full tx.
Proof. apply (run_whole_sound _ _ _ _ _ _ tx_full_codec). Qed.

#[global] Instance block_transaction_codec :
  Codec read_block_transaction (fun tx => enc_string (enc_tx_full tx))
    (fun tx => tx_full_ok tx /\ sizeZ (enc_tx_full tx) <= 1000000).
Proof.
  apply read_sized_codec; [ints| |].
  - apply tx_deserialize_full_enc.
  - apply tx_deserialize_full_sound.
Qed.

Ltac block_side :=
  unfold block_full_ok in *; destruct_and?; simplify_eq;
  first
    [ done
    | eapply sizeZ_range; [eassumption|ints]
    | apply Z.ltb_ge; done || lia
    | split; [done|]; unfold sizeZ in *; lia ].

#[global] Instance block_codec : Codec read_block_full enc_block block_full_ok.
Proof.
  eapply codec_enc_ext.
  - codec_field header block_side.
    codec_field (fun b => sizeZ (transactions b)) block_side. codec_check block_side.
    codec_field transactions block_side.
    apply codec_ret. intros b. split.
    + destruct b. intros. destruct_and?. by simplify_eq/=.
    + intros ->. zbool. unfold block_full_ok, sizeZ in *. simpl. destruct_and?.
      split_and!; done || ints.
  - intros. cbn beta. unfold enc_block. by rewrite app_nil_r.
Qed.

Lemma write_block_transaction_encode w tx :
  tx_full_ok tx -> sizeZ (enc_tx_full tx) <= UINT32_MAX ->
  write_block_transaction w tx = Ok (w ++ enc_string (enc_tx_full tx)).
Proof.
  intros Ht Hs. unfold write_block_transaction, throw_if.
  rewrite tx_serialize_full_encode by done. cbn [mbind result_bind].
  rewrite (proj2 (Z.ltb_ge _ _)) by done. cbn [mbind result_bind].
  rewrite sizeZ_u32 by done. autorewrite with writer.
  unfold write_bytes, enc_string. by rewrite <- app_assoc.
Qed.

Lemma block_serialize_encode b :
  sizeZ (transactions b) <= UINT32_MAX ->
  Forall (fun tx => tx_full_ok tx /\ sizeZ (enc_tx_full tx) <= UINT32_MAX) (transactions b) ->
  block_serialize_full_binary b = Ok (enc_block b).
Proof.
  intros Hn Ht. unfold block_serialize_full_binary, throw_if.
  rewrite (proj2 (Z.ltb_ge _ _)) by done. cbn [mbind result_bind].
  rewrite sizeZ_u32, header_serialize_encode by done.
  rewrite (foldM_write _ (fun tx => enc_string (enc_tx_full tx))).
  - autorewrite with writer. unfold write_bytes, enc_block. by rewrite <- !app_assoc, app_nil_l.
  - eapply Forall_impl; [exact Ht|]. intros tx [? ?] w. by apply write_block_transaction_encode.
Qed.

Lemma block_full_ok_serialize b :
  block_full_ok b -> block_serialize_full_binary b = Ok (enc_block b).
Proof.
  intros (_ & Ht & Hn). apply block_serialize_encode; [ints|].
  eapply Forall_impl; [exact Ht|]. intros tx [? ?]. split; [done|ints].
Qed.

Lemma enc_header_inj h1 h2 :
  header_typed h1 -> header_typed h2 -> enc_header h1 = enc_header h2 -> h1 = h2.
Proof.
  intros H1 H2 E.
  pose proof (run_whole_complete _ _ _ "" h1 header_codec H1) as R1.
  rewrite E, (run_whole_complete _ _ _ "" h2 header_codec H2) in R1. congruence.
Qed.

(** ** What a block hash commits to *)

Section Commitment.
Context {ssl : OpenSSL}.

Lemma header_hash_inj h1 h2 :
  header_typed h1 -> header_typed h2 -> header_hash h1 = header_hash h2 ->
  h1 = h2 \/ sha256_collision.
Proof.
  unfold header_hash, bytes_to_binary_string. rewrite !header_serialize_encode.
  intros H1 H2 E. destruct (decide (enc_header h1 = enc_header h2)).
  - left. by apply enc_header_inj.
  - right. by eexists _, _.
Qed.

Lemma wtxid_inj tx1 tx2 :
  tx_full_ok tx1 -> tx_full_ok tx2 -> wtxid tx1 = wtxid tx2 -> tx1 = tx2 \/ sha256_collision.
Proof.
  unfold wtxid. intros H1 H2. rewrite !tx_serialize_full_encode by done. intros [= E].
  destruct (decide (enc_tx_full tx1 = enc_tx_full tx2)) as [Ee|].
  - left. pose proof (tx_deserialize_full_enc tx1 H1) as R.
    rewrite Ee, tx_deserialize_full_enc in R by done. congruence.
  - right. by eexists _, _.
Qed.

Lemma wtxids_inj l1 l2 k :
  Forall tx_full_ok l1 -> Forall tx_full_ok l2 ->
  mapM_r wtxid l1 = Ok k -> mapM_r wtxid l2 = Ok k -> l1 = l2 \/ sha256_collision.
Proof.
  rewrite !mapM_r_Forall2. intros F1 F2 M1. revert l2 F2.
  induction M1 as [|tx id l1 k E1 M1 IH]; intros l2 F2 M2; inversion M2; subst; [auto|].
  apply Forall_cons in F1 as [? ?], F2 as [? ?].
  destruct (wtxid_inj tx x) as [->|]; [done..|congruence| |auto].
  destruct (IH ltac:(done) l) as [->|]; auto.
Qed.

(** The roots of an accepted block are those of its transactions. *)
Lemma validate_basic_roots b :
  validate_basic b = Ok true ->
  validate_merkle_root b = Ok true /\ validate_witness_root b = Ok true.
Proof.
  unfold validate_basic. intros H.
  repeat match type of H with
         | (if ?c then _ else _) = _ => destruct c; [try discriminate H|try discriminate H]
         end; result_inv; done.
Qed.

Lemma validate_witness_root_spec b :
  validate_witness_root b = Ok true <->
  exists ids, mapM_r wtxid (transactions b) = Ok ids /\ witness_root (header b) = merkle_root ids.
Proof.
  unfold validate_witness_root, calculate_witness_root, hash_eqb.
  destruct (mapM_r wtxid _) as [ids|]; cbn [mbind result_bind]; [|naive_solver].
  case_bool_decide; naive_solver.
Qed.

Lemma block_hash_inj b1 b2 :
  block_full_ok b1 -> block_full_ok b2 ->
  validate_witness_root b1 = Ok true -> validate_witness_root b2 = Ok true ->
  length (transactions b1) = length (transactions b2) ->
  block_hash b1 = block_hash b2 -> b1 = b2 \/ sha256_collision.
Proof.
  intros (T1 & O1 & _) (T2 & O2 & _) (k1 & M1 & R1)%validate_witness_root_spec
    (k2 & M2 & R2)%validate_witness_root_spec Hl E.
  destruct (header_hash_inj _ _ T1 T2 E) as [Eh|]; [|auto].
  assert (length k1 = length k2) as Hk by (apply mapM_r_length in M1, M2; congruence).
  destruct (merkle_root_inj k1 k2 Hk) as [->|]; [congruence| |auto].
  destruct (wtxids_inj (transactions b1) (transactions b2) k2) as [Et|]; auto.
  - eapply Forall_impl; [exact O1|]. by intros ? [].
  - eapply Forall_impl; [exact O2|]. by intros ? [].
  - left. destruct b1, b2; simpl in *. congruence.
Qed.

(** Every block names the hash of its predecessor. *)
Definition linked (chain : list Block) : Prop :=
  forall i p c, chain !! i = Some p -> chain !! S i = Some c ->
    previous_hash (header c) = block_hash p.

Lemma linked_snoc_inv chain b : linked (chain ++ [b]) -> linked chain.
Proof.
  intros H i p c Hp Hc. apply (H i); by apply lookup_app_l_Some.
Qed.

Lemma linked_last chain p b :
  linked (chain ++ [p] ++ [b]) -> previous_hash (header b) = block_hash p.
Proof.
  intros H. apply (H (length chain)).
  - by apply list_lookup_middle.
  - rewrite app_assoc. replace (S (length chain)) with (length (chain ++ [p]))
      by (rewrite length_app; simpl; lia). by apply list_lookup_middle.
Qed.

Lemma linked_tip_inj c1 c2 b1 b2 :
  linked (c1 ++ [b1]) -> linked (c2 ++ [b2]) ->
  Forall (fun b => header_typed (header b)) (c1 ++ [b1]) ->
  Forall (fun b => header_typed (header b)) (c2 ++ [b2]) ->
  length c1 = length c2 -> block_hash b1 = block_hash b2 ->
  header <$> c1 ++ [b1] = header <$> c2 ++ [b2] \/ sha256_collision.
Proof.
  revert c2 b1 b2. induction c1 as [|p1 c1 IH] using rev_ind;
    intros c2 b1 b2 L1 L2 T1 T2 Hl E; destruct c2 as [|p2 c2 _] using rev_ind;
    rewrite ?length_app in Hl; simpl in Hl; try lia.
  - inversion T1; inversion T2; subst.
    destruct (header_hash_inj (header b1) (header b2)) as [Eh|]; auto.
    left. simpl. by rewrite Eh.
  - pose proof T1 as T1'. pose proof T2 as T2'.
    apply Forall_app in T1' as [T1p [T1b _]%Forall_cons].
    apply Forall_app in T2' as [T2p [T2b _]%Forall_cons].
    destruct (header_hash_inj (header b1) (header b2)) as [Eh|]; auto.
    rewrite <- app_assoc in L1, L2.
    pose proof (linked_last _ _ _ L1) as P1. pose proof (linked_last _ _ _ L2) as P2.
    rewrite app_assoc in L1, L2.
    destruct (IH c2 p1 p2) as [IH'|]; [by eapply linked_snoc_inv..|done|done|lia|congruence| |auto].
    left. rewrite !(fmap_app _ (_ ++ _)), IH'. simpl. by rewrite Eh.
Qed.

Lemma validate_links_linked p l :
  validate_links p l = Ok true -> linked (p :: l).
Proof.
  revert p. induction l as [|c l IH]; intros p H i q d Hq Hd; simpl in Hd.
  - by rewrite lookup_nil in Hd.
  - simpl in H. apply and_r_true in H as [Hl Hr]. destruct i as [|i]; simplify_eq/=.
    + unfold validate_block_link, hash_eqb in Hl. result_inv. done.
    + exact (IH c Hr i q d Hq Hd).
Qed.
End Commitment.

(** ** Facts about the prescribed difficulty *)

Lemma window_intervals_app c1 c2 first n :
  (first + n <= length c1)%nat ->
  window_intervals (c1 ++ c2) first n = window_intervals c1 first n.
Proof.
  revert first. induction n as [|n IH]; intros first H; [done|]. cbn [window_intervals].
  rewrite !lookup_app_l by lia. by rewrite IH by lia.
Qed.

(** The difficulty at a position depends on the blocks below it only. *)
Lemma expected_difficulty_app c1 c2 position :
  (position <= length c1)%nat ->
  expected_difficulty_at_position (c1 ++ c2) position = expected_difficulty_at_position c1 position.
Proof.
  intros H. unfold expected_difficulty_at_position.
  destruct (_ && _); [done|]. destruct (40 <=? _); [done|].
  rewrite length_app, (bool_decide_eq_false_2 (_ + _ < _)%nat), (bool_decide_eq_false_2 (_ < _)%nat) by lia.
  case_bool_decide; [done|]. cbn [orb]. rewrite lookup_app_l by lia.
  destruct (c1 !! _) as [p|]; [|done]. destruct (_ && _); [done|].
  destruct (_ <? _) eqn:E; [done|]. unfold CZR_DIFFICULTY_WINDOW in *. zbool.
  by rewrite window_intervals_app by lia.
Qed.

Lemma window_intervals_nonneg chain first n ivs :
  window_intervals chain first n = Some ivs -> Forall (fun i => 0 <= i) ivs.
Proof.
  revert first ivs. induction n as [|n IH]; intros first ivs; cbn [window_intervals].
  { by intros [= <-]. }
  case_bool_decide; [done|]. destruct (chain !! first) as [c|]; [|done].
  destruct (chain !! _) as [p|]; [|done]. destruct (_ <? _) eqn:E; [done|]. zbool.
  intros (k & Hk & [= <-])%bind_Some. constructor; [lia|]. by eapply IH.
Qed.

Lemma retarget_range median current :
  8 <= current <= 256 -> 8 <= retarget median current <= 256.
Proof.
  intros H. unfold retarget. destruct (8 <? current) eqn:E; zbool; repeat destruct (_ <=? _); lia.
Qed.

(** A position past the genesis whose predecessors are in range. *)
Lemma expected_difficulty_range chain position :
  (0 < position <= length chain)%nat ->
  (forall i b, chain !! i = Some b -> (i < position)%nat ->
     (height (header b) = 0 /\ difficulty (header b) = 0) \/ 8 <= difficulty (header b) <= 256) ->
  8 <= expected_difficulty_at_position chain position <= 256.
Proof.
  intros [Hp Hl] Hc. unfold expected_difficulty_at_position, CZR_EASY_FORK_DIFFICULTY,
    CZR_INITIAL_MINING_DIFFICULTY.
  destruct (_ && _); [lia|]. destruct (40 <=? _); [lia|].
  destruct (bool_decide _ || _); [lia|].
  destruct (chain !! (position - 1)%nat) as [p|] eqn:Ep; [|lia].
  apply Hc in Ep; [|lia]. destruct (_ && _) eqn:Eg; [lia|].
  assert (8 <= difficulty (header p) <= 256) as Hd.
  { destruct Ep as [[E1 E2]|]; [|done]. by rewrite E1, E2 in Eg. }
  destruct (_ <? _); [done|]. destruct (window_intervals _ _ _) as [ivs|] eqn:Ew; [|done].
  apply window_intervals_nonneg in Ew. rewrite adjust_difficulty_window_spec by (done || lia).
  destruct ((_ <=? _) && _); [by apply retarget_range|done].
Qed.

(** ** Claims *)

(** The full encoding of a block round-trips within the protocol limits. *)
Theorem block_full_roundtrip b :
  block_full_ok b ->
  exists bs, block_serialize_full_binary b = Ok bs /\ block_deserialize_full bs = Ok b.
Proof.
  intros H. exists (enc_block b). split; [by apply block_full_ok_serialize|].
  by apply (run_whole_complete _ _ _ _ _ block_codec).
Qed.

(** The full encoding of a block is canonical: accepted bytes are the
    serialization of the block they decode to, so a block has one wire form. *)
Theorem block_full_canonical bs b :
  block_deserialize_full bs = Ok b ->
  block_full_ok b /\ block_serialize_full_binary b = Ok bs.
Proof.
  intros H. apply (run_whole_sound _ enc_block block_full_ok) in H as [Hok ->]; [|apply _].
  split; [done|]. by apply block_full_ok_serialize.
Qed.

Section BlockClaims.
Context {ssl : OpenSSL}.

(** The block hash commits to the whole block, witnesses included: two
    accepted blocks with as many transactions and the same hash are equal,
    unless SHA-256 collides. *)
Theorem block_hash_binding b1 b2 :
  block_full_ok b1 -> block_full_ok b2 ->
  validate_basic b1 = Ok true -> validate_basic b2 = Ok true ->
  length (transactions b1) = length (transactions b2) ->
  block_hash b1 = block_hash b2 -> b1 = b2 \/ sha256_collision.
Proof.
  intros O1 O2 [_ W1]%validate_basic_roots [_ W2]%validate_basic_roots.
  by apply block_hash_inj.
Qed.

(** The tip hash commits to the history: two chains of one length that
    [validate_block_chain] accepts and whose last blocks have the same hash
    have the same headers at every height, unless SHA-256 collides. *)
Theorem chain_tip_binding c1 c2 b1 b2 :
  validate_block_chain (c1 ++ [b1]) = Ok true -> validate_block_chain (c2 ++ [b2]) = Ok true ->
  Forall (fun b => header_typed (header b)) (c1 ++ [b1]) ->
  Forall (fun b => header_typed (header b)) (c2 ++ [b2]) ->
  length c1 = length c2 -> block_hash b1 = block_hash b2 ->
  header <$> c1 ++ [b1] = header <$> c2 ++ [b2] \/ sha256_collision.
Proof.
  intros V1 V2. apply linked_tip_inj.
  - unfold validate_block_chain in V1. destruct (c1 ++ [b1]); [done|].
    result_inv. by apply validate_links_linked.
  - unfold validate_block_chain in V2. destruct (c2 ++ [b2]); [done|].
    result_inv. by apply validate_links_linked.
Qed.
End BlockClaims.

(** ** Witnesses *)

(** A block whose roots are computed from its transactions. *)
Definition sealed (b : Block) : Block :=
  match update_merkle_root (ssl := Toy.ssl) b with Ok b => b | Throw _ => b end.

Definition sample_genesis : Block := Eval vm_compute in
  sealed (mkBlock (mkHeader 1 0 zero_hash zero_hash zero_hash 0 0 0)
    [mkTx 1 [] [] [mkOutput 1 (str "burn")] (mkWitnessSet [])]).
Definition sample_block : Block := Eval vm_compute in
  sealed (mkBlock (mkHeader 1 1 (block_hash (ssl := Toy.ssl) sample_genesis)
                     zero_hash zero_hash 60 0 12)
    (match make_coinbase_transaction 1 (str "miner") 1 with Ok tx => [tx] | Throw _ => [] end)).

#[local] Transparent calculate_pow_hash.

Lemma sample_genesis_valid : validate_basic (ssl := Toy.ssl) sample_genesis = Ok true.
Proof. lazy. reflexivity. Qed.
Lemma sample_block_valid : validate_basic (ssl := Toy.ssl) sample_block = Ok true.
Proof. lazy. reflexivity. Qed.
Lemma sample_block_ok : block_full_ok sample_block.
Proof. decide_vm. Qed.

Lemma block_full_roundtrip_witness :
  exists bs, block_serialize_full_binary sample_block = Ok bs /\
    block_deserialize_full bs = Ok sample_block.
Proof. apply (block_full_roundtrip sample_block sample_block_ok). Defined.

Lemma block_full_canonical_witness :
  block_full_ok sample_block /\
  block_serialize_full_binary sample_block = Ok (enc_block sample_block).
Proof.
  apply (block_full_canonical (enc_block sample_block) sample_block).
  vm_compute. reflexivity.
Defined.

Lemma block_hash_binding_witness :
  sample_block = sample_block \/ sha256_collision (ssl := Toy.ssl).
Proof.
  apply (block_hash_binding (ssl := Toy.ssl) sample_block sample_block sample_block_ok
    sample_block_ok sample_block_valid sample_block_valid eq_refl eq_refl).
Defined.

Lemma chain_tip_binding_witness :
  header <$> [sample_genesis; sample_block] = header <$> [sample_genesis; sample_block] \/
  sha256_collision (ssl := Toy.ssl).
Proof.
  apply (chain_tip_binding (ssl := Toy.ssl) [sample_genesis] [sample_genesis] sample_block sample_block).
  1, 2: lazy; reflexivity.
  1, 2: decide_vm.
  1, 2: reflexivity.
Defined.
