(* ===== verification/NetworkParams.v ===== *)
(** network_params.hpp: the genesis block of each network, the pinned genesis
    hashes and the network-identity check. *)

From S2P Require Import Prelude Serialization Crypto Transaction Coinbase Consensus Block.
From stdpp Require Import options.
Local Open Scope Z_scope.

Definition NETWORK_MAINNET : Z := 1.
Definition NETWORK_TESTNET : Z := 2.

Definition GENESIS_BURN_RECIPIENT : bytes := str "CAESAR_GENESIS_BURN".
Definition TESTNET_BURN_RECIPIENT : bytes := str "CAESAR_TESTNET_GENESIS_BURN".

Section Genesis.
Context {ssl : OpenSSL}.

Definition build_canonical_genesis (burn_recipient : bytes) : result Block :=
  let tx := mkTx 1 [] [] [mkOutput 1 burn_recipient] (mkWitnessSet []) in
  let genesis := mkBlock (mkHeader 1 0 zero_hash zero_hash zero_hash 0 0 0) [tx] in
  update_merkle_root genesis.

(** The overload without an argument. *)
Definition build_mainnet_genesis : result Block := build_canonical_genesis GENESIS_BURN_RECIPIENT.
Definition build_testnet_genesis : result Block := build_canonical_genesis TESTNET_BURN_RECIPIENT.

Definition canonical_genesis_hash : result Hash256 :=
  g ← build_mainnet_genesis; Ok (block_hash g).
Definition testnet_genesis_hash : result Hash256 :=
  g ← build_testnet_genesis; Ok (block_hash g).
End Genesis.

Definition GENESIS_HASH_MAINNET : Hash256 := hash_of_bytes (u8 <$> [
  0x7e; 0x02; 0x6b; 0xb3; 0x94; 0xaf; 0xf5; 0x04; 0x7e; 0x02; 0x61; 0x30; 0xbf; 0xe0; 0xa1; 0x4d;
  0x6f; 0xba; 0xa9; 0x71; 0x69; 0x1b; 0xe6; 0x63; 0x05; 0x71; 0x5f; 0x48; 0xf6; 0x12; 0xa5; 0xbc]).

Definition GENESIS_HASH_TESTNET : Hash256 := hash_of_bytes (u8 <$> [
  0xba; 0x67; 0xed; 0x03; 0x63; 0x85; 0x8f; 0xa4; 0x50; 0x5f; 0xd0; 0xf6; 0xff; 0xea; 0x13; 0x62;
  0xf6; 0xe7; 0x9b; 0x59; 0xed; 0x4d; 0x0d; 0xd9; 0x33; 0x23; 0xe4; 0xb5; 0x49; 0xe3; 0x8e; 0xc3]).

(** [None] is the null pointer. *)
Definition genesis_hash_for_network (network : Z) : option Hash256 :=
  if network =? NETWORK_MAINNET then Some GENESIS_HASH_MAINNET
  else if network =? NETWORK_TESTNET then Some GENESIS_HASH_TESTNET
  else None.

Definition validate_genesis_network_identity {ssl : OpenSSL} (genesis : Block)
    (expected : option Hash256) : bool :=
  match expected with
  | None => true
  | Some h => hash_eqb (block_hash genesis) h
  end.

(** ** Lemmas *)

Lemma pow_zero_difficulty hash : pow_meets_difficulty hash 0 = true.
Proof.
  apply pow_meets_difficulty_spec; [lia|]. split; [lia|].
  pose proof (be_value_bound (hash_bytes hash)) as H. unfold sizeZ in H.
  rewrite hash_length in H. apply H.
Qed.

Section GenesisFacts.
Context {ssl : OpenSSL}.

Lemma genesis_tx_ok rcpt :
  sizeZ rcpt <= UINT32_MAX ->
  tx_full_ok (mkTx 1 [] [] [mkOutput 1 rcpt] (mkWitnessSet [])).
Proof.
  intros H. unfold tx_full_ok, tx_base_ok, output_ok, output_typed, sizeZ in *. simpl.
  split_and!; try constructor; try constructor; simpl; try ints; try constructor.
Qed.

Lemma build_canonical_genesis_total rcpt :
  sizeZ rcpt <= UINT32_MAX -> exists g, build_canonical_genesis rcpt = Ok g.
Proof.
  intros H%genesis_tx_ok. unfold build_canonical_genesis, update_merkle_root,
    calculate_merkle_root, calculate_witness_root, txid, wtxid. cbn [transactions mapM_r].
  rewrite tx_serialize_encode by apply H. rewrite tx_serialize_full_encode by apply H.
  by eexists.
Qed.

Lemma build_canonical_genesis_basic rcpt g :
  rcpt <> [] -> build_canonical_genesis rcpt = Ok g ->
  height (header g) = 0 /\ previous_hash (header g) = zero_hash /\ difficulty (header g) = 0 /\
  transactions g = [mkTx 1 [] [] [mkOutput 1 rcpt] (mkWitnessSet [])] /\
  validate_basic g = Ok true.
Proof.
  intros Hr H. unfold build_canonical_genesis, update_merkle_root in H.
  apply bind_Ok in H as (mr & Emr & (wr & Ewr & [= <-])%bind_Ok). cbn [header transactions height previous_hash difficulty].
  split_and!; try reflexivity.
  unfold validate_basic, block_validate_pow, validate_pow. cbn [header version difficulty height].
  rewrite pow_zero_difficulty. cbn [Z.eqb negb].
  unfold validate_merkle_root, validate_witness_root.
  unfold calculate_merkle_root, calculate_witness_root in *.
  cbn [transactions header previous_hash header_merkle_root witness_root] in *.
  rewrite Emr, Ewr. cbn [mbind result_bind]. unfold hash_eqb.
  rewrite (bool_decide_eq_true_2 (mr = mr)), (bool_decide_eq_true_2 (wr = wr)) by reflexivity.
  cbn [forallb]. unfold genesis_transaction_ok.
  cbn [is_coinbase_transaction inputs outputs witness amount recipient].
  rewrite (bool_decide_eq_false_2 (rcpt = [])) by done. reflexivity.
Qed.

Lemma genesis_hash_distinct r1 r2 g1 g2 :
  sizeZ r1 <= 1000 -> sizeZ r2 <= 1000 -> r1 <> [] -> r2 <> [] -> r1 <> r2 ->
  build_canonical_genesis r1 = Ok g1 -> build_canonical_genesis r2 = Ok g2 ->
  block_hash g1 <> block_hash g2 \/ sha256_collision.
Proof.
  intros S1 S2 N1 N2 Hne B1 B2.
  destruct (decide (block_hash g1 = block_hash g2)) as [E|]; [right|auto].
  destruct (build_canonical_genesis_basic r1 g1 N1 B1) as (H1 & P1 & D1 & T1 & V1).
  destruct (build_canonical_genesis_basic r2 g2 N2 B2) as (H2 & P2 & D2 & T2 & V2).
  apply validate_basic_roots in V1 as [_ W1], V2 as [_ W2].
  assert (forall r g, sizeZ r <= 1000 -> build_canonical_genesis r = Ok g -> header_typed (header g)) as Hty.
  { intros r g _ B. unfold build_canonical_genesis, update_merkle_root in B.
    apply bind_Ok in B as (mr & _ & (wr & _ & [= <-])%bind_Ok).
    decide_vm. }
  destruct (header_hash_inj (header g1) (header g2)) as [Eh|]; [exact (Hty r1 g1 S1 B1)|exact (Hty r2 g2 S2 B2)|exact E| |assumption].
  apply validate_witness_root_spec in W1 as (k1 & M1 & R1), W2 as (k2 & M2 & R2).
  assert (length k1 = length k2) as Hk.
  { apply mapM_r_length in M1, M2. rewrite M1, M2, T1, T2. done. }
  destruct (merkle_root_inj k1 k2 Hk) as [->|]; [congruence| |done].
  rewrite T1 in M1. rewrite T2 in M2.
  assert (forall r, sizeZ r <= 1000 ->
    Forall tx_full_ok [mkTx 1 [] [] [mkOutput 1 r] (mkWitnessSet [])]) as Hok.
  { intros r Hr. apply Forall_singleton, genesis_tx_ok. ints. }
  destruct (wtxids_inj _ _ _ (Hok r1 S1) (Hok r2 S2) M1 M2) as [[= Et]|]; done.
Qed.
End GenesisFacts.

(** ** Claims *)

Section GenesisClaims.
Context {ssl : OpenSSL}.

(** Both networks can build their genesis block, each built block
    passes the basic checks at height 0 without proof of work, and the two
    have different hashes unless SHA-256 collides. *)
Theorem genesis_blocks_valid_and_distinct :
  exists main test,
    build_mainnet_genesis = Ok main /\ build_testnet_genesis = Ok test /\
    validate_basic main = Ok true /\ validate_basic test = Ok true /\
    height (header main) = 0 /\ height (header test) = 0 /\
    (block_hash main <> block_hash test \/ sha256_collision).
Proof.
  destruct (build_canonical_genesis_total GENESIS_BURN_RECIPIENT) as [m Hm]; [by vm_compute|].
  destruct (build_canonical_genesis_total TESTNET_BURN_RECIPIENT) as [t Ht]; [by vm_compute|].
  destruct (build_canonical_genesis_basic GENESIS_BURN_RECIPIENT m ltac:(discriminate) Hm) as (? & _ & _ & _ & ?).
  destruct (build_canonical_genesis_basic TESTNET_BURN_RECIPIENT t ltac:(discriminate) Ht) as (? & _ & _ & _ & ?).
  exists m, t. repeat (split; [assumption|]).
  apply (genesis_hash_distinct GENESIS_BURN_RECIPIENT TESTNET_BURN_RECIPIENT); done.
Qed.

(** No genesis block passes the identity check of both known networks,
    and an unknown network pins nothing. *)
Theorem network_identity_exclusive g :
  ~ (validate_genesis_network_identity g (genesis_hash_for_network NETWORK_MAINNET) = true /\
     validate_genesis_network_identity g (genesis_hash_for_network NETWORK_TESTNET) = true) /\
  forall network, network <> NETWORK_MAINNET -> network <> NETWORK_TESTNET ->
    validate_genesis_network_identity g (genesis_hash_for_network network) = true.
Proof.
  split.
  - unfold validate_genesis_network_identity, genesis_hash_for_network, hash_eqb.
    cbn [Z.eqb NETWORK_MAINNET NETWORK_TESTNET Pos.eqb].
    intros [H1%bool_decide_eq_true H2%bool_decide_eq_true]. rewrite H1 in H2.
    apply (f_equal hash_bytes) in H2. by vm_compute in H2.
  - intros n H1 H2. unfold genesis_hash_for_network.
    rewrite (proj2 (Z.eqb_neq _ _) H1), (proj2 (Z.eqb_neq _ _) H2). done.
Qed.
End GenesisClaims.
