(* ===== verification/Timestamp.v ===== *)
(** timestamp_consensus.hpp: median time past and the bounds on the timestamp
    of a new block. *)

From S2P Require Import Prelude Serialization Crypto Transaction Coinbase Consensus Block.
From stdpp Require Import options.
Local Open Scope Z_scope.

Definition CZR_MAX_FUTURE_DRIFT : Z := 2 * 60 * 60.
Definition CZR_MEDIAN_TIME_WINDOW : nat := 11.

Definition median_of_timestamps (values : list Z) : Z :=
  if bool_decide (values = []) then 0
  else nth (length values / 2) (std_sort values) 0.

Definition compute_median_time_past (chain : list Block) : Z :=
  if bool_decide (chain = []) then 0
  else
    let sample_size := (length chain `min` CZR_MEDIAN_TIME_WINDOW)%nat in
    let start := (length chain - sample_size)%nat in
    median_of_timestamps ((fun b => timestamp (header b)) <$> drop start chain).

Definition minimum_allowed_timestamp (chain : list Block) : Z :=
  if bool_decide (chain = []) then 0 else u64 (compute_median_time_past chain + 1).

Definition maximum_allowed_timestamp (now : Z) : Z := u64 (now + CZR_MAX_FUTURE_DRIFT).

Definition validate_block_timestamp_canonical (block : Block) (chain : list Block) (now : Z) : bool :=
  if maximum_allowed_timestamp now <? timestamp (header block) then false
  else if negb (bool_decide (chain = []))
          && (timestamp (header block) <=? compute_median_time_past chain) then false
  else true.

(** ** The median *)

(** [m] splits [values]: half of them (rounded down) are at most [m], the
    others at least [m]. *)
Definition is_upper_median (m : Z) (values : list Z) : Prop :=
  exists lo hi, values ≡ₚ lo ++ m :: hi /\ length lo = (length values / 2)%nat /\
    Forall (fun v => v <= m) lo /\ Forall (fun v => m <= v) hi.

Lemma StronglySorted_split lo m hi :
  StronglySorted Z.le (lo ++ m :: hi) -> Forall (fun v => v <= m) lo /\ Forall (fun v => m <= v) hi.
Proof.
  induction lo as [|x lo IH]; simpl; inversion 1 as [|? ? Hs Hf]; subst; [done|].
  destruct (IH Hs) as [H1 H2]. split; [|done]. constructor; [|done].
  rewrite Forall_forall in Hf. apply Hf. set_solver.
Qed.

Lemma median_spec values :
  values <> [] -> is_upper_median (nth (length values / 2) (std_sort values) 0) values.
Proof.
  intros Hne. unfold std_sort.
  pose proof (merge_sort_Permutation Z.le values) as Hp.
  assert (length values / 2 < length (merge_sort Z.le values))%nat as Hlt.
  { rewrite Hp. apply Nat.div_lt; [destruct values; simpl; done || lia|lia]. }
  destruct (lookup_lt_is_Some_2 _ _ Hlt) as [m Hm].
  rewrite (nth_lookup_Some _ _ _ _ Hm).
  pose proof (take_drop_middle _ _ _ Hm) as Hsplit.
  exists (take (length values / 2) (merge_sort Z.le values)),
    (drop (S (length values / 2)) (merge_sort Z.le values)).
  split; [by rewrite Hsplit|]. split; [rewrite length_take; lia|].
  apply StronglySorted_split. rewrite Hsplit. apply StronglySorted_merge_sort; apply _.
Qed.

Lemma compute_mtp_spec chain :
  chain <> [] ->
  is_upper_median (compute_median_time_past chain)
    ((fun b => timestamp (header b)) <$> drop (length chain - 11) chain).
Proof.
  intros Hne. unfold compute_median_time_past, CZR_MEDIAN_TIME_WINDOW.
  rewrite (bool_decide_eq_false_2 (chain = [])) by done.
  replace (length chain - length chain `min` 11)%nat with (length chain - 11)%nat by lia.
  unfold median_of_timestamps.
  assert ((fun b => timestamp (header b)) <$> drop (length chain - 11) chain <> []) as Hd.
  { intros E. apply fmap_nil_inv in E. apply (f_equal length) in E. rewrite length_drop in E.
    destruct chain; simpl in *; [done|lia]. }
  rewrite (bool_decide_eq_false_2 (_ = [])) by exact Hd. by apply median_spec.
Qed.

Lemma upper_median_range m values (P : Z -> Prop) :
  is_upper_median m values -> Forall P values -> P m.
Proof.
  intros (lo & hi & Hp & _ & _ & _) H. rewrite Hp in H.
  apply Forall_app in H as [_ H]. by apply Forall_cons in H as [? _].
Qed.

(** ** Claims *)

(** [compute_median_time_past] is the upper median of the last eleven
    timestamps (or of all of them in a shorter chain): it is one of them, half
    of them are at most it and the others at least it. *)
Theorem median_time_past_correct chain :
  chain <> [] ->
  is_upper_median (compute_median_time_past chain)
    ((fun b => timestamp (header b)) <$> drop (length chain - 11) chain).
Proof. apply compute_mtp_spec. Qed.

Lemma median_time_past_correct_witness :
  is_upper_median (compute_median_time_past [sample_genesis; sample_block]) [0; 60].
Proof. exact (median_time_past_correct [sample_genesis; sample_block] ltac:(discriminate)). Defined.

(** With timestamps and clock away from the end of u64, the canonical
    timestamp check accepts exactly the timestamps from
    [minimum_allowed_timestamp] to [maximum_allowed_timestamp]. *)
Theorem timestamp_window b chain now :
  block_typed b -> Forall (fun c => 0 <= timestamp (header c) < UINT64_MAX) chain ->
  0 <= now <= UINT64_MAX - CZR_MAX_FUTURE_DRIFT ->
  validate_block_timestamp_canonical b chain now = true <->
  minimum_allowed_timestamp chain <= timestamp (header b) <= now + CZR_MAX_FUTURE_DRIFT.
Proof.
  intros Hb Hc Hn. unfold validate_block_timestamp_canonical, minimum_allowed_timestamp,
    maximum_allowed_timestamp.
  assert (is_u64 (timestamp (header b))) as Ht by apply Hb.
  rewrite u64_small by (unfold CZR_MAX_FUTURE_DRIFT in *; ints).
  destruct (_ <? _) eqn:E; zbool; [intuition lia|].
  destruct (decide (chain = [])) as [->|Hne].
  - rewrite bool_decide_eq_true_2 by done. simpl. unfold_ints. intuition lia.
  - rewrite (bool_decide_eq_false_2 (chain = [])) by done.
    assert (0 <= compute_median_time_past chain < UINT64_MAX) as Hm.
    { apply (upper_median_range _ _ (fun v => 0 <= v < UINT64_MAX) (compute_mtp_spec chain Hne)).
      apply Forall_fmap, Forall_drop. exact Hc. }
    rewrite u64_small by ints. destruct (_ <=? _) eqn:E2; zbool; simpl; intuition lia.
Qed.

Lemma timestamp_window_witness :
  validate_block_timestamp_canonical sample_block [sample_genesis] 100 = true <->
  minimum_allowed_timestamp [sample_genesis] <= 60 <= 100 + CZR_MAX_FUTURE_DRIFT.
Proof.
  apply (timestamp_window sample_block [sample_genesis] 100).
  - decide_vm.
  - decide_vm.
  - decide_vm.
Defined.
