(* ===== verification/ChainValidator.v ===== *)
(** chain_validator.hpp: applying a block to the set of unspent outputs and
    validating a chain from genesis. *)

From S2P Require Import Prelude Serialization Crypto Transaction UTXO Ownership Coinbase.
From S2P Require Import Consensus Block.
From stdpp Require Import options.
Local Open Scope Z_scope.

Record ChainValidationResult := mkValidation { utxo : UTXOSet; total_issued : Z (* u64 *) }.

(** [add_coinbase_issuance]: [None] is [false]; every caller then stops. *)
Definition add_coinbase_issuance (block : Block) (total : Z) : option Z :=
  match transactions block with
  | [] => Some total
  | coinbase :: _ =>
      if negb (is_coinbase_transaction coinbase) then Some total
      else
        foldl (fun acc output =>
            total ← acc;
            if u64 (CZR_MAX_SUPPLY - total) <? amount output then None
            else Some (u64 (total + amount output)))
          (Some total) (outputs coinbase)
  end.

Section Validator.
Context {ssl : OpenSSL}.

(** The body of the loop over the transactions after the coinbase. A [false]
    return leaves the set as far as it was updated. *)
Definition apply_transaction (tx : Transaction) (utxos : UTXOSet) : result (bool * UTXOSet) :=
  if is_coinbase_transaction tx then Ok (false, utxos)
  else
    ok ← validate_transaction_witness tx utxos;
    if negb ok then Ok (false, utxos)
    else
      let '(ok, utxos) := spend_inputs (inputs tx) utxos in
      if negb ok then Ok (false, utxos)
      else
        id ← txid tx;
        Ok (add_outputs id 0 (outputs tx) utxos).

Fixpoint apply_transactions (txs : list Transaction) (utxos : UTXOSet)
    : result (bool * UTXOSet) :=
  match txs with
  | [] => Ok (true, utxos)
  | tx :: txs =>
      '(ok, utxos) ← apply_transaction tx utxos;
      if (ok : bool) then apply_transactions txs utxos else Ok (false, utxos)
  end.

Definition apply_block_transactions_in_place_after_basic_validation (block : Block)
    (utxos : UTXOSet) : result (bool * UTXOSet) :=
  match transactions block with
  | [] => Ok (false, utxos)
  | coinbase :: txs =>
      if negb (validate_coinbase_transaction coinbase (height (header block)))
      then Ok (false, utxos)
      else
        coinbase_txid ← txid coinbase;
        let '(ok, utxos) := add_outputs coinbase_txid 0 (outputs coinbase) utxos in
        if (ok : bool) then apply_transactions txs utxos else Ok (false, utxos)
  end.

(** [result] is written on success only: [None] leaves it alone. *)
Definition apply_block_transactions_after_basic_validation (block : Block)
    (previous_utxos : UTXOSet) : result (option UTXOSet) :=
  '(ok, candidate) ←
    apply_block_transactions_in_place_after_basic_validation block previous_utxos;
  Ok (if (ok : bool) then Some candidate else None).

Definition apply_block_transactions_canonical (block : Block) (previous_utxos : UTXOSet)
    : result (option UTXOSet) :=
  ok ← validate_basic block;
  if negb ok then Ok None
  else apply_block_transactions_after_basic_validation block previous_utxos.

Definition validate_genesis_canonical (genesis : Block) : result bool :=
  if negb (height (header genesis) =? 0) then Ok false
  else if negb (hash_eqb (previous_hash (header genesis)) zero_hash) then Ok false
  else if negb (difficulty (header genesis) =? 0) then Ok false
  else validate_basic genesis.

Definition validate_block_position_with_chain (chain : list Block) (block_index : nat) : bool :=
  if bool_decide (block_index = 0%nat) then false
  else
    match chain !! (block_index - 1)%nat, chain !! block_index with
    | Some previous, Some block =>
        if negb (height (header block) =? u64 (height (header previous) + 1)) then false
        else if negb (hash_eqb (previous_hash (header block)) (block_hash previous)) then false
        else if timestamp (header block) <? timestamp (header previous) then false
        else difficulty (header block) =? expected_difficulty_at_position chain block_index
    | _, _ => false
    end.

(** The loop of [validate_and_rebuild_chain] from index [i], whose blocks
    are [blocks]. *)
Fixpoint rebuild_loop (chain : list Block) (i : nat) (blocks : list Block)
    (utxos : UTXOSet) (total : Z) : result (option ChainValidationResult) :=
  match blocks with
  | [] => Ok (Some (mkValidation utxos total))
  | block :: blocks =>
      ok ← validate_basic block;
      if negb ok then Ok None
      else if negb (validate_block_position_with_chain chain i) then Ok None
      else
        match add_coinbase_issuance block total with
        | None => Ok None
        | Some total =>
            '(ok, utxos) ←
              apply_block_transactions_in_place_after_basic_validation block utxos;
            if (ok : bool) then rebuild_loop chain (S i) blocks utxos total else Ok None
        end
  end.

Definition validate_and_rebuild_chain (chain : list Block)
    : result (option ChainValidationResult) :=
  match chain with
  | [] => Ok None
  | genesis :: blocks =>
      ok ← validate_genesis_canonical genesis;
      if negb ok then Ok None else rebuild_loop chain 1 blocks ∅ 0
  end.

Definition validate_candidate_chain (candidate : list Block) : result bool :=
  r ← validate_and_rebuild_chain candidate; Ok (bool_decide (is_Some r)).

Definition rebuild_utxo_set (chain : list Block) : result UTXOSet :=
  r ← validate_and_rebuild_chain chain;
  match r with
  | None => Throw "cannot rebuild UTXO set from invalid chain"
  | Some r => Ok (utxo r)
  end.

Definition apply_block_transactions (block : Block) (previous_utxos : UTXOSet)
    : result UTXOSet :=
  r ← apply_block_transactions_canonical block previous_utxos;
  match r with
  | None => Throw "cannot apply invalid block"
  | Some u => Ok u
  end.

Definition validate_total_coinbase_issuance (block : Block) (chain : list Block) : bool :=
  let total :=
    foldl (fun acc previous =>
        total ← acc;
        if height (header previous) =? 0 then Some total
        else add_coinbase_issuance previous total)
      (Some 0) chain in
  bool_decide (is_Some (total ≫= add_coinbase_issuance block)).

Definition validate_block_against_utxo (block : Block) (previous_utxos : UTXOSet) : result bool :=
  r ← apply_block_transactions_canonical block previous_utxos; Ok (bool_decide (is_Some r)).

Definition validate_block_consensus (block : Block) (chain : list Block)
    (previous_utxos : UTXOSet) : result bool :=
  match last chain with
  | None => Ok false
  | Some previous =>
      ok ← validate_basic block;
      if negb ok then Ok false
      else if negb (height (header block) =? u64 (height (header previous) + 1)) then Ok false
      else if negb (hash_eqb (previous_hash (header block)) (block_hash previous)) then Ok false
      else if timestamp (header block) <? timestamp (header previous) then Ok false
      else if negb (difficulty (header block) =? expected_next_difficulty chain) then Ok false
      else
        ok ← validate_block_against_utxo block previous_utxos;
        if negb ok then Ok false else Ok (validate_total_coinbase_issuance block chain)
  end.
End Validator.

(** ** The abstract specification: chains grown one block at a time *)

Section ValidChain.
Context {ssl : OpenSSL}.

(** Block [b] extends chain [c], whose validation gave [r], with result [r']. *)
Record extends (c : list Block) (r : ChainValidationResult) (b : Block)
    (r' : ChainValidationResult) : Prop := {
  ext_basic : validate_basic b = Ok true;
  ext_parent : exists p, last c = Some p /\
    height (header b) = u64 (height (header p) + 1) /\
    previous_hash (header b) = block_hash p /\
    timestamp (header p) <= timestamp (header b);
  ext_difficulty : difficulty (header b) = expected_next_difficulty c;
  ext_issuance : add_coinbase_issuance b (total_issued r) = Some (total_issued r');
  ext_apply : apply_block_transactions_in_place_after_basic_validation b (utxo r)
              = Ok (true, utxo r')
}.

Inductive valid_chain : list Block -> ChainValidationResult -> Prop :=
  | valid_genesis g :
      validate_genesis_canonical g = Ok true -> valid_chain [g] (mkValidation ∅ 0)
  | valid_extend c r b r' :
      valid_chain c r -> extends c r b r' -> valid_chain (c ++ [b]) r'.

Lemma valid_chain_nonempty c r : valid_chain c r -> c <> [].
Proof. destruct 1; [done|]. by destruct c. Qed.

(** *** The loop implements the relation *)

Lemma position_with_chain_app c l i :
  (i < length c)%nat ->
  validate_block_position_with_chain (c ++ l) i = validate_block_position_with_chain c i.
Proof.
  intros H. unfold validate_block_position_with_chain. case_bool_decide; [done|].
  rewrite !lookup_app_l by lia. by rewrite expected_difficulty_app by lia.
Qed.

Lemma position_with_chain_snoc c b :
  c <> [] ->
  validate_block_position_with_chain (c ++ [b]) (length c) = true <->
  difficulty (header b) = expected_next_difficulty c /\
  exists p, last c = Some p /\ height (header b) = u64 (height (header p) + 1) /\
    previous_hash (header b) = block_hash p /\ timestamp (header p) <= timestamp (header b).
Proof.
  intros Hne. assert (0 < length c)%nat by (destruct c; simpl; [done|lia]).
  unfold validate_block_position_with_chain. rewrite bool_decide_eq_false_2 by lia.
  rewrite lookup_app_l by lia. rewrite list_lookup_middle by done.
  rewrite last_lookup, <- Nat.sub_1_r. destruct (c !! _) as [p|]; [|naive_solver].
  rewrite expected_difficulty_app by done. unfold hash_eqb, expected_next_difficulty.
  destruct (height _ =? _) eqn:E1; simpl; zbool; [|naive_solver].
  case_bool_decide; simpl; [|naive_solver].
  destruct (_ <? _) eqn:E2; zbool; naive_solver lia.
Qed.

Lemma rebuild_loop_app chain i l1 l2 u t :
  rebuild_loop chain i (l1 ++ l2) u t =
  (r ← rebuild_loop chain i l1 u t;
   match r with
   | None => Ok None
   | Some r => rebuild_loop chain (i + length l1) l2 (utxo r) (total_issued r)
   end).
Proof.
  revert i u t. induction l1 as [|b l1 IH]; intros i u t; simpl; [by rewrite Nat.add_0_r|].
  destruct (validate_basic b) as [[]|]; simpl; [|done..].
  destruct (validate_block_position_with_chain _ _); simpl; [|done].
  destruct (add_coinbase_issuance b t); simpl; [|done].
  destruct (apply_block_transactions_in_place_after_basic_validation b u) as [[[] u']|];
    simpl; [|done..]. rewrite IH. by rewrite Nat.add_succ_r.
Qed.

Lemma rebuild_loop_prefix c l i blocks u t :
  (i + length blocks <= length c)%nat ->
  rebuild_loop (c ++ l) i blocks u t = rebuild_loop c i blocks u t.
Proof.
  revert i u t. induction blocks as [|b blocks IH]; intros i u t H; [done|]. simpl in *.
  rewrite position_with_chain_app by lia. destruct (validate_basic b) as [[]|]; simpl; [|done..].
  destruct (validate_block_position_with_chain _ _); simpl; [|done].
  destruct (add_coinbase_issuance b t); [|done].
  destruct (apply_block_transactions_in_place_after_basic_validation b u) as [[[] u']|];
    simpl; [|done..]. apply IH. lia.
Qed.

Lemma validate_and_rebuild_snoc c b :
  c <> [] ->
  validate_and_rebuild_chain (c ++ [b]) =
  (r ← validate_and_rebuild_chain c;
   match r with
   | None => Ok None
   | Some r => rebuild_loop (c ++ [b]) (length c) [b] (utxo r) (total_issued r)
   end).
Proof.
  intros Hne. destruct c as [|g c]; [done|]. simpl.
  destruct (validate_genesis_canonical g) as [[]|]; simpl; [|done..].
  rewrite rebuild_loop_app. rewrite (rebuild_loop_prefix (g :: c) [b]) by done. done.
Qed.

Lemma rebuild_loop_single c b r r' :
  c <> [] ->
  rebuild_loop (c ++ [b]) (length c) [b] (utxo r) (total_issued r) = Ok (Some r') <->
  extends c r b r'.
Proof.
  intros Hne. simpl. split.
  - intros H. apply bind_Ok in H as ([] & Hb & H); [simpl in H|done].
    destruct (validate_block_position_with_chain _ _) eqn:Hp; [simpl in H|done].
    apply (position_with_chain_snoc c b Hne) in Hp as [Hd Hp].
    destruct (add_coinbase_issuance b _) as [t|] eqn:Hi; [|done].
    apply bind_Ok in H as ([[] u] & Ha & H); [|done]. injection H as <-. by split.
  - intros [Hb Hp Hd Hi Ha]. rewrite Hb. simpl.
    rewrite (proj2 (position_with_chain_snoc c b Hne)) by done. simpl.
    rewrite Hi, Ha. simpl. by destruct r'.
Qed.

Lemma rebuild_valid_chain c r :
  validate_and_rebuild_chain c = Ok (Some r) <-> valid_chain c r.
Proof.
  split.
  - revert r. induction c as [|b c IH] using rev_ind; intros r; [done|].
    destruct (decide (c = [])) as [->|Hne].
    + simpl. intros H. apply bind_Ok in H as ([] & Hg & H); [|done].
      injection H as <-. by constructor.
    + rewrite validate_and_rebuild_snoc by done.
      intros ([r0|] & Hr & H)%bind_Ok; [|done].
      apply rebuild_loop_single in H; [|done]. econstructor; eauto.
  - induction 1 as [g Hg|c r b r' Hc IH He].
    + simpl. by rewrite Hg.
    + pose proof (valid_chain_nonempty _ _ Hc). rewrite validate_and_rebuild_snoc, IH by done.
      by apply rebuild_loop_single.
Qed.

Lemma valid_chain_snoc_inv c b r' :
  c <> [] -> valid_chain (c ++ [b]) r' -> exists r, valid_chain c r /\ extends c r b r'.
Proof.
  intros Hne H. inversion H as [g Hg E|c' r b' r0 Hc He E]; subst.
  - destruct c as [|? [|]]; simplify_eq/=; done.
  - apply app_inj_tail in E as [-> ->]. eauto.
Qed.

Lemma valid_chain_functional c r1 r2 : valid_chain c r1 -> valid_chain c r2 -> r1 = r2.
Proof. rewrite <- !rebuild_valid_chain. congruence. Qed.

Lemma valid_chain_prefix c l r :
  c <> [] -> valid_chain (c ++ l) r -> exists r0, valid_chain c r0.
Proof.
  revert r. induction l as [|b l IH] using rev_ind; intros r Hne H.
  - rewrite app_nil_r in H. eauto.
  - rewrite app_assoc in H. apply valid_chain_snoc_inv in H as (r0 & H & _); [eauto|].
    by destruct c.
Qed.
End ValidChain.

(** ** Applying transactions *)

Section Apply.
Context {ssl : OpenSSL}.

Lemma apply_transaction_inv tx u u' :
  apply_transaction tx u = Ok (true, u') ->
  is_coinbase_transaction tx = false /\ validate_transaction_witness tx u = Ok true /\
  exists u1 id, spend_inputs (inputs tx) u = (true, u1) /\ txid tx = Ok id /\
    add_outputs id 0 (outputs tx) u1 = (true, u').
Proof.
  unfold apply_transaction. destruct (is_coinbase_transaction tx); [done|].
  intros ([] & Hw & H)%bind_Ok; [|done]. simpl in H.
  destruct (spend_inputs _ _) as [[] u1]; [|done]. simpl in H.
  apply bind_Ok in H as (id & Hid & [= H]). naive_solver.
Qed.

Lemma apply_block_inv b u u' :
  apply_block_transactions_in_place_after_basic_validation b u = Ok (true, u') ->
  exists cb txs id u1,
    transactions b = cb :: txs /\
    validate_coinbase_transaction cb (height (header b)) = true /\ txid cb = Ok id /\
    add_outputs id 0 (outputs cb) u = (true, u1) /\ apply_transactions txs u1 = Ok (true, u').
Proof.
  unfold apply_block_transactions_in_place_after_basic_validation.
  destruct (transactions b) as [|cb txs]; [done|].
  destruct (validate_coinbase_transaction cb _) eqn:Hv; [simpl|done].
  intros (id & Hid & H)%bind_Ok. destruct (add_outputs _ _ _ _) as [[] u1] eqn:Ha; [|done].
  naive_solver.
Qed.

Lemma apply_transactions_cons_inv tx txs u u' :
  apply_transactions (tx :: txs) u = Ok (true, u') ->
  exists u1, apply_transaction tx u = Ok (true, u1) /\ apply_transactions txs u1 = Ok (true, u').
Proof. simpl. intros ([[] u1] & H1 & H2)%bind_Ok; [eauto|done]. Qed.

(** *** Value *)

Lemma apply_transaction_value tx u u' :
  tx_typed tx -> utxo_typed u -> apply_transaction tx u = Ok (true, u') ->
  utxo_typed u' /\ utxo_total u' <= utxo_total u.
Proof.
  intros Ht Hu (_ & Hw & u1 & id & Hs & _ & Ha)%apply_transaction_inv.
  apply validate_witness_spec in Hw as ((_ & _ & _ & Hv) & _ & _); [|done..].
  split.
  - eapply add_outputs_typed; [apply Ht| |exact Ha]. by eapply spend_inputs_typed.
  - apply add_outputs_total in Ha. apply spend_inputs_total in Hs. lia.
Qed.

Lemma apply_transactions_value txs u u' :
  Forall tx_typed txs -> utxo_typed u -> apply_transactions txs u = Ok (true, u') ->
  utxo_typed u' /\ utxo_total u' <= utxo_total u.
Proof.
  revert u. induction txs as [|tx txs IH]; intros u Ht Hu.
  - intros [= <-]. done.
  - apply Forall_cons in Ht as [? ?].
    intros (u1 & H1 & H2)%apply_transactions_cons_inv.
    apply apply_transaction_value in H1 as [? ?]; [|done..].
    apply IH in H2 as [? ?]; [|done..]. split; [done|lia].
Qed.

Lemma apply_block_value b u u' :
  block_typed b -> utxo_typed u ->
  apply_block_transactions_in_place_after_basic_validation b u = Ok (true, u') ->
  utxo_typed u' /\ utxo_total u' <= utxo_total u + block_subsidy (height (header b)).
Proof.
  intros [_ Ht] Hu (cb & txs & id & u1 & E & Hc & _ & Ha & H)%apply_block_inv.
  rewrite E in Ht. apply Forall_cons in Ht as [Htc Ht].
  pose proof (add_outputs_typed _ _ _ _ _ (proj2 (proj2 Htc)) Hu Ha) as Hu1.
  apply apply_transactions_value in H as [? ?]; [|done..]. split; [done|].
  apply add_outputs_total in Ha.
  apply coinbase_transaction_spec in Hc as (_ & _ & o & Eo & Ho & _).
  rewrite Eo in Ha. simpl in Ha. lia.
Qed.

(** *** Who can spend *)

(** Some input of [tx] names [p], and its witness is a key for the address of
    [o] with a signature of that input's message. *)
Definition spends_with_key (tx : Transaction) (p : OutPoint) (o : TransactionOutput) : Prop :=
  exists i input w key m,
    inputs tx !! i = Some input /\ point input = p /\
    witness_inputs (witness tx) !! i = Some w /\
    recipient o = address_from_public_key (public_key w) /\
    public_key_from_hex (public_key w) = Ok key /\
    transaction_signing_message tx i = Ok m /\ EVP_DigestVerify key m (signature w) = true.

Lemma apply_transaction_spends tx u u' p o :
  tx_typed tx -> utxo_typed u -> apply_transaction tx u = Ok (true, u') ->
  u !! p = Some o -> u' !! p = Some o \/ spends_with_key tx p o.
Proof.
  intros Ht Hu (_ & Hw & u1 & id & Hs & _ & Ha)%apply_transaction_inv Hp.
  apply validate_witness_spec in Hw as (_ & _ & Hauth); [|done..].
  pose proof (spend_inputs_lookup _ _ _ p Hs) as Hl. case_decide as Hin.
  - right. apply list_elem_of_fmap in Hin as (input & -> & Hin).
    apply list_elem_of_lookup in Hin as [i Hi].
    destruct (Hauth i) as (input' & w & o' & key & m & H); [by eapply lookup_lt_Some|].
    destruct H as (Ei & Ew & Eo & Er & Ek & Em & _ & Ev).
    simplify_eq. by exists i, input, w, key, m.
  - left. rewrite Hp in Hl. apply (lookup_weaken u1); [done|]. by eapply add_outputs_subseteq.
Qed.

Lemma apply_transactions_spends txs u u' p o :
  Forall tx_typed txs -> utxo_typed u -> apply_transactions txs u = Ok (true, u') ->
  u !! p = Some o -> u' !! p = Some o \/ Exists (fun tx => spends_with_key tx p o) txs.
Proof.
  revert u. induction txs as [|tx txs IH]; intros u Ht Hu H Hp.
  - injection H as <-. auto.
  - apply Forall_cons in Ht as [Htx Htxs]. apply apply_transactions_cons_inv in H as (u1 & H1 & H2).
    destruct (apply_transaction_spends tx u u1 p o) as [Hp1|]; auto.
    apply apply_transaction_value in H1 as [? _]; [|done..].
    destruct (IH u1) as [|]; auto.
Qed.

Lemma apply_block_spends b u u' p o :
  block_typed b -> utxo_typed u ->
  apply_block_transactions_in_place_after_basic_validation b u = Ok (true, u') ->
  u !! p = Some o ->
  u' !! p = Some o \/ Exists (fun tx => spends_with_key tx p o) (tail (transactions b)).
Proof.
  intros [_ Ht] Hu (cb & txs & id & u1 & E & _ & _ & Ha & H)%apply_block_inv Hp.
  rewrite E in *. apply Forall_cons in Ht as [Htc Ht]. simpl.
  eapply apply_transactions_spends; [done| |exact H|].
  - eapply add_outputs_typed; [apply Htc|exact Hu|exact Ha].
  - apply (lookup_weaken u); [done|]. by eapply add_outputs_subseteq.
Qed.

(** *** Issuance *)

Lemma add_coinbase_issuance_spec b total total' u u' :
  0 <= total <= CZR_MAX_SUPPLY -> is_u64 (height (header b)) ->
  apply_block_transactions_in_place_after_basic_validation b u = Ok (true, u') ->
  add_coinbase_issuance b total = Some total' <->
  total' = total + block_subsidy (height (header b)) /\ total' <= CZR_MAX_SUPPLY.
Proof.
  intros Ht Hh (cb & txs & id & u1 & E & Hc & _)%apply_block_inv.
  apply coinbase_transaction_spec in Hc as (Hcb & _ & o & Eo & Ho & _).
  unfold add_coinbase_issuance. rewrite E, Hcb, Eo. simpl. rewrite Ho.
  pose proof (block_subsidy_u64 (height (header b)) ltac:(ints)).
  assert (CZR_MAX_SUPPLY <= UINT64_MAX) by (by vm_compute).
  rewrite (u64_small (CZR_MAX_SUPPLY - total)) by ints.
  destruct (_ <? _) eqn:El; zbool; [split; [done|]; intros [-> ?]; lia|].
  rewrite u64_small by ints. split; [intros [= <-]; split; lia|]. by intros [-> _].
Qed.
End Apply.

(** ** Invariants of validated chains *)

Section ChainInvariants.
Context {ssl : OpenSSL}.

Lemma valid_chain_parts c r :
  valid_chain c r -> exists g l, c = g :: l /\ validate_genesis_canonical g = Ok true.
Proof.
  induction 1 as [g Hg|c r b r' Hc (g & l & -> & Hg) He]; [eauto|].
  exists g, (l ++ [b]). done.
Qed.

Lemma genesis_canonical_inv g :
  validate_genesis_canonical g = Ok true ->
  height (header g) = 0 /\ previous_hash (header g) = zero_hash /\
  difficulty (header g) = 0 /\ validate_basic g = Ok true.
Proof.
  unfold validate_genesis_canonical, hash_eqb.
  destruct (height _ =? 0) eqn:E1; [simpl|done]. case_bool_decide; [simpl|done].
  destruct (difficulty _ =? 0) eqn:E2; [simpl|done]. zbool. done.
Qed.

Lemma lookup_snoc_cases {A} (l : list A) x i y :
  (l ++ [x]) !! i = Some y -> l !! i = Some y \/ (i = length l /\ x = y).
Proof.
  intros [H|[? H]]%lookup_app_Some; [auto|]. apply list_lookup_singleton_Some in H as [? ->].
  right. split; [lia|done].
Qed.

(** What holds of block [b] at index [i] of a validated chain [c]. *)
Record block_in_chain (c : list Block) (i : nat) (b : Block) : Prop := {
  bic_basic : validate_basic b = Ok true;
  bic_height : height (header b) = Z.of_nat i;
  bic_difficulty : difficulty (header b) =
    if bool_decide (i = 0%nat) then 0 else expected_difficulty_at_position c i;
  bic_floor : i <> 0%nat -> 8 <= difficulty (header b) <= 256;
  bic_parent : forall p, c !! (i - 1)%nat = Some p -> i <> 0%nat ->
    previous_hash (header b) = block_hash p /\ timestamp (header p) <= timestamp (header b)
}.

Lemma valid_chain_blocks c r :
  valid_chain c r -> sizeZ c <= UINT64_MAX ->
  forall i b, c !! i = Some b -> block_in_chain c i b.
Proof.
  induction 1 as [g Hg|c r b r' Hc IH He]; intros Hsz i x Hx.
  - apply list_lookup_singleton_Some in Hx as [-> ->].
    apply genesis_canonical_inv in Hg as (H1 & _ & H3 & H4). by split.
  - rewrite sizeZ_app in Hsz. unfold sizeZ in Hsz. simpl in Hsz.
    specialize (IH ltac:(unfold sizeZ; lia)).
    pose proof (valid_chain_nonempty _ _ Hc) as Hne.
    assert (0 < length c)%nat by (destruct c; simpl; [done|lia]).
    apply lookup_snoc_cases in Hx as [Hx|[-> ->]].
    + pose proof (lookup_lt_Some _ _ _ Hx) as Hlt. destruct (IH i x Hx) as [B1 B2 B3 B4 B5].
      split; [done|done| |done|].
      * by rewrite expected_difficulty_app by lia.
      * intros p Hp. rewrite lookup_app_l in Hp by lia. by apply B5.
    + destruct (ext_parent _ _ _ _ He) as (p & Hp & Eh & Ep & Et).
      rewrite last_lookup, <- Nat.sub_1_r in Hp.
      pose proof (bic_height _ _ _ (IH _ _ Hp)) as Hph.
      split.
      * apply He.
      * rewrite Eh, Hph, u64_small; unfold_ints; lia.
      * rewrite bool_decide_eq_false_2, expected_difficulty_app by lia. apply He.
      * intros _. rewrite (ext_difficulty _ _ _ _ He). apply expected_difficulty_range; [lia|].
        intros j q Hq _. destruct (IH _ _ Hq) as [_ B2 B3 B4 _].
        destruct (decide (j = 0%nat)) as [->|Hj]; [left|right; auto].
        rewrite bool_decide_eq_true_2 in B3 by done. done.
      * intros q Hq _. rewrite lookup_app_l in Hq by lia. by simplify_eq.
Qed.

Lemma valid_chain_linked c r : valid_chain c r -> sizeZ c <= UINT64_MAX -> linked c.
Proof.
  intros Hc Hsz i p b Hp Hb. apply (bic_parent c (S i) b).
  - by eapply valid_chain_blocks.
  - simpl. by rewrite Nat.sub_0_r.
  - done.
Qed.

(** Everything issued is accounted for, and no output appears from nothing. *)
Lemma valid_chain_supply c r :
  valid_chain c r -> Forall block_typed c -> sizeZ c <= UINT64_MAX ->
  utxo_typed (utxo r) /\ total_issued r = issued (length c - 1) /\
  utxo_total (utxo r) <= total_issued r.
Proof.
  induction 1 as [g Hg|c r b r' Hc IH He]; intros Ht Hsz.
  - simpl. rewrite utxo_total_empty. split_and!; [apply map_Forall_empty|done|lia].
  - apply Forall_app in Ht as [Ht [Htb _]%Forall_cons].
    pose proof (valid_chain_blocks _ _ (valid_extend _ _ _ _ Hc He) Hsz (length c) b) as Hb.
    rewrite list_lookup_middle in Hb by done. specialize (Hb eq_refl).
    rewrite sizeZ_app in Hsz. unfold sizeZ in Hsz. simpl in Hsz.
    destruct (IH Ht ltac:(unfold sizeZ; lia)) as (Hu & Htot & Hle).
    destruct (apply_block_value b (utxo r) (utxo r')) as [Hu' Hle']; [done|done|apply He|].
    assert (0 <= total_issued r <= CZR_MAX_SUPPLY) as Hr.
    { rewrite Htot. apply issued_bound. }
    pose proof (ext_issuance _ _ _ _ He) as Hi.
    eapply add_coinbase_issuance_spec in Hi as [Hi _]; [|done|apply Htb|apply He].
    rewrite (bic_height _ _ _ Hb) in *.
    split_and!; [done| |lia]. rewrite Hi, Htot, length_app. simpl.
    pose proof (valid_chain_nonempty _ _ Hc). destruct c as [|g c]; [done|].
    simpl. rewrite Nat.sub_0_r, Nat.add_1_r. simpl. done.
Qed.

(** *** One block against the tip, or the whole chain again *)

Lemma issuance_fold c r :
  valid_chain c r ->
  foldl (fun acc previous =>
      total ← acc;
      if height (header previous) =? 0 then Some total else add_coinbase_issuance previous total)
    (Some 0) c = Some (total_issued r).
Proof.
  induction 1 as [g Hg|c r b r' Hc IH He].
  - simpl. apply genesis_canonical_inv in Hg as (-> & _). done.
  - rewrite foldl_app, IH. simpl.
    destruct (apply_block_inv _ _ _ (ext_apply _ _ _ _ He)) as (cb & txs & id & u1 & _ & Hcb & _).
    apply coinbase_transaction_spec in Hcb as (_ & Hh & _).
    rewrite (proj2 (Z.eqb_neq _ 0) Hh). apply He.
Qed.

Lemma apply_canonical_Some b u u' :
  apply_block_transactions_canonical b u = Ok (Some u') <->
  validate_basic b = Ok true /\
  apply_block_transactions_in_place_after_basic_validation b u = Ok (true, u').
Proof.
  unfold apply_block_transactions_canonical, apply_block_transactions_after_basic_validation.
  destruct (validate_basic b) as [[]|]; simpl; [|naive_solver..].
  destruct (apply_block_transactions_in_place_after_basic_validation b u) as [[[] ?]|]; simpl; naive_solver.
Qed.

Lemma validate_block_consensus_spec c r b :
  valid_chain c r ->
  validate_block_consensus b c (utxo r) = Ok true <-> exists r', extends c r b r'.
Proof.
  intros Hc. unfold validate_block_consensus, validate_total_coinbase_issuance,
    validate_block_against_utxo, hash_eqb. rewrite (issuance_fold c r Hc). simpl. split.
  - destruct (last c) as [p|] eqn:Hp; [|done].
    intros ([] & Hb & H)%bind_Ok; [simpl in H|done].
    destruct (height _ =? _) eqn:E1; [simpl in H|done]. case_bool_decide as E2; [simpl in H|done].
    destruct (_ <? _) eqn:E3; [done|]. destruct (difficulty _ =? _) eqn:E4; [simpl in H|done].
    apply bind_Ok in H as (ok & H1 & H2). apply bind_Ok in H1 as (o & Ho & [= <-]).
    case_bool_decide as Hs; [|done]. destruct Hs as [u' ->]. simpl in H2.
    apply apply_canonical_Some in Ho as [_ Ha].
    injection H2 as H2%bool_decide_eq_true. destruct H2 as [t Ht]. zbool.
    exists (mkValidation u' t). split; naive_solver.
  - intros (r' & [Hb (p & -> & E1 & E2 & E3) E4 E5 E6]). rewrite Hb. simpl.
    rewrite (proj2 (Z.eqb_eq _ _) E1), (bool_decide_eq_true_2 (_ = block_hash p)) by done.
    rewrite (proj2 (Z.ltb_ge _ _) E3), (proj2 (Z.eqb_eq _ _) E4). simpl.
    rewrite (proj2 (apply_canonical_Some b (utxo r) (utxo r'))) by done. simpl.
    rewrite E5. done.
Qed.

Lemma extends_apply c r b r' :
  extends c r b r' -> apply_block_transactions b (utxo r) = Ok (utxo r').
Proof.
  intros He. unfold apply_block_transactions.
  rewrite (proj2 (apply_canonical_Some b (utxo r) (utxo r'))) by (split; apply He). done.
Qed.
End ChainInvariants.

(** ** No exception escapes validation of decoded blocks *)

Section NoThrow.
Context {ssl : OpenSSL}.

Lemma txid_returns tx : tx_base_ok tx -> returns (txid tx).
Proof. intros H. unfold txid. rewrite tx_serialize_encode by done. apply returns_Ok. Qed.
Lemma wtxid_returns tx : tx_full_ok tx -> returns (wtxid tx).
Proof. intros H. unfold wtxid. rewrite tx_serialize_full_encode by done. apply returns_Ok. Qed.

Lemma block_full_ok_txs b : block_full_ok b -> Forall tx_full_ok (transactions b).
Proof. intros (_ & H & _). eapply Forall_impl; [exact H|]. by intros tx []. Qed.

Lemma validate_basic_returns b : block_full_ok b -> returns (validate_basic b).
Proof.
  intros H%block_full_ok_txs.
  assert (returns (validate_merkle_root b)).
  { apply returns_bind; [|auto with caesar]. apply returns_bind; [|auto with caesar].
    apply returns_mapM_r. eapply Forall_impl; [exact H|]. intros tx [Ht _]. by apply txid_returns. }
  assert (returns (validate_witness_root b)).
  { apply returns_bind; [|auto with caesar]. apply returns_bind; [|auto with caesar].
    apply returns_mapM_r. eapply Forall_impl; [exact H|]. intros tx. apply wtxid_returns. }
  unfold validate_basic. repeat (apply returns_if; auto with caesar; intros _).
Qed.

Lemma apply_transactions_returns txs u :
  Forall tx_full_ok txs -> returns (apply_transactions txs u).
Proof.
  intros H. revert u. induction H as [|tx txs [Ht _] H IH]; intros u; simpl; auto with caesar.
  apply returns_bind.
  - unfold apply_transaction. apply returns_if; auto with caesar. intros _.
    apply returns_bind; [by apply validate_witness_returns|]. intros ok _.
    apply returns_if; auto with caesar. intros _. destruct (spend_inputs _ _) as [ok' u'].
    apply returns_if; auto with caesar. intros _.
    apply returns_bind; [by apply txid_returns|auto with caesar].
  - intros [[] u'] _; auto with caesar.
Qed.

Lemma apply_block_returns b u :
  block_full_ok b ->
  returns (apply_block_transactions_in_place_after_basic_validation b u).
Proof.
  intros H%block_full_ok_txs. unfold apply_block_transactions_in_place_after_basic_validation.
  destruct (transactions b) as [|cb txs]; auto with caesar.
  apply Forall_cons in H as [[Hc _] H]. apply returns_if; auto with caesar. intros _.
  apply returns_bind; [by apply txid_returns|]. intros id _.
  destruct (add_outputs _ _ _ _) as [[] u']; auto with caesar. by apply apply_transactions_returns.
Qed.

Lemma rebuild_loop_returns chain i blocks u t :
  Forall block_full_ok blocks -> returns (rebuild_loop chain i blocks u t).
Proof.
  intros H. revert i u t. induction H as [|b blocks Hb H IH]; intros i u t; simpl; auto with caesar.
  apply returns_bind; [by apply validate_basic_returns|]. intros ok _.
  repeat (apply returns_if; auto with caesar; intros _).
  destruct (add_coinbase_issuance b t); auto with caesar.
  apply returns_bind; [by apply apply_block_returns|]. intros [[] u'] _; auto with caesar.
Qed.

Lemma validate_chain_returns chain :
  Forall block_full_ok chain -> returns (validate_and_rebuild_chain chain).
Proof.
  intros H. unfold validate_and_rebuild_chain. destruct chain as [|g blocks]; auto with caesar.
  apply Forall_cons in H as [Hg H]. apply returns_bind.
  - unfold validate_genesis_canonical. do 3 (apply returns_if; auto with caesar; intros _).
    by apply validate_basic_returns.
  - intros ok _. apply returns_if; auto with caesar. intros _. by apply rebuild_loop_returns.
Qed.
End NoThrow.

(** ** Claims *)

Section ChainClaims.
Context {ssl : OpenSSL}.

(** C7: [validate_and_rebuild_chain] accepts exactly the chains that grow
    from a canonical genesis by blocks satisfying every consensus rule, and
    returns the set and the issuance those blocks produce. *)
Theorem rebuild_refines_valid_chain c r :
  validate_and_rebuild_chain c = Ok (Some r) <-> valid_chain c r.
Proof. apply rebuild_valid_chain. Qed.

(** C5: supply soundness: after validating a chain of n+1 blocks the unspent
    outputs total at most what was issued, the issued total is exactly the
    sum of the n subsidies, and that is at most 21 million coins. *)
Theorem chain_supply_sound c r :
  validate_and_rebuild_chain c = Ok (Some r) -> Forall block_typed c -> sizeZ c <= UINT64_MAX ->
  0 <= utxo_total (utxo r) <= total_issued r /\
  total_issued r = issued (length c - 1) /\ total_issued r <= CZR_MAX_SUPPLY.
Proof.
  intros H%rebuild_valid_chain Ht Hs.
  destruct (valid_chain_supply c r H Ht Hs) as (Hu & Hi & Hle).
  pose proof (utxo_total_nonneg _ Hu). pose proof (issued_bound (length c - 1)). lia.
Qed.

(** C6: no theft: an output that is unspent before a block is applied and
    not after was spent by a transaction of that block carrying a witness
    whose key hashes to the output's address and whose signature verifies
    for that very input. *)
Theorem spending_needs_signature b u u' p o :
  block_typed b -> utxo_typed u ->
  apply_block_transactions_in_place_after_basic_validation b u = Ok (true, u') ->
  u !! p = Some o -> u' !! p <> Some o ->
  Exists (fun tx => spends_with_key tx p o) (tail (transactions b)).
Proof. intros Hb Hu Ha Hp Hp'. by destruct (apply_block_spends b u u' p o). Qed.

(** C22: the one-block check agrees with validation from genesis: when the
    chain is valid with set u, [validate_block_consensus] accepts a block
    exactly when the extended chain validates, and
    [apply_block_transactions] then computes the set of the extended chain. *)
Theorem incremental_validation_agrees c r b :
  validate_and_rebuild_chain c = Ok (Some r) ->
  (validate_block_consensus b c (utxo r) = Ok true <->
   exists r', validate_and_rebuild_chain (c ++ [b]) = Ok (Some r')) /\
  (forall r', validate_and_rebuild_chain (c ++ [b]) = Ok (Some r') ->
     apply_block_transactions b (utxo r) = Ok (utxo r')).
Proof.
  intros Hc%rebuild_valid_chain. pose proof (valid_chain_nonempty _ _ Hc) as Hne.
  assert (forall r', validate_and_rebuild_chain (c ++ [b]) = Ok (Some r') <-> extends c r b r') as Hx.
  { intros r'. rewrite rebuild_valid_chain. split; [|by econstructor].
    intros (r0 & H0 & He)%valid_chain_snoc_inv; [|done].
    by rewrite (valid_chain_functional _ _ _ Hc H0). }
  split; [rewrite validate_block_consensus_spec by done; by setoid_rewrite Hx|].
  intros r' He%Hx. by eapply extends_apply.
Qed.

(** Every block of a validated chain sits at its height, names the hash
    of the block below it, does not go back in time, and past the genesis
    meets a prescribed difficulty between 8 and 256. *)
Theorem validated_chain_history c r i b :
  validate_and_rebuild_chain c = Ok (Some r) -> sizeZ c <= UINT64_MAX ->
  c !! i = Some b -> block_in_chain c i b.
Proof. intros H%rebuild_valid_chain Hs Hb. by eapply valid_chain_blocks. Qed.

(** Every non-empty prefix of a validated chain validates. *)
Theorem validated_prefix c l r :
  c <> [] -> validate_and_rebuild_chain (c ++ l) = Ok (Some r) ->
  exists r0, validate_and_rebuild_chain c = Ok (Some r0).
Proof.
  intros Hne [r0 H]%rebuild_valid_chain%valid_chain_prefix; [|done].
  exists r0. by apply rebuild_valid_chain.
Qed.

(** C38: validation of blocks that decoded from the wire never throws: it
    returns a verdict on every chain of blocks within the protocol limits. *)
Theorem validation_total chain :
  Forall block_full_ok chain -> exists v, validate_and_rebuild_chain chain = Ok v.
Proof. apply validate_chain_returns. Qed.
End ChainClaims.

(** ** Witnesses *)

(** Three blocks: the coinbase of the second block is spent in the third. *)
Definition coinbase_to (h : Z) (rcpt : bytes) : Transaction :=
  match make_coinbase_transaction h rcpt h with Ok tx => tx | Throw _ => default_tx end.
Definition toy_txid (tx : Transaction) : Hash256 :=
  match txid (ssl := Toy.ssl) tx with Ok id => id | Throw _ => zero_hash end.
Definition sample_owner : bytes := address_from_public_key (ssl := Toy.ssl) sample_key.

Definition toy_block (prev : Block) (txs : list Transaction) : Block :=
  sealed (mkBlock (mkHeader 1 (height (header prev) + 1) (block_hash (ssl := Toy.ssl) prev)
                     zero_hash zero_hash (timestamp (header prev) + 60) 0 12)
            (coinbase_to (height (header prev) + 1) sample_owner :: txs)).

Definition chain_block1 : Block := Eval vm_compute in toy_block sample_genesis [].
Definition spent_point : OutPoint := Eval vm_compute in
  mkOutPoint (toy_txid (coinbase_to 1 sample_owner)) 0.
Definition chain_spend : Transaction := Eval vm_compute in
  mkTx 1 [] [mkInput (op_txid spent_point) 0] [mkOutput 4000000000 (str "bob")]
    (mkWitnessSet [mkWitness sample_key (hash_bytes (sample_hash 9))]).
Definition chain_block2 : Block := Eval vm_compute in toy_block chain_block1 [chain_spend].
Definition sample_chain : list Block := [sample_genesis; chain_block1; chain_block2].

#[local] Transparent calculate_pow_hash.

Lemma sample_chain_ok : Forall block_full_ok sample_chain.
Proof. decide_vm. Qed.
Lemma sample_chain_typed : Forall block_typed sample_chain.
Proof. decide_vm. Qed.

(** The verdict on the sample chain, with its final set. *)
Definition sample_result : ChainValidationResult :=
  mkValidation
    {[mkOutPoint (toy_txid (coinbase_to 2 sample_owner)) 0 := mkOutput 5000000000 sample_owner;
      mkOutPoint (toy_txid chain_spend) 0 := mkOutput 4000000000 (str "bob")]} 10000000000.

Definition sample_result1 : ChainValidationResult :=
  mkValidation {[spent_point := mkOutput 5000000000 sample_owner]} 5000000000.

Lemma sample_block1_extends :
  extends (ssl := Toy.ssl) [sample_genesis] (mkValidation ∅ 0) chain_block1 sample_result1.
Proof.
  split; [lazy; reflexivity| |decide_vm..].
  eexists. split; [reflexivity|]. decide_vm.
Qed.

Lemma sample_block2_extends :
  extends (ssl := Toy.ssl) [sample_genesis; chain_block1] sample_result1 chain_block2 sample_result.
Proof.
  split; [lazy; reflexivity| |decide_vm..].
  eexists. split; [reflexivity|]. decide_vm.
Qed.

Lemma sample_chain1_valid :
  valid_chain (ssl := Toy.ssl) [sample_genesis; chain_block1] sample_result1.
Proof.
  apply (valid_extend (ssl := Toy.ssl) [sample_genesis] (mkValidation ∅ 0) chain_block1 sample_result1);
    [|apply sample_block1_extends]. apply valid_genesis. lazy. reflexivity.
Qed.

Lemma sample_chain_valid :
  validate_and_rebuild_chain (ssl := Toy.ssl) sample_chain = Ok (Some sample_result).
Proof.
  apply rebuild_valid_chain.
  apply (valid_extend (ssl := Toy.ssl) [sample_genesis; chain_block1] sample_result1 chain_block2 sample_result);
    [apply sample_chain1_valid|apply sample_block2_extends].
Qed.

Lemma rebuild_refines_valid_chain_witness : valid_chain (ssl := Toy.ssl) sample_chain sample_result.
Proof.
  apply (rebuild_refines_valid_chain (ssl := Toy.ssl) sample_chain sample_result).
  apply sample_chain_valid.
Defined.

Lemma chain_supply_sound_witness :
  utxo_total (utxo sample_result) <= 10000000000 /\ 10000000000 = issued 2.
Proof.
  destruct (chain_supply_sound (ssl := Toy.ssl) sample_chain sample_result sample_chain_valid
    sample_chain_typed) as ((_ & H1) & H2 & _); [decide_vm|]. exact (conj H1 H2).
Defined.

Lemma sample_result1_typed : utxo_typed (utxo sample_result1).
Proof. apply map_Forall_singleton. decide_vm. Qed.

Lemma spending_needs_signature_witness :
  spends_with_key (ssl := Toy.ssl) chain_spend spent_point (mkOutput 5000000000 sample_owner).
Proof.
  assert (Exists (fun tx => spends_with_key (ssl := Toy.ssl) tx spent_point
                    (mkOutput 5000000000 sample_owner)) [chain_spend]) as H.
  { apply (spending_needs_signature (ssl := Toy.ssl) chain_block2 (utxo sample_result1)
      (utxo sample_result)).
    - decide_vm.
    - apply sample_result1_typed.
    - apply (ext_apply _ _ _ _ sample_block2_extends).
    - decide_vm.
    - decide_vm. }
  apply Exists_cons in H as [H|H]; [exact H|]. by apply Exists_nil in H.
Defined.

Lemma incremental_validation_agrees_witness :
  validate_block_consensus (ssl := Toy.ssl) chain_block2 [sample_genesis; chain_block1]
    (utxo sample_result1) = Ok true.
Proof.
  apply (incremental_validation_agrees (ssl := Toy.ssl) [sample_genesis; chain_block1] sample_result1
    chain_block2).
  - apply rebuild_valid_chain, sample_chain1_valid.
  - exists sample_result. apply sample_chain_valid.
Defined.

Lemma validated_chain_history_witness :
  block_in_chain (ssl := Toy.ssl) sample_chain 2 chain_block2.
Proof.
  apply (validated_chain_history (ssl := Toy.ssl) sample_chain sample_result 2 chain_block2
    sample_chain_valid); decide_vm.
Defined.

Lemma validated_prefix_witness :
  exists r0, validate_and_rebuild_chain (ssl := Toy.ssl) [sample_genesis] = Ok (Some r0).
Proof.
  apply (validated_prefix (ssl := Toy.ssl) [sample_genesis] [chain_block1; chain_block2] sample_result);
    [discriminate|apply sample_chain_valid].
Defined.

Lemma validation_total_witness :
  exists v, validate_and_rebuild_chain (ssl := Toy.ssl) sample_chain = Ok v.
Proof. apply (validation_total (ssl := Toy.ssl) sample_chain sample_chain_ok). Defined.
