(* ===== verification/ChainWork.v ===== *)
(** chain_work.hpp: cumulative work as a 512-bit integer of eight 64-bit limbs,
    and the comparison of chains by work. *)

From S2P Require Import Prelude Serialization Crypto Transaction UTXO Ownership Coinbase.
From S2P Require Import Consensus Block ChainValidator.
From stdpp Require Import options.
Local Open Scope Z_scope.

Module ChainWork.
(** [std::array<std::uint64_t, 8>], least significant limb first. *)
Record t := mk { limbs_ : list Z }.

Definition zero : t := mk (replicate 8 0).

(** [explicit ChainWork(std::uint64_t value)] *)
Definition of_u64 (value : Z) : t := mk (<[0%nat := value]> (replicate 8 0)).

Definition power_of_two (exponent : Z) : result t :=
  throw_if (512 <=? exponent) "chain work exponent exceeds 512 bits" ;;
  Ok (mk (<[Z.to_nat (exponent / 64) := u64 (Z.shiftl 1 (exponent mod 64))]> (replicate 8 0))).

(** The limb loop of [operator+=]: the new limbs and the last carry. *)
Fixpoint add_loop (xs ys : list Z) (carry : Z) : list Z * Z :=
  match xs, ys with
  | a :: xs, b :: ys =>
      let sum := u64 (a + b) in
      let carry1 := if sum <? a then 1 else 0 in
      let sum2 := u64 (sum + carry) in
      let carry2 := if sum2 <? sum then 1 else 0 in
      let '(limbs, carry) := add_loop xs ys (Z.lor carry1 carry2) in
      (sum2 :: limbs, carry)
  | _, _ => ([], carry)
  end.

Definition add (lhs rhs : t) : result t :=
  let '(limbs, carry) := add_loop (limbs_ lhs) (limbs_ rhs) 0 in
  throw_if (negb (carry =? 0)) "cumulative chain work exceeds 512 bits" ;;
  Ok (mk limbs).

Definition eqb (lhs rhs : t) : bool := bool_decide (limbs_ lhs = limbs_ rhs).

(** The loop of [operator<], most significant limb first. *)
Fixpoint ltb_loop (xs ys : list Z) : bool :=
  match xs, ys with
  | a :: xs, b :: ys => if a <? b then true else if b <? a then false else ltb_loop xs ys
  | _, _ => false
  end.

Definition ltb (lhs rhs : t) : bool := ltb_loop (rev (limbs_ lhs)) (rev (limbs_ rhs)).
Definition gtb (lhs rhs : t) : bool := ltb rhs lhs.
Definition leb (lhs rhs : t) : bool := negb (ltb rhs lhs).
Definition geb (lhs rhs : t) : bool := negb (ltb lhs rhs).

(** *** The integer it stands for *)

Fixpoint limbs_value (l : list Z) : Z :=
  match l with [] => 0 | x :: l => x + 2 ^ 64 * limbs_value l end.
Definition value (w : t) : Z := limbs_value (limbs_ w).
Definition wf (w : t) : Prop := length (limbs_ w) = 8%nat /\ Forall is_u64 (limbs_ w).

Lemma limbs_value_bound l :
  Forall is_u64 l -> 0 <= limbs_value l < 2 ^ (64 * sizeZ l).
Proof.
  induction 1 as [|x l Hx Hl IH]; [done|]. cbn [limbs_value].
  replace (64 * sizeZ (x :: l)) with (64 + 64 * sizeZ l) by (unfold sizeZ; simpl; lia).
  rewrite Z.pow_add_r by (unfold sizeZ; lia). unfold_ints. lia.
Qed.

Lemma value_bound w : wf w -> 0 <= value w < 2 ^ 512.
Proof.
  intros [Hl Hf]. pose proof (limbs_value_bound _ Hf) as H. unfold value.
  unfold sizeZ in H. rewrite Hl in H. exact H.
Qed.

Lemma add_limb a b carry :
  is_u64 a -> is_u64 b -> 0 <= carry <= 1 ->
  let sum := u64 (a + b) in
  let sum2 := u64 (sum + carry) in
  let c := Z.lor (if sum <? a then 1 else 0) (if sum2 <? sum then 1 else 0) in
  is_u64 sum2 /\ 0 <= c <= 1 /\ a + b + carry = sum2 + 2 ^ 64 * c.
Proof.
  intros Ha Hb Hc sum sum2 c.
  pose proof (u64_range (sum + carry)) as Hr. fold sum2 in Hr.
  pose proof (u64_range (a + b)) as Hr'. fold sum in Hr'.
  assert (sum = a + b \/ sum = a + b - 2 ^ 64 /\ a + b >= 2 ^ 64) as Hs.
  { unfold sum, u64. destruct (decide (a + b < 2 ^ 64)).
    - left. apply Z.mod_small. ints.
    - right. split; [|lia]. symmetry. apply (Z.mod_unique _ _ 1); ints. }
  assert (sum2 = sum + carry \/ sum2 = sum + carry - 2 ^ 64 /\ sum + carry >= 2 ^ 64) as Hs2.
  { unfold sum2, u64. destruct (decide (sum + carry < 2 ^ 64)).
    - left. apply Z.mod_small. ints.
    - right. split; [|lia]. symmetry. apply (Z.mod_unique _ _ 1); ints. }
  split; [done|]. unfold c.
  destruct (sum <? a) eqn:E1, (sum2 <? sum) eqn:E2; zbool;
    change (Z.lor 1 1) with 1; change (Z.lor 1 0) with 1; change (Z.lor 0 1) with 1;
    change (Z.lor 0 0) with 0; unfold_ints; lia.
Qed.

Lemma add_loop_spec xs ys carry zs carry' :
  Forall is_u64 xs -> Forall is_u64 ys -> length xs = length ys -> 0 <= carry <= 1 ->
  add_loop xs ys carry = (zs, carry') ->
  Forall is_u64 zs /\ length zs = length xs /\ 0 <= carry' <= 1 /\
  limbs_value xs + limbs_value ys + carry = limbs_value zs + 2 ^ (64 * sizeZ xs) * carry'.
Proof.
  intros Hx. revert ys carry zs. induction Hx as [|a xs Ha Hx IH]; intros [|b ys] carry zs Hy Hl Hc E;
    try done; cbn [add_loop] in E.
  - injection E as <- <-. split_and!; try done; try lia. change (2 ^ (64 * sizeZ (@nil Z))) with 1. simpl. lia.
  - apply Forall_cons in Hy as [Hb Hy]. injection Hl as Hl.
    pose proof (add_limb a b carry Ha Hb Hc) as (H1 & H2 & H3). cbv zeta in H1, H2, H3.
    set (c := Z.lor _ _) in *.
    destruct (add_loop xs ys c) as [limbs k] eqn:El. injection E as <- <-.
    destruct (IH ys c limbs Hy Hl H2 El) as (F & L & K & V).
    split_and!; [by constructor|simpl; congruence|lia|lia|]. cbn [limbs_value].
    replace (64 * sizeZ (a :: xs)) with (64 + 64 * sizeZ xs) by (unfold sizeZ; simpl; lia).
    rewrite Z.pow_add_r by (unfold sizeZ; lia). lia.
Qed.

(** Addition is exact, or throws when the sum needs more than 512 bits. *)
Lemma add_spec a b :
  wf a -> wf b ->
  (value a + value b < 2 ^ 512 -> exists c, add a b = Ok c /\ wf c /\ value c = value a + value b) /\
  (2 ^ 512 <= value a + value b -> exists e, add a b = Throw e).
Proof.
  intros [La Fa] [Lb Fb]. unfold add.
  destruct (add_loop _ _ 0) as [zs k] eqn:E.
  apply add_loop_spec in E as (F & L & K & V); [|done|done|congruence|lia].
  pose proof (value_bound (mk zs) (conj (eq_trans L La) F)) as Hb. unfold value in Hb. simpl in Hb.
  unfold sizeZ in V. rewrite La in V. change (64 * Z.of_nat 8) with 512 in V.
  unfold value. split; intros Hs.
  - assert (k = 0) as -> by lia. eexists. split; [done|]. split; [exact (conj (eq_trans L La) F)|].
    simpl. lia.
  - assert (k = 1) as -> by lia. by eexists.
Qed.

Lemma limbs_value_app l k : limbs_value (l ++ k) = limbs_value l + 2 ^ (64 * sizeZ l) * limbs_value k.
Proof.
  induction l as [|x l IH]; [change (2 ^ (64 * sizeZ (@nil Z))) with 1; simpl; lia|].
  cbn [app limbs_value]. rewrite IH.
  replace (64 * sizeZ (x :: l)) with (64 + 64 * sizeZ l) by (unfold sizeZ; simpl; lia).
  rewrite Z.pow_add_r by (unfold sizeZ; lia). lia.
Qed.

Lemma ltb_loop_spec xs ys :
  Forall is_u64 xs -> Forall is_u64 ys -> length xs = length ys ->
  ltb_loop xs ys = true <-> limbs_value (rev xs) < limbs_value (rev ys).
Proof.
  intros Hx. revert ys. induction Hx as [|a xs Ha Hx IH]; intros [|b ys] Hy Hl; try done.
  apply Forall_cons in Hy as [Hb Hy]. injection Hl as Hl. cbn [ltb_loop rev].
  rewrite !limbs_value_app. cbn [limbs_value]. rewrite !Z.mul_0_r, !Z.add_0_r.
  assert (sizeZ (rev xs) = sizeZ (rev ys)) as Es by (unfold sizeZ; rewrite !length_rev; congruence).
  rewrite <- Es. set (M := 2 ^ _).
  assert (0 <= limbs_value (rev xs) < M) as Hvx
    by (apply limbs_value_bound; by apply Forall_rev).
  assert (0 <= limbs_value (rev ys) < M) as Hvy
    by (unfold M; rewrite Es; apply limbs_value_bound; by apply Forall_rev).
  destruct (a <? b) eqn:E1; zbool.
  - split; [|done]. intros _. assert (M * (b - a) >= M) by nia. lia.
  - destruct (b <? a) eqn:E2; zbool.
    + split; [done|]. intros. assert (M * (a - b) >= M) by nia. lia.
    + assert (a = b) as -> by lia. rewrite IH by done. lia.
Qed.

Lemma ltb_spec a b : wf a -> wf b -> ltb a b = true <-> value a < value b.
Proof.
  intros [La Fa] [Lb Fb]. unfold ltb.
  rewrite ltb_loop_spec by (by rewrite ?length_rev; try apply Forall_rev; congruence || done).
  by rewrite !rev_involutive.
Qed.

Lemma wf_zero : wf zero.
Proof. split; [done|]. unfold zero. simpl. repeat constructor; ints. Qed.

Lemma power_of_two_spec d :
  0 <= d < 512 -> exists w, power_of_two d = Ok w /\ wf w /\ value w = 2 ^ d.
Proof.
  intros Hd. unfold power_of_two, throw_if. rewrite (proj2 (Z.leb_gt _ _)) by lia. simpl.
  eexists. split; [done|].
  pose proof (Z.div_mod d 64 ltac:(lia)) as E. pose proof (Z.mod_pos_bound d 64 ltac:(lia)) as Hm.
  set (q := d / 64) in *. set (m := d mod 64) in *.
  assert (0 <= q < 8) as Hq by lia.
  rewrite Z.shiftl_1_l. assert (2 ^ m <= 2 ^ 63) by (apply Z.pow_le_mono_r; lia).
  assert (0 < 2 ^ m) by lia. rewrite u64_small by ints.
  assert (forall k, 2 ^ (64 * k + m) = 2 ^ (64 * k) * 2 ^ m \/ k < 0) as Hpow.
  { intros k. destruct (decide (k < 0)); [auto|left]. apply Z.pow_add_r; lia. }
  rewrite E. assert (q = 0 \/ q = 1 \/ q = 2 \/ q = 3 \/ q = 4 \/ q = 5 \/ q = 6 \/ q = 7) as Hc by lia.
  destruct Hc as [Hc|[Hc|[Hc|[Hc|[Hc|[Hc|[Hc|Hc]]]]]]]; rewrite Hc;
    (split; [split; [done|simpl; repeat constructor; ints]|]);
    (destruct (Hpow q) as [Hp|]; [|lia]); rewrite Hc in Hp; rewrite Hp; unfold value; simpl; lia.
Qed.
End ChainWork.

Definition block_work (block : Block) : result ChainWork.t :=
  throw_if (CZR_MAX_DIFFICULTY <? difficulty (header block)) "invalid difficulty for chain work" ;;
  ChainWork.power_of_two (difficulty (header block)).

Definition cumulative_chain_work (chain : list Block) : result ChainWork.t :=
  throw_if (bool_decide (chain = [])) "cannot calculate chain work for empty chain" ;;
  foldM_r (fun total block => w ← block_work block; ChainWork.add total w) ChainWork.zero chain.

Definition has_more_work (candidate current : list Block) : result bool :=
  if bool_decide (candidate = []) then Ok false
  else if bool_decide (current = []) then Ok true
  else
    w1 ← cumulative_chain_work candidate;
    w2 ← cumulative_chain_work current;
    Ok (ChainWork.gtb w1 w2).

Definition select_higher_work_chain {ssl : OpenSSL} (candidate current : list Block) : result bool :=
  if bool_decide (candidate = []) then Ok false
  else
    ok ← validate_candidate_chain candidate;
    if negb ok then Ok false
    else if bool_decide (current = []) then Ok true
    else
      ok ← validate_candidate_chain current;
      if negb ok then Ok false else has_more_work candidate current.

(** ** Work as an integer *)

(** The expected number of hashes behind a chain. *)
Definition work (chain : list Block) : Z := sumZ (fun b => 2 ^ difficulty (header b)) chain.

Definition difficulties_ok (chain : list Block) : Prop :=
  Forall (fun b => 0 <= difficulty (header b) <= 256) chain.

Lemma work_bound chain :
  difficulties_ok chain -> 0 <= work chain <= sizeZ chain * 2 ^ 256.
Proof.
  unfold difficulties_ok, work, sizeZ. induction 1 as [|b c Hb Hc IH]; simpl; [lia|].
  assert (2 ^ difficulty (header b) <= 2 ^ 256) by (apply Z.pow_le_mono_r; lia).
  assert (0 < 2 ^ difficulty (header b)) by (apply Z.pow_pos_nonneg; lia). simpl in *. lia.
Qed.

Lemma cumulative_fold_spec chain w :
  difficulties_ok chain -> ChainWork.wf w -> ChainWork.value w + work chain < 2 ^ 512 ->
  exists w', foldM_r (fun total block => w ← block_work block; ChainWork.add total w) w chain = Ok w' /\
    ChainWork.wf w' /\ ChainWork.value w' = ChainWork.value w + work chain.
Proof.
  intros H. revert w. induction H as [|b c Hb Hc IH]; intros w Hw Hlt.
  - exists w. unfold work. simpl. split_and!; [done|done|lia].
  - unfold work in *. cbn [sumZ foldr] in Hlt. fold (sumZ (fun b => 2 ^ difficulty (header b)) c) in Hlt.
    pose proof (work_bound c Hc) as [Hp _]. unfold work in Hp.
    destruct (ChainWork.power_of_two_spec (difficulty (header b))) as (p & Ep & Wp & Vp); [lia|].
    pose proof (proj1 (ChainWork.add_spec w p Hw Wp)) as Ha. rewrite Vp in Ha.
    destruct Ha as (s & Es & Ws & Vs); [lia|].
    cbn [foldM_r]. unfold block_work, throw_if, CZR_MAX_DIFFICULTY.
    rewrite (proj2 (Z.ltb_ge _ _)) by lia. cbn [mbind result_bind]. rewrite Ep. cbn [mbind result_bind].
    rewrite Es. cbn [mbind result_bind]. destruct (IH s Ws) as (w' & E' & W' & V'); [lia|].
    exists w'. split_and!; [exact E'|done|]. rewrite V', Vs. unfold sumZ. simpl. lia.
Qed.

Lemma cumulative_chain_work_spec chain :
  chain <> [] -> difficulties_ok chain -> sizeZ chain <= UINT64_MAX ->
  exists w, cumulative_chain_work chain = Ok w /\ ChainWork.wf w /\ ChainWork.value w = work chain.
Proof.
  intros Hne Hd Hs. unfold cumulative_chain_work, throw_if.
  rewrite (bool_decide_eq_false_2 (chain = [])) by done. cbn [mbind result_bind].
  pose proof (work_bound chain Hd).
  destruct (cumulative_fold_spec chain ChainWork.zero Hd ChainWork.wf_zero) as (w & E & W & V).
  { change (ChainWork.value ChainWork.zero) with 0. ints. }
  exists w. split_and!; [exact E|done|]. rewrite V. reflexivity.
Qed.

Lemma has_more_work_spec c1 c2 :
  c1 <> [] -> c2 <> [] -> difficulties_ok c1 -> difficulties_ok c2 ->
  sizeZ c1 <= UINT64_MAX -> sizeZ c2 <= UINT64_MAX ->
  has_more_work c1 c2 = Ok (bool_decide (work c2 < work c1)).
Proof.
  intros N1 N2 D1 D2 S1 S2. unfold has_more_work.
  rewrite (bool_decide_eq_false_2 (c1 = [])), (bool_decide_eq_false_2 (c2 = [])) by done.
  destruct (cumulative_chain_work_spec c1 N1 D1 S1) as (w1 & -> & W1 & V1).
  destruct (cumulative_chain_work_spec c2 N2 D2 S2) as (w2 & -> & W2 & V2).
  cbn [mbind result_bind]. f_equal. unfold ChainWork.gtb. apply eq_true_iff_eq.
  rewrite ChainWork.ltb_spec, bool_decide_eq_true, V1, V2 by done. done.
Qed.

Lemma valid_chain_difficulties {ssl : OpenSSL} c r :
  valid_chain c r -> sizeZ c <= UINT64_MAX -> difficulties_ok c.
Proof.
  intros Hc Hs. apply Forall_forall. intros b [i Hi]%list_elem_of_lookup.
  destruct (valid_chain_blocks c r Hc Hs i b Hi) as [_ _ B3 B4 _].
  destruct (decide (i = 0%nat)) as [->|Hne]; [|specialize (B4 Hne); lia].
  rewrite bool_decide_eq_true_2 in B3 by done. lia.
Qed.

(** ** Claims *)

(** The 512-bit arithmetic is exact: addition gives the sum of the two
    integers or throws when it does not fit, and the comparison is that of the
    integers. *)
Theorem chain_work_exact a b :
  ChainWork.wf a -> ChainWork.wf b ->
  (ChainWork.value a + ChainWork.value b < 2 ^ 512 ->
     exists c, ChainWork.add a b = Ok c /\ ChainWork.wf c /\
       ChainWork.value c = ChainWork.value a + ChainWork.value b) /\
  (2 ^ 512 <= ChainWork.value a + ChainWork.value b -> exists e, ChainWork.add a b = Throw e) /\
  (ChainWork.ltb a b = true <-> ChainWork.value a < ChainWork.value b).
Proof.
  intros Ha Hb. destruct (ChainWork.add_spec a b Ha Hb) as [H1 H2].
  split; [exact H1|]. split; [exact H2|]. by apply ChainWork.ltb_spec.
Qed.

Lemma chain_work_exact_witness :
  exists c, ChainWork.add (ChainWork.of_u64 UINT64_MAX) (ChainWork.of_u64 1) = Ok c /\
    ChainWork.value c = 2 ^ 64.
Proof.
  assert (forall v, is_u64 v -> ChainWork.wf (ChainWork.of_u64 v)) as Hwf.
  { intros v Hv. split; [done|]. simpl. repeat constructor; ints. }
  destruct (chain_work_exact (ChainWork.of_u64 UINT64_MAX) (ChainWork.of_u64 1)
    (Hwf UINT64_MAX ltac:(ints)) (Hwf 1 ltac:(ints))) as [H _].
  destruct H as (c & E & _ & V); [reflexivity|]. exists c. split; [exact E|]. rewrite V. reflexivity.
Defined.

(** On non-empty validated chains [has_more_work] never throws and compares
    the sums of 2^difficulty: the selection metric is the expected number of
    hashes. *)
Theorem has_more_work_correct {ssl : OpenSSL} c1 c2 r1 r2 :
  validate_and_rebuild_chain c1 = Ok (Some r1) -> validate_and_rebuild_chain c2 = Ok (Some r2) ->
  sizeZ c1 <= UINT64_MAX -> sizeZ c2 <= UINT64_MAX ->
  has_more_work c1 c2 = Ok (bool_decide (work c2 < work c1)).
Proof.
  intros H1%rebuild_valid_chain H2%rebuild_valid_chain S1 S2.
  apply has_more_work_spec; eauto using valid_chain_nonempty, valid_chain_difficulties.
Qed.

Lemma has_more_work_correct_witness :
  has_more_work sample_chain [sample_genesis; chain_block1] = Ok true.
Proof.
  rewrite (has_more_work_correct (ssl := Toy.ssl) sample_chain [sample_genesis; chain_block1]
    sample_result sample_result1 sample_chain_valid); [reflexivity| |decide_vm..].
  apply rebuild_valid_chain, sample_chain1_valid.
Defined.
