(* ===== verification/Mempool.v ===== *)
(** mempool_validation.hpp and mempool.hpp: admission of unconfirmed
    transactions, the pool's reservations, the dependency order handed to the
    miner, and removal with descendants. *)

From S2P Require Import Prelude Serialization Crypto Transaction UTXO Ownership.
From stdpp Require Import options.
Local Open Scope Z_scope.

Inductive MempoolRejectReason :=
  | None_ | InvalidTransaction | Duplicate | MissingInput | DuplicateInput | DoubleSpend
  | OutputOverflow | InsufficientInputValue | TransactionTooLarge | MempoolFull.
#[global] Instance MempoolRejectReason_eq_dec : EqDecision MempoolRejectReason.
Proof. solve_decision. Defined.

Definition accepted (reason : MempoolRejectReason) : bool := bool_decide (reason = None_).

Definition mempool_reject_reason_string (reason : MempoolRejectReason) : string :=
  match reason with
  | None_ => "none"
  | InvalidTransaction => "invalid transaction"
  | Duplicate => "duplicate"
  | MissingInput => "missing input"
  | DuplicateInput => "duplicate input"
  | DoubleSpend => "double spend"
  | OutputOverflow => "value overflow"
  | InsufficientInputValue => "insufficient input value"
  | TransactionTooLarge => "transaction too large"
  | MempoolFull => "mempool full"
  end.

(** The input loop: the sum, or the reason of the early return. *)
Fixpoint mempool_sum_inputs (ins : list TransactionInput) (utxos : UTXOSet)
    (seen_inputs : gset OutPoint) (input_sum : Z) : Z + MempoolRejectReason :=
  match ins with
  | [] => inl input_sum
  | i :: ins =>
      if bool_decide (point i ∈ seen_inputs) then inr DuplicateInput
      else if negb (utxo_contains (point i) utxos) then inr MissingInput
      else match utxo_get (point i) utxos with
           | None => inr MissingInput
           | Some previous =>
               if UINT64_MAX - input_sum <? amount previous then inr OutputOverflow
               else mempool_sum_inputs ins utxos ({[point i]} ∪ seen_inputs)
                      (u64 (input_sum + amount previous))
           end
  end.

Fixpoint mempool_sum_outputs (outs : list TransactionOutput) (output_sum : Z)
    : Z + MempoolRejectReason :=
  match outs with
  | [] => inl output_sum
  | o :: outs =>
      if (amount o =? 0) || bool_decide (recipient o = []) then inr InvalidTransaction
      else if UINT64_MAX - output_sum <? amount o then inr OutputOverflow
      else mempool_sum_outputs outs (u64 (output_sum + amount o))
  end.

Definition validate_for_mempool (tx : Transaction) (utxos : UTXOSet) : MempoolRejectReason :=
  if negb (tx_validate tx) then InvalidTransaction
  else match mempool_sum_inputs (inputs tx) utxos ∅ 0 with
       | inr reason => reason
       | inl input_sum =>
           match mempool_sum_outputs (outputs tx) 0 with
           | inr reason => reason
           | inl output_sum =>
               if input_sum <? output_sum then InsufficientInputValue else None_
           end
       end.

(** ** The pool *)

Record Mempool := mkMempool {
  transactions_ : gmap Hash256 Transaction;
  reserved_inputs_ : gset OutPoint;
  mempool_bytes_ : Z (* size_t *)
}.

Definition MAX_TRANSACTIONS : Z := 5000.
Definition MAX_TRANSACTION_BYTES : Z := 1000000.
Definition MAX_MEMPOOL_BYTES : Z := 16 * 1024 * 1024.

(** The order in which a [std::unordered_map] is iterated is unspecified: it is
    some enumeration of the entries. *)
Class UnorderedMap := {
  iteration : gmap Hash256 Transaction -> list (Hash256 * Transaction);
  iteration_perm m : iteration m ≡ₚ map_to_list m
}.

Definition new_mempool : Mempool := mkMempool ∅ ∅ 0.
Definition mempool_contains (mp : Mempool) (id : Hash256) : bool :=
  bool_decide (is_Some (transactions_ mp !! id)).
Definition mempool_size (mp : Mempool) : Z := Z.of_nat (size (transactions_ mp)).
Definition input_reserved (mp : Mempool) (p : OutPoint) : bool :=
  bool_decide (p ∈ reserved_inputs_ mp).
Definition mempool_get (mp : Mempool) (id : Hash256) : option Transaction :=
  transactions_ mp !! id.
Definition mempool_clear (mp : Mempool) : Mempool := mkMempool ∅ ∅ 0.
Definition bytes_of (mp : Mempool) : Z := mempool_bytes_ mp.

(** [left.first < right.first] on the entries, for [std::sort]. *)
Definition entry_le (x y : Hash256 * Transaction) : Prop := hash_ltb y.1 x.1 = false.
#[global] Instance entry_le_dec : RelDecision entry_le.
Proof. intros x y. unfold entry_le. apply _. Defined.

Section Pool.
Context {ssl : OpenSSL}.

(** Spend the inputs of [tx] and add its outputs: the loop body shared by
    [ordered_transactions] and [build_effective_utxo]. *)
Definition connect (tx : Transaction) (utxos : UTXOSet) : result (bool * UTXOSet) :=
  let '(ok, utxos) := spend_inputs (inputs tx) utxos in
  if negb ok then Ok (false, utxos)
  else id ← txid tx; Ok (add_outputs id 0 (outputs tx) utxos).

(** The locals of the ordering loop. *)
Record ordering := mkOrdering {
  working : UTXOSet;
  ordered : list Transaction;
  remaining : gset Hash256;
  progressed : bool
}.

Definition ready (tx : Transaction) (utxos : UTXOSet) : bool :=
  forallb (fun i => utxo_contains (point i) utxos) (inputs tx).

(** One [for (entry : pending)] pass; [None] is [return {}]. *)
Fixpoint ordered_pass (pending : list (Hash256 * Transaction)) (s : ordering)
    : result (option ordering) :=
  match pending with
  | [] => Ok (Some s)
  | (id, tx) :: pending =>
      if negb (bool_decide (id ∈ remaining s)) then ordered_pass pending s
      else if negb (ready tx (working s)) then ordered_pass pending s
      else
        '(ok, w) ← connect tx (working s);
        if negb ok then Ok None
        else ordered_pass pending
               (mkOrdering w (ordered s ++ [tx]) (remaining s ∖ {[id]}) true)
  end.

(** [while (!remaining.empty())] *)
Fixpoint ordered_loop (fuel : nat) (pending : list (Hash256 * Transaction)) (s : ordering)
    : result (list Transaction) :=
  if bool_decide (remaining s = ∅) then Ok (ordered s)
  else
    match fuel with
    | O => Ok []
    | S fuel =>
        r ← ordered_pass pending (mkOrdering (working s) (ordered s) (remaining s) false);
        match r with
        | None => Ok []
        | Some s => if negb (progressed s) then Ok [] else ordered_loop fuel pending s
        end
    end.

Definition ordered_transactions (mp : Mempool) (chain_utxos : UTXOSet)
    : result (list Transaction) :=
  let pending := merge_sort entry_le (map_to_list (transactions_ mp)) in
  ordered_loop (length pending) pending
    (mkOrdering chain_utxos [] (list_to_set pending.*1) false).

(** The loop of [build_effective_utxo]. *)
Fixpoint connect_all (txs : list Transaction) (utxos : UTXOSet) : result (bool * UTXOSet) :=
  match txs with
  | [] => Ok (true, utxos)
  | tx :: txs =>
      '(ok, utxos) ← connect tx utxos;
      if negb ok then Ok (false, utxos) else connect_all txs utxos
  end.

(** [None] is [false]. *)
Definition build_effective_utxo (mp : Mempool) (chain_utxos : UTXOSet) : result (option UTXOSet) :=
  txs ← ordered_transactions mp chain_utxos;
  if negb (bool_decide (length txs = size (transactions_ mp))) then Ok None
  else
    '(ok, u) ← connect_all txs chain_utxos;
    Ok (if (ok : bool) then Some u else None).

Definition mempool_accept (mp : Mempool) (tx : Transaction) (chain_utxos : UTXOSet)
    : result (MempoolRejectReason * Mempool) :=
  id ← txid tx;
  if mempool_contains mp id then Ok (Duplicate, mp)
  else if MAX_TRANSACTIONS <=? mempool_size mp then Ok (MempoolFull, mp)
  else
    serialized ← tx_serialize_full_binary tx;
    let tx_bytes := sizeZ serialized in
    if MAX_TRANSACTION_BYTES <? tx_bytes then Ok (TransactionTooLarge, mp)
    else if u64 (MAX_MEMPOOL_BYTES - tx_bytes) <? mempool_bytes_ mp then Ok (MempoolFull, mp)
    else if existsb (fun i => input_reserved mp (point i)) (inputs tx) then Ok (DoubleSpend, mp)
    else
      effective ← build_effective_utxo mp chain_utxos;
      match effective with
      | None => Ok (InvalidTransaction, mp)
      | Some effective_utxos =>
          let validation := validate_for_mempool tx effective_utxos in
          if negb (accepted validation) then Ok (validation, mp)
          else
            ok ← validate_transaction_witness tx effective_utxos;
            if negb ok then Ok (InvalidTransaction, mp)
            else
              Ok (None_, mkMempool (<[id := tx]> (transactions_ mp))
                           (list_to_set (point <$> inputs tx) ∪ reserved_inputs_ mp)
                           (u64 (mempool_bytes_ mp + tx_bytes)))
      end.
End Pool.

Section Removal.
Context `{UnorderedMap}.

(** The body of the closure loop: the removal set and [changed]. *)
Definition removal_step (s : gset Hash256 * bool) (e : Hash256 * Transaction)
    : gset Hash256 * bool :=
  let '(removal, changed) := s in
  let '(id, tx) := e in
  if bool_decide (id ∈ removal) then (removal, changed)
  else if existsb (fun i => bool_decide (previous_txid i ∈ removal)) (inputs tx)
  then ({[id]} ∪ removal, true)
  else (removal, changed).

Definition removal_pass (entries : list (Hash256 * Transaction)) (removal : gset Hash256)
    : gset Hash256 * bool :=
  foldl removal_step (removal, false) entries.

Fixpoint removal_loop (fuel : nat) (entries : list (Hash256 * Transaction))
    (removal : gset Hash256) : gset Hash256 :=
  match fuel with
  | O => removal
  | S fuel =>
      let '(removal, changed) := removal_pass entries removal in
      if changed then removal_loop fuel entries removal else removal
  end.

(** Erase one transaction, its reservations and its bytes. *)
Definition erase_transaction (mp : Mempool) (id : Hash256) : result Mempool :=
  match transactions_ mp !! id with
  | None => Ok mp
  | Some tx =>
      serialized ← tx_serialize_full_binary tx;
      Ok (mkMempool (delete id (transactions_ mp))
            (reserved_inputs_ mp ∖ list_to_set (point <$> inputs tx))
            (u64 (mempool_bytes_ mp - sizeZ serialized)))
  end.

Definition mempool_remove (mp : Mempool) (id : Hash256) : result (bool * Mempool) :=
  if negb (mempool_contains mp id) then Ok (false, mp)
  else
    let entries := iteration (transactions_ mp) in
    let removal := removal_loop (S (length entries)) entries {[id]} in
    mp ← foldM_r erase_transaction mp (elements removal);
    Ok (true, mp).
End Removal.

(** ** Admission *)

Lemma mempool_sum_inputs_spec ins u seen s r :
  mempool_sum_inputs ins u seen s = inl r <-> sum_inputs ins u seen s = Some r.
Proof.
  revert seen s. induction ins as [|i ins IH]; intros seen s; simpl; [naive_solver|].
  case_bool_decide; [naive_solver|]. unfold utxo_contains, utxo_get.
  destruct (u !! point i) as [o|] eqn:E.
  - rewrite bool_decide_eq_true_2 by eauto. simpl. destruct (_ <? _); [naive_solver|apply IH].
  - rewrite bool_decide_eq_false_2 by (by intros [? ?]). naive_solver.
Qed.

Lemma mempool_sum_outputs_spec outs s r :
  mempool_sum_outputs outs s = inl r <->
  validate_outputs outs s = Some r.
Proof.
  revert s. induction outs as [|o outs IH]; intros s; simpl; [naive_solver|].
  destruct (amount o =? 0); simpl; [naive_solver|]. case_bool_decide; [naive_solver|].
  destruct (_ <? _); [naive_solver|apply IH].
Qed.

Lemma validate_sum_outputs outs s r :
  validate_outputs outs s = Some r -> sum_outputs outs s = Some r.
Proof.
  revert s. induction outs as [|o outs IH]; intros s; simpl; [done|].
  destruct (_ =? _); [done|]. case_bool_decide; [done|]. destruct (_ <? _); [done|apply IH].
Qed.

Lemma validate_for_mempool_None tx u :
  validate_for_mempool tx u = None_ <-> validate_transaction_against_utxo tx u = true.
Proof.
  unfold validate_for_mempool, validate_transaction_against_utxo.
  destruct (tx_validate tx) eqn:Ev; simpl; [|done].
  assert (exists os, validate_outputs (outputs tx) 0 = Some os) as [os Hos].
  { unfold tx_validate in Ev. destruct (_ =? 0); [done|]. destruct (_ || _); [done|].
    destruct (validate_outputs _ _); [eauto|done]. }
  rewrite (validate_sum_outputs _ _ _ Hos).
  apply mempool_sum_outputs_spec in Hos. rewrite Hos.
  destruct (sum_inputs (inputs tx) u ∅ 0) as [is_|] eqn:Ei.
  - apply mempool_sum_inputs_spec in Ei. rewrite Ei.
    destruct (_ <? _) eqn:E1; zbool; split; intros; try done; lia.
  - destruct (mempool_sum_inputs _ _ _ _) as [x|reason] eqn:Em.
    + apply mempool_sum_inputs_spec in Em. congruence.
    + split; [|done]. intros ->. exfalso. clear Ei. revert Em. generalize (∅ : gset OutPoint) 0.
      induction (inputs tx) as [|i ins IH]; intros seen s; simpl; [done|].
      case_bool_decide; [done|]. destruct (negb _); [done|]. destruct (utxo_get _ _); [|done].
      destruct (_ <? _); [done|apply IH].
Qed.

(** ** Dependencies *)

Section Dependencies.
Context {ssl : OpenSSL}.
Implicit Types (l R : list (Hash256 * Transaction)) (A : OutPoint -> Prop).

(** Transaction [id] creates output [p]. *)
Definition creates (e : Hash256 * Transaction) (p : OutPoint) : Prop :=
  op_txid p = e.1 /\ 0 <= op_index p < sizeZ (outputs e.2).

Lemma creates_output_at id tx p :
  creates (id, tx) p <-> is_Some (output_at id 0 (outputs tx) p).
Proof.
  unfold creates, output_at, sizeZ. simpl. rewrite Z.sub_0_r.
  case_bool_decide as E; simpl; [|naive_solver].
  destruct (0 <=? op_index p) eqn:E0; zbool.
  - rewrite lookup_lt_is_Some. split; [intros [_ ?]; lia|]. intros. split; [done|lia].
  - split; [intros [_ ?]; lia|]. by intros [? ?].
Qed.

(** In the order [l] every input is available, or created earlier. *)
Fixpoint resolves l A : Prop :=
  match l with
  | [] => True
  | e :: l => Forall (fun i => A (point i)) (inputs e.2) /\ resolves l (fun p => A p \/ creates e p)
  end.

Lemma resolves_mono l A A' :
  (forall e i, e ∈ l -> i ∈ inputs e.2 -> A (point i) -> A' (point i)) ->
  resolves l A -> resolves l A'.
Proof.
  revert A A'. induction l as [|e l IH]; intros A A' HA; simpl; [done|]. intros [Hi Hl]. split.
  - rewrite Forall_forall in *. intros i Hi'. apply (HA e); [left|done|auto].
  - eapply IH; [|exact Hl]. intros e' i He' Hi' [H|H]; [|auto].
    left. apply (HA e'); [by right|done|done].
Qed.

#[export] Instance resolves_proper l :
  Proper (pointwise_relation OutPoint iff ==> iff) (resolves l).
Proof. intros A A' HA. split; apply resolves_mono; intros; by apply HA. Qed.

(** A transaction whose inputs are available can go first. *)
Lemma resolves_remove l1 e l2 A :
  resolves (l1 ++ e :: l2) A -> resolves (l1 ++ l2) (fun p => A p \/ creates e p).
Proof.
  revert A. induction l1 as [|x l1 IH]; intros A; simpl; [by intros [_ H]|].
  intros [Hx H]. split; [eapply Forall_impl; [exact Hx|]; simpl; auto|].
  apply IH in H. eapply resolves_mono; [|exact H]. cbn beta. tauto.
Qed.

Lemma resolves_perm_remove l e R A :
  l ≡ₚ e :: R -> resolves l A ->
  exists l', l' ≡ₚ R /\ resolves l' (fun p => A p \/ creates e p).
Proof.
  intros Hp Hl. assert (e ∈ l) as He by (rewrite Hp; left).
  apply list_elem_of_split in He as (l1 & l2 & ->).
  exists (l1 ++ l2). split; [|by apply resolves_remove].
  apply (Permutation_cons_inv (a := e)). rewrite <- Hp. by rewrite Permutation_middle.
Qed.

(** All the inputs of the entries. *)
Definition all_inputs R : list OutPoint := R ≫= (fun e => point <$> inputs e.2).

Definition entry_ok (e : Hash256 * Transaction) : Prop :=
  txid e.2 = Ok e.1 /\ sizeZ (outputs e.2) <= UINT32_MAX.

(** The transactions [R] can all be connected to [w], in some order. *)
Record connectable (w : UTXOSet) R : Prop := {
  con_order : exists l, l ≡ₚ R /\ resolves l (fun p => is_Some (w !! p));
  con_inputs : NoDup (all_inputs R);
  con_ids : NoDup R.*1;
  con_fresh : forall p, is_Some (w !! p) -> op_txid p ∉ R.*1;
  con_entries : Forall entry_ok R
}.

#[export] Instance connectable_perm w : Proper ((≡ₚ) ==> iff) (connectable w).
Proof.
  assert (forall R R', R ≡ₚ R' -> connectable w R -> connectable w R') as H.
  { intros R R' E [(l & Hl & Hr) H2 H3 H4 H5]. split.
    - exists l. by rewrite <- E.
    - unfold all_inputs in *. by rewrite <- E.
    - by rewrite <- E.
    - intros p. rewrite <- E. apply H4.
    - by rewrite <- E. }
  intros R R' E. split; by apply H.
Qed.

Lemma all_inputs_cons e R : all_inputs (e :: R) = (point <$> inputs e.2) ++ all_inputs R.
Proof. done. Qed.

Lemma elem_of_all_inputs R p :
  p ∈ all_inputs R <-> exists e i, e ∈ R /\ i ∈ inputs e.2 /\ p = point i.
Proof.
  unfold all_inputs. rewrite list_elem_of_bind. setoid_rewrite list_elem_of_fmap. naive_solver.
Qed.

(** What connecting does to every point. *)
Lemma connect_lookup id tx w w' p :
  txid tx = Ok id -> connect tx w = Ok (true, w') ->
  w' !! p = match output_at id 0 (outputs tx) p with
            | Some o => Some o
            | None => if decide (p ∈ point <$> inputs tx) then None else w !! p
            end.
Proof.
  intros Hid. unfold connect. destruct (spend_inputs _ _) as [[] w1] eqn:Es; [simpl|done].
  rewrite Hid. simpl. intros [= H]. rewrite (add_outputs_lookup id 0 (outputs tx) w1 w' p ltac:(lia) H).
  by rewrite (spend_inputs_lookup _ _ _ p Es).
Qed.

(** Connecting a ready transaction succeeds and leaves the rest connectable. *)
Lemma connect_step w id tx R :
  connectable w ((id, tx) :: R) -> Forall (fun i => is_Some (w !! point i)) (inputs tx) ->
  exists w', connect tx w = Ok (true, w') /\ connectable w' R.
Proof.
  intros [(l & Hl & Hr) Hnd Hids Hfr He] Hin.
  rewrite all_inputs_cons in Hnd. apply NoDup_app in Hnd as (Hnd1 & Hdis & Hnd2).
  apply NoDup_cons in Hids as [Hid Hids]. apply Forall_cons in He as [[Ht Hs] He]. simpl in *.
  assert (exists w1, spend_inputs (inputs tx) w = (true, w1)) as [w1 Hw1].
  { eexists. apply spend_inputs_spec. split; [|reflexivity]. by split. }
  destruct (add_outputs_fresh id 0 (outputs tx) w1) as [w' Hw']; [lia|lia| |].
  { intros p Hp _. pose proof (spend_inputs_lookup _ _ _ p Hw1) as E.
    destruct (w1 !! p) eqn:E1; [|done]. case_decide; [done|].
    exfalso. apply (Hfr p); [eauto|]. rewrite Hp. left. }
  assert (connect tx w = Ok (true, w')) as Hc.
  { unfold connect. rewrite Hw1. simpl. rewrite Ht. simpl. by rewrite Hw'. }
  exists w'. split; [done|].
  pose proof (fun p => connect_lookup id tx w w' p Ht Hc) as Hlook.
  destruct (resolves_perm_remove l (id, tx) R _ Hl Hr) as (l' & Hl' & Hr').
  split; [|done|done| |done].
  - exists l'. split; [done|]. eapply resolves_mono; [|exact Hr']. cbn beta.
    intros e i Hel Hi HA. rewrite Hlook.
    destruct HA as [HA|HA%creates_output_at].
    + destruct (output_at _ _ _ _); [done|]. rewrite decide_False; [done|].
      intros Hp. apply (Hdis (point i) Hp). apply elem_of_all_inputs.
      exists e, i. rewrite <- Hl'. done.
    + by destruct HA as [o ->].
  - intros p [o Hp]. rewrite Hlook in Hp. destruct (output_at _ _ _ p) eqn:Eo.
    + assert (creates (id, tx) p) as [-> _] by (apply creates_output_at; eauto). done.
    + case_decide; [done|]. specialize (Hfr p ltac:(eauto)).
      intros Hin'. apply Hfr. by right.
Qed.
End Dependencies.

(** ** The ordering loop *)

Section Ordering.
Context {ssl : OpenSSL}.

Lemma ready_spec tx w :
  ready tx w = true <-> Forall (fun i => is_Some (w !! point i)) (inputs tx).
Proof.
  unfold ready, utxo_contains. rewrite forallb_forall, Forall_forall.
  setoid_rewrite list_elem_of_In. by setoid_rewrite bool_decide_eq_true.
Qed.

Lemma entry_functional (l : list (Hash256 * Transaction)) id tx tx' :
  NoDup l.*1 -> (id, tx) ∈ l -> (id, tx') ∈ l -> tx = tx'.
Proof.
  intros Hnd H1 H2. apply (elem_of_list_to_map_1 (M := gmap Hash256)) in H1, H2; [|done..].
  congruence.
Qed.

Lemma connect_all_app l k u :
  connect_all (l ++ k) u =
  ('(ok, w) ← connect_all l u; if negb ok then Ok (false, w) else connect_all k w).
Proof.
  revert u. induction l as [|tx l IH]; intros u; simpl; [done|].
  destruct (connect tx u) as [[[] w]|]; simpl; auto.
Qed.

Lemma connect_all_snoc l tx u w w' :
  connect_all l u = Ok (true, w) -> connect tx w = Ok (true, w') ->
  connect_all (l ++ [tx]) u = Ok (true, w').
Proof. intros H1 H2. rewrite connect_all_app, H1. simpl. by rewrite H2. Qed.

(** The state [s] of the loops: [done_] are placed, [R] are left. *)
Record ord_inv (pending : list (Hash256 * Transaction)) (u0 : UTXOSet) (s : ordering)
    (done_ R : list (Hash256 * Transaction)) : Prop := {
  ord_split : done_ ++ R ≡ₚ pending;
  ord_remaining : remaining s = list_to_set R.*1;
  ord_connectable : connectable (working s) R;
  ord_ordered : ordered s = done_.*2;
  ord_applied : connect_all (ordered s) u0 = Ok (true, working s)
}.

Lemma ordered_pass_spec pending u0 L s done_ R :
  NoDup pending.*1 -> L ⊆ pending -> ord_inv pending u0 s done_ R ->
  exists s' done' R', ordered_pass L s = Ok (Some s') /\ ord_inv pending u0 s' done' R' /\
    (length R' <= length R)%nat /\ (progressed s = true -> progressed s' = true) /\
    (Exists (fun e => e ∈ R /\ ready e.2 (working s) = true) L ->
     progressed s' = true /\ (length R' < length R)%nat).
Proof.
  intros Hnd. revert s done_ R. induction L as [|[id tx] L IH]; intros s done_ R HL Hinv.
  { exists s, done_, R. split_and!; try done. by intros H%Exists_nil. }
  assert (L ⊆ pending) as HL' by set_solver.
  assert ((id, tx) ∈ pending) as Hpend by set_solver.
  assert (id ∈ remaining s <-> (id, tx) ∈ R) as Hrem.
  { rewrite (ord_remaining _ _ _ _ _ Hinv), elem_of_list_to_set. split.
    - intros ([id' tx'] & Eq & HR)%list_elem_of_fmap. simpl in Eq. subst id'.
      assert ((id, tx') ∈ pending) as Hp'
        by (rewrite <- (ord_split _ _ _ _ _ Hinv); apply elem_of_app; auto).
      by rewrite (entry_functional pending id tx tx' Hnd Hpend Hp').
    - intros H. apply list_elem_of_fmap. by exists (id, tx). }
  cbn [ordered_pass].
  destruct (decide (id ∈ remaining s)) as [Hr|Hr].
  2: { rewrite bool_decide_eq_false_2 by done. simpl.
       destruct (IH s done_ R HL' Hinv) as (s' & d' & R' & ? & ? & ? & ? & Hex).
       exists s', d', R'. split_and!; try done. intros [[HR _]|HE]%Exists_cons; [|auto].
       simpl in HR. apply Hrem in HR. done. }
  rewrite bool_decide_eq_true_2 by done. simpl.
  destruct (ready tx (working s)) eqn:Erdy; simpl.
  2: { destruct (IH s done_ R HL' Hinv) as (s' & d' & R' & ? & ? & ? & ? & Hex).
       exists s', d', R'. split_and!; try done. intros [[_ HR]|HE]%Exists_cons; [|auto].
       simpl in HR. congruence. }
  apply Hrem in Hr. apply elem_of_Permutation in Hr as [R0 HR0].
  destruct Hinv as [Hs Hrm Hc Ho Ha]. rewrite HR0 in Hc.
  destruct (connect_step _ _ _ _ Hc) as (w' & Hw' & Hc'); [by apply ready_spec|].
  rewrite Hw'. simpl.
  pose proof (con_ids _ _ Hc) as Hids. apply NoDup_cons in Hids as [Hid _].
  edestruct (IH (mkOrdering w' (ordered s ++ [tx]) (remaining s ∖ {[id]}) true)
    (done_ ++ [(id, tx)]) R0) as (s' & d' & R' & ? & ? & Hlen & Hpr & _); [done| |].
  { split; simpl.
    - rewrite <- app_assoc. simpl. by rewrite <- HR0.
    - rewrite Hrm, HR0. simpl. apply leibniz_equiv. set_solver.
    - done.
    - rewrite Ho, fmap_app. done.
    - by eapply connect_all_snoc. }
  assert (length R = S (length R0)) as HlenR by (by rewrite HR0).
  exists s', d', R'. split_and!; [done|done|lia|by intros; apply Hpr|].
  intros _. split; [by apply Hpr|lia].
Qed.

Lemma ordered_loop_spec pending u0 fuel s done_ R :
  NoDup pending.*1 -> ord_inv pending u0 s done_ R -> (length R <= fuel)%nat ->
  exists l w, ordered_loop fuel pending s = Ok l /\ l ≡ₚ pending.*2 /\
    connect_all l u0 = Ok (true, w).
Proof.
  intros Hnd. revert s done_ R. induction fuel as [|fuel IH]; intros s done_ R Hinv Hf;
    destruct (decide (remaining s = ∅)) as [E|E]; cbn [ordered_loop].
  1, 3: rewrite bool_decide_eq_true_2 by done; exists (ordered s), (working s);
    (split; [done|]; split; [|apply Hinv]); destruct Hinv as [Hs Hrm _ -> _];
    rewrite Hrm in E; (assert (R = []) as ->;
      [destruct R as [|e R]; [done|]; exfalso; simpl in E; set_solver|]);
    rewrite app_nil_r in Hs; by rewrite Hs.
  { exfalso. destruct R; [|simpl in Hf; lia]. apply E. by rewrite (ord_remaining _ _ _ _ _ Hinv). }
  rewrite bool_decide_eq_false_2 by done.
  set (s0 := mkOrdering _ _ _ false).
  assert (ord_inv pending u0 s0 done_ R) as Hinv0 by (destruct Hinv; by split).
  destruct (ordered_pass_spec pending u0 pending s0 done_ R Hnd ltac:(done) Hinv0)
    as (s' & d' & R' & -> & Hinv' & _ & _ & Hex).
  destruct Hex as [Hp Hlt].
  { destruct (con_order _ _ (ord_connectable _ _ _ _ _ Hinv0)) as (l & Hl & Hr).
    destruct l as [|e l].
    - exfalso. apply Permutation_nil_l in Hl. subst R. apply E.
      by rewrite (ord_remaining _ _ _ _ _ Hinv).
    - simpl in Hr. destruct Hr as [Hr _]. apply Exists_exists. exists e.
      assert (e ∈ R) as He by (rewrite <- Hl; left).
      split; [rewrite <- (ord_split _ _ _ _ _ Hinv); apply elem_of_app; auto|].
      split; [done|]. by apply ready_spec. }
  cbn [mbind result_bind]. rewrite Hp. simpl. apply (IH s' d' R' Hinv'). lia.
Qed.
End Ordering.

(** Every pass that makes progress places a transaction, so the fuel of
    [ordered_transactions] is enough: more of it changes nothing. *)
Section OrderingFuel.
Context {ssl : OpenSSL}.

Lemma ordered_pass_shrinks L s s' :
  ordered_pass L s = Ok (Some s') ->
  remaining s' ⊆ remaining s /\
  (progressed s' = true -> progressed s = true \/ (size (remaining s') < size (remaining s))%nat).
Proof.
  revert s. induction L as [|[id tx] L IH]; intros s; cbn [ordered_pass]; [intros [= <-]; auto|].
  case_bool_decide as Hin; cbn [negb]; [|apply IH]. destruct (ready tx _); cbn [negb]; [|apply IH].
  intros ([[] w] & _ & H)%bind_Ok; cbn [negb] in H; [|done].
  apply IH in H as [Hsub _]. simpl in Hsub. split; [set_solver|]. intros _. right.
  apply subset_size. set_solver.
Qed.

Lemma ordered_loop_fuel L fuel1 fuel2 s :
  (size (remaining s) <= fuel1)%nat -> (size (remaining s) <= fuel2)%nat ->
  ordered_loop fuel1 L s = ordered_loop fuel2 L s.
Proof.
  revert fuel2 s. induction fuel1 as [|f1 IH]; intros [|f2] s H1 H2; cbn [ordered_loop]; try done.
  1, 2: rewrite bool_decide_eq_true_2; [done|]; apply leibniz_equiv, size_empty_inv; lia.
  case_bool_decide; [done|].
  destruct (ordered_pass L _) as [[s'|]|] eqn:E; cbn [mbind result_bind]; [|done..].
  apply ordered_pass_shrinks in E as [_ Hpr]. simpl in Hpr.
  destruct (progressed s') eqn:Ep; cbn [negb]; [|done].
  destruct (Hpr eq_refl) as [|Hlt]; [done|]. apply IH; lia.
Qed.
End OrderingFuel.

(** ** The invariant of a pool over a set of unspent outputs *)

Section Invariant.
Context {ssl : OpenSSL}.
Implicit Types (u w : UTXOSet) (mp : Mempool).

Abbreviation entries mp := (map_to_list (transactions_ mp)).

(** The output a point names, on the chain or in the pool. *)
Definition pool_lookup (pool : gmap Hash256 Transaction) u (p : OutPoint)
    : option TransactionOutput :=
  match pool !! op_txid p with
  | Some tx => output_at (op_txid p) 0 (outputs tx) p
  | None => u !! p
  end.

Definition tx_size (tx : Transaction) : Z :=
  match tx_serialize_full_binary tx with Ok bs => sizeZ bs | Throw _ => 0 end.

Lemma tx_size_nonneg tx : 0 <= tx_size tx.
Proof. unfold tx_size. destruct (tx_serialize_full_binary tx); [apply sizeZ_nonneg|lia]. Qed.

Record pool_inv u mp : Prop := {
  pi_connectable : connectable u (entries mp);
  pi_reserved : reserved_inputs_ mp = list_to_set (all_inputs (entries mp));
  pi_bytes : mempool_bytes_ mp = sumZ (fun e => tx_size e.2) (entries mp);
  pi_sizes : Forall (fun e => returns (tx_serialize_full_binary e.2) /\
                              tx_size e.2 <= MAX_TRANSACTION_BYTES) (entries mp);
  pi_limits : mempool_bytes_ mp <= MAX_MEMPOOL_BYTES /\ mempool_size mp <= MAX_TRANSACTIONS;
  pi_witness : forall id tx w, transactions_ mp !! id = Some tx ->
    Forall (fun i => w !! point i = pool_lookup (transactions_ mp) u (point i)) (inputs tx) ->
    validate_transaction_witness tx w = Ok true
}.

Lemma pool_inv_empty u : pool_inv u new_mempool.
Proof.
  split; simpl; rewrite ?map_to_list_empty; try done.
  split; simpl; [by exists []|constructor|constructor| |constructor].
  intros p _. apply not_elem_of_nil.
Qed.

(** *** The order handed to the miner *)

Lemma ordered_transactions_spec u mp :
  connectable u (entries mp) ->
  exists l w, ordered_transactions mp u = Ok l /\ l ≡ₚ (entries mp).*2 /\
    connect_all l u = Ok (true, w).
Proof.
  intros Hc. unfold ordered_transactions.
  set (pending := merge_sort entry_le (entries mp)).
  assert (pending ≡ₚ entries mp) as Hp by apply merge_sort_Permutation.
  rewrite <- Hp in Hc.
  destruct (ordered_loop_spec pending u (length pending)
    (mkOrdering u [] (list_to_set pending.*1) false) [] pending)
    as (l & w & Ho & Hl & Ha); [apply Hc|by split|done|].
  exists l, w. split_and!; [done| |done]. by rewrite Hl, Hp.
Qed.

Lemma build_effective_utxo_spec u mp :
  connectable u (entries mp) ->
  exists l w, ordered_transactions mp u = Ok l /\ l ≡ₚ (entries mp).*2 /\
    connect_all l u = Ok (true, w) /\ build_effective_utxo mp u = Ok (Some w).
Proof.
  intros (l & w & Ho & Hp & Ha)%ordered_transactions_spec. exists l, w. split_and!; try done.
  unfold build_effective_utxo. rewrite Ho. simpl.
  rewrite bool_decide_eq_true_2, Ha; [done|].
  by rewrite Hp, length_fmap, length_map_to_list.
Qed.

(** What the connected set holds is what the points name. *)
Lemma connect_all_lookup l u w p o :
  Forall entry_ok l -> connect_all l.*2 u = Ok (true, w) -> w !! p = Some o ->
  (exists e, e ∈ l /\ output_at e.1 0 (outputs e.2) p = Some o) \/ u !! p = Some o.
Proof.
  intros Hl. revert u. induction Hl as [|[id tx] l [Hid _] Hl IH]; intros u; simpl.
  - intros [= <-]. auto.
  - intros ([[] u1] & Hc & H)%bind_Ok Hp; [simpl in H|done].
    destruct (IH u1 H Hp) as [(e & He & Ho)|Ho].
    + left. exists e. split; [by right|done].
    + rewrite (connect_lookup id tx u u1 p Hid Hc) in Ho.
      destruct (output_at id 0 (outputs tx) p) eqn:Eo.
      * left. exists (id, tx). split; [left|]. simpl. congruence.
      * case_decide; [done|]. auto.
Qed.

Lemma connectable_created u mp p o :
  connectable u (entries mp) ->
  (exists e, e ∈ entries mp /\ output_at e.1 0 (outputs e.2) p = Some o) \/ u !! p = Some o ->
  pool_lookup (transactions_ mp) u p = Some o.
Proof.
  intros Hc [([id tx] & He & Ho)|Ho]; unfold pool_lookup.
  - assert (creates (id, tx) p) as [E _] by (apply creates_output_at; eauto).
    simpl in *. apply elem_of_map_to_list in He. by rewrite E, He.
  - destruct (transactions_ mp !! op_txid p) as [tx|] eqn:E; [|done].
    exfalso. apply (con_fresh _ _ Hc p); [eauto|]. apply list_elem_of_fmap.
    exists (op_txid p, tx). split; [done|]. by apply elem_of_map_to_list.
Qed.

Lemma effective_lookup u mp l w p o :
  connectable u (entries mp) -> l ≡ₚ (entries mp).*2 -> connect_all l u = Ok (true, w) ->
  w !! p = Some o ->
  (exists e, e ∈ entries mp /\ output_at e.1 0 (outputs e.2) p = Some o) \/ u !! p = Some o.
Proof.
  intros Hc Hl Ha Hp. apply Permutation_map_inv in Hl as (l' & -> & Hl').
  destruct (connect_all_lookup l' u w p o) as [(e & He & Ho)|]; try done; [|left|by right].
  - rewrite <- Hl'. apply Hc.
  - exists e. by rewrite Hl'.
Qed.

Lemma resolves_app l1 l2 (A : OutPoint -> Prop) :
  resolves (l1 ++ l2) A <->
  resolves l1 A /\ resolves l2 (fun p => A p \/ Exists (fun e => creates e p) l1).
Proof.
  revert A. induction l1 as [|e l1 IH]; intros A; simpl.
  - split; [intros H; split; [done|]|intros [_ H]]; eapply resolves_mono; try exact H;
      cbn beta; [auto|]. by intros ? ? _ _ [?|?%Exists_nil].
  - rewrite IH. setoid_rewrite Exists_cons. split.
    + intros (H1 & H2 & H3). split_and!; [done..|]. eapply resolves_mono; [|exact H3]. tauto.
    + intros ((H1 & H2) & H3). split_and!; [done..|]. eapply resolves_mono; [|exact H3]. tauto.
Qed.

(** Every input of a pooled transaction names something. *)
Lemma resolves_inputs l (A : OutPoint -> Prop) e i :
  resolves l A -> e ∈ l -> i ∈ inputs e.2 ->
  A (point i) \/ Exists (fun e' => creates e' (point i)) l.
Proof.
  revert A. induction l as [|x l IH]; intros A; [by intros _ ?%not_elem_of_nil|].
  simpl. intros [Hx Hl] [->|He]%elem_of_cons Hi.
  - left. rewrite Forall_forall in Hx. auto.
  - destruct (IH _ Hl He Hi) as [[?|?]|?]; auto.
Qed.
End Invariant.

(** ** Admission preserves the invariant *)

Section Accept.
Context {ssl : OpenSSL}.
Implicit Types (u w : UTXOSet) (mp : Mempool).
Abbreviation entries mp := (map_to_list (transactions_ mp)).

Lemma txid_outputs_bound tx id : txid tx = Ok id -> sizeZ (outputs tx) <= UINT32_MAX.
Proof.
  unfold txid, tx_serialize_binary. intros H. result_inv. by zbool.
Qed.

(** What an acceptance means. *)
Lemma mempool_accept_inv mp tx u mp' :
  mempool_accept mp tx u = Ok (None_, mp') ->
  exists id bs w,
    txid tx = Ok id /\ tx_serialize_full_binary tx = Ok bs /\
    transactions_ mp !! id = None /\ mempool_size mp < MAX_TRANSACTIONS /\
    sizeZ bs <= MAX_TRANSACTION_BYTES /\ mempool_bytes_ mp <= u64 (MAX_MEMPOOL_BYTES - sizeZ bs) /\
    Forall (fun i => point i ∉ reserved_inputs_ mp) (inputs tx) /\
    build_effective_utxo mp u = Ok (Some w) /\
    validate_transaction_against_utxo tx w = true /\ validate_transaction_witness tx w = Ok true /\
    mp' = mkMempool (<[id := tx]> (transactions_ mp))
            (list_to_set (point <$> inputs tx) ∪ reserved_inputs_ mp)
            (u64 (mempool_bytes_ mp + sizeZ bs)).
Proof.
  unfold mempool_accept. intros (id & Hid & H)%bind_Ok. exists id.
  unfold mempool_contains in H. case_bool_decide as Hc; [done|].
  destruct (MAX_TRANSACTIONS <=? _) eqn:E1; [done|].
  apply bind_Ok in H as (bs & Hbs & H). exists bs.
  destruct (MAX_TRANSACTION_BYTES <? _) eqn:E2; [done|].
  destruct (_ <? mempool_bytes_ mp) eqn:E3; [done|].
  destruct (existsb _ _) eqn:E4; [done|].
  apply bind_Ok in H as ([w|] & Hw & H); [|done]. exists w.
  unfold accepted in H. case_bool_decide as Hv; simpl in H; [|naive_solver].
  apply bind_Ok in H as ([] & Hwit & H); [|done]. simpl in H. injection H as <-.
  apply validate_for_mempool_None in Hv. zbool.
  split_and!; try done.
  - destruct (transactions_ mp !! id); [|done]. exfalso. eauto.
  - apply Forall_forall. intros i Hi Hr. apply not_true_iff_false in E4. apply E4.
    apply existsb_exists. exists i. split; [by apply list_elem_of_In|].
    by apply bool_decide_eq_true.
Qed.

Lemma mempool_accept_rejected mp tx u reason mp' :
  mempool_accept mp tx u = Ok (reason, mp') -> reason <> None_ -> mp' = mp.
Proof.
  unfold mempool_accept. intros H Hr. result_inv; try done.
  destruct x1; result_inv; try done.
Qed.

Lemma pool_lookup_insert pool u id tx p :
  op_txid p <> id -> pool_lookup (<[id := tx]> pool) u p = pool_lookup pool u p.
Proof. intros Hne. unfold pool_lookup. by rewrite lookup_insert_ne. Qed.

(** A point that is on the chain or created in the pool is not the new id's. *)
Lemma named_not_fresh u mp id p :
  transactions_ mp !! id = None ->
  (forall q, is_Some (u !! q) -> op_txid q <> id) ->
  is_Some (u !! p) \/ Exists (fun e => creates e p) (entries mp) -> op_txid p <> id.
Proof.
  intros Hid Hfr [H|H]; [auto|]. apply Exists_exists in H as ([id' tx'] & He & [-> _]).
  apply elem_of_map_to_list in He. simpl. congruence.
Qed.

Lemma connectable_add u mp id tx l :
  connectable u (entries mp) -> entry_ok (id, tx) ->
  transactions_ mp !! id = None -> (forall q, is_Some (u !! q) -> op_txid q <> id) ->
  NoDup (point <$> inputs tx) ->
  Forall (fun i => point i ∉ all_inputs (entries mp)) (inputs tx) ->
  Forall (fun i => is_Some (u !! point i) \/ Exists (fun e => creates e (point i)) (entries mp))
    (inputs tx) ->
  l ≡ₚ (id, tx) :: entries mp -> connectable u l.
Proof.
  intros Hc He Hid Hfr Hnd Hres Hav ->. destruct Hc as [(k & Hk & Hr) H2 H3 H4 H5]. split.
  - exists (k ++ [(id, tx)]). split; [rewrite Hk; by rewrite Permutation_app_comm|].
    apply resolves_app. split; [done|]. simpl. split; [|done].
    eapply Forall_impl; [exact Hav|]. intros i [?|?]; [auto|]. right. by rewrite Hk.
  - rewrite all_inputs_cons. apply NoDup_app. split_and!; [done| |done].
    intros p (i & -> & Hi)%list_elem_of_fmap. rewrite Forall_forall in Hres. auto.
  - simpl. apply NoDup_cons. split; [|done]. intros ([id' tx'] & -> & Hin)%list_elem_of_fmap.
    apply elem_of_map_to_list in Hin. simpl in Hid. congruence.
  - intros p Hp. simpl. apply not_elem_of_cons. split; [auto|]. by apply H4.
  - by constructor.
Qed.

(** The inputs of a transaction that validates over the effective set are the
    outputs the pool and the chain name for them. *)
Lemma accepted_inputs u mp tx id w :
  pool_inv u mp -> transactions_ mp !! id = None -> (forall q, is_Some (u !! q) -> op_txid q <> id) ->
  build_effective_utxo mp u = Ok (Some w) -> validate_transaction_against_utxo tx w = true ->
  Forall (fun i => exists o, w !! point i = Some o /\
    pool_lookup (transactions_ mp) u (point i) = Some o /\ op_txid (point i) <> id /\
    (is_Some (u !! point i) \/ Exists (fun e => creates e (point i)) (entries mp))) (inputs tx).
Proof.
  intros Hinv Hnone Hfr Heff Hval. pose proof (pi_connectable _ _ Hinv) as Hc.
  destruct (build_effective_utxo_spec u mp Hc) as (l & w' & _ & Hl & Ha & Hw').
  rewrite Heff in Hw'. injection Hw' as <-.
  destruct (validate_against_utxo_available _ _ Hval) as [_ Hav].
  eapply Forall_impl; [exact Hav|]. intros i [o Ho]. exists o. split; [done|].
  pose proof (effective_lookup _ _ _ _ _ _ Hc Hl Ha Ho) as Hcase.
  assert (is_Some (u !! point i) \/ Exists (fun e => creates e (point i)) (entries mp)) as Hn.
  { destruct Hcase as [(e & He & Hoe)|]; [right|left; eauto].
    apply Exists_exists. exists e. split; [done|]. destruct e. apply creates_output_at. eauto. }
  split_and!; [by apply connectable_created|by eapply named_not_fresh|done].
Qed.

Lemma pool_bytes_nonneg u mp : pool_inv u mp -> 0 <= mempool_bytes_ mp.
Proof.
  intros Hinv. rewrite (pi_bytes _ _ Hinv). apply sumZ_nonneg, Forall_forall.
  intros e _. apply tx_size_nonneg.
Qed.

(** A transaction whose id is new names only outputs the insertion leaves as
    they are. *)
Lemma pool_lookup_old u mp id tx id' tx' i :
  pool_inv u mp -> transactions_ mp !! id = None -> (forall q, is_Some (u !! q) -> op_txid q <> id) ->
  transactions_ mp !! id' = Some tx' -> i ∈ inputs tx' ->
  pool_lookup (<[id := tx]> (transactions_ mp)) u (point i) = pool_lookup (transactions_ mp) u (point i).
Proof.
  intros Hinv Hnone Hfr Hl' Hi. pose proof (pi_connectable _ _ Hinv) as Hc.
  rewrite pool_lookup_insert; [done|].
  destruct (con_order _ _ Hc) as (k & Hk & Hr).
  eapply named_not_fresh; [done..|]. rewrite <- Hk.
  apply (resolves_inputs k _ (id', tx') i Hr); [|done].
  rewrite Hk. by apply elem_of_map_to_list.
Qed.

Lemma mempool_accept_preserves u mp tx mp' :
  pool_inv u mp -> (forall q, is_Some (u !! q) -> txid tx <> Ok (op_txid q)) ->
  mempool_accept mp tx u = Ok (None_, mp') -> pool_inv u mp'.
Proof.
  intros Hinv Hfr0 (id & bs & w & Hid & Hbs & Hnone & Hsz & Hb & Hbytes & Hres & Heff & Hval & Hwit & ->)%mempool_accept_inv.
  assert (forall q, is_Some (u !! q) -> op_txid q <> id) as Hfr
    by (intros q Hq <-; by apply (Hfr0 q)).
  pose proof (accepted_inputs u mp tx id w Hinv Hnone Hfr Heff Hval) as Hlook.
  destruct (validate_against_utxo_available _ _ Hval) as [Hnd _].
  assert (map_to_list (<[id := tx]> (transactions_ mp)) ≡ₚ (id, tx) :: entries mp) as Hperm
    by (by apply map_to_list_insert).
  assert (tx_size tx = sizeZ bs) as Hts by (unfold tx_size; by rewrite Hbs).
  pose proof (pool_bytes_nonneg u mp Hinv) as H0. pose proof (sizeZ_nonneg bs) as Hbs0.
  rewrite u64_small in Hbytes by (unfold MAX_MEMPOOL_BYTES, MAX_TRANSACTION_BYTES in *; ints).
  split; simpl; rewrite ?u64_small by (unfold MAX_MEMPOOL_BYTES in *; ints).
  - eapply (connectable_add u mp id tx); try done; [apply Hinv|split; [done|by eapply txid_outputs_bound]| |].
    + eapply Forall_impl; [exact Hres|]. intros i. rewrite (pi_reserved _ _ Hinv).
      by rewrite elem_of_list_to_set.
    + eapply Forall_impl; [exact Hlook|]. naive_solver.
  - unfold all_inputs. rewrite Hperm, (pi_reserved _ _ Hinv). simpl. by rewrite list_to_set_app_L.
  - rewrite Hperm. simpl. rewrite (pi_bytes _ _ Hinv), Hts. simpl. lia.
  - rewrite Hperm. constructor; [|apply Hinv]. simpl. split; [by eexists|lia].
  - split; [lia|]. unfold mempool_size in *. cbn [transactions_].
    rewrite map_size_insert_None by done. lia.
  - intros id' tx' w' [[<- <-]|[Hne Hl']]%lookup_insert_Some Hag.
    + rewrite (validate_witness_agree tx w' w); [done|]. unfold agree_on.
      rewrite Forall_forall in *. intros i Hi.
      destruct (Hlook i Hi) as (o & -> & Ho & Hne & _).
      rewrite (Hag i Hi), pool_lookup_insert by done. done.
    + apply (pi_witness _ _ Hinv id' tx' w' Hl'). rewrite Forall_forall in *. intros i Hi.
      rewrite (Hag i Hi). by eapply pool_lookup_old.
Qed.

(** Transactions are filed under their ids. *)
Definition keyed (pool : gmap Hash256 Transaction) : Prop :=
  map_Forall (fun id tx => txid tx = Ok id) pool.

(** The bookkeeping part of [pool_inv]: nothing about the chain. *)
Record pool_books mp : Prop := {
  pb_inputs : NoDup (all_inputs (entries mp));
  pb_reserved : reserved_inputs_ mp = list_to_set (all_inputs (entries mp));
  pb_bytes : mempool_bytes_ mp = sumZ (fun e => tx_size e.2) (entries mp);
  pb_sizes : Forall (fun e => returns (tx_serialize_full_binary e.2) /\
                              tx_size e.2 <= MAX_TRANSACTION_BYTES) (entries mp);
  pb_limits : mempool_bytes_ mp <= MAX_MEMPOOL_BYTES /\ mempool_size mp <= MAX_TRANSACTIONS
}.

Lemma pool_inv_books u mp : pool_inv u mp -> pool_books mp.
Proof. intros [[] ? ? ? ? ?]. by split. Qed.

Lemma mempool_accept_books u mp tx mp' :
  pool_books mp -> mempool_accept mp tx u = Ok (None_, mp') -> pool_books mp'.
Proof.
  intros Hb (id & bs & w & Hid & Hbs & Hnone & Hsz & Hl & Hbytes & Hres & Heff & Hval & Hwit & ->)%mempool_accept_inv.
  destruct (validate_against_utxo_available _ _ Hval) as [Hnd _].
  assert (map_to_list (<[id := tx]> (transactions_ mp)) ≡ₚ (id, tx) :: entries mp) as Hperm
    by (by apply map_to_list_insert).
  assert (tx_size tx = sizeZ bs) as Hts by (unfold tx_size; by rewrite Hbs).
  assert (0 <= mempool_bytes_ mp) as H0.
  { rewrite (pb_bytes _ Hb). apply sumZ_nonneg, Forall_forall. intros e _. apply tx_size_nonneg. }
  pose proof (sizeZ_nonneg bs) as Hbs0.
  rewrite u64_small in Hbytes by (unfold MAX_MEMPOOL_BYTES, MAX_TRANSACTION_BYTES in *; ints).
  split; simpl; rewrite ?u64_small by (unfold MAX_MEMPOOL_BYTES in *; ints).
  - unfold all_inputs. rewrite Hperm. simpl. apply NoDup_app. split; [done|]. split; [|apply Hb].
    intros p (i & -> & Hi)%list_elem_of_fmap Hin. rewrite Forall_forall in Hres. apply (Hres i Hi).
    rewrite (pb_reserved _ Hb). by apply elem_of_list_to_set.
  - unfold all_inputs. rewrite Hperm, (pb_reserved _ Hb). simpl. by rewrite list_to_set_app_L.
  - rewrite Hperm. simpl. rewrite (pb_bytes _ Hb), Hts. simpl. lia.
  - rewrite Hperm. constructor; [|apply Hb]. simpl. split; [by eexists|lia].
  - split; [lia|]. unfold mempool_size in *. cbn [transactions_].
    rewrite map_size_insert_None by done. lia.
Qed.
End Accept.

(** ** Removal *)

Section Remove.
Context {ssl : OpenSSL} {iter : UnorderedMap}.
Implicit Types (u w : UTXOSet) (mp : Mempool) (removal : gset Hash256).
Abbreviation entries mp := (map_to_list (transactions_ mp)).

(** [id] is [root] or spends, through pooled transactions, an output of it. *)
Inductive descendant (pool : gmap Hash256 Transaction) (root : Hash256) : Hash256 -> Prop :=
  | descendant_root : descendant pool root root
  | descendant_spends id tx i :
      pool !! id = Some tx -> i ∈ inputs tx -> descendant pool root (previous_txid i) ->
      descendant pool root id.

Definition spends_from (removal : gset Hash256) (tx : Transaction) : Prop :=
  exists i, i ∈ inputs tx /\ previous_txid i ∈ removal.

Lemma spends_from_spec removal tx :
  existsb (fun i => bool_decide (previous_txid i ∈ removal)) (inputs tx) = true <->
  spends_from removal tx.
Proof.
  unfold spends_from. rewrite existsb_exists. setoid_rewrite list_elem_of_In.
  by setoid_rewrite bool_decide_eq_true.
Qed.

Definition outside removal (es : list (Hash256 * Transaction)) : nat :=
  length (filter (fun e => e.1 ∉ removal) es).

Lemma outside_mono removal removal' es :
  removal ⊆ removal' -> (outside removal' es <= outside removal es)%nat.
Proof.
  intros H. unfold outside. induction es as [|e es IH]; [done|].
  rewrite !filter_cons. repeat case_decide; simpl; try lia. set_solver.
Qed.

(** Whatever is closed under spending in [es] and contains [removal]
    contains [removal']. *)
Definition only_spenders (es : list (Hash256 * Transaction)) removal removal' : Prop :=
  forall S : Hash256 -> Prop, (forall h, h ∈ removal -> S h) ->
    (forall e i, e ∈ es -> i ∈ inputs e.2 -> S (previous_txid i) -> S e.1) ->
    forall h, h ∈ removal' -> S h.

Definition closed (es : list (Hash256 * Transaction)) removal : Prop :=
  Forall (fun e => spends_from removal e.2 -> e.1 ∈ removal) es.

Lemma only_spenders_cons e es removal removal' :
  only_spenders es removal removal' -> only_spenders (e :: es) removal removal'.
Proof. intros H S HS Hcl. apply H; [done|]. intros e' i He'. apply Hcl. by right. Qed.

Lemma removal_fold_spec es removal c0 removal' changed :
  foldl removal_step (removal, c0) es = (removal', changed) ->
  removal ⊆ removal' /\ only_spenders es removal removal' /\ (c0 = true -> changed = true) /\
  (if changed then c0 = true \/ (outside removal' es < outside removal es)%nat
   else removal' = removal /\ closed es removal).
Proof.
  revert removal c0. induction es as [|[id tx] es IH]; intros removal c0 H; cbn [foldl] in H.
  { injection H as <- <-. split_and!; [done|by intros S HS _|done|].
    destruct c0; [by left|]. split; [done|constructor]. }
  unfold removal_step at 2 in H. case_bool_decide as Hin.
  - destruct (IH _ _ H) as (H1 & H2 & H3 & H4).
    split_and!; [done|by apply only_spenders_cons|done|]. destruct changed.
    + destruct H4 as [|H4]; [auto|right]. unfold outside in *. rewrite !filter_cons.
      simpl. rewrite !decide_False by set_solver. done.
    + destruct H4 as [-> H4]. split; [done|]. by constructor.
  - destruct (existsb _ _) eqn:Ex.
    + apply spends_from_spec in Ex as (i & Hi & Hr).
      destruct (IH _ _ H) as (H1 & H2 & H3 & _). specialize (H3 eq_refl).
      split_and!; [set_solver| |done|].
      * intros S HS Hcl. apply H2.
        -- intros h [->%elem_of_singleton|Hh]%elem_of_union; [|auto].
           apply (Hcl (id, tx) i); [left|done|auto].
        -- intros e j He. apply Hcl. by right.
      * rewrite H3. right. unfold outside. rewrite !filter_cons. simpl.
        rewrite (decide_True (P := id ∉ removal)) by done.
        rewrite decide_False by set_solver. simpl.
        pose proof (outside_mono removal removal' es ltac:(set_solver)). unfold outside in *. lia.
    + destruct (IH _ _ H) as (H1 & H2 & H3 & H4).
      split_and!; [done|by apply only_spenders_cons|done|]. destruct changed.
      * destruct H4 as [|H4]; [auto|right]. unfold outside in *. rewrite !filter_cons. simpl.
        rewrite (decide_True (P := id ∉ removal)) by done. case_decide; simpl; lia.
      * destruct H4 as [-> H4]. split; [done|]. constructor; [|done]. simpl.
        intros Hs%spends_from_spec. congruence.
Qed.

Lemma removal_loop_spec es fuel removal removal' :
  (outside removal es < fuel)%nat -> removal_loop fuel es removal = removal' ->
  removal ⊆ removal' /\ only_spenders es removal removal' /\ closed es removal'.
Proof.
  revert removal. induction fuel as [|fuel IH]; intros removal Hf H; [lia|]. simpl in H.
  destruct (removal_pass es removal) as [r c] eqn:E.
  apply removal_fold_spec in E as (H1 & H2 & _ & H4). destruct c.
  - destruct H4 as [|H4]; [done|]. apply IH in H as (K1 & K2 & K3); [|lia].
    split_and!; [set_solver| |done]. intros S HS Hcl. apply K2; [|done]. by apply H2.
  - destruct H4 as [-> H4]. by subst removal'.
Qed.

Lemma removal_is_descendants mp id h :
  h ∈ removal_loop (S (length (iteration (transactions_ mp)))) (iteration (transactions_ mp)) {[id]}
  <-> descendant (transactions_ mp) id h.
Proof.
  set (es := iteration _). set (r := removal_loop _ _ _).
  assert (es ≡ₚ entries mp) as Hp by apply iteration_perm.
  destruct (removal_loop_spec es (S (length es)) {[id]} r) as (H1 & H2 & H3); [|done|].
  { unfold outside. pose proof (length_filter (fun e : Hash256 * Transaction => e.1 ∉ ({[id]} : gset Hash256)) es). lia. }
  split.
  - apply (H2 (descendant (transactions_ mp) id)).
    + intros h' ->%elem_of_singleton. constructor.
    + intros [id' tx] i He Hi Hd. rewrite Hp in He. apply elem_of_map_to_list in He.
      by eapply descendant_spends.
  - induction 1 as [|id' tx i Hl Hi Hd IH]; [set_solver|].
    unfold closed in H3. rewrite Forall_forall in H3.
    apply (H3 (id', tx)); [rewrite Hp; by apply elem_of_map_to_list|]. by exists i.
Qed.
End Remove.

Section Erase.
Context {ssl : OpenSSL} {iter : UnorderedMap}.
Implicit Types (u w : UTXOSet) (mp : Mempool) (removal : gset Hash256).
Abbreviation entries mp := (map_to_list (transactions_ mp)).

Lemma erase_transaction_spec mp id :
  pool_books mp ->
  exists mp', erase_transaction mp id = Ok mp' /\ pool_books mp' /\
    transactions_ mp' = delete id (transactions_ mp).
Proof.
  intros Hb. unfold erase_transaction. destruct (transactions_ mp !! id) as [tx|] eqn:E.
  2: { exists mp. split_and!; [done|done|]. by rewrite delete_id. }
  destruct Hb as [B1 B2 B3 B4 [B5 B6]].
  assert (entries mp ≡ₚ (id, tx) :: map_to_list (delete id (transactions_ mp))) as Hp
    by (symmetry; by apply map_to_list_delete).
  unfold all_inputs in *. rewrite Hp in B1, B2, B3, B4. simpl in B1, B2, B3.
  apply NoDup_app in B1 as (_ & Hdis & B1). apply Forall_cons in B4 as [[[bs Hbs] Hs] B4].
  simpl in Hbs. rewrite Hbs. simpl. eexists. split; [done|]. split; [|done].
  assert (tx_size tx = sizeZ bs) as Hts by (unfold tx_size; by rewrite Hbs).
  pose proof (sizeZ_nonneg bs). rewrite Hts in B3. set (rest := map_to_list (delete id (transactions_ mp))) in *.
  change (mempool_bytes_ mp = sizeZ bs + sumZ (fun e => tx_size e.2) rest) in B3.
  assert (0 <= sumZ (fun e => tx_size e.2) rest) as Hnn.
  { apply sumZ_nonneg, Forall_forall. intros e _. apply tx_size_nonneg. }
  assert (u64 (mempool_bytes_ mp - sizeZ bs) = sumZ (fun e => tx_size e.2) rest) as Hu.
  { rewrite u64_small; [lia|]. unfold MAX_MEMPOOL_BYTES in B5. ints. }
  split; simpl; fold rest; try done.
  - rewrite B2, list_to_set_app_L. apply leibniz_equiv. intros p.
    rewrite elem_of_difference, elem_of_union, !elem_of_list_to_set. split; [tauto|].
    intros Hin. split; [auto|]. intros Hin'. by apply (Hdis p).
  - rewrite Hu. split; [lia|]. unfold mempool_size in *. simpl.
    rewrite map_size_delete, E. simpl. lia.
Qed.

Lemma erase_all_spec mp ids :
  pool_books mp ->
  exists mp', foldM_r erase_transaction mp ids = Ok mp' /\ pool_books mp' /\
    forall id, transactions_ mp' !! id = if decide (id ∈ ids) then None else transactions_ mp !! id.
Proof.
  revert mp. induction ids as [|id ids IH]; intros mp Hb; cbn [foldM_r].
  - exists mp. split_and!; [done|done|]. intros id. rewrite decide_False; [done|apply not_elem_of_nil].
  - destruct (erase_transaction_spec mp id Hb) as (mp1 & -> & Hb1 & E1). cbn [mbind result_bind].
    destruct (IH mp1 Hb1) as (mp' & E & Hb' & Hl). exists mp'. split_and!; [done|done|].
    intros id'. rewrite Hl, E1, lookup_delete.
    repeat case_decide; rewrite ?elem_of_cons in *; naive_solver.
Qed.

Lemma resolves_filter (P : Hash256 * Transaction -> Prop) `{!forall e, Decision (P e)} l
    (A : OutPoint -> Prop) :
  (forall e e' i, e ∈ l -> e' ∈ l -> P e -> i ∈ inputs e.2 -> creates e' (point i) -> P e') ->
  resolves l A -> resolves (filter P l) A.
Proof.
  revert A. induction l as [|x l IH]; intros A HP; [done|]. intros [Hx Hl].
  rewrite filter_cons. assert (resolves (filter P l) (fun p => A p \/ creates x p)) as Hf.
  { apply IH; [|done]. intros e e' i He He'. apply HP; by right. }
  case_decide as HPx; [by split|].
  eapply resolves_mono; [|exact Hf]. intros e i He Hi [HA|Hc]; [done|]. exfalso.
  apply list_elem_of_filter in He as [HPe He]. apply HPx.
  apply (HP e x i); [by right|left|done|done|done].
Qed.

Lemma elem_of_filter_NoDup (R : list (Hash256 * Transaction)) P `{!forall e, Decision (P e)} :
  NoDup (all_inputs R) -> NoDup (all_inputs (filter P R)).
Proof.
  induction R as [|e R IH]; [done|]. rewrite all_inputs_cons, filter_cons.
  intros (H1 & H2 & H3)%NoDup_app. case_decide; [|auto].
  rewrite all_inputs_cons. apply NoDup_app. split_and!; [done| |auto].
  intros p Hp (x & i & Hx & Hi & ->)%elem_of_all_inputs. apply (H2 (point i) Hp).
  apply elem_of_all_inputs. exists x, i. apply list_elem_of_filter in Hx as [_ Hx]. done.
Qed.

(** Keeping the transactions outside a closed set. *)
Lemma pool_inv_restrict u mp mp' removal :
  pool_inv u mp -> pool_books mp' ->
  (forall id tx, transactions_ mp !! id = Some tx -> spends_from removal tx -> id ∈ removal) ->
  (forall id, transactions_ mp' !! id =
     if decide (id ∈ removal) then None else transactions_ mp !! id) ->
  pool_inv u mp'.
Proof.
  intros Hinv Hb' Hcl Hl. pose proof (pi_connectable _ _ Hinv) as Hc.
  set (keep := fun e : Hash256 * Transaction => e.1 ∉ removal).
  assert (entries mp' ≡ₚ filter keep (entries mp)) as Hp.
  { apply NoDup_Permutation; [apply NoDup_map_to_list|apply NoDup_filter, NoDup_map_to_list|].
    intros [id tx]. rewrite list_elem_of_filter, !elem_of_map_to_list, Hl. unfold keep. simpl.
    case_decide; naive_solver. }
  split; [|apply Hb'..|].
  - rewrite Hp. destruct Hc as [(l & El & Hr) C2 C3 C4 C5]. split.
    + exists (filter keep l). split; [by rewrite El|]. apply resolves_filter; [|done].
      intros [id tx] [id' tx'] i He He' HP Hi [Ec _] Hin. apply HP. simpl in *.
      rewrite El in He. apply elem_of_map_to_list in He. apply (Hcl id tx He).
      exists i. split; [done|]. by rewrite Ec.
    + by apply elem_of_filter_NoDup.
    + eapply sublist_NoDup; [exact C3|]. apply fmap_sublist, sublist_filter.
    + intros p Hs (e & Eq & He)%list_elem_of_fmap. apply (C4 p Hs).
      apply list_elem_of_filter in He as [_ He]. apply list_elem_of_fmap. eauto.
    + apply Forall_forall. intros e [_ He]%list_elem_of_filter. rewrite Forall_forall in C5. auto.
  - intros id tx w Hid Hag. rewrite Hl in Hid. case_decide as Hin; [done|].
    apply (pi_witness _ _ Hinv id tx w Hid). rewrite Forall_forall in *. intros i Hi.
    rewrite (Hag i Hi). unfold pool_lookup. rewrite Hl, decide_False; [done|].
    intros Hr. apply Hin, (Hcl id tx Hid). by exists i.
Qed.

Lemma mempool_remove_spec u mp id :
  pool_inv u mp ->
  exists b mp', mempool_remove mp id = Ok (b, mp') /\ pool_inv u mp' /\
    (b = true <-> is_Some (transactions_ mp !! id)) /\
    forall id', is_Some (transactions_ mp' !! id') <->
      is_Some (transactions_ mp !! id') /\
      ~ (is_Some (transactions_ mp !! id) /\ descendant (transactions_ mp) id id').
Proof.
  intros Hinv. unfold mempool_remove, mempool_contains. case_bool_decide as Hs; cbn [negb].
  2: { exists false, mp. split_and!; [done|done|done|]. naive_solver. }
  pose proof (removal_is_descendants mp id) as Hdesc. set (r := removal_loop _ _ _) in *.
  destruct (erase_all_spec mp (elements r) (pool_inv_books _ _ Hinv)) as (mp' & -> & Hb' & Hl).
  assert (forall id', transactions_ mp' !! id' =
    if decide (id' ∈ r) then None else transactions_ mp !! id') as Hl'.
  { intros id'. rewrite Hl. repeat case_decide; rewrite ?elem_of_elements in *; done. }
  exists true, mp'. split; [done|]. split; [|split; [done|]].
  - apply (pool_inv_restrict u mp mp' r); try done.
    intros id' tx Hid (i & Hi & Hr). apply Hdesc. apply Hdesc in Hr. by eapply descendant_spends.
  - intros id'. rewrite Hl', <- Hdesc. case_decide; naive_solver.
Qed.
End Erase.

(** ** A stale transaction blocks the pool *)

Section Stale.
Context {ssl : OpenSSL}.

(** A pooled transaction whose input [p] is neither on the chain nor created
    in the pool. *)
Definition stale (mp : Mempool) (u : UTXOSet) (id : Hash256) (p : OutPoint) : Prop :=
  exists tx, transactions_ mp !! id = Some tx /\ p ∈ point <$> inputs tx /\
    u !! p = None /\ transactions_ mp !! op_txid p = None.


Lemma ordered_pass_stale mp u id p L s s' :
  keyed (transactions_ mp) -> stale mp u id p ->
  (forall e, e ∈ L -> transactions_ mp !! e.1 = Some e.2) ->
  id ∈ remaining s -> working s !! p = None ->
  ordered_pass L s = Ok (Some s') -> id ∈ remaining s' /\ working s' !! p = None.
Proof.
  intros Hk (tx & Hid & Hp & _ & Hnp). revert s. induction L as [|[id' tx'] L IH]; intros s HL Hr Hw.
  { by intros [= <-]. }
  cbn [ordered_pass]. assert (forall e, e ∈ L -> transactions_ mp !! e.1 = Some e.2) as HL'
    by (intros e He; apply HL; by right).
  pose proof (HL (id', tx') ltac:(left)) as Hid'. simpl in Hid'.
  case_bool_decide; simpl; [|by apply IH].
  destruct (ready tx' (working s)) eqn:Er; simpl; [|by apply IH].
  intros ([[] w] & Hc & H')%bind_Ok; [simpl in H'|done].
  apply ready_spec in Er. rewrite Forall_forall in Er.
  assert (id' <> id) as Hne.
  { intros ->. rewrite Hid in Hid'. injection Hid' as <-.
    apply list_elem_of_fmap in Hp as (i & -> & Hi). destruct (Er i Hi). congruence. }
  apply IH in H'; [done|done|simpl; set_solver|]. simpl.
  rewrite (connect_lookup id' tx' _ _ p (Hk _ _ Hid') Hc).
  destruct (output_at id' 0 (outputs tx') p) eqn:Eo; [|by case_decide].
  assert (creates (id', tx') p) as [E _] by (apply creates_output_at; eauto). simpl in E. congruence.
Qed.

Lemma ordered_loop_stale mp u id p fuel L s l :
  keyed (transactions_ mp) -> stale mp u id p ->
  (forall e, e ∈ L -> transactions_ mp !! e.1 = Some e.2) ->
  id ∈ remaining s -> working s !! p = None -> ordered_loop fuel L s = Ok l -> l = [].
Proof.
  intros Hk Hs HL. revert s. induction fuel as [|fuel IH]; intros s Hr Hw; cbn [ordered_loop];
    rewrite bool_decide_eq_false_2 by set_solver; [by intros [= <-]|].
  intros ([s'|] & Hp & H)%bind_Ok; [|by injection H].
  destruct (progressed s'); simpl in H; [|by injection H].
  apply (ordered_pass_stale mp u id p) in Hp as [? ?]; try done. by apply (IH s').
Qed.

Lemma ordered_transactions_stale mp u id p l :
  keyed (transactions_ mp) -> stale mp u id p -> ordered_transactions mp u = Ok l -> l = [].
Proof.
  intros Hk Hs. pose proof Hs as (tx & Hid & _ & Hu & _).
  apply (ordered_loop_stale mp u id p); try done.
  - intros [id' tx']. rewrite merge_sort_Permutation. by intros He%elem_of_map_to_list.
  - simpl. rewrite merge_sort_Permutation. apply elem_of_list_to_set, list_elem_of_fmap.
    exists (id, tx). split; [done|]. by apply elem_of_map_to_list.
Qed.
End Stale.

(** ** Claims *)

Section MempoolClaims.
Context {ssl : OpenSSL} {iter : UnorderedMap}.

(** C10: acceptance keeps the pool's books, whatever the chain and the
    transaction: transactions are filed under their ids, reservations are
    exactly the inputs and no two transactions share one, the byte count is
    exact and within limits; and a rejection changes nothing. If moreover the
    transaction's id is not the id of an unspent output of the chain (which the
    code does not check, and a repeated coinbase can bring about), everything
    pooled can still be connected to the chain's set in some order, with every
    witness valid for the outputs its inputs name. *)
Theorem mempool_accept_invariant u mp tx reason mp' :
  keyed (transactions_ mp) -> pool_books mp -> mempool_accept mp tx u = Ok (reason, mp') ->
  keyed (transactions_ mp') /\ pool_books mp' /\ (reason <> None_ -> mp' = mp) /\
  (pool_inv u mp -> (forall q, is_Some (u !! q) -> txid tx <> Ok (op_txid q)) -> pool_inv u mp').
Proof.
  intros Hk Hb H. split; [|split; [|split; [intros; by eapply mempool_accept_rejected|]]].
  - destruct (decide (reason = None_)) as [->|Hne]; [|by rewrite (mempool_accept_rejected _ _ _ _ _ H Hne)].
    apply mempool_accept_inv in H as (id & bs & w & Hid & _ & _ & _ & _ & _ & _ & _ & _ & _ & ->).
    by apply map_Forall_insert_2.
  - destruct (decide (reason = None_)) as [->|Hne]; [by eapply mempool_accept_books|].
    by rewrite (mempool_accept_rejected _ _ _ _ _ H Hne).
  - intros Hinv Hfr. destruct (decide (reason = None_)) as [->|Hne]; [by eapply mempool_accept_preserves|].
    by rewrite (mempool_accept_rejected _ _ _ _ _ H Hne).
Qed.

(** C36: the dependency order is complete: under the invariant
    [ordered_transactions] returns every pooled transaction, parents before
    children, so that all of them connect to the chain's set in that order. *)
Theorem ordered_transactions_complete u mp :
  pool_inv u mp ->
  exists l w, ordered_transactions mp u = Ok l /\
    l ≡ₚ (map_to_list (transactions_ mp)).*2 /\ connect_all l u = Ok (true, w).
Proof. intros H. apply ordered_transactions_spec, H. Qed.

(** Removal takes out the transaction and exactly its descendants,
    whatever the iteration order of the hash map, and preserves the
    invariant. *)
Theorem mempool_remove_correct u mp id :
  pool_inv u mp ->
  exists b mp', mempool_remove mp id = Ok (b, mp') /\ pool_inv u mp' /\
    (b = true <-> is_Some (transactions_ mp !! id)) /\
    forall id', is_Some (transactions_ mp' !! id') <->
      is_Some (transactions_ mp !! id') /\
      ~ (is_Some (transactions_ mp !! id) /\ descendant (transactions_ mp) id id').
Proof. apply mempool_remove_spec. Qed.

(** One stale transaction blocks the pool: while a pooled transaction
    spends an output that is neither on the chain nor created in the pool,
    the miner's list is empty and no transaction is accepted. *)
Theorem stale_transaction_blocks_pool mp u id p :
  keyed (transactions_ mp) -> stale mp u id p ->
  (forall l, ordered_transactions mp u = Ok l -> l = []) /\
  (forall tx reason mp', mempool_accept mp tx u = Ok (reason, mp') -> reason <> None_).
Proof.
  intros Hk Hs. split; [intros l; by eapply ordered_transactions_stale|].
  intros tx reason mp' H ->.
  apply mempool_accept_inv in H as (id' & bs & w & _ & _ & _ & _ & _ & _ & _ & Heff & _).
  unfold build_effective_utxo in Heff. apply bind_Ok in Heff as (l & Hl & Heff).
  apply (ordered_transactions_stale mp u id p) in Hl; [|done..]. subst l.
  destruct Hs as (tx' & Hid & _). case_bool_decide as E; [|done]. simpl in E.
  symmetry in E. apply map_size_empty_inv in E. by rewrite E in Hid.
Qed.
End MempoolClaims.

(** The admission check is the consensus value check: [validate_for_mempool]
    reports no error exactly when [validate_transaction_against_utxo] accepts. *)
Theorem mempool_validation_agrees tx u :
  validate_for_mempool tx u = None_ <-> validate_transaction_against_utxo tx u = true.
Proof. apply validate_for_mempool_None. Qed.

(** ** Witnesses *)

#[global] Instance Mempool_eq_dec : EqDecision Mempool.
Proof. solve_decision. Defined.

Definition listed : UnorderedMap := {| iteration := map_to_list; iteration_perm m := reflexivity _ |}.

(** A pool holding the sample transaction, and one holding it without the
    output it spends. *)
Definition sample_spend_id : Hash256 := Eval vm_compute in
  match txid (ssl := Toy.ssl) sample_spend with Ok id => id | Throw _ => zero_hash end.
Definition sample_pool : Mempool :=
  mkMempool {[sample_spend_id := sample_spend]} {[mkOutPoint (sample_hash 5) 0]} (tx_size sample_spend).

Lemma sample_accept :
  mempool_accept (ssl := Toy.ssl) new_mempool sample_spend sample_utxo = Ok (None_, sample_pool).
Proof. decide_vm. Qed.

Lemma sample_fresh q :
  is_Some (sample_utxo !! q) -> txid (ssl := Toy.ssl) sample_spend <> Ok (op_txid q).
Proof.
  intros [o Ho]. unfold sample_utxo in Ho. apply lookup_singleton_Some in Ho as [<- _]. decide_vm.
Qed.

Lemma sample_pool_inv : pool_inv (ssl := Toy.ssl) sample_utxo sample_pool.
Proof.
  eapply mempool_accept_preserves; [apply pool_inv_empty|apply sample_fresh|apply sample_accept].
Qed.

Lemma mempool_accept_invariant_witness :
  pool_books sample_pool /\ pool_inv (ssl := Toy.ssl) sample_utxo sample_pool.
Proof.
  destruct (mempool_accept_invariant (ssl := Toy.ssl) sample_utxo new_mempool sample_spend None_ sample_pool)
    as (_ & H1 & _ & H2).
  - apply map_Forall_empty.
  - apply (pool_inv_books (ssl := Toy.ssl) sample_utxo), pool_inv_empty.
  - apply sample_accept.
  - split; [exact H1|]. apply H2; [apply pool_inv_empty|apply sample_fresh].
Defined.

Lemma ordered_transactions_complete_witness :
  exists l w, ordered_transactions (ssl := Toy.ssl) sample_pool sample_utxo = Ok l /\
    l ≡ₚ (map_to_list (transactions_ sample_pool)).*2 /\
    connect_all (ssl := Toy.ssl) l sample_utxo = Ok (true, w).
Proof.
  apply (ordered_transactions_complete (ssl := Toy.ssl) sample_utxo sample_pool sample_pool_inv).
Defined.

Lemma mempool_remove_correct_witness :
  exists b mp', mempool_remove (H := listed) sample_pool sample_spend_id = Ok (b, mp') /\
    pool_inv (ssl := Toy.ssl) sample_utxo mp'.
Proof.
  destruct (mempool_remove_correct (ssl := Toy.ssl) (iter := listed) sample_utxo sample_pool
    sample_spend_id sample_pool_inv) as (b & mp' & H1 & H2 & _).
  exists b, mp'. exact (conj H1 H2).
Defined.

Lemma stale_transaction_blocks_pool_witness :
  stale sample_pool ∅ sample_spend_id (mkOutPoint (sample_hash 5) 0) /\
  (forall l, ordered_transactions (ssl := Toy.ssl) sample_pool ∅ = Ok l -> l = []).
Proof.
  assert (stale sample_pool ∅ sample_spend_id (mkOutPoint (sample_hash 5) 0)) as Hs.
  { exists sample_spend. split; [reflexivity|]. split; [left|]. split; [reflexivity|]. decide_vm. }
  split; [exact Hs|].
  apply (stale_transaction_blocks_pool (ssl := Toy.ssl) sample_pool ∅ sample_spend_id
    (mkOutPoint (sample_hash 5) 0)); [apply map_Forall_singleton; decide_vm|exact Hs].
Defined.
