(* ===== verification/BlockBuilder.v ===== *)
(** block_builder.hpp: assembling a block from the pool and mining it. *)

From S2P Require Import Prelude Serialization Crypto Transaction UTXO Ownership Coinbase.
From S2P Require Import Consensus Block ChainValidator Mempool.
From stdpp Require Import options.
Local Open Scope Z_scope.

Section Builder.
Context {ssl : OpenSSL} {iter : UnorderedMap}.

(** [BlockBuilder::build]; [chain_utxos] is [None] for the null pointer. *)
Definition build (previous : Block) (mempool : Mempool) (miner_recipient : bytes)
    (timestamp difficulty nonce : Z) (chain_utxos : option UTXOSet) : result Block :=
  throw_if (bool_decide (miner_recipient = [])) "miner recipient is empty" ;;
  let h := u64 (height (header previous) + 1) in
  coinbase ← make_coinbase_transaction h miner_recipient h;
  txs ←
    match chain_utxos with
    | Some u => ordered_transactions mempool u
    | None => Ok (iteration (transactions_ mempool)).*2
    end;
  update_merkle_root
    (mkBlock (mkHeader 1 h (block_hash previous) zero_hash zero_hash timestamp nonce difficulty)
       (coinbase :: txs)).

Definition with_nonce (b : Block) (n : Z) : Block :=
  let h := header b in
  mkBlock (mkHeader (version h) (height h) (previous_hash h) (header_merkle_root h)
             (witness_root h) (timestamp h) n (difficulty h)) (transactions b).

(** [BlockBuilder::mine]: the return value and the block left behind. *)
Definition mine (block : Block) (start_nonce max_attempts : Z) : result (bool * Block) :=
  if 256 <? difficulty (header block) then Ok (false, block)
  else
    match mine_pow (pow_header block) (difficulty (header block)) start_nonce max_attempts with
    | None => Ok (false, block)
    | Some (found_nonce, found_hash) =>
        let block := with_nonce block found_nonce in
        throw_if (negb (hash_eqb (pow_hash block) found_hash))
          "PoW hash changed immediately after mining" ;;
        Ok (block_validate_pow block, block)
    end.
End Builder.

(** ** The extra output of the coinbase does not disturb the order *)

Section Frame.
Context {ssl : OpenSSL}.
Implicit Types (u w : UTXOSet) (q : OutPoint).

Lemma spend_inputs_frame ins u u' q o :
  u !! q = None -> spend_inputs ins u = (true, u') ->
  spend_inputs ins (<[q := o]> u) = (true, <[q := o]> u') /\ u' !! q = None.
Proof.
  revert u. induction ins as [|i ins IH]; intros u Hq; simpl; [by intros [= <-]|].
  case_bool_decide as Hi; [|done]. destruct Hi as [x Hx]. intros H.
  assert (point i <> q) as Hne by congruence.
  rewrite bool_decide_eq_true_2 by (rewrite lookup_insert_ne by done; eauto).
  rewrite delete_insert_ne by done. apply IH; [|done]. by rewrite lookup_delete_ne.
Qed.

Lemma add_outputs_frame id i outs u u' q o :
  op_txid q <> id -> add_outputs id i outs u = (true, u') ->
  add_outputs id i outs (<[q := o]> u) = (true, <[q := o]> u').
Proof.
  intros Hne. revert i u. induction outs as [|x outs IH]; intros i u; simpl; [by intros [= <-]|].
  destruct (_ <? _); [done|]. unfold utxo_add.
  assert (q <> mkOutPoint id (u32 i)) as Hqi by (intros ->; by apply Hne).
  rewrite lookup_insert_ne by done. destruct (u !! _); [done|]. intros H%IH.
  by rewrite insert_insert_ne.
Qed.

(** Connecting an authorized transaction is applying it. *)
Lemma connect_apply tx id w w' q o :
  txid tx = Ok id -> op_txid q <> id -> w !! q = None ->
  is_coinbase_transaction tx = false ->
  validate_transaction_witness tx (<[q := o]> w) = Ok true ->
  connect tx w = Ok (true, w') ->
  apply_transaction tx (<[q := o]> w) = Ok (true, <[q := o]> w') /\ w' !! q = None.
Proof.
  intros Hid Hne Hq Hcb Hwit Hc.
  assert (w' !! q = None) as Hq'.
  { rewrite (connect_lookup id tx w w' q Hid Hc), Hq.
    destruct (output_at id 0 (outputs tx) q) eqn:E; [|by case_decide].
    assert (creates (id, tx) q) as [? _] by (apply creates_output_at; eauto). done. }
  split; [|done]. unfold connect in Hc. destruct (spend_inputs _ _) as [[] w1] eqn:Es; [|done].
  simpl in Hc. rewrite Hid in Hc. injection Hc as Hc.
  destruct (spend_inputs_frame _ _ _ q o Hq Es) as [Es' _].
  unfold apply_transaction. rewrite Hcb, Hwit. simpl. rewrite Es'. simpl. rewrite Hid. simpl.
  by rewrite (add_outputs_frame _ _ _ _ _ _ o Hne Hc).
Qed.
End Frame.

Section Mined.
Context {ssl : OpenSSL} {iter : UnorderedMap}.
Implicit Types (u w : UTXOSet).
Abbreviation entries mp := (map_to_list (transactions_ mp)).

(** No pooled transaction can pass for a coinbase. *)
Lemma pooled_not_coinbase u mp id tx w :
  u !! mkOutPoint zero_hash UINT32_MAX = None -> transactions_ mp !! zero_hash = None ->
  (forall p o, w !! p = Some o -> pool_lookup (transactions_ mp) u p = Some o) ->
  Forall (fun i => is_Some (w !! point i)) (inputs tx) ->
  transactions_ mp !! id = Some tx -> is_coinbase_transaction tx = false.
Proof.
  intros Hu Hz Hw Hin _. unfold is_coinbase_transaction.
  destruct (inputs tx) as [|i [|]]; try done. apply Forall_cons in Hin as [[o Ho] _].
  destruct (output_index i =? UINT32_MAX) eqn:E1; [simpl|done].
  destruct (is_zero_hash (previous_txid i)) eqn:E2; [simpl|done]. exfalso. zbool.
  apply is_zero_hash_zero in E2 as E3.
  apply Hw in Ho. unfold pool_lookup, point in Ho. simpl in Ho.
  rewrite E3, Hz, E1 in Ho. congruence.
Qed.

(** The ordered transactions apply on top of the coinbase output. *)
Lemma apply_ordered u mp q o l w :
  pool_inv u mp -> u !! mkOutPoint zero_hash UINT32_MAX = None ->
  transactions_ mp !! zero_hash = None ->
  u !! q = None -> transactions_ mp !! op_txid q = None ->
  l ≡ₚ entries mp -> connect_all l.*2 u = Ok (true, w) ->
  apply_transactions l.*2 (<[q := o]> u) = Ok (true, <[q := o]> w) /\
  Forall (fun e => is_coinbase_transaction e.2 = false /\ tx_validate e.2 = true) l.
Proof.
  intros Hinv Hu0 Hz Hq Hcb Hp Ha. pose proof (pi_connectable _ _ Hinv) as Hc.
  assert (forall done_ rest w0, l = done_ ++ rest -> connect_all done_.*2 u = Ok (true, w0) ->
    w0 !! q = None -> connect_all rest.*2 w0 = Ok (true, w) ->
    apply_transactions rest.*2 (<[q := o]> w0) = Ok (true, <[q := o]> w) /\
    Forall (fun e => is_coinbase_transaction e.2 = false /\ tx_validate e.2 = true) rest) as H.
  2: { by apply (H [] l u). }
  intros done_ rest. revert done_. induction rest as [|[id tx] rest IH]; intros done_ w0 El Hd Hq0 Hr.
  { injection Hr as <-. done. }
  simpl in Hr. apply bind_Ok in Hr as ([[] w1] & Hc1 & Hr); [simpl in Hr|done].
  assert (transactions_ mp !! id = Some tx) as Hid.
  { apply elem_of_map_to_list. rewrite <- Hp, El. apply elem_of_app. right. left. }
  assert (Forall entry_ok (done_ ++ (id, tx) :: rest)) as Hok by (rewrite <- El, Hp; apply Hc).
  apply Forall_app in Hok as [Hokd [[Htx _] _]%Forall_cons]. simpl in Htx.
  assert (forall p x, w0 !! p = Some x -> pool_lookup (transactions_ mp) u p = Some x) as Hlook.
  { intros p x Hx. apply connectable_created; [done|].
    destruct (connect_all_lookup done_ u w0 p x) as [(e & He & Ho)|]; try done; [left|by right].
    exists e. split; [|done]. rewrite <- Hp, El. apply elem_of_app. auto. }
  assert (Forall (fun i => is_Some (w0 !! point i)) (inputs tx)) as Hin.
  { unfold connect in Hc1. destruct (spend_inputs _ _) as [[] ?] eqn:Es; [|done].
    apply spend_inputs_spec in Es as [[_ ?] _]. done. }
  assert (validate_transaction_witness tx (<[q := o]> w0) = Ok true) as Hwit.
  { apply (pi_witness _ _ Hinv id tx _ Hid). eapply Forall_impl; [exact Hin|].
    intros i [x Hx]. cbn beta. rewrite lookup_insert_ne by congruence.
    rewrite Hx. symmetry. by apply Hlook. }
  assert (is_coinbase_transaction tx = false) as Hncb by (by eapply pooled_not_coinbase).
  destruct (connect_apply tx id w0 w1 q o) as [Happ Hq1]; try done; [congruence|].
  destruct (IH (done_ ++ [(id, tx)]) w1) as [IH1 IH2]; try done.
  { by rewrite <- app_assoc. }
  { rewrite fmap_app. by eapply connect_all_snoc. }
  split; [simpl; rewrite Happ; simpl; done|]. constructor; [|done]. split; [done|]. simpl.
  unfold validate_transaction_witness in Hwit. by destruct (tx_validate tx).
Qed.
End Mined.

Section MinedBlock.
Context {ssl : OpenSSL} {iter : UnorderedMap}.
Implicit Types (u w : UTXOSet).
Abbreviation entries mp := (map_to_list (transactions_ mp)).

Lemma update_merkle_root_inv b b' :
  update_merkle_root b = Ok b' ->
  transactions b' = transactions b /\ validate_merkle_root b' = Ok true /\
  validate_witness_root b' = Ok true /\
  version (header b') = version (header b) /\ height (header b') = height (header b) /\
  previous_hash (header b') = previous_hash (header b) /\
  timestamp (header b') = timestamp (header b) /\ difficulty (header b') = difficulty (header b).
Proof.
  unfold update_merkle_root. intros (mr & Em & (wr & Ew & [= <-])%bind_Ok)%bind_Ok.
  unfold validate_merkle_root, validate_witness_root.
  unfold calculate_merkle_root, calculate_witness_root in *. simpl.
  rewrite Em, Ew. simpl. unfold hash_eqb.
  rewrite (bool_decide_eq_true_2 (mr = mr)), (bool_decide_eq_true_2 (wr = wr)) by done. done.
Qed.

(** Mining changes the nonce only, and a [true] return is a proof of work. *)
Lemma mine_inv b start max_attempts b' :
  mine b start max_attempts = Ok (true, b') ->
  exists n, b' = with_nonce b n /\ block_validate_pow b' = true.
Proof.
  unfold mine. destruct (256 <? _); [done|]. destruct (mine_pow _ _ _ _) as [[n h]|]; [|done].
  intros H. apply bind_Ok in H as (? & _ & [= Hp <-]). eauto.
Qed.

Lemma validate_basic_with_nonce b n :
  version (header b) <> 0 -> block_validate_pow (with_nonce b n) = true ->
  height (header b) <> 0 ->
  validate_coinbase_position_and_reward (transactions b) (height (header b)) = true ->
  forallb tx_validate (tail (transactions b)) = true ->
  validate_merkle_root b = Ok true -> validate_witness_root b = Ok true ->
  validate_basic (with_nonce b n) = Ok true.
Proof.
  intros Hv Hp Hh Hc Ht Hm Hw. unfold validate_basic. rewrite Hp.
  change (version (header (with_nonce b n))) with (version (header b)).
  change (height (header (with_nonce b n))) with (height (header b)).
  change (transactions (with_nonce b n)) with (transactions b).
  rewrite (proj2 (Z.eqb_neq _ 0) Hv), (proj2 (Z.eqb_neq _ 0) Hh), Hc, Ht. simpl.
  apply and_r_true. split; [exact Hm|exact Hw].
Qed.

(** What [build] puts together. *)
Lemma build_inv prev mp miner ts d n u b :
  build prev mp miner ts d n (Some u) = Ok b ->
  exists cb txs,
    make_coinbase_transaction (u64 (height (header prev) + 1)) miner
      (u64 (height (header prev) + 1)) = Ok cb /\
    ordered_transactions mp u = Ok txs /\ transactions b = cb :: txs /\
    validate_merkle_root b = Ok true /\ validate_witness_root b = Ok true /\
    version (header b) = 1 /\ height (header b) = u64 (height (header prev) + 1) /\
    previous_hash (header b) = block_hash prev /\
    timestamp (header b) = ts /\ difficulty (header b) = d.
Proof.
  unfold build. intros (_ & _ & (cb & Hcb & (txs & Htxs & H)%bind_Ok)%bind_Ok)%bind_Ok.
  apply update_merkle_root_inv in H. exists cb, txs. done.
Qed.

(** Applying a block that starts with a coinbase of one fresh output. *)
Lemma apply_built_block b u cb txs cbid o w :
  transactions b = cb :: txs -> validate_coinbase_transaction cb (height (header b)) = true ->
  txid cb = Ok cbid -> outputs cb = [o] -> u !! mkOutPoint cbid 0 = None ->
  apply_transactions txs (<[mkOutPoint cbid 0 := o]> u) = Ok (true, w) ->
  apply_block_transactions_in_place_after_basic_validation b u = Ok (true, w).
Proof.
  intros Htxs Hval Hcbid Eo Hnone Happ.
  unfold apply_block_transactions_in_place_after_basic_validation.
  rewrite Htxs, Hval, Hcbid, Eo. simpl. unfold utxo_add. change (u32 0) with 0. by rewrite Hnone.
Qed.

(** Its basic checks, when the rest are ordinary valid transactions. *)
Lemma built_block_basic b n cb txs :
  transactions b = cb :: txs -> validate_coinbase_transaction cb (height (header b)) = true ->
  version (header b) <> 0 -> height (header b) <> 0 ->
  validate_merkle_root b = Ok true -> validate_witness_root b = Ok true ->
  Forall (fun tx => is_coinbase_transaction tx = false /\ tx_validate tx = true) txs ->
  block_validate_pow (with_nonce b n) = true -> validate_basic (with_nonce b n) = Ok true.
Proof.
  intros Htxs Hval Hv Hh Hmr Hwr Hall Hpow. rewrite Forall_forall in Hall.
  pose proof (proj1 (coinbase_transaction_spec _ _) Hval) as (Hiscb & _).
  apply validate_basic_with_nonce; try done.
  - rewrite Htxs. unfold validate_coinbase_position_and_reward. rewrite Hiscb, Hval. simpl.
    apply forallb_forall. intros tx Hin%list_elem_of_In. by rewrite (proj1 (Hall tx Hin)).
  - rewrite Htxs. simpl. apply forallb_forall. intros tx Hin%list_elem_of_In. by apply Hall.
Qed.

(** The height of the tip of a validated chain. *)
Lemma tip_height c r prev :
  valid_chain c r -> sizeZ c < UINT64_MAX -> last c = Some prev ->
  0 < sizeZ c /\ u64 (height (header prev) + 1) = sizeZ c.
Proof.
  intros Hc Hsz Hlast. rewrite last_lookup, <- Nat.sub_1_r in Hlast.
  pose proof (lookup_lt_Some _ _ _ Hlast).
  rewrite (bic_height _ _ _ (valid_chain_blocks c r Hc ltac:(lia) _ _ Hlast)).
  unfold sizeZ in *. rewrite u64_small; ints.
Qed.

Lemma solved_block_extends c r prev mp miner ts b n cbid :
  valid_chain c r -> Forall block_typed c -> sizeZ c < UINT64_MAX -> last c = Some prev ->
  pool_inv (utxo r) mp ->
  utxo r !! mkOutPoint zero_hash UINT32_MAX = None -> transactions_ mp !! zero_hash = None ->
  timestamp (header prev) <= ts ->
  build prev mp miner ts (expected_next_difficulty c) 0 (Some (utxo r)) = Ok b ->
  (cb ← make_coinbase_transaction (sizeZ c) miner (sizeZ c); txid cb) = Ok cbid ->
  (forall q, is_Some (utxo r !! q) -> op_txid q <> cbid) -> transactions_ mp !! cbid = None ->
  block_validate_pow (with_nonce b n) = true ->
  exists r', extends c r (with_nonce b n) r'.
Proof.
  intros Hc Hty Hsz Hlast Hinv Hu0 Hz Hts Hb Hcbid Hfr Hcbp Hpow.
  apply build_inv in Hb as (cb & txs & Hcb & Hord & Htxs & Hmr & Hwr & Hv & Hh & Hprev & Ht & Hd).
  destruct (tip_height c r prev Hc Hsz Hlast) as [Hpos Hhc].
  rewrite Hhc in Hcb, Hh. rewrite Hcb in Hcbid. simpl in Hcbid.
  pose proof (make_coinbase_valid _ _ _ _ Hcb) as Hval.
  pose proof (proj1 (coinbase_transaction_spec _ _) Hval) as (_ & _ & o & Eo & _).
  destruct (ordered_transactions_spec (utxo r) mp (pi_connectable _ _ Hinv)) as (l & w & Hl & Hlp & Ha).
  rewrite Hord in Hl. injection Hl as <-.
  apply Permutation_map_inv in Hlp as (l' & -> & Hl').
  assert (utxo r !! mkOutPoint cbid 0 = None) as Hnone.
  { destruct (utxo r !! mkOutPoint cbid 0) eqn:E; [|done]. exfalso. by apply (Hfr (mkOutPoint cbid 0)). }
  destruct (apply_ordered (utxo r) mp (mkOutPoint cbid 0) o l' w) as [Happ Hall]; try done.
  assert (apply_block_transactions_in_place_after_basic_validation (with_nonce b n) (utxo r)
          = Ok (true, <[mkOutPoint cbid 0 := o]> w)) as Happly.
  { apply (apply_built_block _ _ cb l'.*2 cbid o); try done.
    change (height (header (with_nonce b n))) with (height (header b)). by rewrite Hh. }
  destruct (valid_chain_supply c r Hc Hty ltac:(lia)) as (_ & Htot & _).
  pose proof (issued_bound (length c - 1)). pose proof (issued_bound (length c)) as Hi.
  exists (mkValidation (<[mkOutPoint cbid 0 := o]> w) (total_issued r + block_subsidy (sizeZ c))).
  split; [|exists prev; unfold with_nonce; simpl; by rewrite Hh, Ht|exact Hd| |exact Happly].
  - apply (built_block_basic b n cb l'.*2); try done; [by rewrite Hh|lia..|]. by apply Forall_fmap.
  - apply (add_coinbase_issuance_spec _ _ _ (utxo r) (<[mkOutPoint cbid 0 := o]> w)).
    + rewrite Htot. lia.
    + unfold with_nonce. simpl. rewrite Hh. ints.
    + exact Happly.
    + unfold with_nonce. cbn [header height total_issued]. rewrite Hh. split; [done|]. rewrite Htot.
      destruct c as [|g c]; [done|]. unfold sizeZ in *. simpl in *. rewrite Nat.sub_0_r. lia.
Qed.

Lemma mined_block_extends c r prev mp miner ts b start max_attempts b' cbid :
  valid_chain c r -> Forall block_typed c -> sizeZ c < UINT64_MAX -> last c = Some prev ->
  pool_inv (utxo r) mp ->
  utxo r !! mkOutPoint zero_hash UINT32_MAX = None -> transactions_ mp !! zero_hash = None ->
  timestamp (header prev) <= ts ->
  build prev mp miner ts (expected_next_difficulty c) 0 (Some (utxo r)) = Ok b ->
  (cb ← make_coinbase_transaction (sizeZ c) miner (sizeZ c); txid cb) = Ok cbid ->
  (forall q, is_Some (utxo r !! q) -> op_txid q <> cbid) -> transactions_ mp !! cbid = None ->
  mine b start max_attempts = Ok (true, b') ->
  exists r', extends c r b' r'.
Proof. intros. apply mine_inv in H11 as (n & -> & Hpow). by eapply solved_block_extends. Qed.
End MinedBlock.

(** The miner never sees its hash change, and succeeds when a nonce exists. *)
Lemma mine_spec {ssl : OpenSSL} b start max_attempts :
  0 <= difficulty (header b) -> is_u64 start -> is_u64 max_attempts ->
  mine b start max_attempts =
    match mine_pow (pow_header b) (difficulty (header b)) start max_attempts with
    | Some (n, _) => Ok (true, with_nonce b n)
    | None => Ok (false, b)
    end.
Proof.
  intros Hd Hs Hm. unfold mine.
  destruct (mine_pow _ _ _ _) as [[n h]|] eqn:E; [|by destruct (256 <? _)].
  apply mine_pow_spec in E as (_ & _ & -> & [Hle Hlt] & _); [|assumption..].
  rewrite (proj2 (Z.ltb_ge _ _) Hle).
  change (pow_hash (with_nonce b n)) with (calculate_pow_hash (pow_header b) n).
  unfold hash_eqb, throw_if. rewrite bool_decide_eq_true_2 by reflexivity. cbn [negb mbind result_bind].
  change (block_validate_pow (with_nonce b n)) with
    (validate_pow (pow_header b) n (difficulty (header b))).
  unfold validate_pow. rewrite (proj2 (pow_meets_difficulty_spec _ _ Hd) (conj Hle Hlt)). reflexivity.
Qed.

(** ** Claims *)

(** The miner's blocks are accepted: a block built on a validated chain
    from a pool that satisfies its invariant, at the prescribed difficulty and
    a timestamp not before the tip's, passes the full consensus check once
    mining reports success, provided the coinbase id is new. *)
Theorem mined_block_accepted {ssl : OpenSSL} {iter : UnorderedMap}
    c r prev mp miner ts b start max_attempts b' cbid :
  validate_and_rebuild_chain c = Ok (Some r) -> Forall block_typed c -> sizeZ c < UINT64_MAX ->
  last c = Some prev ->
  pool_inv (utxo r) mp ->
  utxo r !! mkOutPoint zero_hash UINT32_MAX = None -> transactions_ mp !! zero_hash = None ->
  timestamp (header prev) <= ts ->
  build prev mp miner ts (expected_next_difficulty c) 0 (Some (utxo r)) = Ok b ->
  (cb ← make_coinbase_transaction (sizeZ c) miner (sizeZ c); txid cb) = Ok cbid ->
  (forall q, is_Some (utxo r !! q) -> op_txid q <> cbid) -> transactions_ mp !! cbid = None ->
  mine b start max_attempts = Ok (true, b') ->
  validate_block_consensus b' c (utxo r) = Ok true.
Proof.
  intros H%rebuild_valid_chain. intros. apply (validate_block_consensus_spec c r b' H).
  by eapply mined_block_extends.
Qed.

(** ** Witnesses *)

#[local] Transparent calculate_pow_hash.

(** The pool holds the transaction that spends the first coinbase. *)
Definition build_pool : Mempool :=
  mkMempool {[toy_txid chain_spend := chain_spend]} {[spent_point]} (tx_size chain_spend).
Definition built_block : Block := Eval vm_compute in
  match build (ssl := Toy.ssl) (iter := listed) chain_block1 build_pool sample_owner 120 12 0
          (Some (utxo sample_result1)) with Ok b => b | Throw _ => sample_genesis end.

Lemma build_pool_inv : pool_inv (ssl := Toy.ssl) (utxo sample_result1) build_pool.
Proof.
  apply (mempool_accept_preserves _ new_mempool chain_spend); [apply pool_inv_empty| |decide_vm].
  intros q [o Ho]. cbn [utxo sample_result1] in Ho. apply lookup_singleton_Some in Ho as [<- _].
  decide_vm.
Qed.

Lemma built_block_mined :
  mine (ssl := Toy.ssl) built_block 0 1 = Ok (true, built_block).
Proof.
  rewrite mine_spec by decide_vm. change (difficulty (header built_block)) with 12.
  rewrite (proj2 (mine_pow_spec (ssl := Toy.ssl) (pow_header built_block) 12 0 1 0
    (calculate_pow_hash (ssl := Toy.ssl) (pow_header built_block) 0)
    ltac:(lia) ltac:(ints) ltac:(ints))); [reflexivity|].
  split; [lia|]. split; [ints|]. split; [reflexivity|]. split; [|lia].
  apply pow_meets_difficulty_spec; [lia|]. lazy. reflexivity.
Qed.

Definition built_coinbase_id : Hash256 := Eval vm_compute in toy_txid (coinbase_to 2 sample_owner).

Lemma mined_block_accepted_witness :
  validate_block_consensus (ssl := Toy.ssl) built_block [sample_genesis; chain_block1]
    (utxo sample_result1) = Ok true.
Proof.
  apply (mined_block_accepted (ssl := Toy.ssl) (iter := listed) [sample_genesis; chain_block1]
    sample_result1 chain_block1 build_pool sample_owner 120 built_block 0 1 built_block
    built_coinbase_id).
  - apply rebuild_valid_chain, sample_chain1_valid.
  - decide_vm.
  - decide_vm.
  - reflexivity.
  - apply build_pool_inv.
  - decide_vm.
  - decide_vm.
  - decide_vm.
  - decide_vm.
  - decide_vm.
  - intros q [o Ho]. cbn [utxo sample_result1] in Ho. apply lookup_singleton_Some in Ho as [<- _].
    decide_vm.
  - decide_vm.
  - apply built_block_mined.
Defined.
