(* ===== verification/ChainReplacement.v ===== *)
(** chain_replacement.hpp: assembling a fork from received headers and blocks,
    and preparing and committing the replacement of the canonical chain. *)

From S2P Require Import Prelude Serialization Crypto Transaction UTXO Ownership Coinbase.
From S2P Require Import Consensus Block ChainValidator ChainWork.
From stdpp Require Import options.
Local Open Scope Z_scope.

Record ChainReplacementPlan := mkPlan { plan_chain : list Block; plan_utxo : UTXOSet }.

Section Replacement.
Context {ssl : OpenSSL}.

(** The loop looking for the block whose hash the first header names. *)
Fixpoint find_ancestor (current : list Block) (target : Hash256) (i : nat) : option nat :=
  match current with
  | [] => None
  | b :: current =>
      if hash_eqb (block_hash b) target then Some i else find_ancestor current target (S i)
  end.

(** The loop over the received blocks; [candidate] grows at its end. *)
Fixpoint assemble_loop (headers : list BlockHeader) (blocks : list Block)
    (candidate : list Block) (prev : Hash256) (expected_height : Z) : option (list Block) :=
  match headers, blocks with
  | h :: headers, block :: blocks =>
      if negb (hash_eqb (header_hash h) (block_hash block)) then None
      else if negb (hash_eqb (previous_hash (header block)) prev) then None
      else if negb (height (header block) =? expected_height) then None
      else if negb (hash_eqb (header_hash (header block)) (header_hash h)) then None
      else assemble_loop headers blocks (candidate ++ [block]) (block_hash block)
             (u64 (expected_height + 1))
  | _, _ => Some candidate
  end.

Definition assemble_candidate_chain (current : list Block) (headers : list BlockHeader)
    (blocks : list Block) : option (list Block) :=
  match headers with
  | [] => None
  | first :: _ =>
      if bool_decide (current = []) || bool_decide (blocks = []) then None
      else if negb (bool_decide (length headers = length blocks)) then None
      else
        match find_ancestor current (previous_hash first) 0 with
        | None => None
        | Some ancestor_index =>
            match current !! ancestor_index with
            | None => None
            | Some ancestor =>
                assemble_loop headers blocks (take (S ancestor_index) current)
                  (block_hash ancestor) (u64 (height (header ancestor) + 1))
            end
        end
  end.

Definition prepare_chain_replacement (current candidate : list Block)
    : result (option ChainReplacementPlan) :=
  match candidate with
  | [] => Ok None
  | candidate_genesis :: _ =>
      if match current with
         | [] => false
         | genesis :: _ => negb (hash_eqb (block_hash candidate_genesis) (block_hash genesis))
         end
      then Ok None
      else
        ok ← validate_candidate_chain candidate;
        if negb ok then Ok None
        else
          (* !current.empty() && !has_more_work(candidate, current) *)
          worse ←
            (if bool_decide (current = []) then Ok false
             else more ← has_more_work candidate current; Ok (negb more));
          if (worse : bool) then Ok None
          else
            candidate_utxo ← rebuild_utxo_set candidate;
            Ok (Some (mkPlan candidate candidate_utxo))
  end.

(** The canonical chain and its set after the swap. *)
Definition commit_chain_replacement (canonical : list Block * UTXOSet)
    (plan : ChainReplacementPlan) : list Block * UTXOSet :=
  (plan_chain plan, plan_utxo plan).
End Replacement.

(** ** Lemmas *)

Section Facts.
Context {ssl : OpenSSL}.

Lemma find_ancestor_spec current target k i :
  find_ancestor current target k = Some i ->
  exists j b, i = (k + j)%nat /\ current !! j = Some b /\ block_hash b = target.
Proof.
  revert k. induction current as [|b current IH]; intros k; simpl; [done|].
  unfold hash_eqb. case_bool_decide as E.
  - intros [= <-]. exists 0%nat, b. split_and!; [lia|done|done].
  - intros (j & b' & -> & Hj & Hb)%IH. exists (S j), b'. split_and!; [lia|done|done].
Qed.

(** Each block names its predecessor's hash, starting from [prev]. *)
Fixpoint chained (prev : Hash256) (blocks : list Block) : Prop :=
  match blocks with
  | [] => True
  | b :: blocks => previous_hash (header b) = prev /\ chained (block_hash b) blocks
  end.

Lemma assemble_loop_spec headers blocks candidate prev h c :
  length headers = length blocks ->
  assemble_loop headers blocks candidate prev h = Some c ->
  c = candidate ++ blocks /\ chained prev blocks /\
  Forall2 (fun hd b => header_hash hd = block_hash b) headers blocks.
Proof.
  revert headers candidate prev h. induction blocks as [|b blocks IH];
    intros [|hd headers] candidate prev h Hl; try done; simpl; unfold hash_eqb.
  - intros [= <-]. rewrite app_nil_r. split_and!; [done|done|constructor].
  - case_bool_decide as E1; [simpl|done]. case_bool_decide as E2; [simpl|done].
    destruct (_ =? _); [simpl|done]. case_bool_decide; [simpl|done].
    intros (-> & Hc & Hf)%IH; [|simpl in Hl; lia].
    split_and!; [by rewrite <- app_assoc|done|done|by constructor].
Qed.

Lemma validate_candidate_chain_spec c :
  validate_candidate_chain c = Ok true <-> exists r, valid_chain c r.
Proof.
  unfold validate_candidate_chain. setoid_rewrite <- rebuild_valid_chain.
  destruct (validate_and_rebuild_chain c) as [[r|]|]; simpl; [|naive_solver..].
  split; [eauto|done].
Qed.

Lemma rebuild_utxo_set_spec c r : valid_chain c r -> rebuild_utxo_set c = Ok (utxo r).
Proof. intros H%rebuild_valid_chain. unfold rebuild_utxo_set. by rewrite H. Qed.

Lemma prepare_spec current candidate plan r0 :
  valid_chain current r0 -> sizeZ current <= UINT64_MAX -> sizeZ candidate <= UINT64_MAX ->
  prepare_chain_replacement current candidate = Ok (Some plan) <->
  exists r, valid_chain candidate r /\ work current < work candidate /\
    block_hash <$> head candidate = block_hash <$> head current /\
    plan = mkPlan candidate (utxo r).
Proof.
  intros Hc S1 S2. pose proof (valid_chain_nonempty _ _ Hc) as Hne.
  destruct candidate as [|g candidate]; simpl.
  { split; [done|]. intros (r & H & _). by apply valid_chain_nonempty in H. }
  destruct current as [|g0 current]; [done|]. simpl. unfold hash_eqb.
  case_bool_decide as Eg; simpl; [|naive_solver].
  destruct (validate_candidate_chain (g :: candidate)) as [[]|] eqn:Ev; simpl.
  - apply validate_candidate_chain_spec in Ev as [r Hr].
    rewrite has_more_work_spec by eauto using valid_chain_difficulties.
    simpl. case_bool_decide as Hw; simpl.
    + rewrite (rebuild_utxo_set_spec _ _ Hr). simpl. split.
      * intros [= <-]. exists r. split_and!; [done..|congruence|done].
      * intros (r' & Hr' & _ & _ & ->). by rewrite (valid_chain_functional _ _ _ Hr Hr').
    + split; [done|]. by intros (_ & _ & ? & _).
  - split; [done|]. intros (r & Hr & _).
    enough (validate_candidate_chain (g :: candidate) = Ok true) by congruence.
    apply validate_candidate_chain_spec. eauto.
  - split; [done|]. intros (r & Hr & _).
    enough (validate_candidate_chain (g :: candidate) = Ok true) by congruence.
    apply validate_candidate_chain_spec. eauto.
Qed.
End Facts.

(** ** Claims *)

Section ReplacementClaims.
Context {ssl : OpenSSL}.

(** C8: the canonical chain is replaced exactly by a fully valid chain with
    the same genesis and strictly more work, and the set committed with it
    is the one that chain produces. *)
Theorem replacement_needs_more_work current candidate plan r0 :
  validate_and_rebuild_chain current = Ok (Some r0) ->
  sizeZ current <= UINT64_MAX -> sizeZ candidate <= UINT64_MAX ->
  prepare_chain_replacement current candidate = Ok (Some plan) <->
  exists r, validate_and_rebuild_chain candidate = Ok (Some r) /\ work current < work candidate /\
    block_hash <$> head candidate = block_hash <$> head current /\
    commit_chain_replacement (current, utxo r0) plan = (candidate, utxo r).
Proof.
  intros H%rebuild_valid_chain S1 S2. rewrite prepare_spec by done.
  setoid_rewrite rebuild_valid_chain. unfold commit_chain_replacement.
  destruct plan as [pc pu]. simpl. split.
  - intros (r & H1 & H2 & H3 & [= -> ->]). eauto.
  - intros (r & H1 & H2 & H3 & [= -> ->]). eauto.
Qed.

(** An assembled candidate is a prefix of the current chain followed by
    the received blocks, which link to the end of that prefix and to each
    other and match the announced headers one by one. *)
Theorem assembled_candidate_links current headers blocks c :
  assemble_candidate_chain current headers blocks = Some c ->
  exists i ancestor, current !! i = Some ancestor /\ c = take (S i) current ++ blocks /\
    chained (block_hash ancestor) blocks /\
    Forall2 (fun h b => header_hash h = block_hash b) headers blocks.
Proof.
  unfold assemble_candidate_chain. destruct headers as [|h headers]; [done|].
  destruct (_ || _); [done|]. case_bool_decide as Hl; [cbn [negb]|done].
  destruct (find_ancestor _ _ 0) as [i|] eqn:Hf; [|done].
  destruct (current !! i) as [a|] eqn:Hi; [|done]. intros H.
  apply assemble_loop_spec in H as (-> & H1 & H2); [|done]. eauto 6.
Qed.
End ReplacementClaims.

(** ** Witnesses *)

Lemma replacement_needs_more_work_witness :
  exists r, validate_and_rebuild_chain (ssl := Toy.ssl) sample_chain = Ok (Some r) /\
    work [sample_genesis; chain_block1] < work sample_chain.
Proof.
  assert (validate_and_rebuild_chain (ssl := Toy.ssl) [sample_genesis; chain_block1]
          = Ok (Some sample_result1)) as Hcur by (apply rebuild_valid_chain, sample_chain1_valid).
  destruct (replacement_needs_more_work (ssl := Toy.ssl) [sample_genesis; chain_block1] sample_chain
    (mkPlan sample_chain (utxo sample_result)) sample_result1 Hcur) as [H _]; [decide_vm..|].
  destruct H as (r & H1 & H2 & _); [|exists r; exact (conj H1 H2)].
  apply (prepare_spec (ssl := Toy.ssl) _ _ _ sample_result1 sample_chain1_valid); [decide_vm..|].
  exists sample_result. split_and!; [|decide_vm|reflexivity|reflexivity].
  apply rebuild_valid_chain, sample_chain_valid.
Defined.

Lemma assembled_candidate_links_witness :
  exists i ancestor, [sample_genesis] !! i = Some ancestor /\
    sample_chain = take (S i) [sample_genesis] ++ [chain_block1; chain_block2].
Proof.
  destruct (assembled_candidate_links (ssl := Toy.ssl) [sample_genesis]
    [header chain_block1; header chain_block2] [chain_block1; chain_block2] sample_chain)
    as (i & a & H1 & H2 & _); [decide_vm|]. exists i, a. exact (conj H1 H2).
Defined.
