(* ===== verification/MempoolReorg.v ===== *)
(** mempool_reorg.hpp: revalidation of the pool against a new canonical chain. *)

From S2P Require Import Prelude Serialization Crypto Transaction UTXO Ownership Coinbase.
From S2P Require Import Consensus Block ChainValidator Mempool.
From stdpp Require Import options.
Local Open Scope Z_scope.

Section Reorg.
Context {ssl : OpenSSL} {iter : UnorderedMap}.

(** The locals of the reinsertion loop. *)
Record reinsertion := mkReinsertion {
  re_pool : Mempool;
  re_pending : gset Hash256;
  re_progress : bool
}.

(** One [for (tx : snapshot)] pass. *)
Definition reinsert_step (new_utxos : UTXOSet) (s : reinsertion) (tx : Transaction)
    : result reinsertion :=
  id ← txid tx;
  if negb (bool_decide (id ∈ re_pending s)) then Ok s
  else if existsb (fun i => bool_decide (previous_txid i ∈ re_pending s)) (inputs tx) then Ok s
  else
    '(_, pool) ← mempool_accept (re_pool s) tx new_utxos;
    Ok (mkReinsertion pool (re_pending s ∖ {[id]}) true).

(** [while (progress && !pending.empty())] *)
Fixpoint reinsert_loop (fuel : nat) (snapshot : list Transaction) (new_utxos : UTXOSet)
    (s : reinsertion) : result Mempool :=
  if negb (re_progress s) || bool_decide (re_pending s = ∅) then Ok (re_pool s)
  else
    match fuel with
    | O => Ok (re_pool s)
    | S fuel =>
        s ← foldM_r (reinsert_step new_utxos)
              (mkReinsertion (re_pool s) (re_pending s) false) snapshot;
        reinsert_loop fuel snapshot new_utxos s
    end.

Definition revalidate_mempool_after_reorg (mempool : Mempool) (new_chain : list Block)
    : result Mempool :=
  if mempool_size mempool =? 0 then Ok mempool
  else
    let snapshot := (iteration (transactions_ mempool)).*2 in
    let mempool := mempool_clear mempool in
    if bool_decide (snapshot = []) then Ok mempool
    else
      match rebuild_utxo_set new_chain with
      | Throw _ => Ok mempool
      | Ok new_utxos =>
          ids ← mapM_r txid snapshot;
          reinsert_loop (S (length snapshot)) snapshot new_utxos
            (mkReinsertion mempool (list_to_set ids) true)
      end.
End Reorg.

(** ** The revalidated pool *)

Section ReorgFacts.
Context {ssl : OpenSSL} {iter : UnorderedMap}.
Implicit Types (u : UTXOSet) (mp : Mempool).

(** [tx] cannot be admitted over [u] by a pool with ids in [ids]. *)
Definition unresolved u (ids : gset Hash256) (tx : Transaction) : Prop :=
  Exists (fun i => u !! point i = None /\ previous_txid i ∉ ids) (inputs tx).

(** Its id is new to the chain, or it cannot be admitted again (it is already
    confirmed, so that an input of it is gone). *)
Definition readmissible u ids (tx : Transaction) : Prop :=
  (forall q, is_Some (u !! q) -> txid tx <> Ok (op_txid q)) \/ unresolved u ids tx.

Lemma unresolved_rejected u mp tx mp' :
  pool_inv u mp -> unresolved u (dom (transactions_ mp)) tx ->
  mempool_accept mp tx u <> Ok (None_, mp').
Proof.
  intros Hinv Hun (id & bs & w & _ & _ & _ & _ & _ & _ & _ & Heff & Hval & _)%mempool_accept_inv.
  pose proof (pi_connectable _ _ Hinv) as Hc.
  destruct (build_effective_utxo_spec u mp Hc) as (l & w' & _ & Hl & Ha & Hw').
  rewrite Heff in Hw'. injection Hw' as <-.
  destruct (validate_against_utxo_available _ _ Hval) as [_ Hav].
  apply Exists_exists in Hun as (i & Hi & Hu & Hd). rewrite Forall_forall in Hav.
  destruct (Hav i Hi) as [o Ho].
  destruct (effective_lookup _ _ _ _ _ _ Hc Hl Ha Ho) as [([id' tx'] & He & Hoe)|]; [|congruence].
  assert (creates (id', tx') (point i)) as [E _] by (apply creates_output_at; eauto).
  apply elem_of_map_to_list in He. apply Hd. simpl in E. rewrite E. by apply elem_of_dom_2 in He.
Qed.

Lemma accept_readmissible u mp tx pool reason mp' id :
  pool_inv u mp -> transactions_ mp ⊆ pool -> readmissible u (dom pool) tx ->
  txid tx = Ok id -> pool !! id = Some tx ->
  mempool_accept mp tx u = Ok (reason, mp') -> pool_inv u mp' /\ transactions_ mp' ⊆ pool.
Proof.
  intros Hinv Hsub Hr Hid Hin H. destruct (decide (reason = None_)) as [->|Hne].
  2: { by rewrite (mempool_accept_rejected _ _ _ _ _ H Hne). }
  split.
  - destruct Hr as [Hfr|Hun]; [by eapply mempool_accept_preserves|]. exfalso.
    eapply unresolved_rejected; [exact Hinv| |exact H].
    eapply Exists_impl; [exact Hun|]. intros i [? Hd]. split; [done|].
    apply subseteq_dom in Hsub. set_solver.
  - apply mempool_accept_inv in H as (id' & bs & w & Hid' & H). destruct_and!. simplify_eq.
    assert (id' = id) as -> by congruence. by apply insert_subseteq_l.
Qed.

(** Admission of a transaction within the limits returns a verdict. *)
Lemma accept_returns u mp tx :
  pool_inv u mp -> tx_full_ok tx -> returns (mempool_accept mp tx u).
Proof.
  intros Hinv Hok. pose proof Hok as [Hb _]. unfold mempool_accept.
  apply returns_bind; [by apply txid_returns|]. intros id _.
  do 2 (apply returns_if; auto with caesar; intros _).
  rewrite tx_serialize_full_encode by done. cbn [mbind result_bind].
  do 3 (apply returns_if; auto with caesar; intros _).
  destruct (build_effective_utxo_spec u mp (pi_connectable _ _ Hinv)) as (l & w & _ & _ & _ & ->).
  cbn [mbind result_bind]. apply returns_if; auto with caesar. intros _.
  apply returns_bind; [by apply validate_witness_returns|]. intros [] _; apply returns_Ok.
Qed.

Implicit Types pool : gmap Hash256 Transaction.

Definition re_inv u pool (s : reinsertion) : Prop :=
  pool_inv u (re_pool s) /\ transactions_ (re_pool s) ⊆ pool.

Definition re_candidate u pool (tx : Transaction) : Prop :=
  tx_full_ok tx /\ readmissible u (dom pool) tx /\
  exists id, txid tx = Ok id /\ pool !! id = Some tx.

Lemma reinsert_step_spec u pool tx s :
  re_candidate u pool tx -> re_inv u pool s ->
  exists s', reinsert_step u s tx = Ok s' /\ re_inv u pool s'.
Proof.
  intros (Hok & Hr & id & Hid & Hin) Hs. unfold reinsert_step. rewrite Hid. simpl.
  case_bool_decide; simpl; [|eauto]. destruct (existsb _ _); [eauto|].
  destruct Hs as [Hinv Hd]. destruct (accept_returns u (re_pool s) tx Hinv Hok) as [[reason mp'] E].
  rewrite E. simpl. eexists. split; [done|]. by eapply accept_readmissible.
Qed.

Lemma reinsert_pass u pool snapshot s :
  Forall (re_candidate u pool) snapshot -> re_inv u pool s ->
  exists s', foldM_r (reinsert_step u) s snapshot = Ok s' /\ re_inv u pool s'.
Proof.
  intros H. revert s. induction H as [|tx l Htx H IH]; intros s Hs; cbn [foldM_r]; [eauto|].
  destruct (reinsert_step_spec u pool tx s Htx Hs) as (s' & -> & Hs'). by apply IH.
Qed.

Lemma reinsert_loop_inv u pool snapshot fuel s :
  Forall (re_candidate u pool) snapshot -> re_inv u pool s ->
  exists mp', reinsert_loop fuel snapshot u s = Ok mp' /\ pool_inv u mp' /\
    transactions_ mp' ⊆ pool.
Proof.
  intros Hf. revert s. induction fuel as [|fuel IH]; intros s Hs; simpl;
    destruct (_ || _); try (destruct Hs; by eauto).
  destruct (reinsert_pass u pool snapshot (mkReinsertion (re_pool s) (re_pending s) false) Hf)
    as (s' & -> & Hs'); [exact Hs|]. simpl. by apply IH.
Qed.

Lemma revalidate_spec mp c r :
  valid_chain c r -> transactions_ mp <> ∅ -> keyed (transactions_ mp) ->
  map_Forall (fun _ tx => tx_full_ok tx /\
                readmissible (utxo r) (dom (transactions_ mp)) tx) (transactions_ mp) ->
  exists mp', revalidate_mempool_after_reorg mp c = Ok mp' /\ pool_inv (utxo r) mp' /\
    transactions_ mp' ⊆ transactions_ mp.
Proof.
  intros Hc Hne Hk Hall. unfold revalidate_mempool_after_reorg, mempool_size.
  destruct (_ =? 0) eqn:E0; zbool.
  { exfalso. apply Hne, map_size_empty_inv. lia. }
  case_bool_decide; [exists (mempool_clear mp); split_and!; [done|apply pool_inv_empty|apply map_empty_subseteq]|].
  assert (rebuild_utxo_set c = Ok (utxo r)) as ->.
  { unfold rebuild_utxo_set. apply rebuild_valid_chain in Hc. by rewrite Hc. }
  assert (Forall (fun tx => exists id, transactions_ mp !! id = Some tx)
    (iteration (transactions_ mp)).*2) as Hsnap.
  { apply Forall_forall. intros tx ([id tx'] & -> & Hin)%list_elem_of_fmap.
    rewrite iteration_perm in Hin. apply elem_of_map_to_list in Hin. eauto. }
  destruct (returns_mapM_r txid (iteration (transactions_ mp)).*2) as [ids ->].
  { eapply Forall_impl; [exact Hsnap|]. intros tx [id Hid]. exists id. by apply Hk. }
  cbn [mbind result_bind]. apply reinsert_loop_inv.
  - eapply Forall_impl; [exact Hsnap|]. intros tx [id Hid].
    destruct (Hall id tx Hid) as [? ?]. split_and!; [done..|].
    exists id. split; [by apply Hk|done].
  - split; simpl; [apply pool_inv_empty|apply map_empty_subseteq].
Qed.
End ReorgFacts.

(** Every pass that makes progress settles an id, so the fuel is enough: more
    of it changes nothing. *)
Section ReorgFuel.
Context {ssl : OpenSSL}.

Lemma reinsert_pass_shrinks u l s s' :
  foldM_r (reinsert_step u) s l = Ok s' ->
  re_pending s' ⊆ re_pending s /\
  (re_progress s' = true -> re_progress s = true \/ (size (re_pending s') < size (re_pending s))%nat).
Proof.
  revert s. induction l as [|tx l IH]; intros s; cbn [foldM_r]; [intros [= <-]; auto|].
  intros (s1 & H1 & (Hsub & Hpr)%IH)%bind_Ok. unfold reinsert_step in H1.
  apply bind_Ok in H1 as (id & _ & H1). case_bool_decide as Hin; simpl in H1.
  2: { injection H1 as ->. auto. }
  destruct (existsb _ _); [injection H1 as ->; auto|].
  apply bind_Ok in H1 as ([? pool] & _ & [= <-]). simpl in *. split; [set_solver|].
  intros _. right. apply subset_size. set_solver.
Qed.

Lemma reinsert_loop_fuel u l fuel1 fuel2 s :
  (size (re_pending s) < fuel1)%nat -> (size (re_pending s) < fuel2)%nat ->
  reinsert_loop fuel1 l u s = reinsert_loop fuel2 l u s.
Proof.
  revert fuel2 s. induction fuel1 as [|f1 IH]; intros [|f2] s H1 H2; try lia. cbn [reinsert_loop].
  destruct (_ || _); [done|].
  destruct (foldM_r _ _ l) as [s'|] eqn:E; cbn [mbind result_bind]; [|done].
  apply reinsert_pass_shrinks in E as [_ Hpr]. simpl in Hpr.
  destruct (re_progress s') eqn:Ep.
  - destruct (Hpr eq_refl) as [|Hlt]; [done|]. apply IH; lia.
  - destruct f1, f2; cbn [reinsert_loop]; by rewrite Ep.
Qed.
End ReorgFuel.

(** ** Claims *)

(** C37: after a chain replacement the pool is consistent again: revalidation
    of a pool that is not empty and files its well-formed transactions under
    their ids, against a valid chain, returns, without exceptions, a pool that
    satisfies the full invariant over the new set of unspent outputs and holds
    only transactions it held before. It is assumed of each pooled transaction
    that its id is the id of no unspent output of the new chain, or that an
    input of it is neither unspent there nor pooled, as after its confirmation:
    coinbase ids can repeat, and a confirmed transaction whose input came back
    that way would be admitted again. *)
Theorem revalidated_pool_consistent {ssl : OpenSSL} {iter : UnorderedMap} mp c r :
  validate_and_rebuild_chain c = Ok (Some r) ->
  transactions_ mp <> ∅ -> keyed (transactions_ mp) ->
  map_Forall (fun _ tx => tx_full_ok tx /\
                readmissible (utxo r) (dom (transactions_ mp)) tx) (transactions_ mp) ->
  exists mp', revalidate_mempool_after_reorg mp c = Ok mp' /\ pool_inv (utxo r) mp' /\
    transactions_ mp' ⊆ transactions_ mp.
Proof. intros H%rebuild_valid_chain. by apply revalidate_spec. Qed.

(** The pool that held the spend of the first coinbase, over the chain that
    already confirms it. *)
Lemma revalidated_pool_consistent_witness :
  exists mp', revalidate_mempool_after_reorg (ssl := Toy.ssl) (iter := listed)
      (mkMempool {[toy_txid chain_spend := chain_spend]} {[spent_point]} (tx_size chain_spend))
      sample_chain = Ok mp' /\
    pool_inv (ssl := Toy.ssl) (utxo sample_result) mp'.
Proof.
  destruct (revalidated_pool_consistent (ssl := Toy.ssl) (iter := listed)
    (mkMempool {[toy_txid chain_spend := chain_spend]} {[spent_point]} (tx_size chain_spend))
    sample_chain sample_result sample_chain_valid) as (mp' & H1 & H2 & _).
  - decide_vm.
  - apply map_Forall_singleton. decide_vm.
  - apply map_Forall_singleton. split; [decide_vm|]. right. left. split; decide_vm.
  - exists mp'. exact (conj H1 H2).
Defined.
