(* ===== verification/Storage.v ===== *)
(** blockchain_storage.hpp: the chain file, its checksummed blocks, and the
    write-then-rename replacement. The file system is a [Disk] with the two
    names the class uses; every call of a save can fail, as [Faults] says, and
    the reads of a load on the way, as [load_until] says. *)

From S2P Require Import Prelude Serialization Crypto Transaction UTXO Ownership Coinbase.
From S2P Require Import Consensus Block NetworkParams ChainValidator.
From stdpp Require Import options.
Local Open Scope Z_scope.

Record Disk := mkDisk {
  canonical : option bytes; (* path_ *)
  temp : option bytes (* path_ + ".tmp" *)
}.

(** Which system calls of one [save] fail, and what a failed write leaves in
    the temporary file. *)
Record Faults := mkFaults {
  open_fails : bool;
  write_fails : bool;
  fsync_fails : bool;
  rename_fails : bool;
  fsync_dir_fails : bool;
  leftover : bytes
}.
Definition no_faults : Faults := mkFaults false false false false false [].

Definition MAGIC : Z := 0x435A5231.
Definition FORMAT_VERSION : Z := 1.
Definition MAX_BLOCKS : Z := 10000000.
Definition MAX_BLOCK_BYTES : Z := 16 * 1024 * 1024.

Definition storage_exists (d : Disk) : bool := bool_decide (is_Some (canonical d)).

(** The exception of a short read, whatever the reader's own. *)
Definition failing {A} (e : string) (p : parser A) : parser A := fun r =>
  match p r with Ok x => Ok x | Throw _ => Throw e end.
Definition stream_u32 : parser Z := failing "unexpected end of blockchain storage" read_u32.
Definition stream_u64 : parser Z := failing "unexpected end of blockchain storage" read_u64.

Section Storage.
Context {ssl : OpenSSL}.

Definition write_block (out : bytes) (block : Block) : result bytes :=
  data ← block_serialize_full_binary block;
  throw_if (bool_decide (data = []) || (MAX_BLOCK_BYTES <? sizeZ data))
    "block exceeds storage size limit" ;;
  throw_if (UINT32_MAX <? sizeZ data) "block is too large for storage format" ;;
  let checksum := sha256 (bytes_to_binary_string data) in
  Ok (write_hash checksum (write_bytes data (write_u32 (u32 (sizeZ data)) out))).

Definition read_block : parser Block :=
  size ← stream_u32;
  _ ← reject_if ((size =? 0) || (MAX_BLOCK_BYTES <? size)) "invalid stored block size";
  data ← failing "truncated stored block" (read_bytes (Z.to_nat size));
  stored_checksum ← failing "truncated stored block checksum" read_hash_block;
  let actual_checksum := sha256 (bytes_to_binary_string data) in
  _ ← reject_if (negb (hash_eqb stored_checksum actual_checksum)) "stored block checksum mismatch";
  lift (block_deserialize_full data).

(** What [save] writes to the stream. *)
Definition write_storage (chain : list Block) : result bytes :=
  let out := write_u64 (u64 (sizeZ chain)) (write_u32 FORMAT_VERSION (write_u32 MAGIC [])) in
  foldM_r write_block out chain.

Definition save (f : Faults) (d : Disk) (chain : list Block) : result unit * Disk :=
  if bool_decide (chain = []) then (Throw "cannot save empty blockchain", d)
  else
    match validate_candidate_chain chain with
    | Throw e => (Throw e, d)
    | Ok false => (Throw "refusing to save invalid blockchain", d)
    | Ok true =>
        if open_fails f then (Throw "failed to create blockchain storage", d)
        else
          match write_storage chain with
          | Throw e => (Throw e, mkDisk (canonical d) (Some (leftover f)))
          | Ok out =>
              if write_fails f
              then (Throw "failed while writing blockchain storage",
                    mkDisk (canonical d) (Some (leftover f)))
              else if fsync_fails f
              then (Throw "fsync failed", mkDisk (canonical d) (Some out))
              else if rename_fails f
              then (Throw "failed to atomically replace blockchain storage",
                    mkDisk (canonical d) None)
              else if fsync_dir_fails f
              then (Throw "fsync dir failed", mkDisk (Some out) None)
              else (Ok tt, mkDisk (Some out) None)
          end
    end.

Definition replace (f : Faults) (d : Disk) (chain : list Block) : result unit * Disk :=
  save f d chain.

Definition read_storage : parser (list Block) :=
  magic ← stream_u32;
  version ← stream_u32;
  count ← stream_u64;
  _ ← reject_if (negb (magic =? MAGIC)) "invalid blockchain storage magic";
  _ ← reject_if (negb (version =? FORMAT_VERSION)) "unsupported blockchain storage version";
  _ ← reject_if ((count =? 0) || (MAX_BLOCKS <? count)) "invalid blockchain block count";
  read_n (Z.to_nat count) read_block.

Definition load (d : Disk) : result (list Block) :=
  match canonical d with
  | None => Throw "failed to open blockchain storage"
  | Some data =>
      chain ← run (whole read_storage "trailing bytes after blockchain storage") data;
      ok ← validate_candidate_chain chain;
      throw_if (negb ok) "stored blockchain failed canonical validation" ;;
      Ok chain
  end.

(** An error of the device after [k] bytes: to the stream's reader it is the
    end of the file. *)
Definition load_until (k : nat) (d : Disk) : result (list Block) :=
  load (mkDisk (take k <$> canonical d) (temp d)).

(** The checks of [append] on a block that is not the first. *)
Definition append_check (block : Block) (chain : list Block) : result unit :=
  match last chain with
  | None =>
      ok ← validate_basic block;
      throw_if (negb ok) "cannot store invalid first block"
  | Some previous =>
      throw_if (negb (height (header block) =? u64 (height (header previous) + 1)))
        "block height does not extend stored blockchain" ;;
      throw_if (negb (hash_eqb (previous_hash (header block)) (block_hash previous)))
        "block previous hash does not match stored tip" ;;
      throw_if (timestamp (header block) <? timestamp (header previous))
        "block timestamp is before stored tip" ;;
      throw_if (negb (Bool.eqb (block_validate_pow block) (block_validate_pow block)))
        "PoW changed after append checks" ;;
      if sizeZ chain <? CZR_DIFFICULTY_WINDOW + 1 then
        throw_if (negb (difficulty (header block) =? expected_next_difficulty chain))
          "block difficulty does not match bootstrap rule" ;;
        ok ← validate_basic block;
        if (ok : bool) then Ok tt
        else
          _ ← validate_merkle_root block;
          _ ← validate_witness_root block;
          Throw "block basic validation failed"
      else
        previous_utxos ← rebuild_utxo_set chain;
        ok ← validate_block_consensus block chain previous_utxos;
        throw_if (negb ok) "block consensus validation failed"
  end.

Definition append (f : Faults) (d : Disk) (block : Block) : result unit * Disk :=
  match (if storage_exists d then load d else Ok []) with
  | Throw e => (Throw e, d)
  | Ok chain =>
      if negb (Bool.eqb (block_validate_pow block) (block_validate_pow block))
      then (Throw "PoW changed across storage load", d)
      else
        match append_check block chain with
        | Throw e => (Throw e, d)
        | Ok _ => save f d (chain ++ [block])
        end
  end.
End Storage.

(** ** The file format *)

Definition enc_stored_block {ssl : OpenSSL} (b : Block) : bytes :=
  enc_string (enc_block b) ++ hash_bytes (sha256 (enc_block b)).
Definition enc_storage {ssl : OpenSSL} (chain : list Block) : bytes :=
  le_encode 4 MAGIC ++ le_encode 4 FORMAT_VERSION ++ le_encode 8 (sizeZ chain) ++
  mjoin (enc_stored_block <$> chain).

(** What [load] can read back. *)
Definition storable_block (b : Block) : Prop :=
  block_full_ok b /\ sizeZ (enc_block b) <= MAX_BLOCK_BYTES.
Definition storable (chain : list Block) : Prop :=
  Forall storable_block chain /\ 0 < sizeZ chain <= MAX_BLOCKS.
#[global] Instance storable_block_dec b : Decision (storable_block b) :=
  ltac:(unfold storable_block; apply _).
#[global] Instance storable_dec c : Decision (storable c) := ltac:(unfold storable; apply _).

(** What arrives decoded; a block may still be too large to be written. *)
Definition readable_chain (chain : list Block) : Prop :=
  Forall block_full_ok chain /\ 0 < sizeZ chain <= MAX_BLOCKS.
Lemma storable_readable c : storable c -> readable_chain c.
Proof. intros [H ?]. split; [|done]. eapply Forall_impl; [exact H|]. by intros b []. Qed.

Lemma failing_codec {A} e (p : parser A) enc ok : Codec p enc ok -> Codec (failing e p) enc ok.
Proof.
  intros [C S]. split.
  - intros r a tl Hwf Ha Hr. destruct (C r a tl Hwf Ha Hr) as (r' & E & H).
    exists r'. split; [|done]. unfold failing. by rewrite E.
  - intros r a r' Hwf H. unfold failing in H. destruct (p r) as [x|] eqn:E; [|done].
    injection H as ->. by apply S.
Qed.
#[global] Instance stream_u32_codec : Codec stream_u32 (le_encode 4) is_u32.
Proof. apply failing_codec, _. Qed.
#[global] Instance stream_u64_codec : Codec stream_u64 (le_encode 8) is_u64.
Proof. apply failing_codec, _. Qed.

Lemma enc_block_length b : 132 <= sizeZ (enc_block b).
Proof.
  unfold enc_block. rewrite !sizeZ_app, enc_header_length. unfold sizeZ at 1.
  rewrite le_encode_length. pose proof (sizeZ_nonneg (mjoin ((fun tx => enc_string (enc_tx_full tx)) <$> transactions b))). lia.
Qed.

Lemma block_deserialize_full_spec bs b :
  block_deserialize_full bs = Ok b <-> block_full_ok b /\ bs = enc_block b.
Proof.
  split.
  - apply (run_whole_sound _ _ _ _ _ _ block_codec).
  - intros [H ->]. by apply (run_whole_complete _ _ _ _ _ block_codec).
Qed.

Section Format.
Context {ssl : OpenSSL}.

#[export] Instance read_block_codec : Codec read_block enc_stored_block storable_block.
Proof.
  eapply codec_enc_ext.
  - refine (codec_step _ _ _ (fun b => sizeZ (enc_block b)) _ _ _ stream_u32_codec _ _).
    { intros b [_ Hs]. pose proof (enc_block_length b). unfold MAX_BLOCK_BYTES in Hs. ints. }
    intros size Hsize. apply codec_reject.
    { intros b [[_ Hs] <-]. pose proof (enc_block_length b). apply orb_false_iff. zbool. lia. }
    intros Hrej. refine (codec_step _ _ _ enc_block _ _ _ (failing_codec _ _ _ _ (read_bytes_codec _)) _ _).
    { intros b [_ <-]. unfold sizeZ. lia. }
    intros data Hdata.
    refine (codec_step _ _ _ (fun b => sha256 (enc_block b)) _ _ _ (failing_codec _ _ _ _ read_hash_block_codec) _ _).
    { done. }
    intros checksum _. apply codec_reject.
    { intros b [[_ <-] <-]. apply negb_false_iff, bool_decide_eq_true. done. }
    intros Hc. apply codec_lift. intros b. rewrite block_deserialize_full_spec.
    unfold storable_block, hash_eqb in *. result_inv. unfold bytes_to_binary_string.
    split; [intuition congruence|]. intros [Hb ->]. zbool.
    assert (sizeZ (enc_block b) = size) by (unfold sizeZ in *; ints). split_and!; try done. lia.
  - intros b _. unfold enc_stored_block, enc_string. cbn beta. by rewrite app_nil_r, <- app_assoc.
Qed.

#[export] Instance read_storage_codec : Codec read_storage enc_storage storable.
Proof.
  eapply codec_ext with (ok := fun c => storable c).
  - refine (codec_step _ _ _ (fun _ => MAGIC) _ _ _ stream_u32_codec _ _); [intros; by vm_compute|].
    intros m _. refine (codec_step _ _ _ (fun _ => FORMAT_VERSION) _ _ _ stream_u32_codec _ _);
      [intros; by vm_compute|].
    intros v _. refine (codec_step _ _ _ (fun c => sizeZ c) _ _ _ stream_u64_codec _ _).
    { intros c [[[_ H] _] _]. unfold MAX_BLOCKS in H. ints. }
    intros n Hn. apply codec_reject; [intros c [[[_ <-] _] _]; done|]. intros Hm.
    apply codec_reject; [intros c [[[_ _] <-] _]; done|]. intros Hv.
    apply codec_reject.
    { intros c [[[[_ H] _] _] <-]. apply orb_false_iff. zbool. lia. }
    intros Hr. eapply codec_ext; [apply read_n_codec, read_block_codec| |by intros].
    intros c. unfold storable, sizeZ in *. result_inv. zbool. subst. split.
    + intros [[[[? ?] ?] ?] ?]. split; [done|lia].
    + intros [? ?]. split_and!; try done; unfold_ints; lia.
  - done.
  - intros c _. unfold enc_storage. done.
Qed.

Lemma write_block_encode out b :
  Forall (fun tx => tx_full_ok tx /\ sizeZ (enc_tx_full tx) <= UINT32_MAX) (transactions b) ->
  sizeZ (transactions b) <= UINT32_MAX -> sizeZ (enc_block b) <= MAX_BLOCK_BYTES ->
  write_block out b = Ok (out ++ enc_stored_block b).
Proof.
  intros Ht Hn Hs. unfold write_block, throw_if. rewrite block_serialize_encode by done.
  cbn [mbind result_bind]. pose proof (enc_block_length b) as Hl.
  rewrite bool_decide_eq_false_2 by (intros E; rewrite E in Hl; unfold sizeZ in Hl; simpl in Hl; lia).
  rewrite (proj2 (Z.ltb_ge MAX_BLOCK_BYTES _)) by done. cbn [orb mbind result_bind].
  rewrite (proj2 (Z.ltb_ge UINT32_MAX _)) by (unfold MAX_BLOCK_BYTES in Hs; ints).
  cbn [mbind result_bind]. rewrite sizeZ_u32 by (unfold MAX_BLOCK_BYTES in Hs; ints).
  autorewrite with writer. unfold write_bytes, enc_stored_block, enc_string, bytes_to_binary_string.
  by rewrite <- !app_assoc.
Qed.

Lemma write_storage_encode c :
  Forall (fun b => Forall (fun tx => tx_full_ok tx /\ sizeZ (enc_tx_full tx) <= UINT32_MAX) (transactions b) /\
    sizeZ (transactions b) <= UINT32_MAX /\ sizeZ (enc_block b) <= MAX_BLOCK_BYTES) c ->
  sizeZ c <= UINT64_MAX -> write_storage c = Ok (enc_storage c).
Proof.
  intros Hc Hs. unfold write_storage. rewrite (foldM_write _ enc_stored_block).
  - autorewrite with writer. rewrite u64_small by (pose proof (sizeZ_nonneg c); ints).
    unfold enc_storage. by rewrite <- !app_assoc, app_nil_l.
  - eapply Forall_impl; [exact Hc|]. intros b (? & ? & ?) w. by apply write_block_encode.
Qed.

Lemma storable_write c : storable c -> write_storage c = Ok (enc_storage c).
Proof.
  intros [Hc Hs]. apply write_storage_encode; [|unfold MAX_BLOCKS in Hs; ints].
  eapply Forall_impl; [exact Hc|]. intros b [(_ & Ht & Hn) Hl]. split; [|split; [ints|done]].
  eapply Forall_impl; [exact Ht|]. intros tx [? ?]. split; [done|ints].
Qed.
End Format.

(** ** Saving and loading *)

Section SaveLoad.
Context {ssl : OpenSSL}.
Implicit Types (c : list Block) (d : Disk).

Lemma load_spec d c :
  load d = Ok c <->
  canonical d = Some (enc_storage c) /\ storable c /\ validate_candidate_chain c = Ok true.
Proof.
  unfold load. split.
  - destruct (canonical d) as [data|]; [|done].
    intros (c' & Hr & H)%bind_Ok. apply bind_Ok in H as (ok & Hv & H). unfold throw_if in H.
    destruct ok; simpl in H; [|done]. injection H as ->.
    by apply (run_whole_sound _ enc_storage storable) in Hr as [Hs ->]; [|apply _].
  - intros (-> & Hs & Hv).
    rewrite (run_whole_complete _ enc_storage storable) by (done || apply _).
    cbn [mbind result_bind]. by rewrite Hv.
Qed.

(** A read that fails on the way gives an exception, or the chain itself when
    the file had been read to its last byte, never another chain. *)
Lemma load_read_error k d c c' : load d = Ok c -> load_until k d = Ok c' -> c' = c.
Proof.
  intros (Hd & Hs & _)%load_spec H. unfold load_until in H. apply load_spec in H as (Hd' & Hs' & _).
  rewrite Hd in Hd'. injection Hd' as E.
  refine (eq_sym (codec_prefix read_storage enc_storage storable c c' (drop k (enc_storage c)) _ Hs Hs' _)).
  by rewrite <- E, take_drop.
Qed.

(** Whatever fails, the canonical file is the old one or the complete new one. *)
Lemma save_canonical f d c r d' :
  save f d c = (r, d') ->
  (canonical d' = canonical d /\ r <> Ok tt) \/
  (validate_candidate_chain c = Ok true /\
   exists out, write_storage c = Ok out /\ canonical d' = Some out).
Proof.
  unfold save. case_bool_decide; [intros [= <- <-]; by left|].
  destruct (validate_candidate_chain c) as [[]|]; [|intros [= <- <-]; by left..].
  destruct (open_fails f); [intros [= <- <-]; by left|].
  destruct (write_storage c) as [out|]; [|intros [= <- <-]; by left].
  destruct (write_fails f); [intros [= <- <-]; by left|].
  destruct (fsync_fails f); [intros [= <- <-]; by left|].
  destruct (rename_fails f); [intros [= <- <-]; by left|].
  destruct (fsync_dir_fails f); intros [= <- <-]; right; eauto.
Qed.

Lemma save_storable d c :
  storable c -> validate_candidate_chain c = Ok true ->
  save no_faults d c = (Ok tt, mkDisk (Some (enc_storage c)) None).
Proof.
  intros Hs Hv. unfold save. rewrite bool_decide_eq_false_2.
  - by rewrite Hv, storable_write.
  - intros ->. destruct Hs as [_ Hs]. unfold sizeZ in Hs. simpl in Hs. lia.
Qed.

(** A save that reports success can be loaded again when the chain is within
    what the format can hold. *)
Lemma save_load f d c d' :
  storable c -> save f d c = (Ok tt, d') -> load d' = Ok c.
Proof.
  intros Hs H. apply save_canonical in H as [[_ ?]|(Hv & out & Hw & Hc)]; [done|].
  rewrite storable_write in Hw by done. injection Hw as <-. by apply load_spec.
Qed.

(** *** Chains of decodable blocks *)

(** The writer refuses a block above the reader's limit. *)
Lemma write_block_limits out b out' :
  block_full_ok b -> write_block out b = Ok out' -> storable_block b.
Proof.
  intros Hb. split; [done|]. revert H. unfold write_block. destruct Hb as (_ & Ht & Hn).
  rewrite block_serialize_encode.
  - unfold throw_if. cbn [mbind result_bind]. destruct (MAX_BLOCK_BYTES <? _) eqn:E; [|by zbool].
    by rewrite orb_true_r.
  - ints.
  - eapply Forall_impl; [exact Ht|]. intros tx [? ?]. split; [done|ints].
Qed.

Lemma write_blocks_limits c out out' :
  Forall block_full_ok c -> foldM_r write_block out c = Ok out' -> Forall storable_block c.
Proof.
  intros H. revert out. induction H as [|b c Hb Hc IH]; intros out; [constructor|].
  cbn [foldM_r]. intros (w & Hw & Hr)%bind_Ok. constructor; [by eapply write_block_limits|by eapply IH].
Qed.

(** With any faults, and whatever the size of its blocks, a save leaves a file
    that loads as the old chain or as the new one; it is the new one without a
    reported success only when the directory sync fails. *)
Lemma save_outcomes f d c r d' :
  readable_chain c -> save f d c = (r, d') ->
  (r = Ok tt /\ load d' = Ok c) \/ (r <> Ok tt /\ load d' = load d) \/
  (r <> Ok tt /\ fsync_dir_fails f = true /\ load d' = Ok c).
Proof.
  intros [Hb Hn] H. unfold save in H.
  assert (forall d1, canonical d1 = canonical d -> load d1 = load d) as Hold
    by (intros d1 E; unfold load; by rewrite E).
  case_bool_decide; [injection H as <- <-; auto|].
  destruct (validate_candidate_chain c) as [[]|] eqn:Hv; [|injection H as <- <-; auto..].
  destruct (open_fails f); [injection H as <- <-; auto|].
  destruct (write_storage c) as [out|] eqn:Hw; [|injection H as <- <-; auto].
  destruct (write_fails f); [injection H as <- <-; auto|].
  destruct (fsync_fails f); [injection H as <- <-; auto|].
  destruct (rename_fails f); [injection H as <- <-; auto|].
  assert (storable c) as Hs by (split; [by eapply write_blocks_limits|done]).
  rewrite storable_write in Hw by done. injection Hw as <-.
  assert (load (mkDisk (Some (enc_storage c)) None) = Ok c) as Hl by by apply load_spec.
  destruct (fsync_dir_fails f); injection H as <- <-; auto.
Qed.

Lemma append_outcomes f d c b r d' :
  load d = Ok c -> readable_chain (c ++ [b]) -> append f d b = (r, d') ->
  (r = Ok tt /\ load d' = Ok (c ++ [b])) \/ (r <> Ok tt /\ load d' = Ok c) \/
  (r <> Ok tt /\ fsync_dir_fails f = true /\ load d' = Ok (c ++ [b])).
Proof.
  intros Hl Hs. unfold append, storage_exists.
  pose proof (proj1 (load_spec d c) Hl) as (Hcan & _).
  rewrite bool_decide_eq_true_2, Hl, Bool.eqb_reflx by (rewrite Hcan; eauto). cbn [negb].
  destruct (append_check b c); [rewrite <- Hl; by apply save_outcomes|].
  intros [= <- <-]. auto.
Qed.

(** *** Appending *)

Lemma append_check_consensus c r b :
  valid_chain c r -> validate_block_consensus b c (utxo r) = Ok true -> append_check b c = Ok tt.
Proof.
  intros Hc Hb. pose proof (proj1 (validate_block_consensus_spec c r b Hc) Hb)
    as (r' & [Hbas (p & Hp & E1 & E2 & E3) Hd _ _]).
  unfold append_check. rewrite Hp, E1, E2, Z.eqb_refl. unfold hash_eqb, throw_if.
  rewrite bool_decide_eq_true_2 by done. rewrite (proj2 (Z.ltb_ge _ _) E3), Bool.eqb_reflx.
  cbn [negb mbind result_bind]. rewrite Hd, Z.eqb_refl, Hbas. cbn [negb mbind result_bind].
  destruct (_ <? _); [done|]. unfold rebuild_utxo_set.
  rewrite (proj2 (rebuild_valid_chain c r) Hc). cbn [mbind result_bind]. by rewrite Hb.
Qed.

Lemma append_spec d c r b :
  load d = Ok c -> valid_chain c r -> validate_block_consensus b c (utxo r) = Ok true ->
  storable_block b -> sizeZ c < MAX_BLOCKS ->
  exists d', append no_faults d b = (Ok tt, d') /\ load d' = Ok (c ++ [b]).
Proof.
  intros Hl Hc Hb Hsb Hlen. unfold append.
  pose proof (proj1 (load_spec d c) Hl) as (Hcan & [Hst Hlen0] & _).
  unfold storage_exists. rewrite bool_decide_eq_true_2 by (rewrite Hcan; eauto).
  rewrite Hl, Bool.eqb_reflx. cbn [negb]. rewrite (append_check_consensus c r b Hc Hb).
  assert (storable (c ++ [b])) as Hs.
  { split; [by apply Forall_app; split; [|constructor]|]. rewrite sizeZ_app.
    unfold sizeZ at 2 4. simpl. lia. }
  assert (validate_candidate_chain (c ++ [b]) = Ok true) as Hv.
  { apply (validate_block_consensus_spec c r b Hc) in Hb as [r' He].
    unfold validate_candidate_chain.
    rewrite (proj2 (rebuild_valid_chain (c ++ [b]) r') (valid_extend _ _ _ _ Hc He)). done. }
  eexists. split; [by apply save_storable|]. by apply load_spec.
Qed.

(** Success of [append], under any faults, means the stored chain was
    extended by that block into a valid chain. *)
Lemma append_success f d b d' :
  append f d b = (Ok tt, d') -> storable_block b ->
  exists c, (load d = Ok c \/ (canonical d = None /\ c = [])) /\
    validate_candidate_chain (c ++ [b]) = Ok true /\
    exists out, write_storage (c ++ [b]) = Ok out /\ canonical d' = Some out.
Proof.
  unfold append, storage_exists. intros H Hb.
  assert (exists c, (load d = Ok c \/ canonical d = None /\ c = []) /\
    save f d (c ++ [b]) = (Ok tt, d')) as (c & Hc & Hs).
  { destruct (canonical d) as [data|] eqn:E.
    - rewrite bool_decide_eq_true_2 in H by eauto. destruct (load d) as [c|]; [|done].
      exists c. destruct (negb _); [done|]. destruct (append_check b c); [|done]. auto.
    - rewrite bool_decide_eq_false_2 in H by (by intros [? ?]). exists [].
      destruct (negb _); [done|]. destruct (append_check b []); [|done]. auto. }
  exists c. split; [done|]. apply save_canonical in Hs as [[_ ?]|?]; done.
Qed.
End SaveLoad.

Definition empty_disk : Disk := mkDisk None None.

(** A genesis block, alone, is a chain that can be saved. *)
Lemma genesis_chain_storable {ssl : OpenSSL} rcpt g :
  rcpt <> [] -> sizeZ rcpt <= 1000 -> build_canonical_genesis rcpt = Ok g ->
  storable [g] /\ validate_candidate_chain [g] = Ok true /\ valid_chain [g] (mkValidation ∅ 0).
Proof.
  intros Hne Hs Hg.
  destruct (build_canonical_genesis_basic rcpt g Hne Hg) as (H1 & H2 & H3 & H4 & H5).
  assert (valid_chain [g] (mkValidation ∅ 0)) as Hv.
  { constructor. unfold validate_genesis_canonical, hash_eqb. rewrite H1, H2, H3, H5.
    by rewrite bool_decide_eq_true_2. }
  split; [|split; [|done]].
  - split; [|unfold sizeZ, MAX_BLOCKS; simpl; lia]. constructor; [|done].
    assert (sizeZ (enc_tx_full (mkTx 1 [] [] [mkOutput 1 rcpt] (mkWitnessSet []))) <= 1100) as Ht.
    { unfold enc_tx_full, enc_tx_base, enc_output, enc_string, sizeZ in *.
      cbn [outputs inputs coinbase_data witness witness_inputs tx_version amount recipient fmap
        list_fmap mjoin list_join]. rewrite !length_app, !le_encode_length. cbn [length]. lia. }
    split.
    + unfold block_full_ok. rewrite H4. split_and!; [|constructor; [|done]|by vm_compute].
      * unfold build_canonical_genesis, update_merkle_root in Hg.
        apply bind_Ok in Hg as (mr & _ & (wr & _ & [= <-])%bind_Ok). decide_vm.
      * split; [apply genesis_tx_ok; ints|lia].
    + unfold enc_block. rewrite H4, !sizeZ_app, enc_header_length.
      cbn [fmap list_fmap mjoin list_join]. unfold enc_string. rewrite !sizeZ_app.
      unfold sizeZ, MAX_BLOCK_BYTES in *. rewrite !le_encode_length. cbn [length]. lia.
  - unfold validate_candidate_chain. by rewrite (proj2 (rebuild_valid_chain [g] _) Hv).
Qed.

(** ** Claims *)

Section StorageClaims.
Context {ssl : OpenSSL}.

(** C9: saving is atomic under every failure of the file system: the
    canonical file afterwards is the untouched old one, with an exception
    reported, or the complete encoding of a validated chain. *)
Theorem save_atomic f d c r d' :
  save f d c = (r, d') ->
  (canonical d' = canonical d /\ r <> Ok tt) \/
  (validate_candidate_chain c = Ok true /\
   exists out, write_storage c = Ok out /\ canonical d' = Some out).
Proof. apply save_canonical. Qed.

(** C27: what was saved is what is loaded: a validated chain whose blocks are
    within the reader's limits is written without error, and loading the file
    gives the same chain. *)
Theorem storage_roundtrip d c :
  storable c -> validate_candidate_chain c = Ok true ->
  exists d', save no_faults d c = (Ok tt, d') /\ load d' = Ok c.
Proof.
  intros Hs Hv. eexists. split; [by apply save_storable|]. by apply load_spec.
Qed.

(** A loaded chain is always fully valid, and the file is exactly its
    encoding: no other file content loads. *)
Theorem load_validates d c :
  load d = Ok c -> canonical d = Some (enc_storage c) /\ storable c /\
    exists r, validate_and_rebuild_chain c = Ok (Some r).
Proof.
  intros (H1 & H2 & H3)%load_spec. split; [done|]. split; [done|].
  unfold validate_candidate_chain in H3. apply bind_Ok in H3 as ([r|] & Hr & H); [eauto|done].
Qed.

(** Appending a block that passes the consensus check against the stored
    chain succeeds, and afterwards the chain extended by it loads. *)
Theorem append_extends d c r b :
  load d = Ok c -> validate_and_rebuild_chain c = Ok (Some r) ->
  validate_block_consensus b c (utxo r) = Ok true -> storable_block b -> sizeZ c < MAX_BLOCKS ->
  exists d', append no_faults d b = (Ok tt, d') /\ load d' = Ok (c ++ [b]).
Proof. intros Hl Hr%rebuild_valid_chain. by apply append_spec. Qed.
End StorageClaims.

(** ** Chains that can be saved but not loaded *)

(** A stream of size-prefixed items determines the items. *)
Lemma enc_string_stream_inj (g : bytes -> bytes) (l1 l2 : list bytes) :
  Forall (fun x => sizeZ x <= UINT32_MAX) l1 -> Forall (fun x => sizeZ x <= UINT32_MAX) l2 ->
  length l1 = length l2 ->
  mjoin ((fun x => enc_string x ++ g x) <$> l1) = mjoin ((fun x => enc_string x ++ g x) <$> l2) ->
  l1 = l2.
Proof.
  intros H1. revert l2. induction H1 as [|x l1 Hx H1 IH]; intros [|y l2] H2 Hl E; try done.
  apply Forall_cons in H2 as [Hy H2]. set (F := fun x => enc_string x ++ g x) in *.
  change ((enc_string x ++ g x) ++ mjoin (F <$> l1) = (enc_string y ++ g y) ++ mjoin (F <$> l2)) in E.
  unfold enc_string in E.
  rewrite <- !app_assoc in E. apply app_inj_1 in E as [Es E]; [|by rewrite !le_encode_length].
  apply (f_equal le_decode) in Es. pose proof (sizeZ_nonneg x). pose proof (sizeZ_nonneg y).
  rewrite !le_decode_encode_small in Es by (simpl; ints).
  apply app_inj_1 in E as [-> E]; [|unfold sizeZ in Es; lia]. apply app_inv_head in E.
  f_equal. apply IH; [done|simpl in Hl; lia|done].
Qed.

Lemma le_encode_inj n v1 v2 :
  0 <= v1 < 256 ^ Z.of_nat n -> 0 <= v2 < 256 ^ Z.of_nat n -> le_encode n v1 = le_encode n v2 -> v1 = v2.
Proof.
  intros H1 H2 E. apply (f_equal le_decode) in E. by rewrite !le_decode_encode_small in E.
Qed.

(** What [write_block] accepts. *)
Definition writable_block (b : Block) : Prop :=
  Forall (fun tx => tx_full_ok tx /\ sizeZ (enc_tx_full tx) <= UINT32_MAX) (transactions b) /\
  sizeZ (transactions b) <= UINT32_MAX /\ sizeZ (enc_block b) <= MAX_BLOCK_BYTES.

Lemma storable_writable b : storable_block b -> writable_block b.
Proof.
  intros [(_ & Ht & Hn) Hs]. split; [|split; [ints|done]].
  eapply Forall_impl; [exact Ht|]. intros tx [? ?]. split; [done|ints].
Qed.

Lemma enc_block_txs b1 b2 :
  writable_block b1 -> writable_block b2 -> enc_block b1 = enc_block b2 ->
  enc_tx_full <$> transactions b1 = enc_tx_full <$> transactions b2.
Proof.
  intros (T1 & N1 & _) (T2 & N2 & _) E. unfold enc_block in E.
  apply app_inj_1 in E as [_ E].
  2: { pose proof (enc_header_length (header b1)). pose proof (enc_header_length (header b2)).
       unfold sizeZ in *. lia. }
  apply app_inj_1 in E as [En E]; [|by rewrite !le_encode_length].
  pose proof (sizeZ_nonneg (transactions b1)). pose proof (sizeZ_nonneg (transactions b2)).
  apply le_encode_inj in En; [|simpl; ints..].
  apply (enc_string_stream_inj (fun _ => [])).
  - apply Forall_fmap. eapply Forall_impl; [exact T1|]. by intros tx [].
  - apply Forall_fmap. eapply Forall_impl; [exact T2|]. by intros tx [].
  - rewrite !length_fmap. unfold sizeZ in En. lia.
  - rewrite <- !list_fmap_compose. unfold compose.
    assert (forall l, mjoin ((fun tx => enc_string (enc_tx_full tx) ++ []) <$> l) =
      mjoin ((fun tx => enc_string (enc_tx_full tx)) <$> l)) as Hnil.
    { intros l. f_equal. apply list_fmap_ext. intros. apply app_nil_r. }
    by rewrite !Hnil.
Qed.

Section Unloadable.
Context {ssl : OpenSSL}.

Lemma enc_storage_inj c1 c2 :
  Forall writable_block c1 -> Forall writable_block c2 ->
  sizeZ c1 <= UINT64_MAX -> sizeZ c2 <= UINT64_MAX -> enc_storage c1 = enc_storage c2 ->
  enc_block <$> c1 = enc_block <$> c2.
Proof.
  intros W1 W2 S1 S2 E. unfold enc_storage in E.
  do 2 (apply app_inv_head in E). apply app_inj_1 in E as [En E]; [|by rewrite !le_encode_length].
  pose proof (sizeZ_nonneg c1). pose proof (sizeZ_nonneg c2).
  apply le_encode_inj in En; [|simpl; ints..].
  apply (enc_string_stream_inj (fun x => hash_bytes (sha256 x))).
  - apply Forall_fmap. eapply Forall_impl; [exact W1|]. intros b (_ & _ & H').
    unfold MAX_BLOCK_BYTES in H'. cbn. ints.
  - apply Forall_fmap. eapply Forall_impl; [exact W2|]. intros b (_ & _ & H').
    unfold MAX_BLOCK_BYTES in H'. cbn. ints.
  - rewrite !length_fmap. unfold sizeZ in En. lia.
  - rewrite <- !list_fmap_compose. exact E.
Qed.

(** The writer's limits are wider than the reader's: a validated chain
    with a transaction over 1,000,000 bytes, in blocks of at most 16 MiB, is
    saved without error, and the file can never be loaded again. *)
Theorem saved_but_not_loadable d c :
  validate_candidate_chain c = Ok true -> c <> [] -> sizeZ c <= UINT64_MAX ->
  Forall writable_block c ->
  Exists (fun b => Exists (fun tx => 1000000 < sizeZ (enc_tx_full tx)) (transactions b)) c ->
  exists d', save no_faults d c = (Ok tt, d') /\ forall c', load d' <> Ok c'.
Proof.
  intros Hv Hne Hs Hw Hbig. exists (mkDisk (Some (enc_storage c)) None). split.
  - unfold save. rewrite bool_decide_eq_false_2, Hv, write_storage_encode by done. done.
  - intros c' (E & [Hst Hlen] & _)%load_spec. cbn [canonical] in E. apply Some_inj in E.
    assert (Forall writable_block c') as Hw'
      by (eapply Forall_impl; [exact Hst|]; apply storable_writable).
    apply enc_storage_inj in E; [|done|done|done|unfold MAX_BLOCKS in Hlen; ints].
    apply Exists_exists in Hbig as (b & Hb & (tx & Htx & Hsz)%Exists_exists).
    apply list_elem_of_lookup in Hb as [i Hi].
    assert ((enc_block <$> c') !! i = Some (enc_block b)) as Hi'
      by (rewrite <- E, list_lookup_fmap, Hi; done).
    rewrite list_lookup_fmap in Hi'. destruct (c' !! i) as [b'|] eqn:Hb'; [|done].
    cbn [fmap option_fmap option_map] in Hi'. apply Some_inj in Hi' as Eb.
    assert (writable_block b) as Wb by (eapply Forall_lookup_1; [exact Hw|exact Hi]).
    assert (writable_block b') as Wb' by (eapply Forall_lookup_1; [exact Hw'|exact Hb']).
    apply enc_block_txs in Eb; [|done..].
    assert (enc_tx_full tx ∈ enc_tx_full <$> transactions b') as Hin
      by (rewrite Eb; by apply list_elem_of_fmap_2).
    apply list_elem_of_fmap in Hin as (tx' & Etx & Hin).
    assert (storable_block b') as [(_ & Hlim & _) _] by (eapply Forall_lookup_1; [exact Hst|exact Hb']).
    rewrite Forall_forall in Hlim. destruct (Hlim tx' Hin) as [_ Hlim']. rewrite <- Etx in Hlim'. lia.
Qed.
End Unloadable.

(** ** Witnesses *)

#[global] Instance Disk_eq_dec : EqDecision Disk.
Proof. solve_decision. Defined.

Lemma sample_chain_candidate : validate_candidate_chain (ssl := Toy.ssl) sample_chain = Ok true.
Proof. unfold validate_candidate_chain. rewrite sample_chain_valid. reflexivity. Qed.
Lemma sample_chain_storable : storable sample_chain.
Proof. decide_vm. Qed.

(** A save whose rename fails. *)
Lemma save_atomic_witness :
  let f := mkFaults false false false true false [] in
  let d := mkDisk (Some [Byte.x00]) None in
  canonical (save (ssl := Toy.ssl) f d sample_chain).2 = Some [Byte.x00] \/
  exists out, write_storage (ssl := Toy.ssl) sample_chain = Ok out /\
    canonical (save (ssl := Toy.ssl) f d sample_chain).2 = Some out.
Proof.
  cbv zeta. destruct (save_atomic (ssl := Toy.ssl) (mkFaults false false false true false [])
    (mkDisk (Some [Byte.x00]) None) sample_chain _ _ (surjective_pairing _)) as [[H _]|[_ H]].
  - left. exact H.
  - right. exact H.
Defined.

Lemma storage_roundtrip_witness :
  exists d', save (ssl := Toy.ssl) no_faults empty_disk sample_chain = (Ok tt, d') /\
    load (ssl := Toy.ssl) d' = Ok sample_chain.
Proof.
  apply (storage_roundtrip (ssl := Toy.ssl) empty_disk sample_chain sample_chain_storable
    sample_chain_candidate).
Defined.

Definition sample_disk (c : list Block) : Disk := mkDisk (Some (enc_storage (ssl := Toy.ssl) c)) None.

Lemma load_validates_witness : exists r, validate_and_rebuild_chain (ssl := Toy.ssl) sample_chain = Ok (Some r).
Proof.
  apply (load_validates (ssl := Toy.ssl) (sample_disk sample_chain) sample_chain).
  apply load_spec. split; [reflexivity|]. split; [apply sample_chain_storable|apply sample_chain_candidate].
Defined.

Lemma sample_chain1_rebuild :
  validate_and_rebuild_chain (ssl := Toy.ssl) [sample_genesis; chain_block1] = Ok (Some sample_result1).
Proof. apply rebuild_valid_chain, sample_chain1_valid. Qed.

Lemma sample_disk1_load :
  load (ssl := Toy.ssl) (sample_disk [sample_genesis; chain_block1]) = Ok [sample_genesis; chain_block1].
Proof.
  apply load_spec. split; [reflexivity|]. split; [decide_vm|].
  unfold validate_candidate_chain. rewrite sample_chain1_rebuild. reflexivity.
Qed.

Lemma append_extends_witness :
  exists d', append (ssl := Toy.ssl) no_faults (sample_disk [sample_genesis; chain_block1]) chain_block2
      = (Ok tt, d') /\ load (ssl := Toy.ssl) d' = Ok sample_chain.
Proof.
  apply (append_extends (ssl := Toy.ssl) _ [sample_genesis; chain_block1] sample_result1 chain_block2
    sample_disk1_load sample_chain1_rebuild).
  - apply (validate_block_consensus_spec _ _ _ sample_chain1_valid).
    exists sample_result. apply sample_block2_extends.
  - decide_vm.
  - decide_vm.
Defined.

(** A genesis block paying to a name of one million bytes. *)
Definition long_name : bytes := replicate (Z.to_nat 1000000) Byte.x61.

Lemma long_genesis_tx_size :
  sizeZ (enc_tx_full (mkTx 1 [] [] [mkOutput 1 long_name] (mkWitnessSet []))) = 1000032.
Proof.
  unfold enc_tx_full, enc_tx_base, enc_output, enc_string. cbn [outputs inputs coinbase_data witness
    witness_inputs tx_version amount recipient fmap list_fmap mjoin list_join].
  unfold sizeZ at 1. rewrite !length_app, !le_encode_length. cbn [length].
  unfold long_name. rewrite length_replicate. lia.
Qed.

Lemma saved_but_not_loadable_witness :
  exists g d', build_canonical_genesis (ssl := Toy.ssl) long_name = Ok g /\
    save (ssl := Toy.ssl) no_faults empty_disk [g] = (Ok tt, d') /\
    forall c', load (ssl := Toy.ssl) d' <> Ok c'.
Proof.
  assert (sizeZ long_name = 1000000) as Hn by (unfold sizeZ, long_name; rewrite length_replicate; lia).
  assert (long_name <> []) as Hne by (intros E; rewrite E in Hn; discriminate Hn).
  destruct (build_canonical_genesis_total (ssl := Toy.ssl) long_name ltac:(rewrite Hn; ints)) as [g Hg].
  destruct (build_canonical_genesis_basic long_name g Hne Hg) as (H1 & H2 & H3 & H4 & H5).
  assert (validate_candidate_chain (ssl := Toy.ssl) [g] = Ok true) as Hv.
  { assert (validate_genesis_canonical (ssl := Toy.ssl) g = Ok true) as Hgen.
    { unfold validate_genesis_canonical, hash_eqb. rewrite H1, H2, H3, H5.
      rewrite bool_decide_eq_true_2 by reflexivity. reflexivity. }
    unfold validate_candidate_chain. rewrite (proj2 (rebuild_valid_chain [g] _) (valid_genesis g Hgen)).
    reflexivity. }
  destruct (saved_but_not_loadable (ssl := Toy.ssl) empty_disk [g] Hv ltac:(discriminate) ltac:(decide_vm))
    as (d' & Hs & Hl).
  - constructor; [|constructor]. unfold writable_block. rewrite H4. split_and!.
    + constructor; [|constructor]. split; [apply genesis_tx_ok; rewrite Hn; ints|].
      rewrite long_genesis_tx_size. ints.
    + decide_vm.
    + unfold enc_block. rewrite H4, !sizeZ_app, enc_header_length.
      cbn [fmap list_fmap mjoin list_join]. unfold enc_string. rewrite !sizeZ_app, long_genesis_tx_size.
      unfold sizeZ. rewrite !le_encode_length. cbn [length]. unfold MAX_BLOCK_BYTES. lia.
  - constructor. rewrite H4. constructor. rewrite long_genesis_tx_size. lia.
  - exists g, d'. exact (conj Hg (conj Hs Hl)).
Defined.
