(* ===== verification/Node.v ===== *)
(** node.hpp: [CaesarNode], which ties storage, pool, mining and relay
    together. An operation runs under the locks it takes, so it is one atomic
    step; [mine_one_block], which releases them while it searches, is two steps
    around the search. The look at [running_] comes before the lock, so a step
    may find the node stopped. What the node tells its peers is a list of
    events. *)

From S2P Require Import Prelude Serialization Crypto Transaction UTXO Ownership Coinbase.
From S2P Require Import Consensus Block NetworkParams ChainValidator ChainWork Mempool.
From S2P Require Import BlockBuilder ChainReplacement MempoolReorg Storage.
From stdpp Require Import options.
Local Open Scope Z_scope.

Record CaesarNode := mkNode {
  storage_ : Disk;
  mempool_ : Mempool;
  chain_cache_ : list Block;
  chain_cache_valid_ : bool;
  height_snapshot_ : Z;
  running_ : bool;
  mining_job_active_ : bool;
  network_id_ : Z
}.

(** The calls into the relay that peers can see. *)
Inductive Event :=
  | AnnounceTransaction (tx : Transaction)
  | AnnounceBlock (b : Block)
  | SendGetHeaders (peer_id : Z) (locator : list Hash256).

(** An operation of the node. *)
Abbreviation node_op := (op CaesarNode Event).
(** A broadcast; [relay_ok] is its outcome: it throws when the frame is too
    large or the connection to some peer fails, after others were served. *)
Definition announce (relay_ok : bool) (ev : Event) : node_op unit := fun n =>
  (if relay_ok then Ok tt else Throw "TCP send failed", n, [ev]).
Definition set_storage (d : Disk) (n : CaesarNode) : CaesarNode :=
  mkNode d (mempool_ n) (chain_cache_ n) (chain_cache_valid_ n) (height_snapshot_ n) (running_ n)
    (mining_job_active_ n) (network_id_ n).
Definition set_mempool (mp : Mempool) (n : CaesarNode) : CaesarNode :=
  mkNode (storage_ n) mp (chain_cache_ n) (chain_cache_valid_ n) (height_snapshot_ n) (running_ n)
    (mining_job_active_ n) (network_id_ n).
Definition set_cache (c : list Block) (valid : bool) (n : CaesarNode) : CaesarNode :=
  mkNode (storage_ n) (mempool_ n) c valid (height_snapshot_ n) (running_ n)
    (mining_job_active_ n) (network_id_ n).
Definition set_height (h : Z) (n : CaesarNode) : CaesarNode :=
  mkNode (storage_ n) (mempool_ n) (chain_cache_ n) (chain_cache_valid_ n) h (running_ n)
    (mining_job_active_ n) (network_id_ n).
Definition set_running (b : bool) (n : CaesarNode) : CaesarNode :=
  mkNode (storage_ n) (mempool_ n) (chain_cache_ n) (chain_cache_valid_ n) (height_snapshot_ n) b
    (mining_job_active_ n) (network_id_ n).
Definition set_mining (b : bool) (n : CaesarNode) : CaesarNode :=
  mkNode (storage_ n) (mempool_ n) (chain_cache_ n) (chain_cache_valid_ n) (height_snapshot_ n)
    (running_ n) b (network_id_ n).
(** A storage call: the disk changes even when it throws. *)
Definition storing (f : Disk -> result unit * Disk) : node_op unit := fun n =>
  let '(r, d) := f (storage_ n) in (r, set_storage d n, []).

Definition new_node (network : Z) (d : Disk) : CaesarNode :=
  mkNode d new_mempool [] false 0 false false network.

Section NodeOps.
Context {ssl : OpenSSL} {iter : UnorderedMap}.

Definition load_chain : node_op (list Block) := reading (fun n => load (storage_ n)).

Definition ensure_chain (f : Faults) : node_op unit := fun n =>
  if storage_exists (storage_ n) then (_ ← load_chain; mret tt) n
  else
    (genesis ← reading (fun n =>
       if network_id_ n =? NETWORK_TESTNET then build_testnet_genesis else build_mainnet_genesis);
     storing (fun d => save f d [genesis])) n.

(** [server_starts] and [relay_starts] are the outcomes of the P2P calls. *)
Definition start (f : Faults) (server_starts relay_starts : bool) : node_op unit := fun n =>
  (_ ← require_op (negb (running_ n)) "Caesar node already running";
   _ ← ensure_chain f;
   chain ← load_chain;
   match head chain, last chain with
   | Some front, Some back =>
       _ ← require_op (validate_genesis_network_identity front (genesis_hash_for_network (network_id_ n)))
             "storage contains a chain from a different network (genesis hash mismatch)";
       _ ← update (set_height (height (header back)));
       _ ← require_op server_starts "P2P server failed to start";
       _ ← require_op relay_starts "P2P relay failed to start";
       update (set_running true)
   | _, _ => require_op false "empty chain"
   end) n.

Definition stop : node_op unit := update (set_running false).

Definition get_chain : node_op (list Block) := fun n =>
  if chain_cache_valid_ n then (Ok (chain_cache_ n), n, [])
  else (c ← load_chain; _ ← update (set_cache c true); mret c) n.

(** [height()]; [owns_lock] is the outcome of the try-lock. *)
Definition node_height (owns_lock : bool) : node_op Z := fun n =>
  if negb owns_lock then (Ok (height_snapshot_ n), n, [])
  else
    (c ← get_chain;
     let h := match last c with None => 0 | Some b => height (header b) end in
     _ ← update (set_height h);
     mret h) n.

Definition replace_chain (f : Faults) (candidate : list Block) : node_op bool := fun n =>
  (_ ← require_op (running_ n) "cannot replace chain while node is stopped";
   current ← load_chain;
   plan ← reading (fun _ => prepare_chain_replacement current candidate);
   match plan with
   | None => mret false
   | Some plan =>
       _ ← storing (fun d => replace f d (plan_chain plan));
       _ ← update (fun n => set_cache (chain_cache_ n) false n);
       mp ← reading (fun n => revalidate_mempool_after_reorg (mempool_ n) (plan_chain plan));
       _ ← update (set_mempool mp);
       mret true
   end) n.

Definition accept_transaction (relay_ok : bool) (tx : Transaction) : node_op MempoolRejectReason := fun n =>
  (_ ← require_op (running_ n) "cannot accept transaction while node is stopped";
   current_chain ← load_chain;
   _ ← require_op (negb (bool_decide (current_chain = [])))
         "cannot accept transaction on empty blockchain";
   utxos ← reading (fun _ => rebuild_utxo_set current_chain);
   result ←
     (if is_coinbase_transaction tx then mret InvalidTransaction
      else
        '(reason, mp) ← reading (fun n => mempool_accept (mempool_ n) tx utxos);
        _ ← update (set_mempool mp);
        mret reason);
   if accepted result then (_ ← announce relay_ok (AnnounceTransaction tx); mret result) else mret result) n.

Definition submit_transaction (relay_ok : bool) (tx : Transaction) : node_op bool :=
  reason ← accept_transaction relay_ok tx; mret (accepted reason).

Definition mempool_transactions : node_op (list Transaction) :=
  reading (fun n => Ok (iteration (transactions_ (mempool_ n))).*2).

(** [max(now, previous.timestamp)] with [now] clamped at zero. *)
Definition block_time (now : Z) (previous : Block) : Z :=
  let timestamp_now := if now <? 0 then 0 else now in
  if timestamp_now <? timestamp (header previous) then timestamp (header previous)
  else timestamp_now.

(** The first locked section of [mine_one_block]. *)
Definition mine_snapshot (miner_recipient : bytes) (now : Z) : node_op Block := fun n =>
  (_ ← require_op (running_ n) "cannot mine while node is stopped";
   _ ← require_op (negb (bool_decide (miner_recipient = []))) "miner recipient is empty";
   mining_chain ← load_chain;
   match last mining_chain with
   | None => reading (fun _ => Throw "cannot mine on empty blockchain")
   | Some previous =>
       mining_utxos ← reading (fun _ => rebuild_utxo_set mining_chain);
       reading (fun n => build previous (mempool_ n) miner_recipient (block_time now previous)
                  (expected_next_difficulty mining_chain) 0 (Some mining_utxos))
   end) n.

(** The second one, after the search. *)
Definition mine_commit (f : Faults) (relay_ok : bool) (candidate : Block) : node_op unit :=
  current_chain ← load_chain;
  match last current_chain with
  | None => require_op false "blockchain became empty while mining"
  | Some current_previous =>
      _ ← require_op
            (hash_eqb (previous_hash (header candidate)) (block_hash current_previous)
             && (height (header candidate) =? u64 (height (header current_previous) + 1)))
            "mined block became stale; chain advanced during mining";
      current_utxos ← reading (fun _ => rebuild_utxo_set current_chain);
      ok ← reading (fun _ => validate_block_consensus candidate current_chain current_utxos);
      _ ← require_op ok "mined block failed consensus";
      _ ← storing (fun d => append f d candidate);
      _ ← update (fun n => set_cache (chain_cache_ n) false n);
      _ ← update (fun n => set_mempool (mempool_clear (mempool_ n)) n);
      announce relay_ok (AnnounceBlock candidate)
  end.

(** The whole call, when nothing else runs in between. *)
Definition mine_one_block (f : Faults) (relay_ok : bool) (miner_recipient : bytes) (now max_attempts : Z)
    : node_op unit :=
  candidate ← mine_snapshot miner_recipient now;
  '(found, candidate) ← reading (fun _ => mine candidate 0 max_attempts);
  _ ← require_op found "mining failed";
  mine_commit f relay_ok candidate.

(** Up to the start of the thread. *)
Definition request_mine_one_block (miner_recipient : bytes) : node_op bool := fun n =>
  (_ ← require_op (running_ n) "cannot mine while node is stopped";
   _ ← require_op (negb (bool_decide (miner_recipient = []))) "miner recipient is empty";
   if mining_job_active_ n then mret false
   else (_ ← update (set_mining true); mret true)) n.

(** The thread: failures of the job are swallowed, the flag is cleared. *)
Definition mining_thread (f : Faults) (relay_ok : bool) (miner_recipient : bytes) (now max_attempts : Z)
    : node_op unit := fun n =>
  let '(_, n, ev) := mine_one_block f relay_ok miner_recipient now max_attempts n in
  (Ok tt, set_mining false n, ev).

(** The chain is read first, then the pool: two sections with their own locks. *)
Definition pool_chain_snapshot (miner_recipient : bytes) : node_op (list Block) := fun n =>
  (_ ← require_op (running_ n) "cannot build candidate while node is stopped";
   _ ← require_op (negb (bool_decide (miner_recipient = []))) "miner recipient is empty";
   load_chain) n.
Definition pool_candidate_on (miner_recipient : bytes) (now : Z) (current_chain : list Block)
    : node_op Block :=
  match last current_chain with
  | None => reading (fun _ => Throw "cannot mine on empty blockchain")
  | Some previous =>
      previous_utxos ← reading (fun _ => rebuild_utxo_set current_chain);
      reading (fun n => build previous (mempool_ n) miner_recipient (block_time now previous)
                 (expected_next_difficulty current_chain) 0 (Some previous_utxos))
  end.
(** The whole call, when nothing else runs in between. *)
Definition build_pool_candidate (miner_recipient : bytes) (now : Z) : node_op Block :=
  current_chain ← pool_chain_snapshot miner_recipient;
  pool_candidate_on miner_recipient now current_chain.

Definition submit_pool_solution (f : Faults) (relay_ok : bool) (candidate : Block) : node_op bool := fun n =>
  (_ ← require_op (running_ n) "cannot submit solution while node is stopped";
   current_chain ← load_chain;
   match last current_chain with
   | None => reading (fun _ => Throw "cannot submit on empty blockchain")
   | Some previous =>
       if negb (hash_eqb (previous_hash (header candidate)) (block_hash previous)) then mret false
       else if negb (height (header candidate) =? u64 (height (header previous) + 1)) then mret false
       else if negb (block_validate_pow candidate) then mret false
       else
         previous_utxos ← reading (fun _ => rebuild_utxo_set current_chain);
         ok ← reading (fun _ => validate_block_consensus candidate current_chain previous_utxos);
         if negb ok then mret false
         else
           _ ← storing (fun d => append f d candidate);
           _ ← update (fun n => set_cache (chain_cache_ n) false n);
           _ ← update (fun n => set_mempool (mempool_clear (mempool_ n)) n);
           _ ← announce relay_ok (AnnounceBlock candidate);
           mret true
   end) n.

(** The locator: the tip, then blocks at half the index each time. *)
Fixpoint locator_loop (fuel : nat) (chain : list Block) (i : nat) (locator : list Hash256)
    : list Hash256 :=
  match fuel with
  | O => locator
  | S fuel =>
      if bool_decide (1 < i)%nat && bool_decide (length locator < 10)%nat then
        let i := Nat.div2 i in
        match chain !! i with
        | Some b => locator_loop fuel chain i (locator ++ [block_hash b])
        | None => locator
        end
      else locator
  end.

Definition request_sync_from_peer (peer_id : Z) : node_op unit := fun n =>
  (chain ← get_chain;
   let locator :=
     match last chain with
     | None => []
     | Some tip => locator_loop 10 chain (length chain) [block_hash tip]
     end in
   emit (SendGetHeaders peer_id (if bool_decide (locator = []) then [zero_hash] else locator))) n.
End NodeOps.

(** ** Running a storage call *)

Lemma run_storing {B} g (f : unit -> node_op B) (n : CaesarNode) :
  (storing g ≫= f) n =
  match g (storage_ n) with
  | (Ok _, d) => f tt (set_storage d n)
  | (Throw e, d) => (Throw e, set_storage d n, [])
  end.
Proof.
  unfold mbind, op_bind, storing. destruct (g (storage_ n)) as [[[]|] d]; [apply run_nil|done].
Qed.
#[global] Hint Rewrite @run_storing : run.

(** ** What the storing operations leave *)

Lemma work_snoc c b : 0 <= difficulty (header b) -> work c < work (c ++ [b]).
Proof.
  intros H. unfold work. rewrite sumZ_app. simpl.
  assert (0 < 2 ^ difficulty (header b)) by (apply Z.pow_pos_nonneg; lia). lia.
Qed.

Lemma set_storage_id n : set_storage (storage_ n) n = n.
Proof. by destruct n. Qed.

Section StoreOutcomes.
Context {ssl : OpenSSL} {iter : UnorderedMap}.

(** The stored chain is [c], with validation result [r]. *)
Record stored (n : CaesarNode) (c : list Block) (r : ChainValidationResult) : Prop := {
  st_load : load (storage_ n) = Ok c;
  st_valid : valid_chain c r
}.

Lemma stored_size n c r : stored n c r -> sizeZ c <= UINT64_MAX.
Proof.
  intros H. apply st_load, load_spec in H as (_ & [_ Hs] & _). unfold MAX_BLOCKS in Hs. ints.
Qed.
Lemma stored_rebuild n c r : stored n c r -> rebuild_utxo_set c = Ok (utxo r).
Proof. intros H. apply rebuild_utxo_set_spec, H. Qed.
Lemma stored_exists n c r : stored n c r -> storage_exists (storage_ n) = true.
Proof.
  intros H. apply st_load, load_spec in H as (Hc & _). unfold storage_exists.
  apply bool_decide_eq_true_2. rewrite Hc. eauto.
Qed.

(** A replacement by [c']: the chain stays, or it is the new one without a
    reported success because the directory sync failed after the rename, or it
    is the new one, the cache is invalid and the pool was revalidated. *)
Inductive replaced (f : Faults) (n : CaesarNode) (c c' : list Block) :
    result bool -> CaesarNode -> Prop :=
  | replaced_not res d : res <> Ok true -> load d = Ok c -> replaced f n c c' res (set_storage d n)
  | replaced_unsynced res d r' :
      res <> Ok true -> fsync_dir_fails f = true -> load d = Ok c' -> valid_chain c' r' ->
      work c < work c' -> replaced f n c c' res (set_storage d n)
  | replaced_done d r' mp :
      load d = Ok c' -> valid_chain c' r' -> work c < work c' ->
      revalidate_mempool_after_reorg (mempool_ n) c' = Ok mp ->
      replaced f n c c' (Ok true) (set_mempool mp (set_cache (chain_cache_ n) false (set_storage d n)))
  | replaced_pool_throws d r' e :
      load d = Ok c' -> valid_chain c' r' -> work c < work c' ->
      revalidate_mempool_after_reorg (mempool_ n) c' = Throw e ->
      replaced f n c c' (Throw e) (set_cache (chain_cache_ n) false (set_storage d n)).

Lemma replace_chain_outcome f n c r candidate res n' ev :
  stored n c r -> readable_chain candidate ->
  replace_chain f candidate n = (res, n', ev) -> replaced f n c candidate res n' /\ ev = [].
Proof.
  intros Hinv Hst. pose proof (stored_size n c r Hinv) as Hsz.
  assert (sizeZ candidate <= UINT64_MAX) as Hszc by (destruct Hst as [_ Hs]; unfold MAX_BLOCKS in Hs; ints).
  assert (forall res, res <> Ok true -> replaced f n c candidate res n /\ @nil Event = []) as Hid.
  { intros res0 Hres. split; [|done]. rewrite <- (set_storage_id n) at 2.
    apply replaced_not; [done|apply Hinv]. }
  unfold replace_chain, load_chain. autorewrite with run.
  destruct (running_ n); [|intros [= <- <- <-]; by apply Hid]. rewrite (st_load _ _ _ Hinv).
  autorewrite with run.
  destruct (prepare_chain_replacement c candidate) as [[plan|]|] eqn:Hp;
    [|intros [= <- <- <-]; by apply Hid..].
  apply (prepare_spec c candidate plan r (st_valid _ _ _ Hinv) Hsz Hszc) in Hp
    as (r' & Hv' & Hw & _ & ->). cbn [plan_chain]. autorewrite with run. unfold replace.
  destruct (save f (storage_ n) candidate) as [rs d] eqn:Es.
  apply save_outcomes in Es as [[-> Hload]|[[Hne Hload]|(Hne & Hf & Hload)]]; [| | |done].
  - autorewrite with run. cbn [mempool_ set_cache set_storage].
    destruct (revalidate_mempool_after_reorg (mempool_ n) candidate) as [mp|e] eqn:Hm;
      autorewrite with run; intros [= <- <- <-]; (split; [|done]).
    + by eapply replaced_done.
    + by eapply replaced_pool_throws.
  - destruct rs as [[]|]; [done|]. intros [= <- <- <-]. split; [|done].
    apply replaced_not; [done|]. by rewrite Hload, (st_load _ _ _ Hinv).
  - destruct rs as [[]|]; [done|]. intros [= <- <- <-]. split; [|done]. by eapply replaced_unsynced.
Qed.

(** The section of mining and of pool submission that stores [b] on [c]. *)
Inductive committed (f : Faults) (n : CaesarNode) (c : list Block) (r : ChainValidationResult) (b : Block) :
    list Event -> CaesarNode -> Prop :=
  | committed_not d : load d = Ok c -> committed f n c r b [] (set_storage d n)
  | committed_unsynced d r' :
      fsync_dir_fails f = true -> load d = Ok (c ++ [b]) -> extends c r b r' ->
      work c < work (c ++ [b]) -> committed f n c r b [] (set_storage d n)
  | committed_done d r' :
      load d = Ok (c ++ [b]) -> extends c r b r' -> work c < work (c ++ [b]) ->
      committed f n c r b [AnnounceBlock b]
        (set_mempool new_mempool (set_cache (chain_cache_ n) false (set_storage d n))).

Lemma committed_id f n c r b : stored n c r -> committed f n c r b [] n.
Proof. intros H. rewrite <- (set_storage_id n) at 2. apply committed_not, H. Qed.

(** The two operations end alike, once consensus accepted the block. *)
Lemma append_outcome {A} (a : A) f relay_ok n c r b res n' ev :
  stored n c r -> block_full_ok b -> sizeZ c < MAX_BLOCKS ->
  validate_block_consensus b c (utxo r) = Ok true ->
  (_ ← storing (fun d => append f d b);
   _ ← update (fun n => set_cache (chain_cache_ n) false n);
   _ ← update (fun n => set_mempool (mempool_clear (mempool_ n)) n);
   _ ← announce relay_ok (AnnounceBlock b);
   mret a) n = (res, n', ev) ->
  committed f n c r b ev n' /\
  (if bool_decide (ev = []) then res <> Ok a
   else res = if relay_ok then Ok a else Throw "TCP send failed").
Proof.
  intros Hinv Hb Hlen Hcons.
  pose proof (proj1 (load_spec _ _) (st_load _ _ _ Hinv)) as (_ & [Hst Hl0] & _).
  assert (readable_chain (c ++ [b])) as Hs.
  { split.
    - apply Forall_app. split; [|by constructor]. eapply Forall_impl; [exact Hst|]. by intros ? [].
    - rewrite sizeZ_app. unfold sizeZ at 2 4. simpl. lia. }
  apply (validate_block_consensus_spec c r b (st_valid _ _ _ Hinv)) in Hcons as [r' He].
  assert (work c < work (c ++ [b])) as Hw.
  { apply work_snoc. pose proof (valid_extend _ _ _ _ (st_valid _ _ _ Hinv) He) as Hv.
    assert (sizeZ (c ++ [b]) <= UINT64_MAX) as Hsz by (destruct Hs as [_ Hs]; unfold MAX_BLOCKS in Hs; ints).
    pose proof (valid_chain_difficulties _ _ Hv Hsz) as Hd.
    apply Forall_app in Hd as [_ [Hd _]%Forall_cons]. lia. }
  rewrite run_storing. destruct (append f (storage_ n) b) as [rs d] eqn:Ha.
  apply (append_outcomes f _ c b _ _ (st_load _ _ _ Hinv) Hs) in Ha
    as [[-> Hload]|[[Hne Hload]|(Hne & Hf & Hload)]].
  - autorewrite with run. unfold announce. destruct relay_ok; intros [= <- <- <-]; (split; [|done]);
      by eapply committed_done.
  - destruct rs as [[]|]; [done|]. intros [= <- <- <-]. split; [by apply committed_not|done].
  - destruct rs as [[]|]; [done|]. intros [= <- <- <-]. split; [by eapply committed_unsynced|done].
Qed.

Lemma submit_pool_outcome f relay_ok n c r b res n' ev :
  stored n c r -> block_full_ok b -> sizeZ c < MAX_BLOCKS ->
  submit_pool_solution f relay_ok b n = (res, n', ev) ->
  committed f n c r b ev n' /\
  (if bool_decide (ev = []) then res <> Ok true
   else res = if relay_ok then Ok true else Throw "TCP send failed").
Proof.
  intros Hinv Hb Hlen. pose proof (committed_id f n c r b Hinv) as Hid.
  unfold submit_pool_solution, load_chain. rewrite run_require.
  destruct (running_ n); [|by intros [= <- <- <-]]. rewrite run_reading, (st_load _ _ _ Hinv).
  destruct (last c) as [p|]; [|by intros [= <- <- <-]].
  do 3 (destruct (negb _); [by intros [= <- <- <-]|]).
  rewrite run_reading, (stored_rebuild n c r Hinv), run_reading.
  destruct (validate_block_consensus b c (utxo r)) as [[]|] eqn:Hc; cbn [negb]; [|by intros [= <- <- <-]..].
  by apply append_outcome.
Qed.

Lemma mine_commit_outcome f relay_ok n c r b res n' ev :
  stored n c r -> block_full_ok b -> sizeZ c < MAX_BLOCKS ->
  mine_commit f relay_ok b n = (res, n', ev) ->
  committed f n c r b ev n' /\
  (if bool_decide (ev = []) then res <> Ok tt
   else res = if relay_ok then Ok tt else Throw "TCP send failed").
Proof.
  intros Hinv Hb Hlen. pose proof (committed_id f n c r b Hinv) as Hid.
  unfold mine_commit, load_chain. rewrite run_reading, (st_load _ _ _ Hinv).
  destruct (last c) as [p|]; [|by intros [= <- <- <-]]. rewrite run_require.
  destruct (_ && _); [|by intros [= <- <- <-]].
  rewrite run_reading, (stored_rebuild n c r Hinv), run_reading.
  destruct (validate_block_consensus b c (utxo r)) as [[]|] eqn:Hc; [|by intros [= <- <- <-]..].
  rewrite run_require. intros H. eapply (append_outcome tt f relay_ok n c r b); [done..|].
  revert H. rewrite !run_storing. destruct (append _ _ _) as [[[]|] d]; [|done].
  rewrite !run_update. unfold announce. by destruct relay_ok.
Qed.
End StoreOutcomes.

(** ** The node's invariant *)

Section NodeInvariant.
Context {ssl : OpenSSL} {iter : UnorderedMap}.

(** The stored chain is [c] with validation result [r]; the cache is
    coherent, and the pool is consistent with the chain. *)
Record node_inv (n : CaesarNode) (c : list Block) (r : ChainValidationResult) : Prop := {
  ni_load : load (storage_ n) = Ok c;
  ni_valid : valid_chain c r;
  ni_cache : chain_cache_valid_ n = true -> chain_cache_ n = c;
  ni_pool : pool_inv (utxo r) (mempool_ n);
  ni_pool_ok : map_Forall (fun _ tx => tx_full_ok tx) (transactions_ (mempool_ n))
}.

Lemma node_inv_stored n c r : node_inv n c r -> stored n c r.
Proof. intros []. by split. Qed.
Lemma loaded_size n c r : node_inv n c r -> sizeZ c <= UINT64_MAX.
Proof. intros H. by eapply stored_size, node_inv_stored. Qed.
Lemma rebuild_loaded n c r : node_inv n c r -> rebuild_utxo_set c = Ok (utxo r).
Proof. intros H. by eapply stored_rebuild, node_inv_stored. Qed.

Lemma load_chain_eq n c r : node_inv n c r -> load_chain n = (Ok c, n, []).
Proof. intros H. unfold load_chain, reading. by rewrite (ni_load _ _ _ H). Qed.

Lemma empty_pool_any u u' mp : pool_inv u mp -> transactions_ mp = ∅ -> pool_inv u' mp.
Proof.
  intros H E. assert (mp = new_mempool) as ->; [|apply pool_inv_empty].
  pose proof (pi_reserved _ _ H) as H1. pose proof (pi_bytes _ _ H) as H2.
  rewrite E, map_to_list_empty in H1, H2. destruct mp. simpl in *. by subst.
Qed.

(** A storage failure leaves the invariant. *)
Lemma node_inv_storage n c r d :
  node_inv n c r -> load d = load (storage_ n) -> node_inv (set_storage d n) c r.
Proof. intros [H1 H2 H3 H4 H5] E. split; simpl; try done. by rewrite E. Qed.

Lemma node_inv_cache n c r : node_inv n c r -> node_inv (set_cache (chain_cache_ n) false n) c r.
Proof. intros [H1 H2 H3 H4 H5]. by split. Qed.

(** *** Reads and the cache *)

Lemma get_chain_spec n c r :
  node_inv n c r -> exists n', get_chain n = (Ok c, n', []) /\ node_inv n' c r /\
    chain_cache_valid_ n' = true.
Proof.
  intros H. unfold get_chain. destruct (chain_cache_valid_ n) eqn:E.
  - exists n. by rewrite (ni_cache _ _ _ H E).
  - exists (set_cache c true n). split; [|split; [|done]].
    + unfold mbind, op_bind. by rewrite (load_chain_eq n c r H).
    + destruct H. by split.
Qed.

(** *** Replacement *)

Lemma revalidate_loaded n c r c' r' :
  node_inv n c r -> valid_chain c' r' ->
  map_Forall (fun _ tx => readmissible (utxo r') (dom (transactions_ (mempool_ n))) tx)
    (transactions_ (mempool_ n)) ->
  exists mp', revalidate_mempool_after_reorg (mempool_ n) c' = Ok mp' /\
    pool_inv (utxo r') mp' /\ transactions_ mp' ⊆ transactions_ (mempool_ n).
Proof.
  intros Hinv Hv' Hre. destruct (decide (transactions_ (mempool_ n) = ∅)) as [E|Hne].
  - exists (mempool_ n). split_and!; [|by eapply empty_pool_any; [apply Hinv|]|done].
    unfold revalidate_mempool_after_reorg, mempool_size. by rewrite E, map_size_empty.
  - apply revalidate_spec; [done|done| |].
    + intros id tx Hid. pose proof (con_entries _ _ (pi_connectable _ _ (ni_pool _ _ _ Hinv))) as He.
      rewrite Forall_forall in He. apply (He (id, tx)). by apply elem_of_map_to_list.
    + intros id tx Hid. split; [by apply (ni_pool_ok _ _ _ Hinv id)|by apply (Hre id)].
Qed.

Lemma replace_chain_spec f n c r candidate res n' ev :
  node_inv n c r -> readable_chain candidate -> fsync_dir_fails f = false ->
  (forall r', valid_chain candidate r' ->
     map_Forall (fun _ tx => readmissible (utxo r') (dom (transactions_ (mempool_ n))) tx)
       (transactions_ (mempool_ n))) ->
  replace_chain f candidate n = (res, n', ev) ->
  (res <> Ok true /\ node_inv n' c r) \/
  (res = Ok true /\ work c < work candidate /\ exists r', node_inv n' candidate r').
Proof.
  intros Hinv Hst Hf Hre H. pose proof (node_inv_stored n c r Hinv) as Hs.
  destruct (replace_chain_outcome f n c r candidate res n' ev Hs Hst H) as [Ho _].
  destruct Ho as [res d Hne Hl|res d r' Hne Hf' Hl Hv Hw|d r' mp Hl Hv Hw Hm|d r' e Hl Hv Hw Hm].
  - left. split; [done|]. apply node_inv_storage; [done|]. by rewrite Hl, (ni_load _ _ _ Hinv).
  - congruence.
  - right. split; [done|]. split; [done|]. exists r'.
    destruct (revalidate_loaded n c r candidate r' Hinv Hv (Hre r' Hv)) as (mp' & E & Hmp & Hsub).
    rewrite E in Hm. injection Hm as <-.
    split; simpl; try done. intros id tx Hid. apply (ni_pool_ok _ _ _ Hinv id). by eapply lookup_weaken.
  - destruct (revalidate_loaded n c r candidate r' Hinv Hv (Hre r' Hv)) as (mp' & E & _). congruence.
Qed.
End NodeInvariant.

Section NodeSteps.
Context {ssl : OpenSSL} {iter : UnorderedMap}.

(** *** Admission *)

Lemma accept_transaction_spec relay_ok n c r tx res n' ev :
  node_inv n c r -> tx_full_ok tx ->
  (forall q, is_Some (utxo r !! q) -> txid tx <> Ok (op_txid q)) ->
  accept_transaction relay_ok tx n = (res, n', ev) ->
  node_inv n' c r /\ (res = Ok None_ -> ev = [AnnounceTransaction tx]) /\
  (running_ n = true -> relay_ok = true -> exists reason, res = Ok reason).
Proof.
  intros Hinv Hok Hfr. unfold accept_transaction, load_chain. autorewrite with run.
  destruct (running_ n); [|intros [= <- <- <-]; naive_solver]. rewrite (ni_load _ _ _ Hinv).
  autorewrite with run. rewrite bool_decide_eq_false_2 by apply (valid_chain_nonempty _ _ (ni_valid _ _ _ Hinv)).
  cbn [negb]. autorewrite with run. rewrite (rebuild_loaded n c r Hinv).
  destruct (is_coinbase_transaction tx).
  { rewrite run_ret. intros [= <- <- <-]. naive_solver. }
  destruct (accept_returns (utxo r) (mempool_ n) tx (ni_pool _ _ _ Hinv) Hok) as [[reason mp] E].
  assert (node_inv (set_mempool mp n) c r) as Hinv'.
  { destruct (decide (reason = None_)) as [->|Hne].
    - split; simpl; try apply Hinv; [by eapply mempool_accept_preserves; [apply Hinv| |]|].
      apply mempool_accept_inv in E as (id & bs & w & _ & _ & _ & _ & _ & _ & _ & _ & _ & _ & ->).
      simpl. apply map_Forall_insert_2; [done|apply Hinv].
    - rewrite (mempool_accept_rejected _ _ _ _ _ E Hne). destruct n. apply Hinv. }
  unfold mbind, op_bind, reading, update, announce, mret, op_ret. rewrite E.
  unfold accepted. case_bool_decide; [destruct relay_ok|]; intros [= <- <- <-]; naive_solver.
Qed.

(** *** Extension *)

Lemma committed_inv f n c r b ev n' :
  node_inv n c r -> fsync_dir_fails f = false -> committed f n c r b ev n' ->
  (ev = [] /\ node_inv n' c r) \/
  (ev = [AnnounceBlock b] /\ work c < work (c ++ [b]) /\ exists r', extends c r b r' /\ node_inv n' (c ++ [b]) r').
Proof.
  intros H Hf Hc. destruct Hc as [d Hl|d r' Hf' Hl He Hw|d r' Hl He Hw]; [left|congruence|right].
  - split; [done|]. apply node_inv_storage; [done|]. by rewrite Hl, (ni_load _ _ _ H).
  - split; [done|]. split; [done|]. exists r'. split; [done|].
    split; simpl; [done|by eapply valid_extend; [apply H|]|done|apply pool_inv_empty|apply map_Forall_empty].
Qed.

Lemma submit_pool_solution_spec f relay_ok n c r b res n' ev :
  node_inv n c r -> block_full_ok b -> sizeZ c < MAX_BLOCKS -> fsync_dir_fails f = false ->
  submit_pool_solution f relay_ok b n = (res, n', ev) ->
  (res <> Ok true /\ node_inv n' c r /\ ev = []) \/
  (res = (if relay_ok then Ok true else Throw "TCP send failed") /\ ev = [AnnounceBlock b] /\
   work c < work (c ++ [b]) /\ exists r', extends c r b r' /\ node_inv n' (c ++ [b]) r').
Proof.
  intros Hinv Hsb Hlen Hf H. pose proof (node_inv_stored n c r Hinv) as Hs.
  destruct (submit_pool_outcome f relay_ok n c r b res n' ev Hs Hsb Hlen H) as [Ho Hres].
  destruct (committed_inv f n c r b ev n' Hinv Hf Ho) as [[-> Hi]|(-> & Hw & r' & Hi)]; [by left|right; eauto].
Qed.

Lemma mine_commit_spec f relay_ok n c r b res n' ev :
  node_inv n c r -> block_full_ok b -> sizeZ c < MAX_BLOCKS -> fsync_dir_fails f = false ->
  mine_commit f relay_ok b n = (res, n', ev) ->
  (res <> Ok tt /\ node_inv n' c r /\ ev = []) \/
  (res = (if relay_ok then Ok tt else Throw "TCP send failed") /\ ev = [AnnounceBlock b] /\
   work c < work (c ++ [b]) /\ exists r', extends c r b r' /\ node_inv n' (c ++ [b]) r').
Proof.
  intros Hinv Hsb Hlen Hf H. pose proof (node_inv_stored n c r Hinv) as Hs.
  destruct (mine_commit_outcome f relay_ok n c r b res n' ev Hs Hsb Hlen H) as [Ho Hres].
  destruct (committed_inv f n c r b ev n' Hinv Hf Ho) as [[-> Hi]|(-> & Hw & r' & Hi)]; [by left|right; eauto].
Qed.

(** *** Start *)

Lemma ensure_chain_loaded f n c r : node_inv n c r -> ensure_chain f n = (Ok tt, n, []).
Proof.
  intros H. unfold ensure_chain, storage_exists.
  pose proof (proj1 (load_spec _ _) (ni_load _ _ _ H)) as (Hcan & _).
  rewrite bool_decide_eq_true_2 by (rewrite Hcan; eauto). unfold load_chain.
  rewrite run_reading, (ni_load _ _ _ H). done.
Qed.

Lemma start_inv f a b n c r res n' ev :
  node_inv n c r -> start f a b n = (res, n', ev) ->
  node_inv n' c r /\
  (res = Ok tt -> exists g, head c = Some g /\
     validate_genesis_network_identity g (genesis_hash_for_network (network_id_ n)) = true).
Proof.
  intros H. unfold start. rewrite run_require. destruct (running_ n); cbn [negb].
  { by intros [= <- <- <-]. }
  unfold mbind at 1, op_bind at 1. rewrite (ensure_chain_loaded f n c r H), run_nil.
  unfold load_chain. rewrite run_reading, (ni_load _ _ _ H).
  destruct (head c) as [g|]; [|by intros [= <- <- <-]].
  destruct (last c) as [t|]; [|by intros [= <- <- <-]].
  rewrite run_require. destruct (validate_genesis_network_identity _ _) eqn:Hg; [|by intros [= <- <- <-]].
  autorewrite with run. destruct H, a, b; autorewrite with run; intros [= <- <- <-];
    (split; [by split|]); intros; try done; by exists g.
Qed.

(** *** Height *)

Definition tip_height_of (c : list Block) : Z := match last c with None => 0 | Some b => height (header b) end.

Lemma node_height_spec n c r :
  node_inv n c r -> exists n', node_height true n = (Ok (tip_height_of c), n', []) /\ node_inv n' c r /\
    running_ n' = running_ n /\ mempool_ n' = mempool_ n.
Proof.
  intros H. unfold node_height. cbn [negb]. unfold mbind at 1, op_bind at 1.
  destruct (get_chain_spec n c r H) as (n' & E & H' & _). rewrite E, run_nil, run_update.
  eexists. split; [reflexivity|]. split; [destruct H'; by split|].
  cbn [running_ mempool_ set_height]. assert (running_ n' = running_ n /\ mempool_ n' = mempool_ n) as [-> ->]; [|done].
  unfold get_chain in E. destruct (chain_cache_valid_ n); [by injection E as _ <-|].
  unfold load_chain in E. rewrite run_reading, (ni_load _ _ _ H), run_update in E. by injection E as <-.
Qed.

Lemma start_loaded f n c r g :
  node_inv n c r -> running_ n = false -> head c = Some g ->
  validate_genesis_network_identity g (genesis_hash_for_network (network_id_ n)) = true ->
  exists n', start f true true n = (Ok tt, n', []) /\ node_inv n' c r /\ running_ n' = true /\
    mempool_ n' = mempool_ n /\ chain_cache_valid_ n' = chain_cache_valid_ n.
Proof.
  intros H Hrun Hg Hid. unfold start. rewrite run_require, Hrun. cbn [negb].
  unfold mbind at 1, op_bind at 1. rewrite (ensure_chain_loaded f n c r H), run_nil.
  unfold load_chain. rewrite run_reading, (ni_load _ _ _ H), Hg.
  destruct (last c) as [t|] eqn:Hl; [|apply last_None in Hl; by subst].
  rewrite run_require, Hid. autorewrite with run. eexists. split; [reflexivity|]. destruct H. split_and!; [by split|done..].
Qed.
End NodeSteps.

(** ** The node as a transition system *)

Section NodeSystem.
Context {ssl : OpenSSL} {iter : UnorderedMap}.

(** The id of an incoming transaction is not that of an unspent output. *)
Definition fresh_for (n : CaesarNode) (tx : Transaction) : Prop :=
  forall c r, load (storage_ n) = Ok c -> valid_chain c r ->
    forall q, is_Some (utxo r !! q) -> txid tx <> Ok (op_txid q).

Definition pool_readmissible (n : CaesarNode) (c : list Block) : Prop :=
  forall r, valid_chain c r ->
    map_Forall (fun _ tx => readmissible (utxo r) (dom (transactions_ (mempool_ n))) tx)
      (transactions_ (mempool_ n)).

Definition room (n : CaesarNode) : Prop :=
  forall c, load (storage_ n) = Ok c -> sizeZ c < MAX_BLOCKS.

(** [running_] is read before the locks are taken, so a call that passed the
    check may run its section after a stop. *)
Definition past_check {A} (m : node_op A) : node_op A := fun n =>
  let '(res, n', ev) := m (set_running true n) in (res, set_running (running_ n) n', ev).
Definition called {A} (m : node_op A) (n : CaesarNode) (res : result A) (n' : CaesarNode) (ev : list Event)
    : Prop :=
  m n = (res, n', ev) \/ past_check m n = (res, n', ev).

(** One atomic step of the running program. A mining job enters through its
    second locked section, for any block and at any moment: whatever happened
    since its snapshot is earlier steps. The system calls of a storage operation
    fail as they like. With [s] no directory sync fails; with [p] the
    transactions that arrive are well-formed with fresh ids, and no replacement
    brings a pooled id back. *)
Inductive node_step (s p : bool) : CaesarNode -> CaesarNode -> Prop :=
  | step_start f a b n res n' ev : start f a b n = (res, n', ev) -> node_step s p n n'
  | step_stop n res n' ev : stop n = (res, n', ev) -> node_step s p n n'
  | step_chain n res n' ev : get_chain n = (res, n', ev) -> node_step s p n n'
  | step_height owns n res n' ev : node_height owns n = (res, n', ev) -> node_step s p n n'
  | step_sync peer n res n' ev : request_sync_from_peer peer n = (res, n', ev) -> node_step s p n n'
  | step_invalidate n : node_step s p n (set_cache (chain_cache_ n) false n)
  | step_accept relay_ok tx n res n' ev :
      (p = true -> tx_full_ok tx /\ fresh_for n tx) ->
      called (accept_transaction relay_ok tx) n res n' ev -> node_step s p n n'
  | step_replace f c n res n' ev :
      readable_chain c -> (s = true -> fsync_dir_fails f = false) -> (p = true -> pool_readmissible n c) ->
      called (replace_chain f c) n res n' ev -> node_step s p n n'
  | step_request_mine addr n res n' ev :
      request_mine_one_block addr n = (res, n', ev) -> node_step s p n n'
  | step_mined f relay_ok b n res n' ev :
      block_full_ok b -> room n -> (s = true -> fsync_dir_fails f = false) ->
      mine_commit f relay_ok b n = (res, n', ev) -> node_step s p n n'
  | step_job_done n : node_step s p n (set_mining false n)
  | step_pool f relay_ok b n res n' ev :
      block_full_ok b -> room n -> (s = true -> fsync_dir_fails f = false) ->
      called (submit_pool_solution f relay_ok b) n res n' ev -> node_step s p n n'.

Lemma called_inv {A} (m : node_op A) n res n' ev :
  called m n res n' ev -> exists b b' n1, m (set_running b n) = (res, n1, ev) /\ n' = set_running b' n1.
Proof.
  intros [E|E].
  - exists (running_ n), (running_ n'), n'. split; [|by destruct n']. by destruct n.
  - unfold past_check in E. destruct (m _) as [[r1 n1] e1] eqn:Em. injection E as <- <- <-. eauto.
Qed.

Definition cache_ok (n : CaesarNode) (c : list Block) : Prop :=
  chain_cache_valid_ n = true -> chain_cache_ n = c.

Lemma node_inv_frame n n' c r :
  node_inv n c r -> storage_ n' = storage_ n -> mempool_ n' = mempool_ n -> cache_ok n' c -> node_inv n' c r.
Proof. intros [H1 H2 H3 H4 H5] E1 E2 E3. split; rewrite ?E1, ?E2; done. Qed.

(** *** The operations that leave the storage alone *)

Lemma get_chain_cases n c r :
  stored n c r -> exists x n', get_chain n = (Ok x, n', []) /\ (n' = n \/ n' = set_cache c true n).
Proof.
  intros H. unfold get_chain. destruct (chain_cache_valid_ n) eqn:E; [eauto|].
  unfold load_chain. rewrite run_reading, (st_load _ _ _ H), run_update. eexists _, _. split; [reflexivity|auto].
Qed.

(** Reading the chain, in any of its forms. *)
Definition read_through (n n' : CaesarNode) (c : list Block) : Prop :=
  storage_ n' = storage_ n /\ mempool_ n' = mempool_ n /\
  ((chain_cache_ n' = chain_cache_ n /\ chain_cache_valid_ n' = chain_cache_valid_ n) \/ chain_cache_ n' = c).

Lemma read_through_ok n n' c r :
  read_through n n' c ->
  (stored n c r -> stored n' c r) /\ (cache_ok n c -> cache_ok n' c) /\ (node_inv n c r -> node_inv n' c r).
Proof.
  intros (E1 & E2 & E3). assert (cache_ok n c -> cache_ok n' c) as Hc.
  { unfold cache_ok. destruct E3 as [[-> ->]| ->]; auto. }
  split_and!; [intros []; split; by rewrite ?E1|done|].
  intros H. apply (node_inv_frame n); [done..|]. apply Hc. exact (ni_cache _ _ _ H).
Qed.

Lemma start_reads f a b n c r res n' ev :
  stored n c r -> start f a b n = (res, n', ev) -> read_through n n' c.
Proof.
  intros H. unfold start. rewrite run_require. destruct (running_ n); cbn [negb]; [intros [= <- <- <-]; split_and!; auto|].
  assert (ensure_chain f n = (Ok tt, n, [])) as E.
  { unfold ensure_chain. rewrite (stored_exists n c r H). unfold load_chain.
    by rewrite run_reading, (st_load _ _ _ H). }
  unfold mbind at 1, op_bind at 1. rewrite E, run_nil.
  unfold load_chain. rewrite run_reading, (st_load _ _ _ H).
  assert (forall m, storage_ m = storage_ n -> mempool_ m = mempool_ n -> chain_cache_ m = chain_cache_ n ->
    chain_cache_valid_ m = chain_cache_valid_ n -> read_through n m c) as Hr by (intros; split_and!; auto).
  destruct (head c) as [g|]; [|intros [= <- <- <-]; by apply Hr].
  destruct (last c) as [t|]; [|intros [= <- <- <-]; by apply Hr].
  rewrite run_require. destruct (validate_genesis_network_identity _ _); [|intros [= <- <- <-]; by apply Hr].
  autorewrite with run. destruct a, b; autorewrite with run; intros [= <- <- <-]; by apply Hr.
Qed.

Lemma node_height_reads owns n c r res n' ev :
  stored n c r -> node_height owns n = (res, n', ev) -> read_through n n' c.
Proof.
  intros H. unfold node_height. destruct owns; cbn [negb]; [|intros [= <- <- <-]; split_and!; auto].
  destruct (get_chain_cases n c r H) as (x & n1 & E & Hn).
  unfold mbind at 1, op_bind at 1. rewrite E, run_nil, run_update. intros [= <- <- <-].
  destruct Hn as [->| ->]; split_and!; simpl; auto.
Qed.

Lemma accept_transaction_frame relay_ok tx n c r res n' ev :
  stored n c r -> accept_transaction relay_ok tx n = (res, n', ev) ->
  exists mp, n' = set_mempool mp n.
Proof.
  intros H. assert (exists mp, n = set_mempool mp n) as Hid by (exists (mempool_ n); by destruct n).
  unfold accept_transaction, load_chain. autorewrite with run.
  destruct (running_ n); [|by intros [= <- <- <-]]. rewrite (st_load _ _ _ H). autorewrite with run.
  destruct (negb _); [|by intros [= <- <- <-]]. autorewrite with run.
  destruct (rebuild_utxo_set c) as [u|]; [|by intros [= <- <- <-]].
  destruct (is_coinbase_transaction tx); [rewrite run_ret; by intros [= <- <- <-]|].
  unfold mbind, op_bind, reading, update, announce, mret, op_ret.
  destruct (mempool_accept (mempool_ n) tx u) as [[reason mp]|]; [|by intros [= <- <- <-]].
  destruct (accepted reason), relay_ok; intros [= <- <- <-]; eauto.
Qed.

(** *** One step *)

Lemma stored_running b n c r : stored n c r -> stored (set_running b n) c r.
Proof. intros []. by split. Qed.
Lemma node_inv_running b n c r : node_inv n c r -> node_inv (set_running b n) c r.
Proof. intros []. by split. Qed.

Lemma committed_stored f n c r b ev n' :
  stored n c r -> committed f n c r b ev n' ->
  exists c' r', stored n' c' r' /\ (c' = c \/ work c < work c') /\
    (fsync_dir_fails f = false -> cache_ok n c -> cache_ok n' c').
Proof.
  intros [_ Hv] [d Hl|d r' Hf Hl He Hw|d r' Hl He Hw].
  - exists c, r. split; [by split|]. auto.
  - exists (c ++ [b]), r'. split; [split; [done|by eapply valid_extend]|]. split; [by right|congruence].
  - exists (c ++ [b]), r'. split; [split; [done|by eapply valid_extend]|]. by split; [right|].
Qed.

Lemma replaced_stored f n c r c1 res n' :
  stored n c r -> replaced f n c c1 res n' ->
  exists c' r', stored n' c' r' /\ (c' = c \/ work c < work c') /\
    (fsync_dir_fails f = false -> cache_ok n c -> cache_ok n' c').
Proof.
  intros [_ Hv] [res' d Hne Hl|res' d r' Hne Hf Hl Hv' Hw|d r' mp Hl Hv' Hw _|d r' e Hl Hv' Hw _].
  - exists c, r. split; [by split|]. auto.
  - exists c1, r'. split; [by split|]. split; [by right|congruence].
  - exists c1, r'. split; [by split|]. by split; [right|].
  - exists c1, r'. split; [by split|]. by split; [right|].
Qed.

(** Whatever fails, the stored chain is safe; without directory sync failures
    the cache is. *)
Lemma node_step_stored s p n n' c r :
  stored n c r -> node_step s p n n' ->
  exists c' r', stored n' c' r' /\ (c' = c \/ work c < work c') /\
    (s = true -> cache_ok n c -> cache_ok n' c').
Proof.
  intros H Hst. assert (forall m, read_through n m c -> exists c' r', stored m c' r' /\
    (c' = c \/ work c < work c') /\ (s = true -> cache_ok n c -> cache_ok m c')) as Hread.
  { intros m Hm. exists c, r. destruct (read_through_ok n m c r Hm) as (H1 & H2 & _). auto. }
  destruct Hst as [f a b n res n' ev Hr|n res n' ev Hr|n res n' ev Hr|owns n res n' ev Hr
    |peer n res n' ev Hr| |relay_ok tx n res n' ev Hok Hr|f c1 n res n' ev Hs Hf Hre Hr
    |addr n res n' ev Hr|f relay_ok b n res n' ev Hb Hroom Hf Hr| |f relay_ok b n res n' ev Hb Hroom Hf Hr].
  - by eapply Hread, start_reads.
  - injection Hr as <- <- <-. apply Hread. split_and!; auto.
  - destruct (get_chain_cases n c r H) as (x & n1 & E & Hn). rewrite E in Hr. injection Hr as <- <- <-.
    apply Hread. destruct Hn as [->| ->]; split_and!; auto.
  - by eapply Hread, node_height_reads.
  - unfold request_sync_from_peer in Hr. destruct (get_chain_cases n c r H) as (x & n1 & E & Hn).
    unfold mbind in Hr at 1. unfold op_bind in Hr at 1. rewrite E in Hr. injection Hr as <- <- <-.
    apply Hread. destruct Hn as [->| ->]; split_and!; auto.
  - exists c, r. split; [by destruct H; split|]. by split; [left|].
  - apply called_inv in Hr as (b1 & b2 & n1 & Hr & ->).
    apply (accept_transaction_frame _ _ _ c r) in Hr as [mp ->]; [|by apply stored_running].
    exists c, r. split; [by destruct H; split|]. by split; [left|].
  - apply called_inv in Hr as (b1 & b2 & n1 & Hr & ->).
    destruct (replace_chain_outcome f _ c r c1 res n1 ev (stored_running b1 n c r H) Hs Hr) as [Ho _].
    destruct (replaced_stored _ _ _ _ _ _ _ (stored_running b1 n c r H) Ho) as (c' & r' & H1 & H2 & H3).
    exists c', r'. split; [by apply stored_running|]. split; [done|]. intros Es. by apply H3, Hf.
  - unfold request_mine_one_block in Hr. autorewrite with run in Hr. apply Hread.
    destruct (running_ n), (negb (bool_decide (addr = []))), (mining_job_active_ n);
      autorewrite with run in Hr; injection Hr as <- <- <-; split_and!; auto.
  - destruct (mine_commit_outcome f relay_ok n c r b res n' ev H Hb (Hroom c (st_load _ _ _ H)) Hr) as [Ho _].
    destruct (committed_stored _ _ _ _ _ _ _ H Ho) as (c' & r' & H1 & H2 & H3). exists c', r'. auto.
  - apply Hread. split_and!; auto.
  - apply called_inv in Hr as (b1 & b2 & n1 & Hr & ->).
    destruct (submit_pool_outcome f relay_ok _ c r b res n1 ev (stored_running b1 n c r H) Hb
      (Hroom c (st_load _ _ _ H)) Hr) as [Ho _].
    destruct (committed_stored _ _ _ _ _ _ _ (stored_running b1 n c r H) Ho) as (c' & r' & H1 & H2 & H3).
    exists c', r'. split; [by apply stored_running|]. split; [done|]. intros Es. by apply H3, Hf.
Qed.

(** With no directory sync failure and well-formed traffic the pool is, too. *)
Lemma node_step_pool n n' c r :
  node_inv n c r -> node_step true true n n' -> exists c' r', node_inv n' c' r'.
Proof.
  intros H Hst. pose proof (node_inv_stored n c r H) as Hsto.
  assert (forall m, read_through n m c -> exists c' r', node_inv m c' r') as Hread.
  { intros m Hm. exists c, r. by apply (read_through_ok n m c r Hm). }
  destruct Hst as [f a b n res n' ev Hr|n res n' ev Hr|n res n' ev Hr|owns n res n' ev Hr
    |peer n res n' ev Hr| |relay_ok tx n res n' ev Hok Hr|f c1 n res n' ev Hs Hf Hre Hr
    |addr n res n' ev Hr|f relay_ok b n res n' ev Hb Hroom Hf Hr| |f relay_ok b n res n' ev Hb Hroom Hf Hr].
  - by eapply Hread, start_reads.
  - injection Hr as <- <- <-. apply Hread. split_and!; auto.
  - destruct (get_chain_cases n c r Hsto) as (x & n1 & E & Hn). rewrite E in Hr. injection Hr as <- <- <-.
    apply Hread. destruct Hn as [->| ->]; split_and!; auto.
  - by eapply Hread, node_height_reads.
  - unfold request_sync_from_peer in Hr. destruct (get_chain_cases n c r Hsto) as (x & n1 & E & Hn).
    unfold mbind in Hr at 1. unfold op_bind in Hr at 1. rewrite E in Hr. injection Hr as <- <- <-.
    apply Hread. destruct Hn as [->| ->]; split_and!; auto.
  - exists c, r. by apply node_inv_cache.
  - apply called_inv in Hr as (b1 & b2 & n1 & Hr & ->). destruct (Hok eq_refl) as [Ht Hfr].
    exists c, r. apply node_inv_running.
    eapply accept_transaction_spec; [by apply (node_inv_running b1)|exact Ht| |exact Hr]. apply (Hfr c r); apply H.
  - apply called_inv in Hr as (b1 & b2 & n1 & Hr & ->).
    destruct (replace_chain_spec f _ c r c1 res n1 ev (node_inv_running b1 n c r H) Hs (Hf eq_refl)
      (Hre eq_refl) Hr) as [[_ Hi]|(_ & _ & r' & Hi)]; eexists _, _; by apply node_inv_running.
  - unfold request_mine_one_block in Hr. autorewrite with run in Hr. apply Hread.
    destruct (running_ n), (negb (bool_decide (addr = []))), (mining_job_active_ n);
      autorewrite with run in Hr; injection Hr as <- <- <-; split_and!; auto.
  - destruct (mine_commit_spec f relay_ok n c r b res n' ev H Hb (Hroom c (ni_load _ _ _ H)) (Hf eq_refl) Hr)
      as [(_ & Hi & _)|(_ & _ & _ & r' & _ & Hi)]; eauto.
  - apply Hread. split_and!; auto.
  - apply called_inv in Hr as (b1 & b2 & n1 & Hr & ->).
    destruct (submit_pool_solution_spec f relay_ok _ c r b res n1 ev (node_inv_running b1 n c r H) Hb
      (Hroom c (ni_load _ _ _ H)) (Hf eq_refl) Hr) as [(_ & Hi & _)|(_ & _ & _ & r' & _ & Hi)];
      eexists _, _; by apply node_inv_running.
Qed.

(** The invariant at the three levels. *)
Record node_ok (s p : bool) (n : CaesarNode) (c : list Block) (r : ChainValidationResult) : Prop := {
  no_stored : stored n c r;
  no_cache : s = true -> cache_ok n c;
  no_pool : s = true -> p = true -> node_inv n c r
}.

Lemma node_inv_ok s p n c r : node_inv n c r -> node_ok s p n c r.
Proof. intros H. split; [by apply node_inv_stored|intros _; exact (ni_cache _ _ _ H)|done]. Qed.

Lemma stored_functional n c r c' r' : stored n c r -> stored n c' r' -> c = c' /\ r = r'.
Proof.
  intros [L V] [L' V']. rewrite L in L'. injection L' as <-. split; [done|]. by eapply valid_chain_functional.
Qed.

Lemma node_step_ok s p n n' c r :
  node_ok s p n c r -> node_step s p n n' ->
  exists c' r', node_ok s p n' c' r' /\ (c' = c \/ work c < work c').
Proof.
  intros [H1 H2 H3] Hst. destruct (node_step_stored s p n n' c r H1 Hst) as (c' & r' & Hs & Hw & Hc).
  exists c', r'. split; [|done]. split; [done|by auto|]. intros -> ->.
  destruct (node_step_pool n n' c r (H3 eq_refl eq_refl) Hst) as (c2 & r2 & Hi).
  by destruct (stored_functional _ _ _ _ _ Hs (node_inv_stored _ _ _ Hi)) as [<- <-].
Qed.
End NodeSystem.

(** ** The node's claims *)

Section NodeClaims.
Context {ssl : OpenSSL} {iter : UnorderedMap}.

(** C1: whatever sequence of starts, stops, reads, transactions, chain
    replacements, mining jobs and pool submissions the node goes through, with
    any system call of a save failing, and with calls that passed the running_
    check before a stop: as long as blocks are within the decoder's limits, the
    chain stays below the ten million blocks of the format and reading the file
    succeeds, the chain on disk stays valid and loadable and changes only to
    one with more work. If moreover no sync of the directory fails (s), the
    cache stays equal to it. If moreover (p) incoming transactions are
    well-formed with ids that no unspent output carries, and no replacement
    confirms a pooled transaction and leaves it admissible, the pool stays
    consistent with it. *)
Theorem node_safety s p n n' c r :
  node_ok s p n c r -> rtc (node_step s p) n n' ->
  exists c' r', node_ok s p n' c' r' /\ (c' = c \/ work c < work c').
Proof.
  intros H Hs. revert c r H. induction Hs as [n|n n1 n2 H1 H2 IH]; intros c r H; [eauto|].
  destruct (node_step_ok s p n n1 c r H H1) as (c1 & r1 & Hi & Hw).
  destruct (IH c1 r1 Hi) as (c2 & r2 & Hi2 & Hw2). exists c2, r2. split; [done|].
  destruct Hw as [->|Hw], Hw2 as [->|Hw2]; auto. right. lia.
Qed.

(** A submitted solution is announced exactly when it was stored: either
    the chain on disk is the old one extended by the block, which was handed to
    the peers, and the call reports success unless the broadcast itself throws;
    or nothing was announced, the stored chain is as before and the call does
    not report success. *)
Theorem announced_block_is_stored f relay_ok n c r b res n' ev :
  node_inv n c r -> storable_block b -> sizeZ c < MAX_BLOCKS -> fsync_dir_fails f = false ->
  submit_pool_solution f relay_ok b n = (res, n', ev) ->
  (ev = [AnnounceBlock b] /\ load (storage_ n') = Ok (c ++ [b]) /\
   res = if relay_ok then Ok true else Throw "TCP send failed") \/
  (ev = [] /\ load (storage_ n') = Ok c /\ res <> Ok true).
Proof.
  intros H Hb Hl Hf Hr.
  destruct (submit_pool_solution_spec f relay_ok n c r b res n' ev H (proj1 Hb) Hl Hf Hr)
    as [(Hne & Hi & ->)|(-> & -> & _ & r' & _ & Hi)].
  - right. split_and!; [done|apply Hi|done].
  - left. split_and!; [done|apply Hi|done].
Qed.

(** A mined block whose parent is no longer the tip when the search ends
    is refused: the call throws, nothing is announced and the node is as
    before. *)
Theorem stale_mined_block_refused f relay_ok n c r p b :
  node_inv n c r -> last c = Some p -> previous_hash (header b) <> block_hash p ->
  mine_commit f relay_ok b n = (Throw "mined block became stale; chain advanced during mining", n, []).
Proof.
  intros H Hp Hne. unfold mine_commit, load_chain. rewrite run_reading, (ni_load _ _ _ H), Hp.
  rewrite run_require. unfold hash_eqb. by rewrite bool_decide_eq_false_2 by done.
Qed.

(** A node started on an empty disk creates the network's genesis chain
    and runs on it; with OpenSSL's digest of the genesis header equal to the
    pinned one, the identity gate lets it through. *)
Theorem fresh_mainnet_start g :
  build_mainnet_genesis = Ok g -> block_hash g = GENESIS_HASH_MAINNET ->
  exists n', start no_faults true true (new_node NETWORK_MAINNET empty_disk) = (Ok tt, n', []) /\
    running_ n' = true /\ node_inv n' [g] (mkValidation ∅ 0).
Proof.
  intros Hg Hh. destruct (genesis_chain_storable GENESIS_BURN_RECIPIENT g) as (Hs & Hv & Hvc);
    [done|by vm_compute|done|].
  unfold start. rewrite run_require. cbn [running_ new_node negb].
  unfold mbind at 1, op_bind at 1, ensure_chain, storage_exists.
  rewrite bool_decide_eq_false_2 by (by intros [? ?]).
  rewrite run_reading. cbn [network_id_ new_node]. change (NETWORK_MAINNET =? NETWORK_TESTNET) with false.
  cbv iota. rewrite Hg. unfold storing. rewrite save_storable by done. rewrite run_nil.
  unfold load_chain. rewrite run_reading. cbn [storage_ set_storage].
  rewrite (proj2 (load_spec _ [g])) by done. cbn [head last].
  rewrite run_require. unfold validate_genesis_network_identity. cbn [network_id_ set_storage new_node].
  change (genesis_hash_for_network NETWORK_MAINNET) with (Some GENESIS_HASH_MAINNET). cbv iota.
  unfold hash_eqb. rewrite bool_decide_eq_true_2 by done. autorewrite with run. eexists. split; [done|].
  split; [done|]. split; simpl; [by apply load_spec|done|done|apply pool_inv_empty|apply map_Forall_empty].
Qed.

(** A chain on disk whose first block does not hash to the pinned genesis
    of the node's network is never served: the start throws and the node does
    not run. *)
Theorem foreign_chain_refused f a b n c r g :
  node_inv n c r -> running_ n = false -> head c = Some g ->
  validate_genesis_network_identity g (genesis_hash_for_network (network_id_ n)) = false ->
  start f a b n =
    (Throw "storage contains a chain from a different network (genesis hash mismatch)", n, []).
Proof.
  intros H Hrun Hg Hid. unfold start. rewrite run_require, Hrun. cbn [negb].
  unfold mbind at 1, op_bind at 1. rewrite (ensure_chain_loaded f n c r H), run_nil.
  unfold load_chain. rewrite run_reading, (ni_load _ _ _ H), Hg.
  destruct (last c) as [t|] eqn:Hl; [|apply last_None in Hl; by subst].
  by rewrite run_require, Hid.
Qed.

(** When the directory sync fails after the rename, [replace_chain] throws
    before it clears the cache flag: the new chain is on disk, and [chain()]
    keeps answering with the old one. *)
Theorem cache_stale_after_sync_failure n c r c' plan :
  node_inv n c r -> running_ n = true -> chain_cache_valid_ n = true ->
  storable c' -> prepare_chain_replacement c c' = Ok (Some plan) ->
  exists n', replace_chain (mkFaults false false false false true []) c' n
      = (Throw "fsync dir failed", n', []) /\
    load (storage_ n') = Ok c' /\ get_chain n' = (Ok c, n', []).
Proof.
  intros H Hrun Hcv Hs Hp. pose proof (loaded_size n c r H) as Hsz.
  assert (sizeZ c' <= UINT64_MAX) as Hszc by (destruct Hs as [_ Hs]; unfold MAX_BLOCKS in Hs; ints).
  pose proof Hp as (r' & Hv & _ & _ & ->)%(prepare_spec c c' plan r (ni_valid _ _ _ H) Hsz Hszc).
  apply rebuild_valid_chain in Hv.
  assert (validate_candidate_chain c' = Ok true) as Hc by (unfold validate_candidate_chain; by rewrite Hv).
  unfold replace_chain, load_chain. rewrite run_require, Hrun, run_reading, (ni_load _ _ _ H),
    run_reading, Hp. rewrite run_storing. unfold replace, save. cbn [plan_chain].
  rewrite bool_decide_eq_false_2 by (intros ->; by destruct Hs as [_ []]).
  rewrite Hc, storable_write by done. cbn. eexists. split; [done|]. split; [by apply load_spec|].
  unfold get_chain. cbn [chain_cache_valid_ set_storage chain_cache_].
  by rewrite Hcv, (ni_cache _ _ _ H Hcv).
Qed.

(** The call, and the chain it leaves. *)
Lemma mine_one_block_run relay_ok n c r prev recipient now max_attempts b b' cbid :
  node_inv n c r -> running_ n = true -> recipient <> [] -> Forall block_typed c ->
  sizeZ c < MAX_BLOCKS -> last c = Some prev ->
  utxo r !! mkOutPoint zero_hash UINT32_MAX = None ->
  transactions_ (mempool_ n) !! zero_hash = None ->
  build prev (mempool_ n) recipient (block_time now prev) (expected_next_difficulty c) 0
    (Some (utxo r)) = Ok b ->
  (cb ← make_coinbase_transaction (sizeZ c) recipient (sizeZ c); txid cb) = Ok cbid ->
  (forall q, is_Some (utxo r !! q) -> op_txid q <> cbid) ->
  transactions_ (mempool_ n) !! cbid = None ->
  mine b 0 max_attempts = Ok (true, b') -> storable_block b' ->
  exists n' r', mine_one_block no_faults relay_ok recipient now max_attempts n =
      (if relay_ok then Ok tt else Throw "TCP send failed", n', [AnnounceBlock b']) /\
    node_inv n' (c ++ [b']) r' /\ transactions_ (mempool_ n') = ∅.
Proof.
  intros H Hrun Hrec Hty Hlen Hlast Hu0 Hz Hb Hcb Hfr Hcbp Hm Hsb.
  assert (exists r', extends c r b' r') as [r' He].
  { apply (mined_block_extends c r prev (mempool_ n) recipient (block_time now prev) b 0 max_attempts b' cbid);
      try assumption; [apply H|unfold MAX_BLOCKS in Hlen; ints|apply H|].
    unfold block_time. destruct (_ <? timestamp _) eqn:E; zbool; lia. }
  pose proof He as [_ (p & Hp & Hh & Hph & _) _ _ _]. simplify_eq.
  assert (validate_block_consensus b' c (utxo r) = Ok true) as Hcons
    by (apply (validate_block_consensus_spec c r b' (ni_valid _ _ _ H)); eauto).
  destruct (append_spec (storage_ n) c r b' (ni_load _ _ _ H) (ni_valid _ _ _ H) Hcons Hsb Hlen)
    as (d' & Ha & Hl).
  assert (mine_commit no_faults relay_ok b' n = (if relay_ok then Ok tt else Throw "TCP send failed",
    set_mempool new_mempool (set_cache (chain_cache_ n) false (set_storage d' n)), [AnnounceBlock b']))
    as Hcommit.
  { unfold mine_commit, load_chain. rewrite run_reading, (ni_load _ _ _ H), Hlast, run_require.
    unfold hash_eqb. rewrite Hph, bool_decide_eq_true_2, Hh, Z.eqb_refl by done. cbn [andb].
    by rewrite run_reading, (rebuild_loaded n c r H), run_reading, Hcons, run_require, run_storing, Ha. }
  unfold mine_one_block, mine_snapshot, load_chain. unfold mbind at 1, op_bind at 1.
  rewrite run_require, Hrun, run_require, bool_decide_eq_false_2 by done. cbn [negb].
  rewrite run_reading, (ni_load _ _ _ H), Hlast, run_reading, (rebuild_loaded n c r H).
  unfold reading at 1. rewrite Hb, run_nil, run_reading, Hm, run_require, Hcommit.
  eexists _, r'. split; [done|]. split; [|done].
  split; simpl; [done| |done|apply pool_inv_empty|apply map_Forall_empty].
  by eapply valid_extend; [apply H|].
Qed.

(** C12: mining succeeds end to end: from a running node whose chain and pool
    satisfy the invariant, a call whose search finds a nonce stores and
    announces the mined block and empties the pool. It is assumed that the
    mined block is within the 16 MiB of the file format (a pool near its own
    limit of 16 MiB and the coinbase can exceed them, and the call throws),
    that the id of the new coinbase is the id of no unspent output and no
    pooled transaction (ids of coinbases can repeat), that neither an unspent
    output nor a pooled transaction has the id of zeroes, that the fields of
    the chain's blocks are within their types, that the chain has fewer than
    ten million blocks, that the recipient is not empty, that the block can be
    built, and that no system call fails. A relay that cannot send makes the
    call throw after all this. *)
Theorem mine_one_block_extends relay_ok n c r prev recipient now max_attempts b b' cbid :
  node_inv n c r -> running_ n = true -> recipient <> [] -> Forall block_typed c ->
  sizeZ c < MAX_BLOCKS -> last c = Some prev ->
  utxo r !! mkOutPoint zero_hash UINT32_MAX = None ->
  transactions_ (mempool_ n) !! zero_hash = None ->
  build prev (mempool_ n) recipient (block_time now prev) (expected_next_difficulty c) 0
    (Some (utxo r)) = Ok b ->
  (cb ← make_coinbase_transaction (sizeZ c) recipient (sizeZ c); txid cb) = Ok cbid ->
  (forall q, is_Some (utxo r !! q) -> op_txid q <> cbid) ->
  transactions_ (mempool_ n) !! cbid = None ->
  mine b 0 max_attempts = Ok (true, b') -> storable_block b' ->
  exists n' r', mine_one_block no_faults relay_ok recipient now max_attempts n =
      (if relay_ok then Ok tt else Throw "TCP send failed", n', [AnnounceBlock b']) /\
    node_inv n' (c ++ [b']) r' /\ transactions_ (mempool_ n') = ∅.
Proof. apply mine_one_block_run. Qed.
End NodeClaims.

(** ** Witnesses *)

Definition node_chain : list Block := [sample_genesis; chain_block1].
(** A running node with a valid cache and the spend of the coinbase pooled. *)
Definition sample_node : CaesarNode :=
  mkNode (sample_disk node_chain) build_pool node_chain true 1 true false NETWORK_MAINNET.

Lemma sample_node_inv : node_inv (ssl := Toy.ssl) sample_node node_chain sample_result1.
Proof.
  split; [apply sample_disk1_load|apply rebuild_valid_chain, sample_chain1_rebuild|done|apply build_pool_inv|].
  apply map_Forall_singleton. decide_vm.
Qed.

(** A block is submitted to the sample node. *)
Lemma node_safety_witness :
  exists n' c' r', rtc (node_step (ssl := Toy.ssl) (iter := listed) true true) sample_node n' /\
    node_inv (ssl := Toy.ssl) n' c' r' /\ work node_chain <= work c'.
Proof.
  destruct (submit_pool_solution (ssl := Toy.ssl) no_faults true chain_block2 sample_node)
    as [[res n'] ev] eqn:E.
  assert (rtc (node_step (ssl := Toy.ssl) (iter := listed) true true) sample_node n') as Hs.
  { apply rtc_once. eapply (step_pool (ssl := Toy.ssl) true true no_faults true chain_block2);
      [decide_vm| |reflexivity|left; exact E].
    intros c. change (storage_ sample_node) with (sample_disk node_chain). unfold node_chain.
    rewrite sample_disk1_load. intros [= <-]. decide_vm. }
  destruct (node_safety (ssl := Toy.ssl) (iter := listed) true true sample_node n' node_chain sample_result1
    (node_inv_ok _ _ _ _ _ sample_node_inv) Hs) as (c' & r' & Hi & Hw).
  exists n', c', r'. split; [exact Hs|]. split; [exact (no_pool _ _ _ _ _ Hi eq_refl eq_refl)|]. destruct Hw as [->|Hw]; lia.
Defined.

Lemma announced_block_is_stored_witness :
  let '(res, n', ev) := submit_pool_solution (ssl := Toy.ssl) no_faults true chain_block2 sample_node in
  (ev = [AnnounceBlock chain_block2] /\
   load (ssl := Toy.ssl) (storage_ n') = Ok (node_chain ++ [chain_block2]) /\ res = Ok true) \/
  (ev = [] /\ load (ssl := Toy.ssl) (storage_ n') = Ok node_chain /\ res <> Ok true).
Proof.
  destruct (submit_pool_solution (ssl := Toy.ssl) no_faults true chain_block2 sample_node)
    as [[res n'] ev] eqn:E.
  apply (announced_block_is_stored (ssl := Toy.ssl) no_faults true sample_node node_chain sample_result1
    chain_block2 res n' ev sample_node_inv); [decide_vm|decide_vm|reflexivity|exact E].
Defined.

(** The first block again, after the chain has it. *)
Lemma stale_mined_block_refused_witness :
  mine_commit (ssl := Toy.ssl) no_faults true chain_block1 sample_node =
    (Throw "mined block became stale; chain advanced during mining", sample_node, []).
Proof.
  apply (stale_mined_block_refused (ssl := Toy.ssl) no_faults true sample_node node_chain sample_result1
    chain_block1 chain_block1 sample_node_inv); [reflexivity|].
  decide_vm.
Defined.

(** A digest that maps the genesis header to the pinned hash. *)
Definition pinned_header : bytes := Eval vm_compute in
  match build_mainnet_genesis (ssl := Toy.ssl) with
  | Ok g => enc_header (header g) | Throw _ => [] end.
Definition pinned_ssl : OpenSSL := {|
  EVP_sha256 := fun m => if bool_decide (m = pinned_header) then GENESIS_HASH_MAINNET else Toy.digest m;
  EVP_PKEY := bytes;
  EVP_PKEY_new_raw_public_key := fun raw => Some raw;
  EVP_PKEY_get_raw_public_key := fun key => key;
  EVP_DigestVerify := fun key _ sig => bool_decide (sig = key);
  EVP_DigestSign := fun key _ => key
|}.
Definition pinned_genesis : Block := Eval vm_compute in
  match build_mainnet_genesis (ssl := pinned_ssl) with Ok g => g | Throw _ => sample_genesis end.

Lemma fresh_mainnet_start_witness :
  exists n', start (ssl := pinned_ssl) no_faults true true (new_node NETWORK_MAINNET empty_disk)
    = (Ok tt, n', []) /\ running_ n' = true.
Proof.
  destruct (fresh_mainnet_start (ssl := pinned_ssl) pinned_genesis) as (n' & H1 & H2 & _);
    [decide_vm..|]. exists n'. exact (conj H1 H2).
Defined.

Definition stopped_node : CaesarNode := set_running false sample_node.
Lemma foreign_chain_refused_witness :
  (start (ssl := Toy.ssl) no_faults true true stopped_node).1.1 =
    Throw "storage contains a chain from a different network (genesis hash mismatch)".
Proof.
  rewrite (foreign_chain_refused (ssl := Toy.ssl) no_faults true true stopped_node node_chain
    sample_result1 sample_genesis); [reflexivity| |reflexivity|reflexivity|decide_vm].
  apply (node_inv_frame sample_node); [exact sample_node_inv|reflexivity|reflexivity|intros _; reflexivity].
Defined.

Lemma cache_stale_after_sync_failure_witness :
  exists n', load (ssl := Toy.ssl) (storage_ n') = Ok sample_chain /\
    get_chain (ssl := Toy.ssl) n' = (Ok node_chain, n', []).
Proof.
  destruct (cache_stale_after_sync_failure (ssl := Toy.ssl) (iter := listed) sample_node node_chain
    sample_result1 sample_chain (mkPlan sample_chain (utxo sample_result)) sample_node_inv)
    as (n' & _ & H); [reflexivity|reflexivity|apply sample_chain_storable| |exists n'; exact H].
  apply (prepare_spec (ssl := Toy.ssl) _ _ _ sample_result1 sample_chain1_valid); [decide_vm..|].
  exists sample_result. split_and!; [|decide_vm|reflexivity|reflexivity].
  apply rebuild_valid_chain, sample_chain_valid.
Defined.

Lemma mine_one_block_extends_witness :
  exists n' r', mine_one_block (ssl := Toy.ssl) (iter := listed) no_faults true sample_owner 120 1 sample_node
      = (Ok tt, n', [AnnounceBlock built_block]) /\
    node_inv (ssl := Toy.ssl) n' (node_chain ++ [built_block]) r'.
Proof.
  destruct (mine_one_block_extends (ssl := Toy.ssl) (iter := listed) true sample_node node_chain
    sample_result1 chain_block1 sample_owner 120 1 built_block built_block built_coinbase_id)
    as (n' & r' & H1 & H2 & _).
  - apply sample_node_inv.
  - reflexivity.
  - discriminate.
  - decide_vm.
  - decide_vm.
  - reflexivity.
  - decide_vm.
  - decide_vm.
  - decide_vm.
  - decide_vm.
  - intros q [o Ho]. cbn [utxo sample_result1] in Ho. apply lookup_singleton_Some in Ho as [<- _].
    decide_vm.
  - decide_vm.
  - apply built_block_mined.
  - decide_vm.
  - exists n', r'. exact (conj H1 H2).
Defined.
