(* ===== verification/P2PWire.v ===== *)
(** The P2P messages: p2p_protocol.hpp, p2p_frame.hpp, p2p_ping.hpp,
    p2p_hello.hpp, p2p_sync_protocol.hpp and p2p_peer_discovery.hpp.

    [WireMessage] is what the connection layer relies on: a message that
    serializes can be read back, and a payload that is read has one encoding. *)

From S2P Require Import Prelude Serialization Crypto.
From stdpp Require Import options.
Local Open Scope Z_scope.

(** ** Message types *)

Module P2PMessageType.
Inductive t :=
  | Hello | Ping | Pong | GetHeaders | Headers | GetBlocks | Blocks | GetMempool | Transaction
  | GetTransaction | Reject | GetSyncBlocks | SyncBlocks | GetPeers | Peers.
#[global] Instance t_eq_dec : EqDecision t.
Proof. solve_decision. Defined.

Definition value (type : t) : Z :=
  match type with
  | Hello => 1 | Ping => 2 | Pong => 3 | GetHeaders => 4 | Headers => 5 | GetBlocks => 6
  | Blocks => 7 | GetMempool => 8 | Transaction => 9 | GetTransaction => 10 | Reject => 11
  | GetSyncBlocks => 12 | SyncBlocks => 13 | GetPeers => 14 | Peers => 15
  end.

(** [static_cast<P2PMessageType>(raw)], used on the values of the enumeration only. *)
Definition cast (raw : Z) : t :=
  match raw with
  | 1 => Hello | 2 => Ping | 3 => Pong | 4 => GetHeaders | 5 => Headers | 6 => GetBlocks
  | 7 => Blocks | 8 => GetMempool | 9 => Transaction | 10 => GetTransaction | 11 => Reject
  | 12 => GetSyncBlocks | 13 => SyncBlocks | 14 => GetPeers | _ => Peers
  end.
End P2PMessageType.

Definition P2P_MESSAGE_TYPE_MIN : Z := P2PMessageType.value P2PMessageType.Hello.
Definition P2P_MESSAGE_TYPE_MAX : Z := P2PMessageType.value P2PMessageType.Peers.

Definition p2p_message_name (type : P2PMessageType.t) : string :=
  match type with
  | P2PMessageType.Hello => "hello"
  | P2PMessageType.Ping => "ping"
  | P2PMessageType.Pong => "pong"
  | P2PMessageType.GetHeaders => "getheaders"
  | P2PMessageType.Headers => "headers"
  | P2PMessageType.GetBlocks => "getblocks"
  | P2PMessageType.Blocks => "blocks"
  | P2PMessageType.GetMempool => "getmempool"
  | P2PMessageType.Transaction => "transaction"
  | P2PMessageType.GetTransaction => "gettransaction"
  | P2PMessageType.Reject => "reject"
  | P2PMessageType.GetSyncBlocks => "getsyncblocks"
  | P2PMessageType.SyncBlocks => "syncblocks"
  | P2PMessageType.GetPeers => "getpeers"
  | P2PMessageType.Peers => "peers"
  end.

(** ** Frames *)

Definition CZR_P2P_MAX_PAYLOAD : Z := 4 * 1024 * 1024.

Record P2PFrame := mkFrame { frame_type : P2PMessageType.t; payload : bytes }.
#[global] Instance P2PFrame_eq_dec : EqDecision P2PFrame.
Proof. solve_decision. Defined.

Definition frame_serialize_binary (f : P2PFrame) : result bytes :=
  throw_if (CZR_P2P_MAX_PAYLOAD <? sizeZ (payload f)) "P2P payload too large" ;;
  Ok (write_bytes (payload f)
        (write_u8 (u8 (P2PMessageType.value (frame_type f)))
           (write_u32 (u32 (sizeZ (payload f))) []))).

Definition read_frame : parser P2PFrame :=
  payload_size ← read_u32;
  _ ← reject_if (CZR_P2P_MAX_PAYLOAD <? payload_size) "P2P payload too large";
  raw_type ← read_u8;
  _ ← reject_if ((byteZ raw_type <? P2P_MESSAGE_TYPE_MIN) || (P2P_MESSAGE_TYPE_MAX <? byteZ raw_type))
        "Invalid P2P message type";
  _ ← (fun r => reject_if (negb (Z.of_nat (remaining r) =? payload_size)) "Invalid P2P frame length" r);
  p ← read_bytes (Z.to_nat payload_size);
  mret (mkFrame (P2PMessageType.cast (byteZ raw_type)) p).
Definition frame_deserialize_binary (data : bytes) : result P2PFrame := run read_frame data.

(** ** Ping and pong *)

Module P2PPing.
Record t := mk { nonce : Z (* u64 *) }.
Definition serialize_binary (m : t) : bytes := write_u64 (nonce m) [].
Definition read : parser t := n ← read_u64; mret (mk n).
Definition deserialize_binary (data : bytes) : result t := run (whole read "Trailing P2P ping data") data.
End P2PPing.

Module P2PPong.
Record t := mk { nonce : Z (* u64 *) }.
Definition serialize_binary (m : t) : bytes := write_u64 (nonce m) [].
Definition read : parser t := n ← read_u64; mret (mk n).
Definition deserialize_binary (data : bytes) : result t := run (whole read "Trailing P2P pong data") data.
End P2PPong.

(** ** Hello *)

Definition CZR_P2P_PROTOCOL_VERSION : Z := 1.
Definition CZR_P2P_MAX_USER_AGENT : Z := 128.

Module P2PHello.
Record t := mk {
  protocol_version : Z; (* u32 *)
  network_id : Z; (* u32 *)
  height : Z; (* u64 *)
  timestamp : Z; (* u64 *)
  user_agent : bytes
}.

Definition serialize_binary (h : t) : result bytes :=
  throw_if (CZR_P2P_MAX_USER_AGENT <? sizeZ (user_agent h)) "P2P user agent too large" ;;
  write_string (user_agent h)
    (write_u64 (timestamp h) (write_u64 (height h)
       (write_u32 (network_id h) (write_u32 (protocol_version h) [])))).

Definition read : parser t :=
  v ← read_u32;
  n ← read_u32;
  h ← read_u64;
  ts ← read_u64;
  ua ← read_string;
  _ ← reject_if (CZR_P2P_MAX_USER_AGENT <? sizeZ ua) "P2P user agent too large";
  mret (mk v n h ts ua).
Definition deserialize_binary (data : bytes) : result t :=
  run (whole read "Trailing P2P hello data") data.
End P2PHello.

(** ** Block synchronisation *)

Record P2PSyncSessionId := mkSession { high : Z (* u64 *); low : Z (* u64 *) }.
#[global] Instance P2PSyncSessionId_eq_dec : EqDecision P2PSyncSessionId.
Proof. solve_decision. Defined.

Definition write_sync_session_id (id : P2PSyncSessionId) (w : BinaryWriter) : BinaryWriter :=
  write_u64 (low id) (write_u64 (high id) w).
Definition read_sync_session_id : parser P2PSyncSessionId :=
  h ← read_u64; l ← read_u64; mret (mkSession h l).

Module GetSyncBlocksMessage.
Definition MAX_HASHES : Z := 1024.
Record t := mk { session_id : P2PSyncSessionId; block_hashes : list Hash256 }.

Definition serialize_binary (m : t) : result bytes :=
  throw_if (bool_decide (block_hashes m = [])) "empty sync block request" ;;
  throw_if (MAX_HASHES <? sizeZ (block_hashes m)) "too many sync block hashes" ;;
  let w := write_u32 (u32 (sizeZ (block_hashes m))) (write_sync_session_id (session_id m) []) in
  Ok (foldl (fun w h => write_bytes (hash_bytes h) w) w (block_hashes m)).

Definition read : parser t :=
  id ← read_sync_session_id;
  count ← read_u32;
  _ ← reject_if ((count =? 0) || (MAX_HASHES <? count)) "invalid sync block request count";
  hs ← read_n (Z.to_nat count) read_hash_block;
  mret (mk id hs).
Definition deserialize_binary (data : bytes) : result t :=
  run (whole read "trailing sync block request data") data.
End GetSyncBlocksMessage.

Module SyncBlocksMessage.
Definition MAX_BLOCKS : Z := 1024.
Record t := mk { session_id : P2PSyncSessionId; blocks : list bytes }.

Definition write_block (w : BinaryWriter) (block : bytes) : result BinaryWriter :=
  throw_if (bool_decide (block = [])) "empty serialized sync block" ;;
  throw_if (CZR_P2P_MAX_PAYLOAD <? sizeZ block) "sync block too large" ;;
  Ok (write_bytes block (write_u32 (u32 (sizeZ block)) w)).
(** An empty list is the abort of the session. *)
Definition serialize_binary (m : t) : result bytes :=
  throw_if (MAX_BLOCKS <? sizeZ (blocks m)) "too many sync blocks" ;;
  foldM_r write_block
    (write_u32 (u32 (sizeZ (blocks m))) (write_sync_session_id (session_id m) [])) (blocks m).

Definition read_block : parser bytes :=
  size ← read_u32;
  _ ← reject_if ((size =? 0) || (CZR_P2P_MAX_PAYLOAD <? size)) "sync block too large";
  read_bytes (Z.to_nat size).
Definition read : parser t :=
  id ← read_sync_session_id;
  count ← read_u32;
  _ ← reject_if (MAX_BLOCKS <? count) "invalid sync block response count";
  bs ← read_n (Z.to_nat count) read_block;
  mret (mk id bs).
Definition deserialize_binary (data : bytes) : result t :=
  run (whole read "trailing sync block response data") data.
End SyncBlocksMessage.

(** ** Peer discovery *)

Definition CZR_P2P_MAX_DISCOVERY_PEERS : Z := 32.
Definition CZR_P2P_MAX_PEER_ADDRESS : Z := 255.

Record P2PPeerEndpoint := mkEndpoint { address : bytes; port : Z (* u16 *) }.
#[global] Instance P2PPeerEndpoint_eq_dec : EqDecision P2PPeerEndpoint.
Proof. solve_decision. Defined.

(** [std::string::c_str()] as a C function reads it: up to the first NUL. *)
Fixpoint c_str (s : bytes) : bytes :=
  match s with
  | [] => []
  | b :: s => if bool_decide (b = Byte.x00) then [] else b :: c_str s
  end.

(** [inet_pton(AF_INET, ...)] of the C library: the address in host order. *)
Class Inet := { inet_pton : bytes -> option Z }.

Section Discovery.
Context {inet : Inet}.

Definition endpoint_validate (e : P2PPeerEndpoint) : result unit :=
  throw_if (bool_decide (address e = [])) "empty P2P peer address" ;;
  throw_if (CZR_P2P_MAX_PEER_ADDRESS <? sizeZ (address e)) "P2P peer address too long" ;;
  throw_if (port e =? 0) "invalid P2P peer port" ;;
  match inet_pton (c_str (address e)) with
  | None => Throw "invalid P2P IPv4 peer address"
  | Some host =>
      let first_octet := Z.land (Z.shiftr host 24) 0xff in
      throw_if (first_octet =? 0) "unspecified P2P peer address" ;;
      throw_if (first_octet =? 127) "loopback P2P peer address" ;;
      throw_if (224 <=? first_octet) "non-unicast P2P peer address"
  end.

Definition make_get_peers_frame : P2PFrame := mkFrame P2PMessageType.GetPeers [].

Definition parse_get_peers_payload (p : bytes) : result (list P2PPeerEndpoint) :=
  throw_if (negb (bool_decide (p = []))) "GetPeers payload must be empty" ;; Ok [].

Definition write_endpoint (w : BinaryWriter) (peer : P2PPeerEndpoint) : result BinaryWriter :=
  endpoint_validate peer ;;
  w ← write_string (address peer) w;
  Ok (write_u32 (port peer) w).

Definition make_peers_frame (peers : list P2PPeerEndpoint) : result P2PFrame :=
  throw_if (CZR_P2P_MAX_DISCOVERY_PEERS <? sizeZ peers) "too many discovery peers" ;;
  w ← foldM_r write_endpoint (write_u32 (u32 (sizeZ peers)) []) peers;
  Ok (mkFrame P2PMessageType.Peers w).

Definition read_endpoint : parser P2PPeerEndpoint :=
  a ← read_string;
  _ ← reject_if (bool_decide (a = [])) "empty discovered peer address";
  _ ← reject_if (CZR_P2P_MAX_PEER_ADDRESS <? sizeZ a) "discovered peer address too long";
  raw_port ← read_u32;
  _ ← reject_if ((raw_port =? 0) || (65535 <? raw_port)) "invalid discovered peer port";
  let peer := mkEndpoint a (u16 raw_port) in
  _ ← lift (endpoint_validate peer);
  mret peer.

Definition read_peers : parser (list P2PPeerEndpoint) :=
  count ← read_u32;
  _ ← reject_if (CZR_P2P_MAX_DISCOVERY_PEERS <? count) "too many discovery peers";
  read_n (Z.to_nat count) read_endpoint.
Definition parse_peers_payload (p : bytes) : result (list P2PPeerEndpoint) :=
  run (whole read_peers "trailing discovery payload") p.
End Discovery.

(** ** The interface of a message *)

Class WireMessage (A : Type) := {
  wire_type : P2PMessageType.t;
  wire_serialize : A -> result bytes;
  wire_deserialize : bytes -> result A;
  wire_ok : A -> Prop;
  wire_roundtrip a : wire_ok a ->
    exists bs, wire_serialize a = Ok bs /\ wire_deserialize bs = Ok a;
  wire_canonical bs a : wire_deserialize bs = Ok a -> wire_ok a /\ wire_serialize a = Ok bs
}.

(** A codec for the whole payload, and a serializer that computes its encoding. *)
Definition wire_of_codec {A} (ty : P2PMessageType.t) (ser : A -> result bytes) (p : parser A)
    (e : string) (enc : A -> bytes) (ok : A -> Prop) (Hc : Codec p enc ok)
    (Hser : forall a, ok a -> ser a = Ok (enc a)) : WireMessage A.
Proof.
  refine {| wire_type := ty; wire_serialize := ser; wire_deserialize := fun bs => run (whole p e) bs;
            wire_ok := ok |}.
  - intros a Ha. exists (enc a). split; [by apply Hser|]. by apply (run_whole_complete _ _ _ _ _ Hc).
  - intros bs a H. apply (run_whole_sound _ _ _ _ _ _ Hc) in H as [Ha ->]. split; [done|]. by apply Hser.
Defined.

(** *** Ping, pong, hello *)

#[global] Instance ping_codec :
  Codec P2PPing.read (fun m => le_encode 8 (P2PPing.nonce m)) (fun m => is_u64 (P2PPing.nonce m)).
Proof.
  eapply codec_enc_ext.
  - codec_field P2PPing.nonce done. codec_done ltac:(destruct t; naive_solver).
  - intros. cbn beta. by rewrite app_nil_r.
Qed.
#[global] Instance pong_codec :
  Codec P2PPong.read (fun m => le_encode 8 (P2PPong.nonce m)) (fun m => is_u64 (P2PPong.nonce m)).
Proof.
  eapply codec_enc_ext.
  - codec_field P2PPong.nonce done. codec_done ltac:(destruct t; naive_solver).
  - intros. cbn beta. by rewrite app_nil_r.
Qed.
#[global] Instance ping_wire : WireMessage P2PPing.t.
Proof.
  apply (wire_of_codec P2PMessageType.Ping (fun m => Ok (P2PPing.serialize_binary m)) _
    "Trailing P2P ping data" _ _ ping_codec).
  intros m _. unfold P2PPing.serialize_binary. by autorewrite with writer.
Defined.
#[global] Instance pong_wire : WireMessage P2PPong.t.
Proof.
  apply (wire_of_codec P2PMessageType.Pong (fun m => Ok (P2PPong.serialize_binary m)) _
    "Trailing P2P pong data" _ _ pong_codec).
  intros m _. unfold P2PPong.serialize_binary. by autorewrite with writer.
Defined.

Definition hello_ok (h : P2PHello.t) : Prop :=
  is_u32 (P2PHello.protocol_version h) /\ is_u32 (P2PHello.network_id h) /\
  is_u64 (P2PHello.height h) /\ is_u64 (P2PHello.timestamp h) /\
  sizeZ (P2PHello.user_agent h) <= CZR_P2P_MAX_USER_AGENT.
#[global] Instance hello_ok_dec h : Decision (hello_ok h) := ltac:(unfold hello_ok; apply _).
Definition enc_hello (h : P2PHello.t) : bytes :=
  le_encode 4 (P2PHello.protocol_version h) ++ le_encode 4 (P2PHello.network_id h) ++
  le_encode 8 (P2PHello.height h) ++ le_encode 8 (P2PHello.timestamp h) ++
  enc_string (P2PHello.user_agent h).

#[global] Instance hello_codec : Codec P2PHello.read enc_hello hello_ok.
Proof.
  eapply codec_enc_ext.
  - codec_field P2PHello.protocol_version ltac:(unfold hello_ok in *; naive_solver).
    codec_field P2PHello.network_id ltac:(unfold hello_ok in *; naive_solver).
    codec_field P2PHello.height ltac:(unfold hello_ok in *; naive_solver).
    codec_field P2PHello.timestamp ltac:(unfold hello_ok in *; naive_solver).
    codec_field P2PHello.user_agent ltac:(unfold hello_ok, CZR_P2P_MAX_USER_AGENT in *; destruct_and?; ints).
    codec_check ltac:(unfold hello_ok in *; destruct_and?; subst; by apply Z.ltb_ge).
    codec_done ltac:(destruct t; unfold hello_ok; zbool; naive_solver).
  - intros. cbn beta. unfold enc_hello. by rewrite app_nil_r.
Qed.
#[global] Instance hello_wire : WireMessage P2PHello.t.
Proof.
  apply (wire_of_codec P2PMessageType.Hello P2PHello.serialize_binary _ "Trailing P2P hello data"
    _ _ hello_codec).
  intros h (_ & _ & _ & _ & Hs). unfold P2PHello.serialize_binary, throw_if.
  rewrite (proj2 (Z.ltb_ge _ _) Hs). cbn [mbind result_bind]. rewrite write_string_encode.
  rewrite (proj2 (Z.ltb_ge UINT32_MAX _)) by (unfold CZR_P2P_MAX_USER_AGENT in Hs; ints).
  autorewrite with writer. unfold enc_hello. by rewrite app_nil_l, <- !app_assoc.
Defined.

(** *** Synchronisation messages *)

Definition session_ok (s : P2PSyncSessionId) : Prop := is_u64 (high s) /\ is_u64 (low s).
#[global] Instance session_ok_dec s : Decision (session_ok s) := ltac:(unfold session_ok; apply _).
Definition enc_session (s : P2PSyncSessionId) : bytes := le_encode 8 (high s) ++ le_encode 8 (low s).

#[global] Instance session_codec : Codec read_sync_session_id enc_session session_ok.
Proof.
  eapply codec_enc_ext.
  - codec_field high ltac:(unfold session_ok in *; naive_solver).
    codec_field low ltac:(unfold session_ok in *; naive_solver).
    codec_done ltac:(destruct t; unfold session_ok; naive_solver).
  - intros. cbn beta. unfold enc_session. by rewrite app_nil_r.
Qed.

Lemma write_session_encode s w : write_sync_session_id s w = w ++ enc_session s.
Proof. unfold write_sync_session_id, enc_session. autorewrite with writer. by rewrite <- app_assoc. Qed.
#[global] Hint Rewrite write_session_encode : writer.

Definition get_sync_ok (m : GetSyncBlocksMessage.t) : Prop :=
  session_ok (GetSyncBlocksMessage.session_id m) /\
  0 < sizeZ (GetSyncBlocksMessage.block_hashes m) <= GetSyncBlocksMessage.MAX_HASHES.
#[global] Instance get_sync_ok_dec m : Decision (get_sync_ok m) := ltac:(unfold get_sync_ok; apply _).
Definition enc_get_sync (m : GetSyncBlocksMessage.t) : bytes :=
  enc_session (GetSyncBlocksMessage.session_id m) ++
  le_encode 4 (sizeZ (GetSyncBlocksMessage.block_hashes m)) ++
  mjoin (hash_bytes <$> GetSyncBlocksMessage.block_hashes m).

(** Side conditions of a counted list of at most [2^32-1] elements. *)
Ltac sized := unfold sizeZ in *; destruct_and?; subst; zbool; unfold_ints; lia.

#[global] Instance get_sync_codec : Codec GetSyncBlocksMessage.read enc_get_sync get_sync_ok.
Proof.
  eapply codec_enc_ext.
  - codec_field GetSyncBlocksMessage.session_id ltac:(unfold get_sync_ok in *; naive_solver).
    codec_field (fun m => sizeZ (GetSyncBlocksMessage.block_hashes m))
      ltac:(unfold get_sync_ok, GetSyncBlocksMessage.MAX_HASHES in *; sized).
    codec_check ltac:(unfold get_sync_ok in *; apply orb_false_iff; sized).
    codec_field GetSyncBlocksMessage.block_hashes
      ltac:(split; [by apply Forall_true|unfold get_sync_ok in *; sized]).
    apply codec_ret. intros m. unfold get_sync_ok. split.
    + destruct m. intros. destruct_and?. by simplify_eq/=.
    + intros ->. simpl. result_inv. destruct_and?. unfold sizeZ in *.
      split_and!; try done; zbool; unfold_ints; lia.
  - intros. cbn beta. unfold enc_get_sync. by rewrite app_nil_r.
Qed.

Lemma get_sync_encode m : get_sync_ok m -> GetSyncBlocksMessage.serialize_binary m = Ok (enc_get_sync m).
Proof.
  intros (_ & H0 & H1). unfold GetSyncBlocksMessage.serialize_binary, throw_if.
  rewrite bool_decide_eq_false_2 by (intros E; rewrite E in H0; done).
  rewrite (proj2 (Z.ltb_ge _ _) H1). cbn [mbind result_bind].
  rewrite foldl_write_bytes, sizeZ_u32 by (unfold GetSyncBlocksMessage.MAX_HASHES in H1; ints).
  autorewrite with writer. unfold enc_get_sync. by rewrite app_nil_l, <- !app_assoc.
Qed.
#[global] Instance get_sync_wire : WireMessage GetSyncBlocksMessage.t.
Proof.
  apply (wire_of_codec P2PMessageType.GetSyncBlocks GetSyncBlocksMessage.serialize_binary _
    "trailing sync block request data" _ _ get_sync_codec). exact get_sync_encode.
Defined.

Lemma get_sync_decode m : get_sync_ok m -> GetSyncBlocksMessage.deserialize_binary (enc_get_sync m) = Ok m.
Proof. by apply (run_whole_complete _ _ _ _ _ get_sync_codec). Qed.

Definition sync_block_ok (b : bytes) : Prop := 0 < sizeZ b <= CZR_P2P_MAX_PAYLOAD.
Definition sync_ok (m : SyncBlocksMessage.t) : Prop :=
  session_ok (SyncBlocksMessage.session_id m) /\ Forall sync_block_ok (SyncBlocksMessage.blocks m) /\
  sizeZ (SyncBlocksMessage.blocks m) <= SyncBlocksMessage.MAX_BLOCKS.
#[global] Instance sync_ok_dec m : Decision (sync_ok m) :=
  ltac:(unfold sync_ok, sync_block_ok; apply _).
Definition enc_sync (m : SyncBlocksMessage.t) : bytes :=
  enc_session (SyncBlocksMessage.session_id m) ++
  le_encode 4 (sizeZ (SyncBlocksMessage.blocks m)) ++
  mjoin (enc_string <$> SyncBlocksMessage.blocks m).

#[global] Instance sync_block_codec : Codec SyncBlocksMessage.read_block enc_string sync_block_ok.
Proof.
  split.
  - intros r b tl Hwf [H0 H1] Hr. unfold enc_string in *. rewrite <- app_assoc in Hr.
    assert (is_u32 (sizeZ b)) as Hu by (unfold CZR_P2P_MAX_PAYLOAD in H1; ints).
    destruct (codec_complete r _ _ Hwf Hu Hr) as (r1 & E1 & A1 & R1).
    destruct (codec_complete (Codec := read_bytes_codec (length b)) r1 b tl (adv_wf _ _ _ A1) eq_refl R1)
      as (r2 & E2 & A2 & R2).
    exists r2. split; [|split; [by eapply advances_trans|done]].
    unfold SyncBlocksMessage.read_block. erewrite parser_bind_run by exact E1. cbn beta.
    erewrite parser_bind_run; [unfold sizeZ; rewrite Nat2Z.id; exact E2|].
    apply reject_if_Ok. split; [apply orb_false_iff; zbool; lia|done].
  - intros r b r' Hwf H. unfold SyncBlocksMessage.read_block in H. parse_inv. result_inv.
    assert (sizeZ b = x) as Hx by (unfold sizeZ; zbool; unfold_ints; lia).
    split; [unfold sync_block_ok; zbool; unfold_ints; lia|]. unfold enc_string. rewrite Hx.
    by eapply advances_trans.
Qed.

#[global] Instance sync_codec : Codec SyncBlocksMessage.read enc_sync sync_ok.
Proof.
  eapply codec_enc_ext.
  - codec_field SyncBlocksMessage.session_id ltac:(unfold sync_ok in *; naive_solver).
    codec_field (fun m => sizeZ (SyncBlocksMessage.blocks m))
      ltac:(unfold sync_ok, SyncBlocksMessage.MAX_BLOCKS in *; sized).
    codec_check ltac:(unfold sync_ok in *; sized).
    codec_field SyncBlocksMessage.blocks ltac:(unfold sync_ok in *; split; [naive_solver|sized]).
    apply codec_ret. intros m. unfold sync_ok. split.
    + destruct m. intros. destruct_and?. by simplify_eq/=.
    + intros ->. simpl. result_inv. destruct_and?. unfold sizeZ in *.
      split_and!; try done; zbool; unfold_ints; lia.
  - intros. cbn beta. unfold enc_sync. by rewrite app_nil_r.
Qed.

Lemma sync_encode m : sync_ok m -> SyncBlocksMessage.serialize_binary m = Ok (enc_sync m).
Proof.
  intros (_ & Hb & Hn). unfold SyncBlocksMessage.serialize_binary.
  unfold throw_if at 1. rewrite (proj2 (Z.ltb_ge _ _) Hn). cbn [mbind result_bind].
  rewrite (foldM_write _ enc_string).
  - rewrite sizeZ_u32 by (unfold SyncBlocksMessage.MAX_BLOCKS in Hn; ints).
    autorewrite with writer. unfold enc_sync. by rewrite app_nil_l, <- !app_assoc.
  - eapply Forall_impl; [exact Hb|]. intros b [H0 H1] w.
    unfold SyncBlocksMessage.write_block, throw_if.
    rewrite bool_decide_eq_false_2 by (intros ->; done). rewrite (proj2 (Z.ltb_ge _ _) H1).
    cbn [mbind result_bind]. rewrite sizeZ_u32 by (unfold CZR_P2P_MAX_PAYLOAD in H1; ints).
    autorewrite with writer. unfold write_bytes, enc_string. by rewrite <- app_assoc.
Qed.
#[global] Instance sync_wire : WireMessage SyncBlocksMessage.t.
Proof.
  apply (wire_of_codec P2PMessageType.SyncBlocks SyncBlocksMessage.serialize_binary _
    "trailing sync block response data" _ _ sync_codec). exact sync_encode.
Defined.

Lemma sync_decode m : sync_ok m -> SyncBlocksMessage.deserialize_binary (enc_sync m) = Ok m.
Proof. by apply (run_whole_complete _ _ _ _ _ sync_codec). Qed.

(** *** Discovery messages *)

Section DiscoveryWire.
Context {inet : Inet}.

Definition endpoint_ok (e : P2PPeerEndpoint) : Prop :=
  is_u16 (port e) /\ endpoint_validate e = Ok tt.
Definition enc_endpoint (e : P2PPeerEndpoint) : bytes :=
  enc_string (address e) ++ le_encode 4 (port e).
Definition peers_ok (l : list P2PPeerEndpoint) : Prop :=
  Forall endpoint_ok l /\ sizeZ l <= CZR_P2P_MAX_DISCOVERY_PEERS.
Definition enc_peers (l : list P2PPeerEndpoint) : bytes :=
  le_encode 4 (sizeZ l) ++ mjoin (enc_endpoint <$> l).

(** What the checks of [validate] establish. *)
Lemma endpoint_validate_Ok e :
  endpoint_validate e = Ok tt <->
  address e <> [] /\ sizeZ (address e) <= CZR_P2P_MAX_PEER_ADDRESS /\ port e <> 0 /\
  exists host, inet_pton (c_str (address e)) = Some host /\
    let first_octet := Z.land (Z.shiftr host 24) 0xff in
    first_octet <> 0 /\ first_octet <> 127 /\ first_octet < 224.
Proof.
  unfold endpoint_validate, throw_if. case_bool_decide; [naive_solver|].
  destruct (_ <? _) eqn:E1; zbool; [split; [done|intros (_ & ? & _); lia]|].
  destruct (port e =? 0) eqn:E2; zbool; [naive_solver|]. cbn [mbind result_bind].
  destruct (inet_pton _) as [host|]; [|naive_solver]. cbv zeta.
  destruct (_ =? 0) eqn:E3; zbool; [naive_solver|].
  destruct (_ =? 127) eqn:E4; zbool; [naive_solver|]. cbn [mbind result_bind].
  destruct (224 <=? _) eqn:E5; zbool; [split; [done|intros (_ & _ & _ & h & [= <-] & _ & _ & ?); lia]|].
  split; [|done]. intros _. split_and!; [done..|]. by exists host.
Qed.

Lemma endpoint_ok_bounds e :
  endpoint_ok e -> address e <> [] /\ sizeZ (address e) <= CZR_P2P_MAX_PEER_ADDRESS /\
    1 <= port e <= 65535.
Proof.
  intros [Hu H]. apply endpoint_validate_Ok in H as (? & ? & ? & _). split_and!; try done; ints.
Qed.

#[global] Instance endpoint_codec : Codec read_endpoint enc_endpoint endpoint_ok.
Proof.
  eapply codec_enc_ext.
  - codec_field address
      ltac:(idtac; match goal with H : endpoint_ok _ |- _ =>
              apply endpoint_ok_bounds in H; unfold CZR_P2P_MAX_PEER_ADDRESS in H; destruct_and?; ints end).
    codec_check ltac:(idtac; match goal with H : endpoint_ok _ /\ _ |- _ =>
      destruct H as [H <-]; apply endpoint_ok_bounds in H; apply bool_decide_eq_false, H end).
    codec_check ltac:(idtac; match goal with H : endpoint_ok _ /\ _ |- _ =>
      destruct H as [H <-]; apply endpoint_ok_bounds in H; apply Z.ltb_ge; lia end).
    codec_field port ltac:(idtac; match goal with H : endpoint_ok _ /\ _ |- _ =>
      destruct H as [[H _] _]; ints end).
    codec_check ltac:(idtac; match goal with H : (endpoint_ok _ /\ _) /\ _ |- _ =>
      destruct H as [[H _] <-]; apply endpoint_ok_bounds in H; apply orb_false_iff; zbool; lia end).
    split.
    + intros r e tl Hwf [[He <-] <-] Hr. exists r.
      split; [|by split; [apply advances_refl|]]. cbv zeta.
      destruct He as [Hu Hv]. rewrite u16_small by ints. unfold mbind, parser_bind, lift.
      destruct e as [a0 p0]. cbn [address port] in *. by rewrite Hv.
    + intros r e r' Hwf Hp. cbv zeta in Hp. apply parser_bind_Ok in Hp as (? & r1 & Hl & Hp).
      apply lift_Ok in Hl as ([] & Hv & [= -> ->]). apply mret_Ok in Hp as [= -> ->]. result_inv. zbool.
      assert (u16 a0 = a0) as Hu by (apply u16_small; ints).
      rewrite Hu in *. split; [|by apply advances_refl]. split; [|done]. split; [|done].
      split; [cbn [port]; ints|done].
  - intros. cbn beta. unfold enc_endpoint. by rewrite app_nil_r.
Qed.

#[global] Instance peers_codec : Codec read_peers enc_peers peers_ok.
Proof.
  eapply codec_ext with (ok := peers_ok).
  - refine (codec_step _ _ _ (fun l => sizeZ l) _ _ _ read_u32_codec _ _).
    { intros l [_ H]. unfold CZR_P2P_MAX_DISCOVERY_PEERS in H. pose proof (sizeZ_nonneg l). ints. }
    intros n Hn. apply codec_reject.
    { intros l [[_ H] <-]. by apply Z.ltb_ge. }
    intros Hr. eapply codec_ext; [apply read_n_codec, endpoint_codec| |by intros].
    intros l. unfold peers_ok, sizeZ. zbool. unfold_ints. split.
    + intros [[? ?] ?]. split; [done|lia].
    + intros [? ?]. split; [split; [done|]|]; lia.
  - done.
  - intros l _. done.
Qed.

Lemma make_peers_encode l :
  peers_ok l -> make_peers_frame l = Ok (mkFrame P2PMessageType.Peers (enc_peers l)).
Proof.
  intros [He Hn]. unfold make_peers_frame. unfold throw_if at 1.
  rewrite (proj2 (Z.ltb_ge _ _) Hn). cbn [mbind result_bind].
  rewrite (foldM_write _ enc_endpoint); cbn [mbind result_bind].
  - rewrite sizeZ_u32 by (unfold CZR_P2P_MAX_DISCOVERY_PEERS in Hn; ints).
    by autorewrite with writer.
  - eapply Forall_impl; [exact He|]. intros e H w.
    pose proof (endpoint_ok_bounds e H) as (_ & Ha & _). unfold write_endpoint.
    destruct H as [_ ->]. cbn [mbind result_bind]. rewrite write_string_encode.
    rewrite (proj2 (Z.ltb_ge UINT32_MAX _)) by (unfold CZR_P2P_MAX_PEER_ADDRESS in Ha; ints).
    cbn [mbind result_bind]. autorewrite with writer. unfold enc_endpoint. by rewrite <- app_assoc.
Qed.

#[global] Instance peers_wire : WireMessage (list P2PPeerEndpoint).
Proof using inet.
  apply (wire_of_codec P2PMessageType.Peers (fun l => f ← make_peers_frame l; Ok (payload f)) _
    "trailing discovery payload" _ _ peers_codec).
  intros l Hl. by rewrite make_peers_encode.
Defined.
End DiscoveryWire.

(** ** Frames on the wire *)

Definition frame_ok (f : P2PFrame) : Prop := sizeZ (payload f) <= CZR_P2P_MAX_PAYLOAD.
#[global] Instance frame_ok_dec f : Decision (frame_ok f) := ltac:(unfold frame_ok; apply _).
Definition enc_frame (f : P2PFrame) : bytes :=
  le_encode 4 (sizeZ (payload f)) ++ u8 (P2PMessageType.value (frame_type f)) :: payload f.

Lemma cast_value t : P2PMessageType.cast (byteZ (u8 (P2PMessageType.value t))) = t.
Proof. by destruct t. Qed.
Lemma value_cast b :
  P2P_MESSAGE_TYPE_MIN <= byteZ b <= P2P_MESSAGE_TYPE_MAX ->
  u8 (P2PMessageType.value (P2PMessageType.cast (byteZ b))) = b.
Proof. intros H. destruct b; try done; exfalso; revert H; vm_compute; tauto. Qed.
Lemma value_range t :
  (byteZ (u8 (P2PMessageType.value t)) <? P2P_MESSAGE_TYPE_MIN)
  || (P2P_MESSAGE_TYPE_MAX <? byteZ (u8 (P2PMessageType.value t))) = false.
Proof. by destruct t. Qed.

Lemma frame_serialize_encode f : frame_ok f -> frame_serialize_binary f = Ok (enc_frame f).
Proof.
  intros H. unfold frame_serialize_binary, throw_if. rewrite (proj2 (Z.ltb_ge _ _) H).
  cbn [mbind result_bind]. unfold frame_ok, CZR_P2P_MAX_PAYLOAD in H.
  rewrite sizeZ_u32 by ints. autorewrite with writer. unfold write_bytes, write_u8, enc_frame.
  by rewrite app_nil_l, <- app_assoc.
Qed.

(** The outcome of the reader on a complete frame and on one cut short. *)
Lemma frame_deserialize_encode f : frame_ok f -> frame_deserialize_binary (enc_frame f) = Ok f.
Proof.
  intros H. unfold frame_ok in H. assert (is_u32 (sizeZ (payload f))) as Hu.
  { pose proof (sizeZ_nonneg (payload f)). unfold CZR_P2P_MAX_PAYLOAD in H. ints. }
  unfold frame_deserialize_binary, run. set (r := new_reader _).
  destruct (codec_complete (Codec := read_u32_codec) r (sizeZ (payload f))
    ([u8 (P2PMessageType.value (frame_type f))] ++ payload f) (new_reader_wf _) Hu eq_refl) as (r1 & E1 & A1 & R1).
  destruct (codec_complete (Codec := read_u8_codec) r1 _ _ (adv_wf _ _ _ A1) I R1) as (r2 & E2 & A2 & R2).
  destruct (codec_complete (Codec := read_bytes_codec (length (payload f))) r2 (payload f) []
    (adv_wf _ _ _ A2) eq_refl ltac:(by rewrite app_nil_r)) as (r3 & E3 & A3 & R3).
  unfold read_frame. erewrite parser_bind_run by exact E1. cbn beta.
  erewrite parser_bind_run by (apply reject_if_Ok; split; [by apply Z.ltb_ge|done]). cbn beta.
  erewrite parser_bind_run by exact E2. cbn beta.
  erewrite parser_bind_run by (apply reject_if_Ok; split; [apply value_range|done]). cbn beta.
  erewrite parser_bind_run.
  2: { apply reject_if_Ok. split; [|done]. rewrite <- (rest_length r2), R2 by apply A2.
       apply negb_false_iff, Z.eqb_refl. }
  unfold sizeZ. rewrite Nat2Z.id. erewrite parser_bind_run by exact E3. cbn. rewrite cast_value. by destruct f.
Qed.

Lemma frame_deserialize_sound bs f :
  frame_deserialize_binary bs = Ok f -> frame_ok f /\ bs = enc_frame f.
Proof.
  unfold frame_deserialize_binary, run. intros ([f' r] & H & [= ->])%bind_Ok.
  pose proof (new_reader_wf bs) as W. unfold read_frame in H. parse_inv.
  result_inv. zbool.
  rename A into Ha, A0 into Hb, A1 into Hc, x10 into r3, x9 into p, x into n.
  assert (sizeZ p = n) as Hx by (unfold sizeZ; unfold_ints; lia).
  assert (rest r3 = []) as Hnil.
  { apply nil_length_inv. pose proof (f_equal length (adv_rest _ _ _ Hc)) as Hl.
    rewrite length_app, rest_length in Hl by done. unfold sizeZ in Hx. lia. }
  split; [by unfold frame_ok; cbn [payload]; rewrite Hx|].
  pose proof (adv_rest _ _ _ (advances_trans _ _ _ _ _ Ha (advances_trans _ _ _ _ _ Hb Hc))) as Hr.
  rewrite Hnil, app_nil_r, new_reader_rest in Hr. rewrite Hr. unfold enc_frame. cbn [frame_type payload].
  by rewrite Hx, value_cast.
Qed.

Lemma frame_deserialize_spec bs f :
  frame_deserialize_binary bs = Ok f <-> frame_ok f /\ bs = enc_frame f.
Proof.
  split; [apply frame_deserialize_sound|]. intros [H ->]. by apply frame_deserialize_encode.
Qed.

Lemma wire_spec `{WireMessage A} (m : A) bs :
  wire_deserialize bs = Ok m <-> wire_ok m /\ wire_serialize m = Ok bs.
Proof.
  split; [apply wire_canonical|]. intros [Hm Hs].
  destruct (wire_roundtrip m Hm) as (bs' & Hs' & Hd). congruence.
Qed.

(** ** Claims *)

(** Every P2P payload has one encoding: a payload is read as a message
    exactly when the message is within the protocol's limits and serializes to
    that payload. For hello, ping, pong and the two synchronisation messages. *)
Theorem p2p_payloads_canonical bs :
  (forall h, P2PHello.deserialize_binary bs = Ok h <->
     hello_ok h /\ P2PHello.serialize_binary h = Ok bs) /\
  (forall m, P2PPing.deserialize_binary bs = Ok m <->
     is_u64 (P2PPing.nonce m) /\ P2PPing.serialize_binary m = bs) /\
  (forall m, P2PPong.deserialize_binary bs = Ok m <->
     is_u64 (P2PPong.nonce m) /\ P2PPong.serialize_binary m = bs) /\
  (forall m, GetSyncBlocksMessage.deserialize_binary bs = Ok m <->
     get_sync_ok m /\ GetSyncBlocksMessage.serialize_binary m = Ok bs) /\
  (forall m, SyncBlocksMessage.deserialize_binary bs = Ok m <->
     sync_ok m /\ SyncBlocksMessage.serialize_binary m = Ok bs).
Proof.
  split_and!; intros m.
  - exact (wire_spec m bs).
  - etrans; [exact (wire_spec m bs)|]. cbn. naive_solver.
  - etrans; [exact (wire_spec m bs)|]. cbn. naive_solver.
  - exact (wire_spec m bs).
  - exact (wire_spec m bs).
Qed.

(** The discovery parser is a trust boundary: a payload it accepts lists
    at most 32 endpoints, each with a nonzero port and an address that the C
    library reads as an IPv4 address outside 0/8, 127/8 and 224/3, and is the
    payload the node itself would send for that list. *)
Theorem discovered_peers_are_unicast {inet : Inet} bs peers :
  parse_peers_payload bs = Ok peers ->
  sizeZ peers <= CZR_P2P_MAX_DISCOVERY_PEERS /\
  Forall (fun e => 1 <= port e <= 65535 /\ exists host,
    inet_pton (c_str (address e)) = Some host /\
    let first_octet := Z.land (Z.shiftr host 24) 0xff in
    1 <= first_octet < 224 /\ first_octet <> 127) peers /\
  make_peers_frame peers = Ok (mkFrame P2PMessageType.Peers bs).
Proof.
  intros H. apply (run_whole_sound _ _ _ _ _ _ peers_codec) in H as [Hok ->].
  split; [apply Hok|]. split; [|by apply make_peers_encode].
  destruct Hok as [He _]. eapply Forall_impl; [exact He|]. intros e H.
  pose proof (endpoint_ok_bounds e H) as (_ & _ & Hp). split; [done|].
  destruct H as [_ (_ & _ & _ & host & Hh & H0 & H1 & H2)%endpoint_validate_Ok].
  exists host. split; [done|]. cbv zeta in *.
  assert (0 <= Z.land (Z.shiftr host 24) 255) by (apply Z.land_nonneg; right; lia). lia.
Qed.

(** The check sees the address only up to a NUL byte: what follows is not
    looked at, so one endpoint has many accepted spellings. *)
Lemma endpoint_nul_suffix {inet : Inet} e junk :
  endpoint_validate e = Ok tt -> Byte.x00 ∉ address e ->
  sizeZ (address e) + 1 + sizeZ junk <= CZR_P2P_MAX_PEER_ADDRESS ->
  endpoint_validate (mkEndpoint (address e ++ Byte.x00 :: junk) (port e)) = Ok tt.
Proof.
  intros (Ha & _ & Hp & H)%endpoint_validate_Ok Hnul Hs. apply endpoint_validate_Ok.
  cbn [address port]. rewrite sizeZ_app. split_and!; [by destruct (address e)| |done|].
  - unfold sizeZ in *. simpl. lia.
  - assert (forall s k, Byte.x00 ∉ s -> c_str (s ++ Byte.x00 :: k) = s /\ c_str s = s) as Hc.
    { intros s k. induction s as [|b s IH]; [done|]. intros [Hb Hs']%not_elem_of_cons. simpl.
      rewrite bool_decide_eq_false_2 by done. destruct (IH Hs') as [-> ->]. done. }
    destruct (Hc (address e) junk Hnul) as [-> E]. by rewrite E in H.
Qed.

(** ** Witnesses *)

(** A reader of one address, [10.0.0.1]. *)
Definition lan_inet : Inet := {| inet_pton s :=
  if bool_decide (s = str "10.0.0.1") then Some 0x0A000001 else None |}.
Definition lan_peer : P2PPeerEndpoint := mkEndpoint (str "10.0.0.1") 18444.
Lemma discovered_peers_are_unicast_witness :
  make_peers_frame (inet := lan_inet) [lan_peer] =
    Ok (mkFrame P2PMessageType.Peers (enc_peers [lan_peer])).
Proof.
  apply (discovered_peers_are_unicast (inet := lan_inet) (enc_peers [lan_peer]) [lan_peer]).
  vm_compute. reflexivity.
Defined.
