(* ===== verification/P2PStream.v ===== *)
(** The byte stream under the messages: [P2PTcpSocket::receive_all],
    [receive_all_until] and [send_all] of p2p_tcp.hpp, [P2PConnection] of
    p2p_connection.hpp and the hello handshake of p2p_handshake.hpp.

    What the kernel does is a script, one entry per system call, so that every
    way of cutting the stream into pieces, every interruption and every failure
    is a script. After the last entry the peer has closed the connection and
    the clock has passed every deadline. *)

From S2P Require Import Prelude Serialization Crypto P2PWire.
From stdpp Require Import options.
Local Open Scope Z_scope.

(** ** Receiving *)

(** What the next [recv] meets. *)
Inductive RecvEvent :=
  | Data (b : byte) (bs : bytes) (* bytes that are available *)
  | FdClosed (* another thread has closed the socket *)
  | Eintr
  | Again (* EAGAIN or EWOULDBLOCK *)
  | RecvFailed.

(** [recv] of at most [want] bytes: the bytes, and the event that is left when
    more were available. *)
Definition recv_data (want : nat) (b : byte) (bs : bytes) : bytes * list RecvEvent :=
  (take want (b :: bs),
   match drop want (b :: bs) with [] => [] | c :: cs => [Data c cs] end).

Definition timeout_message (received : bytes) : string :=
  if bool_decide (received = []) then "TCP receive timeout"
  else "TCP receive timeout during partial frame".

(** The loop [while (received < size)]. When data is left over, [recv] filled
    the request and the loop ends. *)
Fixpoint receive_loop (evs : list RecvEvent) (size : nat) (received : bytes)
    : result bytes * list RecvEvent :=
  if bool_decide (length received < size)%nat then
    match evs with
    | [] => (Throw "TCP receive failed: peer closed connection", [])
    | FdClosed :: _ => (Throw "TCP receive failed: socket closed", evs)
    | Data b bs :: evs =>
        match recv_data (size - length received) b bs with
        | (got, []) => receive_loop evs size (received ++ got)
        | (got, left_over) => (Ok (received ++ got), left_over ++ evs)
        end
    | Eintr :: evs => receive_loop evs size received
    | Again :: evs => (Throw (timeout_message received), evs)
    | RecvFailed :: evs => (Throw "TCP receive failed", evs)
    end
  else (Ok received, evs).
Definition receive_all (evs : list RecvEvent) (size : nat) : result bytes * list RecvEvent :=
  receive_loop evs size [].

(** One iteration of [receive_all_until]: the clock, and what [poll] returns. *)
Inductive PollResult := Ready | PollTimeout | PollEintr | PollFailed.
Record Tick := mkTick { now : Z; poll : PollResult }.

Fixpoint receive_until_loop (deadline : Z) (ticks : list Tick) (evs : list RecvEvent) (size : nat)
    (received : bytes) : result bytes * list Tick * list RecvEvent :=
  if bool_decide (length received < size)%nat then
    match evs with
    | FdClosed :: _ => (Throw "TCP receive failed: socket closed", ticks, evs)
    | _ =>
        match ticks with
        | [] => (Throw "TCP receive deadline exceeded", [], evs)
        | t :: ticks =>
            if deadline <=? now t then (Throw "TCP receive deadline exceeded", ticks, evs)
            else
              match poll t with
              | PollTimeout => (Throw "TCP receive deadline exceeded", ticks, evs)
              | PollEintr => receive_until_loop deadline ticks evs size received
              | PollFailed => (Throw "TCP poll failed", ticks, evs)
              | Ready =>
                  match evs with
                  | Data b bs :: evs =>
                      let '(got, left_over) := recv_data (size - length received) b bs in
                      receive_until_loop deadline ticks (left_over ++ evs) size (received ++ got)
                  | Eintr :: evs | Again :: evs => receive_until_loop deadline ticks evs size received
                  | RecvFailed :: evs => (Throw "TCP receive failed", ticks, evs)
                  | _ => (Throw "TCP receive failed: peer closed connection", ticks, evs)
                  end
              end
        end
    end
  else (Ok received, ticks, evs).
Definition receive_all_until (deadline : Z) (ticks : list Tick) (evs : list RecvEvent) (size : nat)
    : result bytes * list Tick * list RecvEvent :=
  receive_until_loop deadline ticks evs size [].

(** ** Sending *)

(** What the next [send] does: it takes at most [S n] bytes, or fails. *)
Inductive SendEvent := Accepts (n : nat) | SendEintr | SendFailed.

Fixpoint send_loop (evs : list SendEvent) (data sent : bytes) : result unit * bytes * list SendEvent :=
  match data with
  | [] => (Ok tt, sent, evs)
  | _ =>
      match evs with
      | Accepts n :: evs => send_loop evs (drop (S n) data) (sent ++ take (S n) data)
      | SendEintr :: evs => send_loop evs data sent
      | SendFailed :: evs => (Throw "TCP send failed", sent, evs)
      | [] => (Throw "TCP send failed", sent, [])
      end
  end.
(** The second component is what reaches the peer. *)
Definition send_all (fd_open : bool) (evs : list SendEvent) (data : bytes)
    : result unit * bytes * list SendEvent :=
  if fd_open then send_loop evs data [] else (Throw "TCP socket is closed", [], evs).

(** ** P2PConnection *)

Definition send_frame (fd_open : bool) (evs : list SendEvent) (f : P2PFrame)
    : result unit * bytes * list SendEvent :=
  match frame_serialize_binary f with
  | Throw e => (Throw e, [], evs)
  | Ok encoded => send_all fd_open evs encoded
  end.

(** The length prefix, assembled from its four bytes. *)
Definition frame_length (length_bytes : bytes) : Z :=
  let byte_at i := byteZ (default Byte.x00 (length_bytes !! i)) in
  Z.lor (Z.lor (Z.lor (byte_at 0%nat) (Z.shiftl (byte_at 1%nat) 8)) (Z.shiftl (byte_at 2%nat) 16))
    (Z.shiftl (byte_at 3%nat) 24).

Definition receive_frame (evs : list RecvEvent) : result P2PFrame * list RecvEvent :=
  match receive_all evs 4 with
  | (Throw e, evs) => (Throw e, evs)
  | (Ok length_bytes, evs) =>
      let payload_size := frame_length length_bytes in
      if CZR_P2P_MAX_PAYLOAD <? payload_size then (Throw "P2P payload too large", evs)
      else
        match receive_all evs (1 + Z.to_nat payload_size) with
        | (Throw e, evs) => (Throw e, evs)
        | (Ok body, evs) => (frame_deserialize_binary (length_bytes ++ body), evs)
        end
  end.

Definition receive_frame_with_deadline (deadline : Z) (ticks : list Tick) (evs : list RecvEvent)
    : result P2PFrame * list Tick * list RecvEvent :=
  match receive_all_until deadline ticks evs 4 with
  | (Throw e, ticks, evs) => (Throw e, ticks, evs)
  | (Ok length_bytes, ticks, evs) =>
      let payload_size := frame_length length_bytes in
      if CZR_P2P_MAX_PAYLOAD <? payload_size then (Throw "P2P payload too large", ticks, evs)
      else
        match receive_all_until deadline ticks evs (1 + Z.to_nat payload_size) with
        | (Throw e, ticks, evs) => (Throw e, ticks, evs)
        | (Ok body, ticks, evs) => (frame_deserialize_binary (length_bytes ++ body), ticks, evs)
        end
  end.

(** ** The handshake *)

Definition make_hello_frame (hello : P2PHello.t) : result P2PFrame :=
  p ← P2PHello.serialize_binary hello; Ok (mkFrame P2PMessageType.Hello p).

Definition parse_hello_frame (f : P2PFrame) : result P2PHello.t :=
  throw_if (negb (bool_decide (frame_type f = P2PMessageType.Hello))) "Expected P2P hello frame" ;;
  P2PHello.deserialize_binary (payload f).

Definition validate_hello (hello : P2PHello.t) (expected_network_id : Z) : bool :=
  (P2PHello.protocol_version hello =? CZR_P2P_PROTOCOL_VERSION)
  && (P2PHello.network_id hello =? expected_network_id).

(** [deadline] is the clock at the call plus [timeout]. The result comes with
    what was sent. *)
Definition perform_hello_handshake (sends : list SendEvent) (ticks : list Tick)
    (evs : list RecvEvent) (local_hello : P2PHello.t) (expected_network_id deadline : Z)
    : result unit * bytes :=
  match make_hello_frame local_hello with
  | Throw e => (Throw e, [])
  | Ok f =>
      match send_frame true sends f with
      | (Throw e, sent, _) => (Throw e, sent)
      | (Ok _, sent, _) =>
          let '(remote_frame, _, _) := receive_frame_with_deadline deadline ticks evs in
          (f ← remote_frame;
           remote_hello ← parse_hello_frame f;
           throw_if (negb (validate_hello remote_hello expected_network_id))
             "P2P hello validation failed", sent)
      end
  end.

(** ** The stream a script delivers *)

(** The bytes that arrive before the first event that ends a read; a patient
    reader, which polls against a deadline, waits through timeouts. *)
Fixpoint stream_of (patient : bool) (evs : list RecvEvent) : bytes :=
  match evs with
  | Data b bs :: evs => (b :: bs) ++ stream_of patient evs
  | Eintr :: evs => stream_of patient evs
  | Again :: evs => if patient then stream_of patient evs else []
  | _ => []
  end.
Abbreviation stream := (stream_of false).

Lemma recv_data_spec want b bs got left_over :
  (0 < want)%nat -> recv_data want b bs = (got, left_over) ->
  got <> [] /\ (length got <= want)%nat /\ (forall p evs, b :: bs ++ stream_of p evs = got ++ stream_of p (left_over ++ evs)) /\
  (left_over <> [] -> length got = want) /\ (length left_over <= 1)%nat.
Proof.
  intros Hw [= <- <-].
  pose proof (take_drop want (b :: bs)) as Htd. pose proof (length_take (b :: bs) want) as Hl.
  split_and!.
  - destruct want; [lia|done].
  - lia.
  - intros p evs. rewrite (app_comm_cons bs), <- Htd at 1. rewrite <- app_assoc. f_equal.
    by destruct (drop want (b :: bs)).
  - intros Hne. destruct (drop want (b :: bs)) eqn:E; [done|].
    apply (f_equal length) in E. rewrite length_drop in E. simpl length in *. lia.
  - destruct (drop want (b :: bs)); simpl; lia.
Qed.

Lemma receive_loop_sound evs size received out evs' :
  (length received <= size)%nat -> receive_loop evs size received = (Ok out, evs') ->
  exists got, out = received ++ got /\ length out = size /\ stream evs = got ++ stream evs'.
Proof.
  revert received. induction evs as [|ev evs IH]; intros received Hle; cbn [receive_loop];
    case_bool_decide as Hlt; try done.
  1,3: intros [= <- <-]; exists []; split_and!; [by rewrite app_nil_r|lia|done].
  destruct ev as [b bs| | | |]; try done.
  - destruct (recv_data _ b bs) as [got left_over] eqn:E.
    apply recv_data_spec in E as (Hne & Hgl & Hst & Hfull & Hlo); [|lia]. specialize (Hst false evs).
    destruct left_over as [|ev [|? ?]]; [| |simpl in Hlo; lia].
    + intros (got' & -> & Hl & Hs)%IH; [|rewrite length_app; lia].
      exists (got ++ got'). split_and!; [by rewrite app_assoc|done|].
      cbn [stream_of app]. rewrite Hst. cbn [app]. by rewrite Hs, <- app_assoc.
    + intros [= <- <-]. exists got. split_and!; [done| |done]. rewrite length_app, Hfull by done. lia.
  - by apply IH.
Qed.

Lemma receive_loop_complete evs size received :
  (length received <= size)%nat -> (size - length received <= length (stream evs))%nat ->
  exists evs', receive_loop evs size received
      = (Ok (received ++ take (size - length received) (stream evs)), evs').
Proof.
  revert received. induction evs as [|ev evs IH]; intros received Hle Hn; cbn [receive_loop];
    case_bool_decide as Hlt.
  2,4: replace (size - length received)%nat with 0%nat by lia; rewrite app_nil_r; eauto.
  - simpl in Hn. lia.
  - destruct ev as [b bs| | | |]; cbn [stream_of length] in Hn; try lia.
    2: by apply IH.
    destruct (recv_data _ b bs) as [got left_over] eqn:E.
    apply recv_data_spec in E as (Hne & Hgl & Hst & Hfull & Hlo); [|lia]. specialize (Hst false evs).
    cbn [stream_of app] in Hn |- *. rewrite Hst, length_app in Hn.
    destruct left_over as [|ev [|? ?]]; [| |simpl in Hlo; lia].
    + cbn [app] in *. destruct (IH (received ++ got)) as [evs' Hr]; [rewrite length_app; lia..|].
      exists evs'. rewrite Hr, Hst, <- app_assoc, take_app, length_app. do 4 f_equal.
      * symmetry. by apply take_ge.
      * f_equal. lia.
    + eexists. rewrite Hst, <- Hfull, take_app_length by done. done.
Qed.

(** [receive_all] returns the next bytes of the stream, whatever the pieces. *)
Lemma receive_all_spec evs size :
  (size <= length (stream evs))%nat ->
  exists evs', receive_all evs size = (Ok (take size (stream evs)), evs') /\
    stream evs' = drop size (stream evs).
Proof.
  intros Hn. destruct (receive_loop_complete evs size []) as [evs' H]; [simpl; lia..|].
  cbn [length app] in H. rewrite Nat.sub_0_r in H. exists evs'. split; [done|].
  apply receive_loop_sound in H as (got & Hg & Hl & Hs); [|simpl; lia].
  cbn [app] in Hg. subst got. rewrite <- (take_drop size (stream evs)) in Hs at 1.
  by apply app_inv_head in Hs.
Qed.

Lemma receive_all_sound evs size out evs' :
  receive_all evs size = (Ok out, evs') -> length out = size /\ stream evs = out ++ stream evs'.
Proof. intros (got & -> & Hl & Hs)%receive_loop_sound; [done|simpl; lia]. Qed.

(** ** The length prefix *)

Lemma frame_length_decode l : length l = 4%nat -> frame_length l = le_decode l.
Proof.
  intros H. pose proof (read_le_loop_decode 4 0 0 (new_reader l)) as E.
  specialize (E ltac:(lia) ltac:(lia) (new_reader_wf l) ltac:(unfold remaining; simpl; lia)).
  rewrite new_reader_rest, take_ge in E by lia.
  pose proof (f_equal fst E) as E1. cbn [fst] in E1. rewrite Z.pow_0_r in E1.
  replace (0 + 1 * le_decode l) with (le_decode l) in E1 by lia. rewrite <- E1.
  destruct l as [|b0 [|b1 [|b2 [|b3 [|]]]]]; done.
Qed.

Lemma frame_length_encode v : is_u32 v -> frame_length (le_encode 4 v) = v.
Proof.
  intros H. rewrite frame_length_decode by apply le_encode_length.
  apply le_decode_encode_small. simpl. ints.
Qed.

Lemma enc_frame_split f :
  enc_frame f = le_encode 4 (sizeZ (payload f)) ++ (u8 (P2PMessageType.value (frame_type f)) :: payload f).
Proof. done. Qed.

Lemma frame_size_u32 f : frame_ok f -> is_u32 (sizeZ (payload f)).
Proof. unfold frame_ok, CZR_P2P_MAX_PAYLOAD. pose proof (sizeZ_nonneg (payload f)). ints. Qed.

(** A frame at the front of the stream is received, and only its bytes are
    taken. *)
Lemma receive_frame_complete evs f tl :
  frame_ok f -> stream evs = enc_frame f ++ tl ->
  exists evs', receive_frame evs = (Ok f, evs') /\ stream evs' = tl.
Proof.
  intros Hf Hs. pose proof (frame_size_u32 f Hf) as Hu. rewrite enc_frame_split, <- app_assoc in Hs.
  assert (length (le_encode 4 (sizeZ (payload f))) = 4%nat) as Hl by apply le_encode_length.
  destruct (receive_all_spec evs 4) as (e1 & H1 & S1); [rewrite Hs, length_app; lia|].
  rewrite Hs, <- Hl, take_app_length in H1. rewrite Hs, <- Hl, drop_app_length in S1.
  destruct (receive_all_spec e1 (1 + length (payload f))) as (e2 & H2 & S2);
    [rewrite S1, length_app; simpl; lia|].
  set (body := u8 (P2PMessageType.value (frame_type f)) :: payload f) in *.
  change (1 + length (payload f))%nat with (length body) in *.
  rewrite S1, take_app_length in H2. rewrite S1, drop_app_length in S2.
  exists e2. split; [|done]. unfold receive_frame. rewrite Hl in H1. rewrite H1.
  rewrite frame_length_encode by done. rewrite (proj2 (Z.ltb_ge _ _) Hf).
  unfold sizeZ at 1. rewrite Nat2Z.id. change (1 + length (payload f))%nat with (length body). rewrite H2.
  unfold body. rewrite <- enc_frame_split. by rewrite frame_deserialize_encode.
Qed.

(** What is received as a frame was the encoding of that frame. *)
Lemma receive_frame_sound evs f evs' :
  receive_frame evs = (Ok f, evs') -> frame_ok f /\ stream evs = enc_frame f ++ stream evs'.
Proof.
  unfold receive_frame. destruct (receive_all evs 4) as [[lb|] e1] eqn:E1; [|done].
  destruct (_ <? _); [done|]. destruct (receive_all e1 _) as [[body|] e2] eqn:E2; [|done].
  intros [= Hd <-]. apply receive_all_sound in E1 as [_ S1], E2 as [_ S2].
  apply frame_deserialize_sound in Hd as [Hf Hb]. split; [done|].
  by rewrite S1, S2, app_assoc, Hb.
Qed.

(** ** Sending *)

Lemma send_loop_spec evs data sent r out evs' :
  send_loop evs data sent = (r, out, evs') ->
  exists k, out = sent ++ take k data /\ (r = Ok tt -> out = sent ++ data).
Proof.
  revert data sent. induction evs as [|ev evs IH]; intros data sent; cbn [send_loop].
  - destruct data; intros [= <- <- <-]; exists 0%nat; (split; [by rewrite app_nil_r|]); intros; by rewrite ?app_nil_r.
  - destruct data as [|b data]; [intros [= <- <- <-]; exists 0%nat; cbn [take]; by rewrite !app_nil_r|].
    destruct ev as [n| |].
    + intros (k & -> & H)%IH. exists (S n + k)%nat. split.
      * rewrite <- app_assoc. f_equal. by rewrite <- take_take_drop.
      * intros E. rewrite (H E), <- app_assoc. f_equal. by rewrite take_drop.
    + apply IH.
    + intros [= <- <- <-]. exists 0%nat. split; [by rewrite app_nil_r|done].
Qed.

Lemma send_frame_success fd evs f out evs' :
  send_frame fd evs f = (Ok tt, out, evs') -> frame_ok f /\ out = enc_frame f.
Proof.
  unfold send_frame. destruct (frame_serialize_binary f) as [enc|] eqn:E; [|done].
  assert (frame_ok f) as Hf.
  { unfold frame_serialize_binary, throw_if in E. destruct (_ <? _) eqn:El; [done|]. by apply Z.ltb_ge in El. }
  rewrite frame_serialize_encode in E by done. injection E as <-.
  unfold send_all. destruct fd; [|done]. intros (k & _ & H)%send_loop_spec. split; [done|].
  by rewrite H.
Qed.

(** ** Receiving against a deadline *)

Lemma receive_until_sound deadline ticks evs size received out ticks' evs' :
  (length received <= size)%nat ->
  receive_until_loop deadline ticks evs size received = (Ok out, ticks', evs') ->
  exists used got, ticks = used ++ ticks' /\ Forall (fun t => now t < deadline) used /\
    out = received ++ got /\ length out = size /\ stream_of true evs = got ++ stream_of true evs'.
Proof.
  revert evs received. induction ticks as [|t ticks IH]; intros evs received Hle; cbn [receive_until_loop];
    case_bool_decide as Hlt; try by destruct evs as [|[]].
  1,3: intros [= <- <- <-]; exists [], []; split_and!; [done|done|by rewrite app_nil_r|lia|done].
  assert (forall evs1 got, (length (received ++ got) <= size)%nat ->
    stream_of true evs = got ++ stream_of true evs1 -> now t < deadline ->
    receive_until_loop deadline ticks evs1 size (received ++ got) = (Ok out, ticks', evs') ->
    exists used got, t :: ticks = used ++ ticks' /\ Forall (fun t => now t < deadline) used /\
      out = received ++ got /\ length out = size /\ stream_of true evs = got ++ stream_of true evs')
    as Hstep.
  { intros evs1 got Hl Hs Ht (used & got' & -> & Hu & -> & Hlen & Hs')%IH; [|done].
    exists (t :: used), (got ++ got'). split_and!; [done|by constructor|by rewrite app_assoc|done|].
    by rewrite Hs, Hs', app_assoc. }
  assert (now t < deadline -> receive_until_loop deadline ticks (tail evs) size received = (Ok out, ticks', evs') ->
    stream_of true (tail evs) = stream_of true evs ->
    exists used got, t :: ticks = used ++ ticks' /\ Forall (fun t => now t < deadline) used /\
      out = received ++ got /\ length out = size /\ stream_of true evs = got ++ stream_of true evs') as Hskip.
  { intros Ht Hr Hs. apply (Hstep (tail evs) []); [by rewrite app_nil_r|by rewrite Hs|done|by rewrite app_nil_r]. }
  destruct (deadline <=? now t) eqn:Hd; [by destruct evs as [|[]]|]. apply Z.leb_gt in Hd.
  destruct (poll t); try by destruct evs as [|[]].
  - destruct evs as [|[b bs| | | |] evs]; try done; [|intros H; by apply Hskip..].
    destruct (recv_data _ b bs) as [got left_over] eqn:E.
    apply recv_data_spec in E as (_ & Hgl & Hst & _ & _); [|lia].
    apply Hstep; [rewrite length_app; lia|apply Hst|done].
  - intros H. destruct evs as [|[] evs]; try done;
      (eapply (Hstep _ []); [by rewrite app_nil_r| |done|rewrite app_nil_r; exact H]); done.
Qed.

(** Enough ready ticks before the deadline: the read completes, whatever the
    pieces. Each tick consumes an event or ends the read. *)
Lemma receive_until_complete deadline ticks evs size received :
  Forall (fun t => now t < deadline /\ poll t = Ready) ticks ->
  (length evs < length ticks)%nat -> (length received <= size)%nat ->
  (size - length received <= length (stream_of true evs))%nat ->
  exists used ticks' evs', receive_until_loop deadline ticks evs size received
    = (Ok (received ++ take (size - length received) (stream_of true evs)), ticks', evs') /\
    ticks = used ++ ticks' /\ (length evs' + length used <= S (length evs))%nat.
Proof.
  revert evs received. induction ticks as [|t ticks IH]; intros evs received Ht Hlen Hle Hn; [simpl in Hlen; lia|].
  apply Forall_cons in Ht as [[Htd Htr] Ht]. cbn [receive_until_loop]. case_bool_decide as Hlt.
  2: { replace (size - length received)%nat with 0%nat by lia. exists [], (t :: ticks), evs.
       rewrite app_nil_r. split_and!; [done|done|simpl; lia]. }
  rewrite (proj2 (Z.leb_gt _ _) Htd), Htr.
  assert (forall evs1, (length evs1 < length ticks)%nat -> stream_of true evs1 = stream_of true evs ->
    (S (length evs1) <= length evs)%nat ->
    exists used ticks' evs', receive_until_loop deadline ticks evs1 size received
      = (Ok (received ++ take (size - length received) (stream_of true evs)), ticks', evs') /\
      t :: ticks = used ++ ticks' /\ (length evs' + length used <= S (length evs))%nat) as Hskip.
  { intros evs1 H1 H2 H3. destruct (IH evs1 received Ht H1 Hle) as (used & ticks' & evs' & Hr & -> & Hc);
      [by rewrite H2|]. exists (t :: used), ticks', evs'. rewrite Hr, H2. split_and!; [done|done|simpl; lia]. }
  destruct evs as [|[b bs| | | |] evs]; cbn [length] in *; try (simpl in Hn; lia);
    [|apply Hskip; [lia|done|lia]..].
  destruct (recv_data _ b bs) as [got left_over] eqn:E.
  apply recv_data_spec in E as (Hne & Hgl & Hst & Hfull & Hlo); [|lia]. specialize (Hst true evs).
  cbn [stream_of app] in *. rewrite Hst, length_app in Hn. destruct left_over as [|ev l].
  - destruct (IH evs (received ++ got) Ht) as (used & ticks' & evs' & Hr & -> & Hc);
      [lia|rewrite length_app; lia|rewrite length_app; cbn [app] in Hn; lia|].
    exists (t :: used), ticks', evs'. cbn [app]. rewrite Hr, Hst. split_and!; [|done|simpl; lia].
    do 3 f_equal. rewrite <- app_assoc, take_app, length_app. f_equal. f_equal; [symmetry; by apply take_ge|].
    cbn [app]. f_equal. lia.
  - destruct l; [|simpl in Hlo; lia]. rewrite Hst, <- Hfull, take_app_length by done.
    exists [t], ticks, (ev :: evs). split_and!; [|done|simpl; lia].
    destruct ticks; cbn [receive_until_loop app]; rewrite bool_decide_eq_false_2; try done;
      rewrite length_app, Hfull by done; lia.
Qed.

(** The clock and [poll] let the whole read go through. *)
Definition on_time (deadline : Z) (ticks : list Tick) (evs : list RecvEvent) : Prop :=
  Forall (fun t => now t < deadline /\ poll t = Ready) ticks /\ (length evs + 2 <= length ticks)%nat.

Lemma receive_frame_until_complete deadline ticks evs f tl :
  frame_ok f -> on_time deadline ticks evs -> stream_of true evs = enc_frame f ++ tl ->
  exists ticks' evs', receive_frame_with_deadline deadline ticks evs = (Ok f, ticks', evs').
Proof.
  intros Hf [Ht Hlen] Hs. pose proof (frame_size_u32 f Hf) as Hu. rewrite enc_frame_split, <- app_assoc in Hs.
  set (body := u8 (P2PMessageType.value (frame_type f)) :: payload f) in *.
  assert (length (le_encode 4 (sizeZ (payload f))) = 4%nat) as Hl by apply le_encode_length.
  destruct (receive_until_complete deadline ticks evs 4 [] Ht) as (used & t1 & e1 & H1 & Hused & Hc);
    [lia|simpl; lia|rewrite Hs, length_app; simpl; lia|].
  pose proof H1 as S1. apply receive_until_sound in S1 as (_ & got & _ & _ & Hg & _ & S1); [|simpl; lia].
  cbn [app length] in H1, Hg. rewrite Nat.sub_0_r, Hs, <- Hl, take_app_length, Hl in H1.
  cbn [length] in Hg. rewrite Nat.sub_0_r, Hs, <- Hl, take_app_length in Hg. subst got.
  rewrite Hs in S1. apply app_inv_head in S1.
  unfold receive_frame_with_deadline, receive_all_until. rewrite H1, frame_length_encode by done.
  rewrite (proj2 (Z.ltb_ge _ _) Hf). unfold sizeZ. rewrite Nat2Z.id.
  change (1 + length (payload f))%nat with (length body).
  destruct (receive_until_complete deadline t1 e1 (length body) []) as (_ & t2 & e2 & H2 & _ & _).
  - rewrite Hused in Ht. by apply Forall_app in Ht as [_ Ht].
  - rewrite Hused, length_app in Hlen. lia.
  - simpl. lia.
  - rewrite <- S1, length_app. simpl. lia.
  - cbn [app length] in H2. rewrite Nat.sub_0_r, <- S1, take_app_length in H2. rewrite H2.
    exists t2, e2. rewrite <- (frame_deserialize_encode f Hf). reflexivity.
Qed.

Lemma make_hello_encode h :
  hello_ok h -> make_hello_frame h = Ok (mkFrame P2PMessageType.Hello (enc_hello h)) /\
    frame_ok (mkFrame P2PMessageType.Hello (enc_hello h)).
Proof.
  intros H. destruct (wire_roundtrip (WireMessage := hello_wire) h H) as (bs & Hs & Hd).
  apply (run_whole_sound _ _ _ _ _ _ hello_codec) in Hd as [_ ->].
  split; [unfold make_hello_frame; cbn in Hs; by rewrite Hs|]. unfold frame_ok, enc_hello, enc_string.
  cbn [payload]. destruct H as (_ & _ & _ & _ & Hua). unfold sizeZ in *.
  rewrite !length_app, !le_encode_length. unfold CZR_P2P_MAX_USER_AGENT in Hua.
  unfold CZR_P2P_MAX_PAYLOAD. lia.
Qed.

Lemma parse_hello_encode h :
  hello_ok h -> parse_hello_frame (mkFrame P2PMessageType.Hello (enc_hello h)) = Ok h.
Proof.
  intros H. unfold parse_hello_frame. cbn [frame_type payload]. rewrite bool_decide_eq_true_2 by done. cbn [negb].
  apply (run_whole_complete _ _ _ _ _ hello_codec H).
Qed.

(** The relay's reading loop: one frame after the other. *)
Fixpoint receive_frames (n : nat) (evs : list RecvEvent) : result (list P2PFrame) * list RecvEvent :=
  match n with
  | O => (Ok [], evs)
  | S n =>
      match receive_frame evs with
      | (Throw e, evs) => (Throw e, evs)
      | (Ok f, evs) =>
          match receive_frames n evs with
          | (Ok fs, evs) => (Ok (f :: fs), evs)
          | (Throw e, evs) => (Throw e, evs)
          end
      end
  end.

(** ** Claims *)

(** C39: framing is exact: when the bytes of a sequence of frames arrive, cut
    into pieces in any way and with any number of signals (EINTR) in between,
    receiving one frame after the other returns exactly those frames, in order,
    and leaves the rest of the stream. A receive timeout (EAGAIN) inside a
    frame is not covered: the bytes read so far are lost then. *)
Theorem frames_survive_the_stream fs evs tl :
  Forall frame_ok fs -> stream evs = mjoin (enc_frame <$> fs) ++ tl ->
  exists evs', receive_frames (length fs) evs = (Ok fs, evs') /\ stream evs' = tl.
Proof.
  intros H. revert evs. induction H as [|f fs Hf H IH]; intros evs Hs; [by exists evs|].
  cbn [fmap list_fmap mjoin list_join] in Hs. rewrite <- app_assoc in Hs.
  destruct (receive_frame_complete evs f _ Hf Hs) as (e1 & H1 & S1).
  destruct (IH e1 S1) as (e2 & H2 & S2). exists e2. cbn [length receive_frames]. by rewrite H1, H2.
Qed.

(** No partial or altered frame ever reaches the caller: if a frame is
    received, the stream began with exactly its encoding; and a frame that was
    reported as sent reached the peer as exactly its encoding. *)
Theorem frame_transfer_sound :
  (forall evs f evs', receive_frame evs = (Ok f, evs') ->
     frame_ok f /\ stream evs = enc_frame f ++ stream evs') /\
  (forall fd evs f out evs', send_frame fd evs f = (Ok tt, out, evs') ->
     frame_ok f /\ out = enc_frame f).
Proof. split; [apply receive_frame_sound|apply send_frame_success]. Qed.

(** The deadline holds across a whole read: when a frame is received, every
    wait for it began before the deadline, however slowly the peer sent it. *)
Theorem receive_respects_deadline deadline ticks evs size out ticks' evs' :
  receive_all_until deadline ticks evs size = (Ok out, ticks', evs') ->
  length out = size /\ exists used, ticks = used ++ ticks' /\ Forall (fun t => now t < deadline) used.
Proof.
  intros (used & got & -> & Hu & _ & Hl & _)%receive_until_sound; [|simpl; lia]. eauto.
Qed.

(** The handshake accepts exactly the peers of the same network and
    protocol version, when the peer's hello arrives in time. *)
Theorem handshake_accepts_same_network sends ticks evs local remote network deadline tl :
  hello_ok local -> hello_ok remote -> on_time deadline ticks evs ->
  (send_all true sends (enc_frame (mkFrame P2PMessageType.Hello (enc_hello local)))).1.1 = Ok tt ->
  stream_of true evs = enc_frame (mkFrame P2PMessageType.Hello (enc_hello remote)) ++ tl ->
  (perform_hello_handshake sends ticks evs local network deadline).1 = Ok tt <->
  P2PHello.protocol_version remote = CZR_P2P_PROTOCOL_VERSION /\ P2PHello.network_id remote = network.
Proof.
  intros Hl Hr Ht Hsend Hs. unfold perform_hello_handshake.
  destruct (make_hello_encode local Hl) as [-> Hlf]. destruct (make_hello_encode remote Hr) as [_ Hrf].
  unfold send_frame. rewrite frame_serialize_encode by done.
  destruct (send_all true sends _) as [[r out] evs'] eqn:E. cbn in Hsend. subst r.
  destruct (receive_frame_until_complete deadline ticks evs _ tl Hrf Ht Hs) as (t' & e' & ->).
  cbn [fst mbind result_bind]. rewrite parse_hello_encode by done. cbn [mbind result_bind].
  unfold validate_hello, throw_if. destruct (_ =? CZR_P2P_PROTOCOL_VERSION) eqn:E1;
    destruct (_ =? network) eqn:E2; zbool; naive_solver.
Qed.

(** ** Witnesses *)

Definition ping_frame : P2PFrame := mkFrame P2PMessageType.Ping (le_encode 8 7).
(** Two frames, the first in two pieces with an interruption between them, its
    end in one piece with the second. *)
Definition cut_frames : list RecvEvent :=
  match enc_frame ping_frame with
  | b0 :: b1 :: b2 :: l =>
      [Data b0 [b1]; Eintr; Data b2 (l ++ enc_frame ping_frame)]
  | _ => []
  end.

Lemma frames_survive_the_stream_witness :
  exists evs', receive_frames 2 cut_frames = (Ok [ping_frame; ping_frame], evs') /\ stream evs' = [].
Proof.
  apply (frames_survive_the_stream [ping_frame; ping_frame] cut_frames []); [decide_vm|].
  vm_compute. reflexivity.
Defined.

Definition tick (t : Z) : Tick := mkTick t Ready.
Lemma receive_respects_deadline_witness :
  exists used, [tick 1; tick 2; tick 9] = used ++ [tick 9] /\ Forall (fun t => now t < 5) used.
Proof.
  apply (receive_respects_deadline 5 [tick 1; tick 2; tick 9] [Data Byte.x01 []; Data Byte.x02 []] 2
    [Byte.x01; Byte.x02] [tick 9] []).
  vm_compute. reflexivity.
Defined.

Definition sample_hello (network : Z) : P2PHello.t := P2PHello.mk 1 network 5 0 (str "Caesar-CZR").
Definition hello_script : list RecvEvent :=
  match enc_frame (mkFrame P2PMessageType.Hello (enc_hello (sample_hello 2))) with
  | b :: l => [Data b l] | [] => [] end.

(** A mainnet node and a testnet peer. *)
Lemma handshake_accepts_same_network_witness :
  (perform_hello_handshake [Accepts 4; Accepts 100] [tick 0; tick 0; tick 0] hello_script
     (sample_hello 1) 1 5000).1 <> Ok tt.
Proof.
  intros H.
  apply (handshake_accepts_same_network [Accepts 4; Accepts 100] [tick 0; tick 0; tick 0] hello_script
    (sample_hello 1) (sample_hello 2) 1 5000 []) in H as [_ H]; [discriminate H|..].
  - decide_vm.
  - decide_vm.
  - split; [repeat constructor|]. vm_compute. lia.
  - vm_compute. reflexivity.
  - vm_compute. reflexivity.
Defined.
