(* ===== verification/Socket.v ===== *)
(** p2p_tcp.hpp: the life of a [P2PTcpSocket], an object that holds a
    descriptor in an atomic. A method is a program of the atomic accesses and
    system calls it makes, in the order of the source; threads interleave
    these one by one. The kernel's part is the relation [does]: a call may
    succeed or fail, and a new descriptor is any number that is not in use. *)

From S2P Require Import Prelude Serialization Crypto P2PWire.
From stdpp Require Import options.
Local Open Scope Z_scope.

(** ** Programs *)

(** The first three are accesses of the atomic [fd_] of an object, [Construct]
    makes an object that holds a descriptor. *)
Inductive Syscall :=
  | Load (s : nat)
  | Exchange (s : nat) (v : Z)
  | Store (s : nat) (v : Z)
  | Construct (v : Z)
  | SysSocket
  | SysSetsockopt (fd : Z) (option : string) (seconds micros : Z)
  | SysBind (fd host port : Z)
  | SysListen (fd backlog : Z)
  | SysAccept (fd : Z)
  | SysConnect (fd host port : Z)
  | SysGetpeername (fd : Z)
  | SysShutdown (fd : Z)
  | SysClose (fd : Z).

(** What comes back, negative for an error (the text of [errno] in the
    exceptions is left out); the address and the port are those of [getpeername], the
    address as [inet_ntop] writes it, [None] where that fails. *)
Record Reply := mkReply { ret : Z; reply_address : option bytes; reply_port : Z }.

Inductive Value := Done | SocketObject (s : nat) | PeerAddress (t : bytes) | Number (n : Z).

Inductive prog :=
  | Return (r : result Value)
  | Do (c : Syscall) (k : Reply -> prog).

(** ** The methods *)

(** [close()] and what follows it. *)
Definition closing (s : nat) (next : prog) : prog :=
  Do (Exchange s (-1)) (fun r =>
    let fd := ret r in
    if 0 <=? fd then Do (SysShutdown fd) (fun _ => Do (SysClose fd) (fun _ => next)) else next).
Definition close (s : nat) : prog := closing s (Return (Ok Done)).

Definition move_construct (other : nat) : prog :=
  Do (Exchange other (-1)) (fun r => Do (Construct (ret r)) (fun o => Return (Ok (SocketObject (Z.to_nat (ret o)))))).
Definition move_assign (this other : nat) : prog :=
  if bool_decide (this = other) then Return (Ok Done)
  else closing this (Do (Exchange other (-1)) (fun r => Do (Store this (ret r)) (fun _ => Return (Ok Done)))).

(** How [listen_on] and [connect_to] begin. *)
Definition open_socket (s : nat) (k : Z -> prog) : prog :=
  closing s (Do SysSocket (fun r =>
    if ret r <? 0 then Return (Throw "TCP socket creation failed")
    else Do (Store s (ret r)) (fun _ => k (ret r)))).

Section Methods.
Context {inet : Inet}.

Definition listen_on (s : nat) (port : Z) (address : bytes) : prog :=
  open_socket s (fun fd => Do (SysSetsockopt fd "SO_REUSEADDR" 1 0) (fun r =>
    if ret r <? 0 then closing s (Return (Throw "TCP setsockopt failed"))
    else match inet_pton (c_str address) with
         | None => closing s (Return (Throw "Invalid bind IPv4 address"))
         | Some host => Do (SysBind fd host port) (fun r =>
             if ret r <? 0 then closing s (Return (Throw "TCP bind failed: "))
             else Do (SysListen fd 8) (fun r =>
               if ret r <? 0 then closing s (Return (Throw "TCP listen failed: ")) else Return (Ok Done)))
         end)).

Definition connect_to (s : nat) (address : bytes) (port : Z) : prog :=
  open_socket s (fun fd =>
    match inet_pton (c_str address) with
    | None => closing s (Return (Throw "Invalid IPv4 address"))
    | Some host => Do (SysConnect fd host port) (fun r =>
        if ret r <? 0 then closing s (Return (Throw "TCP connection failed")) else Return (Ok Done))
    end).
End Methods.

(** The descriptor is read once; the call uses the number it had then. *)
Definition with_fd (s : nat) (closed : string) (k : Z -> prog) : prog :=
  Do (Load s) (fun r => if ret r <? 0 then Return (Throw closed) else k (ret r)).

Definition accept_connection (s : nat) : prog :=
  with_fd s "TCP socket is closed" (fun fd => Do (SysAccept fd) (fun c =>
    if ret c <? 0 then Return (Throw "TCP accept failed")
    else Do (Construct (ret c)) (fun o => Return (Ok (SocketObject (Z.to_nat (ret o))))))).
Definition peer_address (s : nat) : prog :=
  with_fd s "TCP socket is closed" (fun fd => Do (SysGetpeername fd) (fun r =>
    if ret r <? 0 then Return (Throw "TCP getpeername failed: ")
    else match reply_address r with
         | None => Return (Throw "TCP address conversion failed: ")
         | Some a => Return (Ok (PeerAddress a))
         end)).
Definition peer_port (s : nat) : prog :=
  with_fd s "TCP socket is closed" (fun fd => Do (SysGetpeername fd) (fun r =>
    if ret r <? 0 then Return (Throw "TCP getpeername failed: ") else Return (Ok (Number (reply_port r))))).
Definition set_timeouts (s : nat) (timeout_ms : Z) : prog :=
  with_fd s "Invalid TCP socket" (fun fd =>
    let sec := timeout_ms / 1000 in
    let usec := timeout_ms mod 1000 * 1000 in
    Do (SysSetsockopt fd "SO_RCVTIMEO" sec usec) (fun r =>
      if ret r <? 0 then Return (Throw "Failed to set receive timeout")
      else Do (SysSetsockopt fd "SO_SNDTIMEO" sec usec) (fun r =>
        if ret r <? 0 then Return (Throw "Failed to set send timeout") else Return (Ok Done)))).
Definition valid (s : nat) : prog := Do (Load s) (fun r => Return (Ok (Number (Z.b2z (0 <=? ret r))))).
Definition native_handle (s : nat) : prog := Do (Load s) (fun r => Return (Ok (Number (ret r)))).

(** A call of a method; the destructor is a [Close]. *)
Inductive Call :=
  | MoveConstruct (other : nat)
  | MoveAssign (this other : nat)
  | ListenOn (s : nat) (port : Z) (address : bytes)
  | ConnectTo (s : nat) (address : bytes) (port : Z)
  | AcceptConnection (s : nat)
  | PeerAddressOf (s : nat)
  | PeerPort (s : nat)
  | SetTimeouts (s : nat) (timeout_ms : Z)
  | Valid (s : nat)
  | NativeHandle (s : nat)
  | Close (s : nat).

Definition body `{Inet} (c : Call) : prog :=
  match c with
  | MoveConstruct o => move_construct o
  | MoveAssign s o => move_assign s o
  | ListenOn s port a => listen_on s port a
  | ConnectTo s a port => connect_to s a port
  | AcceptConnection s => accept_connection s
  | PeerAddressOf s => peer_address s
  | PeerPort s => peer_port s
  | SetTimeouts s ms => set_timeouts s ms
  | Valid s => valid s
  | NativeHandle s => native_handle s
  | Close s => close s
  end.

(** The object a call stores a descriptor in. *)
Definition opener (c : Call) : option nat :=
  match c with
  | MoveAssign s _ | ListenOn s _ _ | ConnectTo s _ _ => Some s
  | _ => None
  end.

(** ** The kernel *)

(** The descriptors of the process: those made for a [P2PTcpSocket], and those
    of everything else (the files, the HTTP server's sockets). *)
Inductive Holder := SocketFd | OtherFd.
Record Sys := mkSys { fds : gmap Z Holder; socks : list Z }.

(** What a call does when the kernel answers [r]; [None] where it cannot. A
    new descriptor is any that is free, and [accept] needs an open one. *)
Definition new_fd (r : Z) (sys : Sys) : option Sys :=
  if r <? 0 then Some sys
  else match fds sys !! r with
       | Some _ => None
       | None => Some (mkSys (<[r := SocketFd]> (fds sys)) (socks sys))
       end.
Definition effect (c : Syscall) (r : Reply) (sys : Sys) : option Sys :=
  match c with
  | Load s => if bool_decide (socks sys !! s = Some (ret r)) then Some sys else None
  | Exchange s v =>
      if bool_decide (socks sys !! s = Some (ret r)) then Some (mkSys (fds sys) (<[s := v]> (socks sys))) else None
  | Store s v =>
      if bool_decide (is_Some (socks sys !! s)) then Some (mkSys (fds sys) (<[s := v]> (socks sys))) else None
  | Construct v =>
      if bool_decide (ret r = Z.of_nat (length (socks sys))) then Some (mkSys (fds sys) (socks sys ++ [v])) else None
  | SysSocket => new_fd (ret r) sys
  | SysAccept fd => if (ret r <? 0) || bool_decide (is_Some (fds sys !! fd)) then new_fd (ret r) sys else None
  | SysClose fd => Some (mkSys (delete fd (fds sys)) (socks sys))
  | _ => Some sys
  end.

(** ** Threads *)

(** A running call, with the object it opens. *)
Notation Thread := (option nat * prog)%type.
Record State := mkState { sys : Sys; threads : gmap nat Thread }.

(** A thread makes a call, does its next access or system call, or returns;
    the rest of the process opens and closes descriptors of its own. Calls of
    [listen_on], [connect_to] and the move assignment on one object do not
    overlap: the code makes them before the object is shared. Every other
    overlap is allowed. *)
Inductive sock_step `{Inet} : State -> State -> Prop :=
  | step_call st t c :
      threads st !! t = None ->
      (forall t' th s, threads st !! t' = Some th -> th.1 = Some s -> opener c <> Some s) ->
      sock_step st (mkState (sys st) (<[t := (opener c, body c)]> (threads st)))
  | step_do st t o c k r sys' :
      threads st !! t = Some (o, Do c k) -> effect c r (sys st) = Some sys' ->
      sock_step st (mkState sys' (<[t := (o, k r)]> (threads st)))
  | step_return st t o r :
      threads st !! t = Some (o, Return r) -> sock_step st (mkState (sys st) (delete t (threads st)))
  | step_other_open st fd :
      fds (sys st) !! fd = None ->
      sock_step st (mkState (mkSys (<[fd := OtherFd]> (fds (sys st))) (socks (sys st))) (threads st))
  | step_other_close st fd :
      fds (sys st) !! fd = Some OtherFd ->
      sock_step st (mkState (mkSys (delete fd (fds (sys st))) (socks (sys st))) (threads st)).

(** Objects just constructed, and no call running. *)
Definition sock_start (st : State) : Prop :=
  threads st = ∅ /\ (forall s v, socks (sys st) !! s = Some v -> v = -1) /\
  (forall fd, fds (sys st) !! fd <> Some SocketFd).

(** ** Who owns a descriptor *)

(** The descriptor a value stands for. *)
Definition hold (v : Z) : option Z := if 0 <=? v then Some v else None.

(** A program of a call that opens [role], and where it stands: whether it has
    emptied that object and not yet filled it, and the descriptor it has in
    hand, taken from an object or from the kernel and not yet passed on. It
    closes and stores only the one in hand, and ends with none. *)
Fixpoint careful (role : option nat) (cleared : bool) (hand : option Z) (p : prog) : Prop :=
  match p with
  | Return _ => hand = None
  | Do c k =>
      match c with
      | Exchange s v => hand = None /\ v < 0 /\
          forall r, careful role (cleared || bool_decide (role = Some s)) (hold (ret r)) (k r)
      | Store s v => role = Some s /\ cleared = true /\ hand = hold v /\ forall r, careful role false None (k r)
      | Construct v => hand = hold v /\ forall r, careful role cleared None (k r)
      | SysSocket | SysAccept _ => hand = None /\ forall r, careful role cleared (hold (ret r)) (k r)
      | SysClose fd => hand = Some fd /\ forall r, careful role cleared None (k r)
      | _ => forall r, careful role cleared hand (k r)
      end
  end.

Lemma hold_Some v fd : hold v = Some fd <-> v = fd /\ 0 <= fd.
Proof. unfold hold. destruct (Z.leb_spec 0 v); split; naive_solver lia. Qed.
Lemma hold_None v : hold v = None <-> v < 0.
Proof. unfold hold. destruct (Z.leb_spec 0 v); split; naive_solver lia. Qed.

Lemma closing_careful role cleared s next :
  careful role (cleared || bool_decide (role = Some s)) None next ->
  careful role cleared None (closing s next).
Proof.
  intros Hn. simpl. split_and!; [done | lia |]. intros r. unfold hold. by destruct (0 <=? ret r).
Qed.

Lemma with_fd_careful role cleared s e k :
  (forall fd, careful role cleared None (k fd)) -> careful role cleared None (with_fd s e k).
Proof. intros Hk r. by destruct (ret r <? 0). Qed.

Lemma closing_throw_careful role cleared s e : careful role cleared None (closing s (Return e)).
Proof. by apply closing_careful. Qed.

(** A program that opens [s] by storing a new socket and then works on it. *)
Lemma open_careful s k :
  (forall fd, careful (Some s) false None (k fd)) -> careful (Some s) false None (open_socket s k).
Proof.
  intros Hk. apply closing_careful. split; [done |]. intros r. rewrite bool_decide_eq_true_2 by done.
  case_match; simpl; [apply hold_None; lia | auto].
Qed.

Lemma body_careful `{Inet} c : careful (opener c) false None (body c).
Proof.
  pose proof closing_throw_careful as Hend. destruct c; cbn [opener body].
  - simpl. split_and!; auto with lia.
  - unfold move_assign. case_bool_decide; [done |]. apply closing_careful. simpl.
    rewrite bool_decide_eq_true_2 by done. split_and!; auto with lia.
  - apply open_careful. intros fd r. repeat first [done | apply Hend | case_match | intros ?].
  - apply open_careful. intros fd. repeat first [done | apply Hend | case_match | intros ?].
  - apply with_fd_careful. intros fd. split; [done |]. intros r. case_match; [apply hold_None; lia | done].
  - apply with_fd_careful. intros fd r. repeat case_match; done.
  - apply with_fd_careful. intros fd r. repeat case_match; done.
  - apply with_fd_careful. intros fd r. case_match; [done |]. intros r'. by case_match.
  - done.
  - done.
  - apply Hend.
Qed.

(** The owners of descriptors: an object, or a thread that has one in hand. *)
Inductive Owner := BySocket (s : nat) | ByThread (t : nat).
#[export] Instance owner_eq_dec : EqDecision Owner.
Proof. solve_decision. Defined.

(** Every descriptor made for a socket has one owner. *)
Definition ledger (own : Owner -> option Z) (open : gmap Z Holder) : Prop :=
  (forall o fd, own o = Some fd -> 0 <= fd /\ open !! fd = Some SocketFd) /\
  (forall o o' fd, own o = Some fd -> own o' = Some fd -> o = o') /\
  (forall fd, open !! fd = Some SocketFd -> exists o, own o = Some fd).

Section Ledger.
Context (own own' : Owner -> option Z) (open : gmap Z Holder).
Hypothesis Hown : ledger own open.

Lemma ledger_ext : (forall o, own' o = own o) -> ledger own' open.
Proof using Hown.
  destruct Hown as (H1 & H2 & H3). intros He. split_and!; intros *; rewrite ?He; eauto.
  intros [o Ho]%H3. exists o. by rewrite He.
Qed.

(** A descriptor, if any, passes from [a] to [b]. *)
Lemma ledger_move a b :
  a <> b -> own b = None -> own' a = None -> own' b = own a ->
  (forall o, o <> a -> o <> b -> own' o = own o) -> ledger own' open.
Proof using Hown.
  destruct Hown as (H1 & H2 & H3). intros Hab Hb Ha' Hb' He.
  assert (Hor : forall o fd, own' o = Some fd -> (o = b /\ own a = Some fd) \/ (o <> a /\ o <> b /\ own o = Some fd)).
  { intros o fd Ho. destruct (decide (o = b)) as [-> |]; [left; by rewrite <- Hb' |].
    destruct (decide (o = a)) as [-> |]; [congruence |]. right. rewrite <- He; auto. }
  split_and!.
  - intros o fd [[_ ?] | (_ & _ & ?)]%Hor; eauto.
  - intros o o' fd [[-> ?] | (? & ? & ?)]%Hor [[-> ?] | (? & ? & ?)]%Hor; naive_solver.
  - intros fd [o Ho]%H3. destruct (decide (o = a)) as [-> |]; [exists b; congruence |].
    exists o. rewrite He; [done | done | congruence].
Qed.

(** A new descriptor for [a]. *)
Lemma ledger_gain a fd :
  0 <= fd -> own a = None -> open !! fd = None -> own' a = Some fd ->
  (forall o, o <> a -> own' o = own o) -> ledger own' (<[fd := SocketFd]> open).
Proof using Hown.
  destruct Hown as (H1 & H2 & H3). intros Hpos Ha Hfd Ha' He.
  assert (Hor : forall o x, own' o = Some x -> (o = a /\ x = fd) \/ (o <> a /\ x <> fd /\ own o = Some x)).
  { intros o x Ho. destruct (decide (o = a)) as [-> |]; [left; split; congruence |].
    rewrite He in Ho by done. right. split_and!; [done | | done]. intros ->. apply H1 in Ho as [_ Ho]. congruence. }
  split_and!.
  - intros o x [[_ ->] | (_ & ? & ?)]%Hor; [by rewrite lookup_insert_eq |]. rewrite lookup_insert_ne by done. eauto.
  - intros o o' x [[-> ?] | (? & ? & ?)]%Hor [[-> ?] | (? & ? & ?)]%Hor; naive_solver.
  - intros x [[-> _] | [? [o Ho]%H3]]%lookup_insert_Some; [by exists a |].
    exists o. rewrite He; [done | congruence].
Qed.

(** [a] closes its descriptor. *)
Lemma ledger_lose a fd :
  own a = Some fd -> own' a = None -> (forall o, o <> a -> own' o = own o) -> ledger own' (delete fd open).
Proof using Hown.
  destruct Hown as (H1 & H2 & H3). intros Ha Ha' He.
  assert (Hor : forall o x, own' o = Some x -> o <> a /\ own o = Some x).
  { intros o x Ho. assert (o <> a) by congruence. by rewrite He in Ho. }
  split_and!.
  - intros o x [Hne Ho]%Hor. rewrite lookup_delete_ne; [eauto |]. intros ->. eauto.
  - intros o o' x [? ?]%Hor [? ?]%Hor. eauto.
  - intros x [? [o Ho]%H3]%lookup_delete_Some. exists o. rewrite He; [done | congruence].
Qed.

(** The rest of the process opens and closes descriptors of its own. *)
Lemma ledger_other_open fd : open !! fd = None -> ledger own (<[fd := OtherFd]> open).
Proof using Hown.
  destruct Hown as (H1 & H2 & H3). intros Hfd. split_and!; [| done |].
  - intros o x [? Ho]%H1. split; [done |]. rewrite lookup_insert_ne; congruence.
  - intros x [[_ [=]] | [_ ?]]%lookup_insert_Some. auto.
Qed.
Lemma ledger_other_close fd : open !! fd = Some OtherFd -> ledger own (delete fd open).
Proof using Hown.
  destruct Hown as (H1 & H2 & H3). intros Hfd. split_and!; [| done |].
  - intros o x [? Ho]%H1. split; [done |]. rewrite lookup_delete_ne; congruence.
  - intros x [_ ?]%lookup_delete_Some. auto.
Qed.
End Ledger.

(** ** The invariant *)

(** Where each thread stands: [cleared] and [hand] of [careful]. *)
Notation Ghost := (gmap nat (bool * option Z)).

Definition owner_fd (sys : Sys) (g : Ghost) (o : Owner) : option Z :=
  match o with
  | BySocket s => socks sys !! s ≫= hold
  | ByThread t => g !! t ≫= snd
  end.

Definition thread_ok (th : option Thread) (gh : option (bool * option Z)) : Prop :=
  match th, gh with
  | Some (o, p), Some (cl, h) => careful o cl h p
  | None, None => True
  | _, _ => False
  end.

Record tidy (st : State) (g : Ghost) : Prop := {
  tidy_threads : forall t, thread_ok (threads st !! t) (g !! t);
  tidy_ledger : ledger (owner_fd (sys st) g) (fds (sys st));
  tidy_openers : forall t t' s p p',
    threads st !! t = Some (Some s, p) -> threads st !! t' = Some (Some s, p') -> t = t';
  tidy_cleared : forall t s p h, threads st !! t = Some (Some s, p) -> g !! t = Some (true, h) ->
    exists v, socks (sys st) !! s = Some v /\ v < 0 }.

Lemma tidy_start st : sock_start st -> tidy st ∅.
Proof.
  intros (Ht & Hs & Hf). split.
  - intros t. by rewrite Ht, !lookup_empty.
  - assert (Hno : forall o, owner_fd (sys st) ∅ o = None).
    { intros [s | t]; simpl; [| by rewrite lookup_empty]. destruct (socks (sys st) !! s) as [v |] eqn:E; [| done].
      by apply Hs in E as ->. }
    split_and!; intros *; rewrite ?Hno; [done | done |]. intros H. by apply Hf in H.
  - intros *. by rewrite Ht, lookup_empty.
  - intros *. by rewrite Ht, lookup_empty.
Qed.

Lemma tidy_ghost st g t o p :
  tidy st g -> threads st !! t = Some (o, p) -> exists cl h, g !! t = Some (cl, h) /\ careful o cl h p.
Proof.
  intros Hi Ht. pose proof (tidy_threads _ _ Hi t) as Hc. rewrite Ht in Hc.
  destruct (g !! t) as [[cl h] |]; [eauto | done].
Qed.

(** A thread goes on with [p], at [(cl, h)]. *)
Lemma tidy_continue st g t o p p' cl h sys' :
  tidy st g -> threads st !! t = Some (o, p) -> careful o cl h p' ->
  ledger (owner_fd sys' (<[t := (cl, h)]> g)) (fds sys') ->
  (forall s, o = Some s -> cl = true -> exists v, socks sys' !! s = Some v /\ v < 0) ->
  (forall s v, socks (sys st) !! s = Some v -> v < 0 -> o <> Some s -> exists v', socks sys' !! s = Some v' /\ v' < 0) ->
  tidy (mkState sys' (<[t := (o, p')]> (threads st))) (<[t := (cl, h)]> g).
Proof.
  intros Hi Ht Hc Hl Hme Hoth. split; simpl; [| done | |].
  - intros t'. destruct (decide (t' = t)) as [-> |]; [by rewrite !lookup_insert_eq |].
    rewrite !lookup_insert_ne by done. apply Hi.
  - intros t1 t2 s p1 p2 H1 H2.
    assert (Hback : forall x q, <[t := (o, p')]> (threads st) !! x = Some (Some s, q) ->
      exists q', threads st !! x = Some (Some s, q')).
    { intros x q [[-> [= -> ->]] | [_ ?]]%lookup_insert_Some; eauto. }
    apply Hback in H1 as [q1 H1], H2 as [q2 H2]. by apply (tidy_openers _ _ Hi t1 t2 s q1 q2).
  - intros t' s q h' [[-> [= -> ->]] | [Hne Ht']]%lookup_insert_Some.
    + rewrite lookup_insert_eq. intros [= -> ->]. auto.
    + rewrite lookup_insert_ne by done. intros Hg.
      destruct (tidy_cleared _ _ Hi _ _ _ _ Ht' Hg) as (v & Hv & Hneg). apply (Hoth s v Hv Hneg).
      intros ->. apply Hne. by apply (tidy_openers _ _ Hi t t' s p q).
Qed.

(** Where a thread stands bears on what it owns, and on no one else. *)
Lemma owner_fd_insert sys sys' g t cl h o :
  socks sys' = socks sys -> o <> ByThread t -> owner_fd sys' (<[t := (cl, h)]> g) o = owner_fd sys g o.
Proof. intros Hs Ho. destruct o as [s | t']; simpl; [by rewrite Hs |]. rewrite lookup_insert_ne; congruence. Qed.
Lemma owner_fd_hand sys g t cl h : owner_fd sys (<[t := (cl, h)]> g) (ByThread t) = h.
Proof. simpl. by rewrite lookup_insert_eq. Qed.
Lemma owner_fd_hand_ne sys sys' g t cl h t' :
  t' <> t -> owner_fd sys' (<[t := (cl, h)]> g) (ByThread t') = owner_fd sys g (ByThread t').
Proof. intros. simpl. by rewrite lookup_insert_ne. Qed.

Section Do.
Context (st : State) (g : Ghost) (t : nat) (o : option nat) (p : prog) (cl : bool) (h : option Z).
Hypothesis (Hi : tidy st g) (Ht : threads st !! t = Some (o, p)) (Hg : g !! t = Some (cl, h)).

Lemma hand_now : owner_fd (sys st) g (ByThread t) = h.
Proof using Hg. simpl. by rewrite Hg. Qed.

Lemma cleared_now s : o = Some s -> cl = true -> exists v, socks (sys st) !! s = Some v /\ v < 0.
Proof using Hi Ht Hg. intros -> ->. by apply (tidy_cleared _ _ Hi t s p h). Qed.

(** The objects stay as they are. *)
Lemma do_elsewhere p' h' open :
  careful o cl h' p' ->
  ledger (owner_fd (mkSys open (socks (sys st))) (<[t := (cl, h')]> g)) open ->
  tidy (mkState (mkSys open (socks (sys st))) (<[t := (o, p')]> (threads st))) (<[t := (cl, h')]> g).
Proof using Hi Ht Hg.
  intros Hc Hl. apply (tidy_continue st g t o p); simpl; eauto using cleared_now.
Qed.

Lemma do_nothing p' : careful o cl h p' ->
  tidy (mkState (sys st) (<[t := (o, p')]> (threads st))) (<[t := (cl, h)]> g).
Proof using Hi Ht Hg.
  intros Hc. replace (sys st) with (mkSys (fds (sys st)) (socks (sys st))) by (by destruct (sys st)).
  apply do_elsewhere; [done |]. eapply ledger_ext; [apply Hi |]. intros a. by rewrite insert_id by done.
Qed.

Lemma do_new_fd v sys' p' :
  h = None -> new_fd v (sys st) = Some sys' -> careful o cl (hold v) p' ->
  tidy (mkState sys' (<[t := (o, p')]> (threads st))) (<[t := (cl, hold v)]> g).
Proof using Hi Ht Hg.
  intros Hh Hn Hc. unfold new_fd in Hn. destruct (Z.ltb_spec v 0) as [Hv | Hv].
  - injection Hn as <-. assert (Hvh : hold v = h) by (rewrite Hh; by apply hold_None).
    rewrite Hvh in Hc |- *. by apply do_nothing.
  - destruct (fds (sys st) !! v) eqn:Hf; [done |]. injection Hn as <-. apply do_elsewhere; [done |].
    eapply (ledger_gain _ _ _ (tidy_ledger _ _ Hi) (ByThread t)); [done | by rewrite hand_now | done | |].
    + rewrite owner_fd_hand. by apply hold_Some.
    + intros a Ha. by apply owner_fd_insert.
Qed.

Lemma do_close fd p' :
  h = Some fd -> careful o cl None p' ->
  tidy (mkState (mkSys (delete fd (fds (sys st))) (socks (sys st))) (<[t := (o, p')]> (threads st))) (<[t := (cl, None)]> g).
Proof using Hi Ht Hg.
  intros Hh Hc. apply do_elsewhere; [done |].
  eapply (ledger_lose _ _ _ (tidy_ledger _ _ Hi) (ByThread t)); [by rewrite hand_now | apply owner_fd_hand |].
  intros a Ha. by apply owner_fd_insert.
Qed.

Lemma do_exchange s v old p' :
  h = None -> v < 0 -> socks (sys st) !! s = Some old ->
  careful o (cl || bool_decide (o = Some s)) (hold old) p' ->
  tidy (mkState (mkSys (fds (sys st)) (<[s := v]> (socks (sys st)))) (<[t := (o, p')]> (threads st)))
    (<[t := (cl || bool_decide (o = Some s), hold old)]> g).
Proof using Hi Ht Hg.
  intros Hh Hv Hs Hc. pose proof (lookup_lt_Some _ _ _ Hs) as Hlt.
  assert (Hneg : forall s' v', socks (sys st) !! s' = Some v' -> v' < 0 ->
    exists w, <[s := v]> (socks (sys st)) !! s' = Some w /\ w < 0).
  { intros s' v' Hs' Hv'. destruct (decide (s' = s)) as [-> |]; [rewrite list_lookup_insert_eq; eauto |].
    rewrite list_lookup_insert_ne by done. eauto. }
  apply (tidy_continue st g t o p); simpl; [done | done | done | | | eauto].
  - eapply (ledger_move _ _ _ (tidy_ledger _ _ Hi) (BySocket s) (ByThread t)); [done | by rewrite hand_now | | |].
    + simpl. rewrite list_lookup_insert_eq by done. by apply hold_None.
    + rewrite owner_fd_hand. simpl. by rewrite Hs.
    + intros [s' | t'] Ha Hb; [| apply owner_fd_hand_ne; congruence]. simpl.
      rewrite list_lookup_insert_ne; congruence.
  - intros s' Ho [Hcl | Hs']%orb_true_iff.
    + destruct (cleared_now s' Ho Hcl) as (w & Hw & Hwn). eauto.
    + apply bool_decide_eq_true in Hs'. assert (s' = s) as -> by congruence. rewrite list_lookup_insert_eq by done. eauto.
Qed.

Lemma do_store s v p' :
  o = Some s -> cl = true -> h = hold v -> careful o false None p' ->
  tidy (mkState (mkSys (fds (sys st)) (<[s := v]> (socks (sys st)))) (<[t := (o, p')]> (threads st)))
    (<[t := (false, None)]> g).
Proof using Hi Ht Hg.
  intros Ho Hcl Hh Hc. destruct (cleared_now s Ho Hcl) as (w & Hw & Hwn).
  pose proof (lookup_lt_Some _ _ _ Hw) as Hlt.
  apply (tidy_continue st g t o p); simpl; [done | done | done | | done |].
  - eapply (ledger_move _ _ _ (tidy_ledger _ _ Hi) (ByThread t) (BySocket s)); [done | | apply owner_fd_hand | |].
    + simpl. rewrite Hw. by apply hold_None.
    + rewrite hand_now. simpl. by rewrite list_lookup_insert_eq.
    + intros [s' | t'] Ha Hb; [| apply owner_fd_hand_ne; congruence]. simpl.
      rewrite list_lookup_insert_ne; congruence.
  - intros s' v' Hs' Hv' Hne. rewrite list_lookup_insert_ne by congruence. eauto.
Qed.

Lemma do_construct v p' :
  h = hold v -> careful o cl None p' ->
  tidy (mkState (mkSys (fds (sys st)) (socks (sys st) ++ [v])) (<[t := (o, p')]> (threads st))) (<[t := (cl, None)]> g).
Proof using Hi Ht Hg.
  intros Hh Hc. set (n := length (socks (sys st))).
  assert (Hold : forall s w, socks (sys st) !! s = Some w -> (socks (sys st) ++ [v]) !! s = Some w)
    by (intros; by apply lookup_app_l_Some).
  apply (tidy_continue st g t o p); simpl; [done | done | done | | | eauto].
  - eapply (ledger_move _ _ _ (tidy_ledger _ _ Hi) (ByThread t) (BySocket n)); [done | | apply owner_fd_hand | |].
    + simpl. by rewrite lookup_ge_None_2 by (unfold n; lia).
    + rewrite hand_now. simpl. by rewrite list_lookup_middle.
    + intros [s' | t'] Ha Hb; [| apply owner_fd_hand_ne; congruence]. simpl.
      destruct (decide (s' < n)%nat); [by rewrite lookup_app_l |]. assert (s' <> n) by congruence.
      rewrite !lookup_ge_None_2; [done | unfold n in *; lia | rewrite length_app; simpl; unfold n in *; lia].
  - intros s Ho Hcl. destruct (cleared_now s Ho Hcl) as (w & ? & ?). eauto.
Qed.
End Do.

Lemma do_tidy st g t o c k r sys' :
  tidy st g -> threads st !! t = Some (o, Do c k) -> effect c r (sys st) = Some sys' ->
  exists g', tidy (mkState sys' (<[t := (o, k r)]> (threads st))) g'.
Proof.
  intros Hi Ht He. destruct (tidy_ghost _ _ _ _ _ Hi Ht) as (cl & h & Hg & Hc).
  assert (Hif : forall (P : Prop) `{Decision P} a, (if bool_decide P then Some a else None) = Some sys' -> P /\ a = sys').
  { intros P ? a. case_bool_decide; [| done]. by intros [= <-]. }
  destruct c; cbn [careful] in Hc; cbn [effect] in He; try (injection He as <-; eexists; by eapply do_nothing).
  - apply Hif in He as [_ <-]. eexists. by eapply do_nothing.
  - apply Hif in He as [Hs <-]. destruct Hc as (? & ? & ?). eexists. by eapply do_exchange.
  - apply Hif in He as [_ <-]. destruct Hc as (? & ? & ? & ?). eexists. by eapply do_store.
  - apply Hif in He as [_ <-]. destruct Hc as [? ?]. eexists. by eapply do_construct.
  - destruct Hc as [? ?]. eexists. by eapply do_new_fd.
  - destruct (_ || _); [| done]. destruct Hc as [? ?]. eexists. by eapply do_new_fd.
  - injection He as <-. destruct Hc as [? ?]. eexists. by eapply do_close.
Qed.

Section Steps.
Context {inet : Inet}.

Lemma call_tidy st g t c :
  tidy st g -> threads st !! t = None ->
  (forall t' th s, threads st !! t' = Some th -> th.1 = Some s -> opener c <> Some s) ->
  tidy (mkState (sys st) (<[t := (opener c, body c)]> (threads st))) (<[t := (false, None)]> g).
Proof.
  intros Hi Ht Hex. pose proof (tidy_threads _ _ Hi t) as Hg. rewrite Ht in Hg.
  destruct (g !! t) as [|] eqn:Eg; [done |]. split; simpl.
  - intros t'. destruct (decide (t' = t)) as [-> |]; [rewrite !lookup_insert_eq; apply body_careful |].
    rewrite !lookup_insert_ne by done. apply Hi.
  - eapply ledger_ext; [apply Hi |]. intros [s | t']; [done |]. simpl.
    destruct (decide (t' = t)) as [-> |]; [by rewrite lookup_insert_eq, Eg | by rewrite lookup_insert_ne].
  - intros t1 t2 s p1 p2 [[<- [= H1 _]] | [? H1]]%lookup_insert_Some [[<- [= H2 _]] | [? H2]]%lookup_insert_Some;
      [done | by destruct (Hex _ _ s H2) | by destruct (Hex _ _ s H1) | by eapply (tidy_openers _ _ Hi)].
  - intros t' s q h [[<- _] | [? H1]]%lookup_insert_Some; [by rewrite lookup_insert_eq |].
    rewrite lookup_insert_ne by done. by eapply (tidy_cleared _ _ Hi).
Qed.

Lemma return_tidy st g t o r :
  tidy st g -> threads st !! t = Some (o, Return r) -> tidy (mkState (sys st) (delete t (threads st))) (delete t g).
Proof.
  intros Hi Ht. destruct (tidy_ghost _ _ _ _ _ Hi Ht) as (cl & h & Hg & Hc). simpl in Hc. subst h. split; simpl.
  - intros t'. destruct (decide (t' = t)) as [-> |]; [by rewrite !lookup_delete_eq |].
    rewrite !lookup_delete_ne by done. apply Hi.
  - eapply ledger_ext; [apply Hi |]. intros [s | t']; [done |]. simpl.
    destruct (decide (t' = t)) as [-> |]; [by rewrite lookup_delete_eq, Hg | by rewrite lookup_delete_ne].
  - intros t1 t2 s p1 p2 [_ H1]%lookup_delete_Some [_ H2]%lookup_delete_Some. by eapply (tidy_openers _ _ Hi).
  - intros t' s q h [? H1]%lookup_delete_Some [_ H2]%lookup_delete_Some. by eapply (tidy_cleared _ _ Hi).
Qed.

Lemma step_tidy st st' g : tidy st g -> sock_step st st' -> exists g', tidy st' g'.
Proof.
  intros Hi Hst. destruct Hst as [st t c Ht Hex | st t o c k r sys' Ht He | st t o r Ht | st fd Hf | st fd Hf].
  - eexists. by apply call_tidy.
  - by eapply do_tidy.
  - eexists. by eapply return_tidy.
  - exists g. destruct Hi as [H1 H2 H3 H4]. split; [done | | done | done]. by apply (ledger_other_open _ _ H2).
  - exists g. destruct Hi as [H1 H2 H3 H4]. split; [done | | done | done]. by apply (ledger_other_close _ _ H2).
Qed.

Lemma run_tidy start st : sock_start start -> rtc sock_step start st -> exists g, tidy st g.
Proof.
  intros Hs Hr. apply tidy_start in Hs. revert Hs. generalize (∅ : Ghost).
  induction Hr as [| st st' st'' Hstep _ IH]; intros g Hg; [eauto |].
  destruct (step_tidy _ _ _ Hg Hstep) as [g' Hg']. eauto.
Qed.

(** C24: however threads overlap their calls, a descriptor is closed once and
    only by who owns it. When a call of [::close] comes next on some thread,
    its descriptor is open, was made for a socket, and is neither held by an
    object nor about to be closed by another thread; two objects never hold
    the same descriptor, and the one an object holds is open; and when no call
    is running, the open descriptors made for sockets are those the objects
    hold, so none has leaked. *)
Theorem descriptors_owned_once start st :
  sock_start start -> rtc sock_step start st ->
  (forall t o fd k, threads st !! t = Some (o, Do (SysClose fd) k) ->
     fds (sys st) !! fd = Some SocketFd /\
     (forall s, socks (sys st) !! s <> Some fd) /\
     (forall t' o' k', threads st !! t' = Some (o', Do (SysClose fd) k') -> t' = t)) /\
  (forall s fd, socks (sys st) !! s = Some fd -> 0 <= fd ->
     fds (sys st) !! fd = Some SocketFd /\ forall s', socks (sys st) !! s' = Some fd -> s' = s) /\
  (threads st = ∅ -> forall fd, fds (sys st) !! fd = Some SocketFd ->
     exists s, socks (sys st) !! s = Some fd /\ 0 <= fd).
Proof.
  intros Hs Hr. destruct (run_tidy _ _ Hs Hr) as [g Hi]. destruct (tidy_ledger _ _ Hi) as (L1 & L2 & L3).
  assert (Hheld : forall s fd, socks (sys st) !! s = Some fd -> 0 <= fd -> owner_fd (sys st) g (BySocket s) = Some fd).
  { intros s fd Hfd Hp. simpl. rewrite Hfd. by apply hold_Some. }
  assert (Hhand : forall t o fd k, threads st !! t = Some (o, Do (SysClose fd) k) ->
    owner_fd (sys st) g (ByThread t) = Some fd).
  { intros t o fd k Ht. destruct (tidy_ghost _ _ _ _ _ Hi Ht) as (cl & h & Hg & -> & _). simpl. by rewrite Hg. }
  split_and!.
  - intros t o fd k Ht%Hhand. destruct (L1 _ _ Ht) as [Hp Hf]. split_and!; [done | |].
    + intros s Hsk. by specialize (L2 _ _ _ Ht (Hheld _ _ Hsk Hp)).
    + intros t' o' k' Ht'%Hhand. by specialize (L2 _ _ _ Ht Ht') as [= ->].
  - intros s fd Hfd Hp. split; [by eapply L1, Hheld |]. intros s' Hs'. by specialize (L2 _ _ _ (Hheld _ _ Hfd Hp) (Hheld _ _ Hs' Hp)) as [= ->].
  - intros He fd [[s | t] Ho]%L3; simpl in Ho.
    + exists s. destruct (socks (sys st) !! s) as [v |]; [| done]. by apply hold_Some in Ho as [-> ?].
    + pose proof (tidy_threads _ _ Hi t) as Ht. rewrite He, lookup_empty in Ht. by destruct (g !! t).
Qed.

(** ** One call at a time *)

(** A run of a program against a kernel that answers by [pick], with the calls
    it made; [None] if an answer is impossible. *)
Fixpoint run (pick : Sys -> Syscall -> Reply) (p : prog) (sys : Sys) : option (list Syscall * Sys * result Value) :=
  match p with
  | Return r => Some ([], sys, r)
  | Do c k =>
      match effect c (pick sys c) sys with
      | None => None
      | Some sys1 =>
          match run pick (k (pick sys c)) sys1 with
          | None => None
          | Some (tr, sys', r) => Some (c :: tr, sys', r)
          end
      end
  end.

(** The answers are possible ones, on objects that exist. *)
Definition on_objects (sys : Sys) (c : Syscall) : Prop :=
  match c with
  | Load s | Exchange s _ | Store s _ => is_Some (socks sys !! s)
  | _ => True
  end.
Definition answers (pick : Sys -> Syscall -> Reply) : Prop :=
  forall sys c, on_objects sys c -> is_Some (effect c (pick sys c) sys).

Definition runs (pick : Sys -> Syscall -> Reply) (p : prog) (sys : Sys)
  (Q : list Syscall -> Sys -> result Value -> Prop) : Prop :=
  exists tr sys' r, run pick p sys = Some (tr, sys', r) /\ Q tr sys' r.

(** What [close] leaves. *)
Definition emptied (s : nat) (sys : Sys) : Sys :=
  match socks sys !! s with
  | Some old => mkSys (if 0 <=? old then delete old (fds sys) else fds sys) (<[s := -1]> (socks sys))
  | None => sys
  end.

Definition opened (s : nat) (a : bytes) (sys : Sys) (calls : Z -> Z -> list Syscall)
  (tr : list Syscall) (sys' : Sys) (r : result Value) : Prop :=
  match r with
  | Throw _ => sys' = emptied s sys
  | Ok v => v = Done /\ exists fd host before,
      inet_pton (c_str a) = Some host /\ 0 <= fd /\ fds (emptied s sys) !! fd = None /\
      sys' = mkSys (<[fd := SocketFd]> (fds (emptied s sys))) (<[s := fd]> (socks sys)) /\
      tr = before ++ calls fd host
  end.

Section Run.
Context (pick : Sys -> Syscall -> Reply).
Hypothesis Hpick : answers pick.

Lemma runs_do c k sys Q :
  on_objects sys c ->
  (forall sys1, effect c (pick sys c) sys = Some sys1 -> runs pick (k (pick sys c)) sys1 (fun tr => Q (c :: tr))) ->
  runs pick (Do c k) sys Q.
Proof using Hpick.
  intros Hon Hk. destruct (Hpick sys c Hon) as [sys1 He]. destruct (Hk _ He) as (tr & sys' & r & Hr & HQ).
  exists (c :: tr), sys', r. simpl. by rewrite He, Hr.
Qed.

Lemma runs_return r sys (Q : list Syscall -> Sys -> result Value -> Prop) : Q [] sys r -> runs pick (Return r) sys Q.
Proof. intros. by exists [], sys, r. Qed.

Lemma runs_closing s next sys old Q :
  socks sys !! s = Some old ->
  (forall tr0, runs pick next (emptied s sys) (fun tr => Q (tr0 ++ tr))) -> runs pick (closing s next) sys Q.
Proof using Hpick.
  intros Hs Hn. unfold emptied in Hn. rewrite Hs in Hn. unfold closing.
  apply runs_do; [simpl; eauto |]. intros sys1. simpl. case_bool_decide as Hr; [| done]. intros [= <-].
  rewrite Hs in Hr. injection Hr as <-. destruct (0 <=? old); [| apply (Hn [_])].
  apply runs_do; [done |]. intros sys2 [= <-]. apply runs_do; [done |]. intros sys3 [= <-]. apply (Hn [_; _; _]).
Qed.

Lemma emptied_insert s sys old v :
  socks sys !! s = Some old -> <[s := v]> (socks (emptied s sys)) = <[s := v]> (socks sys).
Proof. intros Hs. unfold emptied. rewrite Hs. apply list_insert_insert_eq. Qed.
Lemma emptied_lookup s sys old : socks sys !! s = Some old -> socks (emptied s sys) !! s = Some (-1).
Proof. intros Hs. unfold emptied. rewrite Hs. apply list_lookup_insert_eq. by eapply lookup_lt_Some. Qed.

(** The closing of the error paths undoes the opening. *)
Lemma runs_undo s sys old fd e Q :
  socks sys !! s = Some old -> 0 <= fd -> fds sys !! fd = None ->
  (forall tr, Q tr (mkSys (fds sys) (<[s := -1]> (socks sys))) (Throw e)) ->
  runs pick (closing s (Return (Throw e))) (mkSys (<[fd := SocketFd]> (fds sys)) (<[s := fd]> (socks sys))) Q.
Proof using Hpick.
  intros Hs Hfd Hfree HQ. pose proof (lookup_lt_Some _ _ _ Hs) as Hlt.
  assert (Hnow : <[s := fd]> (socks sys) !! s = Some fd) by (by rewrite list_lookup_insert_eq).
  eapply runs_closing; [done |]. intros tr0. apply runs_return. unfold emptied. simpl. rewrite Hnow.
  rewrite (proj2 (Z.leb_le 0 fd)), delete_insert_id, list_insert_insert_eq by done. apply HQ.
Qed.

Lemma runs_open s k sys old Q :
  socks sys !! s = Some old ->
  (forall tr, Q tr (emptied s sys) (Throw "TCP socket creation failed")) ->
  (forall fd tr0, 0 <= fd -> fds (emptied s sys) !! fd = None ->
     runs pick (k fd) (mkSys (<[fd := SocketFd]> (fds (emptied s sys))) (<[s := fd]> (socks (emptied s sys))))
       (fun tr => Q (tr0 ++ tr))) ->
  runs pick (open_socket s k) sys Q.
Proof using Hpick.
  intros Hs Hfail Hk. eapply runs_closing; [done |]. intros tr0. apply runs_do; [done |].
  intros sys1. simpl. unfold new_fd. destruct (Z.ltb_spec (ret (pick (emptied s sys) SysSocket)) 0) as [Hn | Hn].
  - intros [= <-]. apply runs_return. apply Hfail.
  - destruct (fds (emptied s sys) !! _) eqn:Hfree; [done |]. intros [= <-].
    assert (Hin : is_Some (socks (emptied s sys) !! s)).
    { by erewrite emptied_lookup. }
    apply runs_do; [done |]. intros sys2. simpl. case_bool_decide; [| done]. intros [= <-].
    specialize (Hk _ (tr0 ++ [SysSocket; Store s (ret (pick (emptied s sys) SysSocket))]) Hn Hfree).
    destruct Hk as (tr & sys' & r & Hr & HQ). exists tr, sys', r. split; [done |]. by rewrite <- app_assoc in HQ.
Qed.
End Run.

(** C40: run with nothing else going on, listen_on and connect_to come to an
    end whatever the kernel answers, and open the object or leave it closed: on
    success it holds a new descriptor, whose last calls were bind and listen
    (or connect) with the address and the port asked for; on an exception its
    fd_ is -1. Either way the descriptor it held before is closed, no other is
    opened, and no other object is touched. *)
Theorem open_or_nothing pick sys s old port a :
  answers pick -> socks sys !! s = Some old ->
  runs pick (listen_on s port a) sys
    (opened s a sys (fun fd host => [SysBind fd host port; SysListen fd 8])) /\
  runs pick (connect_to s a port) sys (opened s a sys (fun fd host => [SysConnect fd host port])).
Proof.
  intros Hp Hs. pose proof (emptied_lookup _ _ _ Hs) as Hs'.
  assert (Hthrow : forall fd e Q, 0 <= fd -> fds (emptied s sys) !! fd = None ->
    (forall tr, Q tr (emptied s sys) (Throw e)) ->
    runs pick (closing s (Return (Throw e)))
      (mkSys (<[fd := SocketFd]> (fds (emptied s sys))) (<[s := fd]> (socks (emptied s sys)))) Q).
  { intros fd e Q Hfd Hfree HQ. eapply runs_undo; [done | done | done | done |].
    rewrite list_insert_id by done. by destruct (emptied s sys). }
  unfold listen_on, connect_to.
  split; (eapply runs_open; [done | done | done |]); intros fd tr0 Hfd Hfree.
  - apply runs_do; [done | done |]. intros ? [= <-]. destruct (ret _ <? 0); [by apply Hthrow |].
    destruct (inet_pton _) as [host |] eqn:Hh; [| by apply Hthrow].
    apply runs_do; [done | done |]. intros ? [= <-]. destruct (ret _ <? 0); [by apply Hthrow |].
    apply runs_do; [done | done |]. intros ? [= <-]. destruct (ret _ <? 0); [by apply Hthrow |].
    apply runs_return. split; [done |]. rewrite (emptied_insert _ _ _ _ Hs).
    exists fd, host, (tr0 ++ [SysSetsockopt fd "SO_REUSEADDR" 1 0]). rewrite <- app_assoc. done.
  - destruct (inet_pton _) as [host |] eqn:Hh; [| by apply Hthrow].
    apply runs_do; [done | done |]. intros ? [= <-]. destruct (ret _ <? 0); [by apply Hthrow |].
    apply runs_return. split; [done |]. rewrite (emptied_insert _ _ _ _ Hs). by exists fd, host, tr0.
Qed.

(** ** Schedules *)

(** A step of [sock_step], by name. *)
Inductive Action := Calls (t : nat) (c : Call) | Does (t : nat) (r : Z) | Returns (t : nat) | OtherOpens (fd : Z).

Definition perform (st : State) (a : Action) : option State :=
  match a with
  | Calls t c =>
      match threads st !! t with
      | Some _ => None
      | None =>
          if bool_decide (map_Forall (fun _ th => th.1 = None \/ th.1 <> opener c) (threads st))
          then Some (mkState (sys st) (<[t := (opener c, body c)]> (threads st))) else None
      end
  | Does t r =>
      match threads st !! t with
      | Some (o, Do c k) =>
          sys' ← effect c (mkReply r None 0) (sys st);
          Some (mkState sys' (<[t := (o, k (mkReply r None 0))]> (threads st)))
      | _ => None
      end
  | Returns t =>
      match threads st !! t with
      | Some (_, Return _) => Some (mkState (sys st) (delete t (threads st)))
      | _ => None
      end
  | OtherOpens fd =>
      match fds (sys st) !! fd with
      | None => Some (mkState (mkSys (<[fd := OtherFd]> (fds (sys st))) (socks (sys st))) (threads st))
      | Some _ => None
      end
  end.
Fixpoint performs (st : State) (acts : list Action) : option State :=
  match acts with
  | [] => Some st
  | a :: rest => st' ← perform st a; performs st' rest
  end.

Lemma perform_step st a st' : perform st a = Some st' -> sock_step st st'.
Proof.
  destruct a as [t c | t r | t | fd]; simpl.
  - destruct (threads st !! t) eqn:Ht; [done |]. case_bool_decide as Hall; [| done]. intros [= <-].
    apply step_call; [done |]. intros t' th s Hth Hs Hc. destruct (Hall t' th Hth); congruence.
  - destruct (threads st !! t) as [[o [| c k]] |] eqn:Ht; [done | | done].
    destruct (effect _ _ _) as [sys' |] eqn:He; [| done]. intros [= <-]. by eapply step_do.
  - destruct (threads st !! t) as [[o [r |]] |] eqn:Ht; [| done | done]. intros [= <-]. by eapply step_return.
  - destruct (fds (sys st) !! fd) eqn:Hf; [done |]. intros [= <-]. by apply step_other_open.
Qed.
Lemma performs_run acts st st' : performs st acts = Some st' -> rtc sock_step st st'.
Proof.
  revert st. induction acts as [| a acts IH]; intros st; simpl; [by intros [= <-] |].
  destruct (perform st a) as [st1 |] eqn:Ha; [| done]. intros H. apply rtc_l with st1; [by eapply perform_step | by apply IH].
Qed.
End Steps.

(** One listening object on descriptor 3, beside the standard input. *)
Definition fresh_process : State := mkState (mkSys {[0 := OtherFd]} [-1]) ∅.
Definition listening : list Action :=
  [Calls 1 (ListenOn 0 18444 (str "10.0.0.1")); Does 1 (-1); Does 1 3; Does 1 0; Does 1 0; Does 1 0; Does 1 0; Returns 1].

Lemma fresh_start : sock_start fresh_process.
Proof.
  split_and!; [done | |].
  - intros [| s] v Hv; [by injection Hv | done].
  - intros fd. simpl. intros [_ [=]]%lookup_singleton_Some.
Qed.

(** The call a thread, which opens no object, makes next. *)
Definition next_call (st : State) (t : nat) : option Syscall :=
  match threads st !! t with
  | Some (None, Do c _) => Some c
  | _ => None
  end.
Lemma next_call_thread st t c : next_call st t = Some c -> exists k, threads st !! t = Some (None, Do c k).
Proof. unfold next_call. intros. repeat case_match; simplify_eq. eauto. Qed.

(** Two threads close the listening object at once: one of them gets the
    descriptor, and is about to close it. *)
Definition two_closes : list Action :=
  listening ++ [Calls 1 (Close 0); Calls 2 (Close 0); Does 2 3; Does 1 (-1); Returns 1; Does 2 0].
Lemma descriptors_owned_once_witness :
  exists st, performs (inet := lan_inet) fresh_process two_closes = Some st /\
    fds (sys st) !! 3 = Some SocketFd /\ forall s, socks (sys st) !! s <> Some 3.
Proof.
  set (H := fun st Hr => descriptors_owned_once (inet := lan_inet) fresh_process st fresh_start Hr).
  assert (Hc : (performs (inet := lan_inet) fresh_process two_closes ≫= fun st => next_call st 2) = Some (SysClose 3))
    by (vm_compute; reflexivity).
  destruct (performs (inet := lan_inet) fresh_process two_closes) as [st |] eqn:E; [| done].
  exists st. split; [done |]. apply next_call_thread in Hc as [k Hk]. destruct (H st (performs_run (inet := lan_inet) _ _ _ E)) as (H1 & _).
  destruct (H1 _ _ _ _ Hk) as (H2 & H3 & _). exact (conj H2 H3).
Defined.

(** A kernel that gives descriptor 3 and grants every other call. *)
Definition granting (sys : Sys) (c : Syscall) : Reply :=
  mkReply (match c with
           | Load s | Exchange s _ => default 0 (socks sys !! s)
           | Construct _ => Z.of_nat (length (socks sys))
           | SysSocket => if bool_decide (fds sys !! 3 = None) then 3 else -1
           | SysAccept _ => -1
           | _ => 0
           end) None 0.
Lemma granting_answers : answers granting.
Proof.
  intros sys c Hon. destruct c; simpl in *; try done.
  - destruct Hon as [v Hv]. rewrite Hv. simpl. by case_bool_decide.
  - destruct Hon as [v' Hv]. rewrite Hv. simpl. by case_bool_decide.
  - by case_bool_decide.
  - by case_bool_decide.
  - unfold new_fd. case_bool_decide as H3; simpl; [by rewrite H3 | done].
Qed.
Lemma open_or_nothing_witness :
  runs granting (listen_on (inet := lan_inet) 0 18444 (str "10.0.0.1")) (mkSys ∅ [-1])
    (opened (inet := lan_inet) 0 (str "10.0.0.1") (mkSys ∅ [-1]) (fun fd host => [SysBind fd host 18444; SysListen fd 8])).
Proof.
  apply (open_or_nothing (inet := lan_inet) granting (mkSys ∅ [-1]) 0 (-1) 18444 (str "10.0.0.1")).
  - exact granting_answers.
  - reflexivity.
Defined.

(** The comment in [close] says that [accept_connection], having loaded the old
    descriptor, gets EBADF. Between the load and the call the number may be in
    use again, and the kernel may hand out a connection of the other owner's
    listener. *)
Lemma stale_accept :
  exists start st k, sock_start start /\ rtc (sock_step (H := lan_inet)) start st /\
    socks (sys st) !! 0%nat = Some (-1) /\ fds (sys st) !! 3 = Some OtherFd /\
    threads st !! 1%nat = Some (None, Do (SysAccept 3) k) /\
    exists sys', effect (SysAccept 3) (mkReply 4 None 0) (sys st) = Some sys'.
Proof.
  set (acts := listening ++
    [Calls 1 (AcceptConnection 0); Does 1 3; Calls 2 (Close 0); Does 2 3; Does 2 0; Does 2 0; Returns 2; OtherOpens 3]).
  assert (Hc : (fun st => (socks (sys st) !! 0%nat, fds (sys st) !! 3, next_call st 1,
    bool_decide (is_Some (effect (SysAccept 3) (mkReply 4 None 0) (sys st))))) <$>
    performs (inet := lan_inet) fresh_process acts = Some (Some (-1), Some OtherFd, Some (SysAccept 3), true))
    by (vm_compute; reflexivity).
  destruct (performs (inet := lan_inet) fresh_process acts) as [st |] eqn:E; [| done].
  injection Hc as H1 H2 H3 H4%bool_decide_eq_true. apply next_call_thread in H3 as [k H3].
  exists fresh_process, st, k. apply performs_run in E. split_and!; [exact fresh_start | done ..].
Qed.
