(* ===== verification/PeerManager.v ===== *)
(** p2p_peer_manager.hpp: [P2PPeerManager], the table of connected peers with
    their scores, the bans and the cache of discovered endpoints.

    A public method that takes the manager's lock once is one function on the
    state; [penalize] takes it three times and has the other threads' doings in
    between as arguments. [now] is what [steady_clock::now()] returns. *)

From S2P Require Import Prelude Serialization Crypto P2PWire.
From stdpp Require Import options.
Local Open Scope Z_scope.

(** Durations and time points of [steady_clock], in nanoseconds. *)
Definition seconds (n : Z) : Z := n * 1000000000.

Definition MAX_PEERS : Z := 64.
Definition PEER_SCORE_INITIAL : Z := 100.
Definition PEER_SCORE_MAX : Z := 200.
Definition PEER_SCORE_MIN : Z := 0.
Definition BAN_THRESHOLD : Z := 0.
Definition DEFAULT_PENALTY : Z := 10.
Definition DEFAULT_REWARD : Z := 1.
Definition DEFAULT_BAN_DURATION : Z := seconds (24 * 3600).
Definition MAX_KNOWN_PEERS : Z := 256.

(** ** Connections *)

(** A connection is the descriptor of its socket. *)
Definition P2PConnection := Z.
Definition connection_valid (c : P2PConnection) : bool := 0 <=? c.

(** The outcomes of the next sends: whether the socket takes the frame. When
    the script is over, sends succeed. *)
Definition Script := list bool.
Definition next_outcome (s : Script) : bool * Script :=
  match s with [] => (true, []) | up :: s => (up, s) end.

(** A frame that was handed over completely to a connection. *)
Definition Sent : Type := P2PConnection * P2PFrame.

Definition send_frame_on (s : Script) (c : P2PConnection) (f : P2PFrame)
    : result unit * list Sent * Script :=
  match frame_serialize_binary f with
  | Throw e => (Throw e, [], s)
  | Ok _ =>
      let '(up, s) := next_outcome s in
      if (up : bool) then (Ok tt, [(c, f)], s) else (Throw "TCP send failed", [], s)
  end.

(** ** The state *)

Record P2PPeerInfo := mkInfo {
  info_id : Z; (* u64 *)
  info_address : bytes;
  info_port : Z; (* u16 *)
  connected : bool;
  info_score : Z (* int *)
}.
Record PeerEntry := mkEntry { info_of : P2PPeerInfo; connection_of : P2PConnection }.

#[global] Instance P2PPeerInfo_eq_dec : EqDecision P2PPeerInfo.
Proof. solve_decision. Defined.
#[global] Instance PeerEntry_eq_dec : EqDecision PeerEntry.
Proof. solve_decision. Defined.

Record P2PPeerManager := mkManager {
  peers_ : gmap Z PeerEntry;
  known_peers_ : list P2PPeerEndpoint;
  banned_addresses_ : gmap bytes Z; (* the time a ban ends *)
  next_id_ : Z (* u64 *)
}.
Definition new_manager : P2PPeerManager := mkManager ∅ [] ∅ 1.

Definition set_peers (p : gmap Z PeerEntry) (m : P2PPeerManager) : P2PPeerManager :=
  mkManager p (known_peers_ m) (banned_addresses_ m) (next_id_ m).
Definition set_known (k : list P2PPeerEndpoint) (m : P2PPeerManager) : P2PPeerManager :=
  mkManager (peers_ m) k (banned_addresses_ m) (next_id_ m).
Definition set_banned (b : gmap bytes Z) (m : P2PPeerManager) : P2PPeerManager :=
  mkManager (peers_ m) (known_peers_ m) b (next_id_ m).

(** The order in which [std::unordered_map] enumerates the peers. *)
Class PeerOrder := {
  peer_iteration : gmap Z PeerEntry -> list (Z * PeerEntry);
  peer_iteration_perm m : peer_iteration m ≡ₚ map_to_list m
}.

(** ** Bans *)

(** An expired ban is dropped on the way. *)
Definition is_banned_locked (now : Z) (addr : bytes) (m : P2PPeerManager) : bool * P2PPeerManager :=
  match banned_addresses_ m !! addr with
  | None => (false, m)
  | Some until =>
      if until <=? now then (false, set_banned (delete addr (banned_addresses_ m)) m)
      else (true, m)
  end.
Definition is_banned (now : Z) (addr : bytes) (m : P2PPeerManager) : bool * P2PPeerManager :=
  is_banned_locked now addr m.
Definition ban (now : Z) (addr : bytes) (m : P2PPeerManager) : P2PPeerManager :=
  set_banned (<[addr := now + DEFAULT_BAN_DURATION]> (banned_addresses_ m)) m.
Definition unban (addr : bytes) (m : P2PPeerManager) : P2PPeerManager :=
  set_banned (delete addr (banned_addresses_ m)) m.

(** ** Peers *)

Definition same_endpoint (addr : bytes) (prt : Z) (i : P2PPeerInfo) : bool :=
  bool_decide (info_address i = addr) && (info_port i =? prt).

Section Peers.
Context {order : PeerOrder}.

(** Up to the callback, which runs after the lock is released. *)
Definition add_peer (now : Z) (connection : P2PConnection) (addr : bytes) (prt : Z)
    (m : P2PPeerManager) : result Z * P2PPeerManager :=
  if negb (connection_valid connection) then (Throw "Cannot add invalid P2P peer", m)
  else if MAX_PEERS <=? Z.of_nat (size (peers_ m)) then (Throw "P2P peer limit reached", m)
  else
    let '(banned, m) := is_banned_locked now addr m in
    if (banned : bool) then (Throw "Cannot add banned P2P peer", m)
    else if existsb (fun kv => same_endpoint addr prt (info_of kv.2)) (peer_iteration (peers_ m))
    then (Throw "P2P peer endpoint is already connected", m)
    else
      let id := next_id_ m in
      let entry := mkEntry (mkInfo id addr prt true PEER_SCORE_INITIAL) connection in
      (* emplace keeps an entry that is already there *)
      let peers := match peers_ m !! id with Some _ => peers_ m | None => <[id := entry]> (peers_ m) end in
      (Ok id, mkManager peers (known_peers_ m) (banned_addresses_ m) (u64 (id + 1))).

Definition contains (m : P2PPeerManager) (id : Z) : bool := bool_decide (is_Some (peers_ m !! id)).
Definition peer_count (m : P2PPeerManager) : Z := Z.of_nat (size (peers_ m)).
Definition info (m : P2PPeerManager) (id : Z) : result P2PPeerInfo :=
  match peers_ m !! id with None => Throw "Unknown P2P peer" | Some e => Ok (info_of e) end.
Definition remove_peer (id : Z) (m : P2PPeerManager) : P2PPeerManager :=
  set_peers (delete id (peers_ m)) m.
Definition clear_peers (m : P2PPeerManager) : P2PPeerManager := set_peers ∅ m.
Definition connection (m : P2PPeerManager) (id : Z) : option P2PConnection :=
  connection_of <$> peers_ m !! id.
Definition list_ids (m : P2PPeerManager) : list Z := (peer_iteration (peers_ m)).*1.

(** Connected peers with a usable endpoint. *)
Definition peer_endpoints_snapshot (m : P2PPeerManager) : list P2PPeerEndpoint :=
  omap (fun kv =>
      let i := info_of kv.2 in
      if bool_decide (info_address i = []) || (info_port i =? 0) then None
      else Some (mkEndpoint (info_address i) (info_port i)))
    (peer_iteration (peers_ m)).

(** ** Sending *)

Definition send_to (s : Script) (id : Z) (f : P2PFrame) (m : P2PPeerManager)
    : result unit * list Sent * Script :=
  match peers_ m !! id with
  | None => (Throw "Unknown P2P peer", [], s)
  | Some e => send_frame_on s (connection_of e) f
  end.

(** The loop of [broadcast]: the first exception leaves it. *)
Fixpoint broadcast_loop (s : Script) (cs : list P2PConnection) (f : P2PFrame)
    : result unit * list Sent * Script :=
  match cs with
  | [] => (Ok tt, [], s)
  | c :: cs =>
      match send_frame_on s c f with
      | (Throw e, out, s) => (Throw e, out, s)
      | (Ok _, out, s) => let '(r, out', s) := broadcast_loop s cs f in (r, out ++ out', s)
      end
  end.
Definition broadcast (s : Script) (f : P2PFrame) (m : P2PPeerManager)
    : result unit * list Sent * Script :=
  broadcast_loop s ((fun kv => connection_of kv.2) <$> peer_iteration (peers_ m)) f.

(** The loop of [broadcast_except]: exceptions are swallowed. *)
Fixpoint broadcast_all_loop (s : Script) (cs : list P2PConnection) (f : P2PFrame)
    : list Sent * Script :=
  match cs with
  | [] => ([], s)
  | c :: cs =>
      let '(_, out, s) := send_frame_on s c f in
      let '(out', s) := broadcast_all_loop s cs f in (out ++ out', s)
  end.
Definition broadcast_except (s : Script) (excluded_id : Z) (f : P2PFrame) (m : P2PPeerManager)
    : list Sent * Script :=
  broadcast_all_loop s
    ((fun kv => connection_of kv.2) <$> filter (fun kv => kv.1 <> excluded_id) (peer_iteration (peers_ m))) f.
End Peers.

(** ** Discovery cache *)

Section Known.
Context {inet : Inet}.

Definition remember_peer_endpoint (e : P2PPeerEndpoint) (m : P2PPeerManager)
    : result unit * P2PPeerManager :=
  match endpoint_validate e with
  | Throw x => (Throw x, m)
  | Ok _ =>
      if existsb (fun known => bool_decide (address known = address e) && (port known =? port e))
           (known_peers_ m)
      then (Ok tt, m)
      else if MAX_KNOWN_PEERS <=? sizeZ (known_peers_ m) then (Ok tt, m)
      else (Ok tt, set_known (known_peers_ m ++ [e]) m)
  end.
Fixpoint remember_peer_endpoints (es : list P2PPeerEndpoint) (m : P2PPeerManager)
    : result unit * P2PPeerManager :=
  match es with
  | [] => (Ok tt, m)
  | e :: es =>
      match remember_peer_endpoint e m with
      | (Throw x, m) => (Throw x, m)
      | (Ok _, m) => remember_peer_endpoints es m
      end
  end.
End Known.

Definition known_peer_endpoints_snapshot (m : P2PPeerManager) : list P2PPeerEndpoint := known_peers_ m.
Definition forget_peer_endpoint (addr : bytes) (prt : Z) (m : P2PPeerManager) : P2PPeerManager :=
  set_known (filter (fun e => ~ (address e = addr /\ port e = prt)) (known_peers_ m)) m.

(** ** Scores *)

Definition peer_score (m : P2PPeerManager) (id : Z) : Z :=
  match peers_ m !! id with None => 0 | Some e => info_score (info_of e) end.
Definition with_score (s : Z) (e : PeerEntry) : PeerEntry :=
  let i := info_of e in
  mkEntry (mkInfo (info_id i) (info_address i) (info_port i) (connected i) s) (connection_of e).

(** The first section of [penalize]: the new score, and the address to ban,
    empty when there is none. *)
Definition lower_score (id amount : Z) (m : P2PPeerManager) : bytes * P2PPeerManager :=
  match peers_ m !! id with
  | None => ([], m)
  | Some e =>
      let score := info_score (info_of e) - amount in
      if score <=? BAN_THRESHOLD
      then (info_address (info_of e), set_peers (<[id := with_score PEER_SCORE_MIN e]> (peers_ m)) m)
      else ([], set_peers (<[id := with_score score e]> (peers_ m)) m)
  end.
(** Three sections, each under the lock: the score, the ban, the removal.
    [before_ban] and [before_removal] are what other threads do in between. *)
Definition penalize_among (before_ban before_removal : P2PPeerManager -> P2PPeerManager)
    (now : Z) (id amount : Z) (m : P2PPeerManager) : P2PPeerManager :=
  let '(address_to_ban, m) := lower_score id amount m in
  if bool_decide (address_to_ban = []) then m
  else remove_peer id (before_removal (ban now address_to_ban (before_ban m))).
(** Nobody else in between. *)
Definition penalize : Z -> Z -> Z -> P2PPeerManager -> P2PPeerManager :=
  penalize_among (fun m => m) (fun m => m).
Definition reward (id amount : Z) (m : P2PPeerManager) : P2PPeerManager :=
  match peers_ m !! id with
  | None => m
  | Some e =>
      let score := info_score (info_of e) + amount in
      set_peers (<[id := with_score (if PEER_SCORE_MAX <? score then PEER_SCORE_MAX else score) e]>
        (peers_ m)) m
  end.

(** ** The methods as operations on the state *)

Inductive PeerOp :=
  | OpAdd (c : P2PConnection) (addr : bytes) (prt : Z)
  | OpRemove (id : Z)
  | OpClear
  | OpRemember (es : list P2PPeerEndpoint)
  | OpForget (addr : bytes) (prt : Z)
  | OpLowerScore (id amount : Z)
  | OpPenalize (id amount : Z)
  | OpReward (id amount : Z)
  | OpIsBanned (addr : bytes)
  | OpBan (addr : bytes)
  | OpUnban (addr : bytes).

Section Ops.
Context {order : PeerOrder} {inet : Inet}.

(** What a call at time [now] leaves behind, also when it throws.
    [OpLowerScore] is the first section of a penalty alone; its other two are a
    ban and a removal. *)
Definition peer_op (now : Z) (op : PeerOp) (m : P2PPeerManager) : P2PPeerManager :=
  match op with
  | OpAdd c addr prt => (add_peer now c addr prt m).2
  | OpRemove id => remove_peer id m
  | OpClear => clear_peers m
  | OpRemember es => (remember_peer_endpoints es m).2
  | OpForget addr prt => forget_peer_endpoint addr prt m
  | OpLowerScore id amount => (lower_score id amount m).2
  | OpPenalize id amount => penalize now id amount m
  | OpReward id amount => reward id amount m
  | OpIsBanned addr => (is_banned now addr m).2
  | OpBan addr => ban now addr m
  | OpUnban addr => unban addr m
  end.
Definition peer_ops (calls : list (Z * PeerOp)) (m : P2PPeerManager) : P2PPeerManager :=
  foldl (fun m call => peer_op call.1 call.2 m) m calls.

(** The invariant of the table. *)
Record entry_ok (m : P2PPeerManager) (id : Z) (e : PeerEntry) : Prop := {
  eo_id : info_id (info_of e) = id;
  eo_fresh : 1 <= id < next_id_ m;
  eo_score : PEER_SCORE_MIN <= info_score (info_of e) <= PEER_SCORE_MAX;
  eo_connected : connected (info_of e) = true;
  eo_socket : 0 <= connection_of e
}.
Record manager_inv (m : P2PPeerManager) : Prop := {
  mi_size : Z.of_nat (size (peers_ m)) <= MAX_PEERS;
  mi_entries : map_Forall (entry_ok m) (peers_ m);
  mi_endpoints : forall i j e1 e2,
    peers_ m !! i = Some e1 -> peers_ m !! j = Some e2 ->
    info_address (info_of e1) = info_address (info_of e2) ->
    info_port (info_of e1) = info_port (info_of e2) -> i = j;
  mi_known : sizeZ (known_peers_ m) <= MAX_KNOWN_PEERS;
  mi_known_nodup : NoDup (known_peers_ m);
  mi_known_valid : Forall (fun e => endpoint_validate e = Ok tt) (known_peers_ m);
  mi_next : 1 <= next_id_ m
}.

(** Calls within the integer types: amounts that keep an [int] score an [int],
    and fewer than 2^64 - 1 connections so far. *)
Definition INT_MAX : Z := 2147483647.
Definition op_ok (m : P2PPeerManager) (op : PeerOp) : Prop :=
  match op with
  | OpAdd _ _ _ => next_id_ m < UINT64_MAX
  | OpLowerScore _ amount | OpPenalize _ amount | OpReward _ amount =>
      0 <= amount <= INT_MAX - PEER_SCORE_MAX
  | _ => True
  end.
End Ops.

Ltac peer_consts :=
  unfold MAX_PEERS, PEER_SCORE_INITIAL, PEER_SCORE_MAX, PEER_SCORE_MIN, BAN_THRESHOLD,
    DEFAULT_BAN_DURATION, MAX_KNOWN_PEERS, INT_MAX, seconds in *.

Section ManagerFacts.
Context {order : PeerOrder} {inet : Inet}.
Implicit Types (m : P2PPeerManager).

Lemma is_banned_frame now addr m :
  peers_ (is_banned_locked now addr m).2 = peers_ m /\
  known_peers_ (is_banned_locked now addr m).2 = known_peers_ m /\
  next_id_ (is_banned_locked now addr m).2 = next_id_ m.
Proof. unfold is_banned_locked. destruct (_ !! addr); [destruct (_ <=? now)|]; done. Qed.

Lemma no_endpoint addr prt m :
  existsb (fun kv => same_endpoint addr prt (info_of kv.2)) (peer_iteration (peers_ m)) = false <->
  forall id e, peers_ m !! id = Some e ->
    ~ (info_address (info_of e) = addr /\ info_port (info_of e) = prt).
Proof.
  rewrite <- Bool.not_true_iff_false, existsb_exists. unfold same_endpoint. split.
  - intros H id e He [Ha Hp]. apply H. exists (id, e). split.
    + apply list_elem_of_In. rewrite peer_iteration_perm. by apply elem_of_map_to_list.
    + simpl. by rewrite bool_decide_eq_true_2, Hp, Z.eqb_refl.
  - intros H ([id e] & Hin & Hs). apply list_elem_of_In in Hin. rewrite peer_iteration_perm in Hin.
    apply elem_of_map_to_list in Hin. simpl in Hs. result_inv. zbool. by eapply H.
Qed.

(** What [add_peer] does, by outcome. *)
Lemma add_peer_outcome now c addr prt m r m' :
  add_peer now c addr prt m = (r, m') ->
  (exists e, r = Throw e /\ peers_ m' = peers_ m /\ known_peers_ m' = known_peers_ m /\
     next_id_ m' = next_id_ m) \/
  (r = Ok (next_id_ m) /\ 0 <= c /\ Z.of_nat (size (peers_ m)) < MAX_PEERS /\
   (is_banned_locked now addr m).1 = false /\
   (forall id e, peers_ m !! id = Some e ->
      ~ (info_address (info_of e) = addr /\ info_port (info_of e) = prt)) /\
   m' = mkManager
     match peers_ m !! next_id_ m with
     | Some _ => peers_ m
     | None => <[next_id_ m := mkEntry (mkInfo (next_id_ m) addr prt true PEER_SCORE_INITIAL) c]> (peers_ m)
     end (known_peers_ m) (banned_addresses_ (is_banned_locked now addr m).2) (u64 (next_id_ m + 1))).
Proof.
  unfold add_peer. destruct (is_banned_frame now addr m) as (E1 & E2 & E3).
  destruct (connection_valid c) eqn:Hc; [|intros [= <- <-]; left; by eexists]. cbn [negb].
  destruct (MAX_PEERS <=? _) eqn:Hs; [intros [= <- <-]; left; by eexists|].
  destruct (is_banned_locked now addr m) as [banned m1]. simpl in *.
  destruct banned; [intros [= <- <-]; left; by eexists|].
  destruct (existsb _ _) eqn:Hx; [intros [= <- <-]; left; by eexists|].
  rewrite E1 in *. rewrite E2, E3. intros [= <- <-]. right. unfold connection_valid in Hc. zbool.
  split_and!; try done. by apply no_endpoint.
Qed.

Lemma remember_outcome e m r m' :
  remember_peer_endpoint e m = (r, m') ->
  m' = m \/ (m' = set_known (known_peers_ m ++ [e]) m /\ endpoint_validate e = Ok tt /\
    e ∉ known_peers_ m /\ sizeZ (known_peers_ m) < MAX_KNOWN_PEERS).
Proof.
  unfold remember_peer_endpoint. destruct (endpoint_validate e) as [[]|]; [|intros [= <- <-]; by left].
  destruct (existsb _ _) eqn:Hx; [intros [= <- <-]; by left|].
  destruct (MAX_KNOWN_PEERS <=? _) eqn:Hs; [intros [= <- <-]; by left|].
  intros [= <- <-]. zbool. right. split_and!; try done. intros Hin.
  apply Bool.not_true_iff_false in Hx. apply Hx, existsb_exists. exists e.
  split; [by apply list_elem_of_In|]. by rewrite bool_decide_eq_true_2, Z.eqb_refl.
Qed.

(** *** Each operation keeps the invariant *)

Lemma entry_ok_mono m m' id e : next_id_ m <= next_id_ m' -> entry_ok m id e -> entry_ok m' id e.
Proof. intros H []. split; [done|lia|done..]. Qed.

Lemma manager_inv_frame m m' :
  manager_inv m -> peers_ m' = peers_ m -> known_peers_ m' = known_peers_ m ->
  next_id_ m' = next_id_ m -> manager_inv m'.
Proof.
  intros [] E1 E2 E3. split; rewrite ?E1, ?E2, ?E3; try done.
  intros id e He. apply (entry_ok_mono m); [lia|auto].
Qed.

Lemma manager_inv_delete m id : manager_inv m -> manager_inv (remove_peer id m).
Proof.
  intros []. split; simpl; try done.
  - rewrite map_size_delete. destruct (peers_ m !! id); simpl; lia.
  - intros i e [_ He]%lookup_delete_Some. apply (entry_ok_mono m); simpl; [lia|auto].
  - intros i j e1 e2 [_ H1]%lookup_delete_Some [_ H2]%lookup_delete_Some. eauto.
Qed.

(** Changing the score of a peer within the limits. *)
Lemma manager_inv_score m id e s :
  manager_inv m -> peers_ m !! id = Some e -> PEER_SCORE_MIN <= s <= PEER_SCORE_MAX ->
  manager_inv (set_peers (<[id := with_score s e]> (peers_ m)) m).
Proof.
  intros [] He Hs. split; simpl; try done.
  - rewrite map_size_insert_Some by eauto. done.
  - apply map_Forall_insert_2.
    + destruct (mi_entries0 id e He). by split.
    + intros i e' He'. apply (entry_ok_mono m); simpl; [lia|auto].
  - intros i j e1 e2 H1 H2 Ha Hp.
    assert (forall k e', <[id := with_score s e]> (peers_ m) !! k = Some e' ->
      exists e0, peers_ m !! k = Some e0 /\ info_address (info_of e0) = info_address (info_of e') /\
        info_port (info_of e0) = info_port (info_of e')) as Hx.
    { intros k e' [[<- <-]|[_ Hk]]%lookup_insert_Some; eauto. }
    destruct (Hx i e1 H1) as (? & ? & ? & ?), (Hx j e2 H2) as (? & ? & ? & ?).
    eapply mi_endpoints0; [done|done|congruence..].
Qed.

Lemma manager_inv_add now c addr prt m :
  manager_inv m -> next_id_ m < UINT64_MAX -> manager_inv (add_peer now c addr prt m).2.
Proof.
  intros H Hn. destruct (add_peer now c addr prt m) as [r m'] eqn:E.
  apply add_peer_outcome in E as [(x & _ & E1 & E2 & E3)|(_ & Hc & Hs & _ & Hno & ->)];
    [by apply (manager_inv_frame m)|]. destruct H. simpl.
  rewrite u64_small by ints.
  assert (peers_ m !! next_id_ m = None) as Hf.
  { destruct (peers_ m !! next_id_ m) eqn:E; [|done]. destruct (mi_entries0 _ _ E). lia. }
  rewrite Hf. split; simpl; try done; [|..|lia].
  - rewrite map_size_insert_None by done. lia.
  - apply map_Forall_insert_2; [split; simpl; try done; peer_consts; lia|].
    intros i e He. apply (entry_ok_mono m); simpl; [lia|auto].
  - intros i j e1 e2 [[<- <-]|[_ H1]]%lookup_insert_Some [[<- <-]|[_ H2]]%lookup_insert_Some; simpl;
      try done; intros Ha Hp; [by destruct (Hno j e2)|by destruct (Hno i e1)|eauto].
Qed.

Lemma manager_inv_remember e m : manager_inv m -> manager_inv (remember_peer_endpoint e m).2.
Proof.
  intros H. destruct (remember_peer_endpoint e m) as [r m'] eqn:E.
  apply remember_outcome in E as [->|(-> & Hv & Hnew & Hs)]; [done|]. destruct H. simpl.
  split; simpl; try done.
  - intros i e' He'. apply (entry_ok_mono m); simpl; [lia|auto].
  - rewrite sizeZ_app. unfold sizeZ at 2. simpl. lia.
  - apply NoDup_app. split; [done|]. split; [|apply NoDup_singleton].
    intros x Hx ->%list_elem_of_singleton. done.
  - apply Forall_app. split; [done|]. by constructor.
Qed.
Lemma manager_inv_remembers es m : manager_inv m -> manager_inv (remember_peer_endpoints es m).2.
Proof.
  revert m. induction es as [|e es IH]; intros m H; [done|]. simpl.
  pose proof (manager_inv_remember e m H) as H1.
  destruct (remember_peer_endpoint e m) as [[[]|] m']; [by apply IH|done].
Qed.

Lemma manager_inv_forget addr prt m : manager_inv m -> manager_inv (forget_peer_endpoint addr prt m).
Proof.
  intros []. split; simpl; try done.
  - intros i e He. apply (entry_ok_mono m); simpl; [lia|auto].
  - unfold sizeZ in *. pose proof (length_filter (fun e => ~ (address e = addr /\ port e = prt)) (known_peers_ m)). lia.
  - by apply NoDup_filter.
  - rewrite Forall_forall in *. intros x [_ Hx]%list_elem_of_filter. auto.
Qed.

Lemma manager_inv_lower_score id amount m :
  manager_inv m -> 0 <= amount -> manager_inv (lower_score id amount m).2.
Proof.
  intros H Ha. unfold lower_score. destruct (peers_ m !! id) as [e|] eqn:He; [|done].
  pose proof (eo_score _ _ _ (mi_entries m H id e He)) as Hs.
  destruct (_ <=? BAN_THRESHOLD) eqn:Hb; zbool; apply manager_inv_score; peer_consts; done || lia.
Qed.
Lemma manager_inv_penalize now id amount m :
  manager_inv m -> 0 <= amount -> manager_inv (penalize now id amount m).
Proof.
  intros H Ha. unfold penalize, penalize_among. pose proof (manager_inv_lower_score id amount m H Ha) as H1.
  destruct (lower_score id amount m) as [a m1]. case_bool_decide; [done|].
  apply manager_inv_delete. by apply (manager_inv_frame _ _ H1).
Qed.

Lemma manager_inv_reward id amount m :
  manager_inv m -> 0 <= amount -> manager_inv (reward id amount m).
Proof.
  intros H Ha. unfold reward. destruct (peers_ m !! id) as [e|] eqn:He; [|done].
  pose proof (eo_score _ _ _ (mi_entries m H id e He)) as Hs.
  apply manager_inv_score; [done..|]. destruct (_ <? _) eqn:E; zbool; peer_consts; lia.
Qed.

Lemma peer_op_inv now op m : manager_inv m -> op_ok m op -> manager_inv (peer_op now op m).
Proof.
  intros H Hop. destruct op; simpl in *.
  - by apply manager_inv_add.
  - by apply manager_inv_delete.
  - destruct H. split; simpl; try done; apply map_Forall_empty.
  - by apply manager_inv_remembers.
  - by apply manager_inv_forget.
  - apply manager_inv_lower_score; [done|lia].
  - apply manager_inv_penalize; [done|lia].
  - apply manager_inv_reward; [done|lia].
  - destruct (is_banned_frame now addr m) as (? & ? & ?). by apply (manager_inv_frame m).
  - by apply (manager_inv_frame m).
  - by apply (manager_inv_frame m).
Qed.

Lemma new_manager_inv : manager_inv new_manager.
Proof.
  split; simpl; try done; first [apply map_Forall_empty|constructor].
Qed.
End ManagerFacts.

(** ** Bans and broadcasts *)

Section BanFacts.
Context {order : PeerOrder} {inet : Inet}.
Implicit Types (m : P2PPeerManager).

(** Until [t1] the address is banned, and its connections are among those of
    [m0]: the state a ban establishes and that only [unban] can leave. *)
Record ban_holds (m0 : P2PPeerManager) (addr : bytes) (t1 : Z) (m : P2PPeerManager) : Prop := {
  bh_until : exists until, banned_addresses_ m !! addr = Some until /\ t1 <= until;
  bh_peers : forall id e, peers_ m !! id = Some e -> info_address (info_of e) = addr ->
    exists e0, peers_ m0 !! id = Some e0 /\ info_address (info_of e0) = addr
}.

Lemma ban_holds_frame m0 addr t1 m m' :
  ban_holds m0 addr t1 m -> banned_addresses_ m' = banned_addresses_ m ->
  (forall id e, peers_ m' !! id = Some e -> info_address (info_of e) = addr ->
     exists e0, peers_ m !! id = Some e0 /\ info_address (info_of e0) = addr) ->
  ban_holds m0 addr t1 m'.
Proof.
  intros [H1 H2] E Hp. split; [by rewrite E|]. intros id e He Ha.
  destruct (Hp id e He Ha) as (e0 & He0 & Ha0). eauto.
Qed.

Lemma banned_now now addr a t1 m0 m :
  ban_holds m0 addr t1 m -> now < t1 ->
  (a = addr -> is_banned_locked now a m = (true, m)) /\
  ban_holds m0 addr t1 (is_banned_locked now a m).2.
Proof.
  intros H Hn. pose proof H as [(until & Hu & Ht) Hp]. unfold is_banned_locked. split.
  - intros ->. rewrite Hu. by rewrite (proj2 (Z.leb_gt _ _)) by lia.
  - destruct (_ !! a) as [u|] eqn:Ha; [|done]. destruct (u <=? now) eqn:E; zbool; [|done].
    split; [|done]. simpl. exists until. split; [|done]. rewrite lookup_delete_ne; [done|].
    intros ->. rewrite Hu in Ha. injection Ha as ->. lia.
Qed.

Lemma banned_add now c addr a prt t1 m0 m :
  ban_holds m0 addr t1 m -> now < t1 ->
  (a = addr -> exists x, add_peer now c a prt m = (Throw x, m)) /\
  ban_holds m0 addr t1 (add_peer now c a prt m).2.
Proof.
  intros H Hn. destruct (banned_now now addr a t1 m0 m H Hn) as [Hb Hk].
  assert (forall m', ban_holds m0 addr t1 m' -> a <> addr ->
    forall e, info_address (info_of e) = a -> forall n0, ban_holds m0 addr t1
      (mkManager match peers_ m' !! n0 with Some _ => peers_ m' | None => <[n0 := e]> (peers_ m') end
         (known_peers_ m') (banned_addresses_ m') (u64 (n0 + 1)))) as Hins.
  { intros m' H' Hne e He n0. apply (ban_holds_frame m0 addr t1 m'); [done|done|]. simpl.
    intros id e' Hid Ha. destruct (peers_ m' !! n0); [eauto|].
    apply lookup_insert_Some in Hid as [[_ <-]|[_ ?]]; [congruence|eauto]. }
  unfold add_peer. split.
  - intros E. rewrite (Hb E). destruct (negb _); [eauto|]. destruct (_ <=? _); [eauto|]. eauto.
  - destruct (negb _); [done|]. destruct (_ <=? _); [done|].
    destruct (decide (a = addr)) as [E|Hne]; [by rewrite (Hb E)|].
    destruct (is_banned_locked now a m) as [banned m']. simpl in Hk.
    destruct banned; [done|]. destruct (existsb _ _); [done|]. by apply Hins.
Qed.

Lemma remembers_frame es m :
  peers_ (remember_peer_endpoints es m).2 = peers_ m /\
  banned_addresses_ (remember_peer_endpoints es m).2 = banned_addresses_ m.
Proof.
  revert m. induction es as [|e es IH]; intros m; [done|]. simpl.
  destruct (remember_peer_endpoint e m) as [r m'] eqn:E.
  assert (peers_ m' = peers_ m /\ banned_addresses_ m' = banned_addresses_ m) as [E1 E2]
    by (apply remember_outcome in E as [->|[-> _]]; done).
  destruct r; [|done]. destruct (IH m') as [-> ->]. done.
Qed.

Lemma lower_score_frame id amount m :
  banned_addresses_ (lower_score id amount m).2 = banned_addresses_ m /\
  next_id_ (lower_score id amount m).2 = next_id_ m /\
  forall i e', peers_ (lower_score id amount m).2 !! i = Some e' ->
    exists e, peers_ m !! i = Some e /\ info_address (info_of e) = info_address (info_of e').
Proof.
  unfold lower_score. destruct (peers_ m !! id) as [e|] eqn:He; [|eauto].
  assert (forall s i e', <[id := with_score s e]> (peers_ m) !! i = Some e' ->
    exists e, peers_ m !! i = Some e /\ info_address (info_of e) = info_address (info_of e')) as Hx.
  { intros s i e' [[<- <-]|[_ ?]]%lookup_insert_Some; eauto. }
  destruct (_ <=? _); split_and!; simpl; eauto.
Qed.
Lemma penalize_peers now id amount m i e' :
  peers_ (penalize now id amount m) !! i = Some e' ->
  exists e, peers_ m !! i = Some e /\ info_address (info_of e) = info_address (info_of e').
Proof.
  unfold penalize, penalize_among. pose proof (lower_score_frame id amount m) as (_ & _ & Hp).
  destruct (lower_score id amount m) as [a m1]. case_bool_decide; [apply Hp|]. simpl.
  intros [_ Hl]%lookup_delete_Some. by apply Hp.
Qed.

Lemma penalize_banned now id amount m :
  banned_addresses_ (penalize now id amount m) = banned_addresses_ m \/
  exists a, banned_addresses_ (penalize now id amount m) =
    <[a := now + DEFAULT_BAN_DURATION]> (banned_addresses_ m).
Proof.
  unfold penalize, penalize_among. pose proof (lower_score_frame id amount m) as (Hb & _ & _).
  destruct (lower_score id amount m) as [a m1]. case_bool_decide; simpl; rewrite <- Hb; eauto.
Qed.

(** A new ban, of this or another address, does not shorten the ban. *)
Lemma ban_holds_reban now a m0 addr t1 m m' :
  ban_holds m0 addr t1 m -> t1 <= now + DEFAULT_BAN_DURATION ->
  banned_addresses_ m' = <[a := now + DEFAULT_BAN_DURATION]> (banned_addresses_ m) ->
  (forall id e, peers_ m' !! id = Some e -> info_address (info_of e) = addr ->
     exists e0, peers_ m !! id = Some e0 /\ info_address (info_of e0) = addr) ->
  ban_holds m0 addr t1 m'.
Proof.
  intros [(until & Hu & Ht) Hp] Hn E Hq. split.
  - rewrite E. destruct (decide (a = addr)) as [->|Hne].
    + eexists. by rewrite lookup_insert_eq.
    + exists until. by rewrite lookup_insert_ne.
  - intros id e He Ha. destruct (Hq id e He Ha) as (e0 & He0 & Ha0). eauto.
Qed.

Lemma peer_op_ban_holds now op m0 addr t1 m :
  ban_holds m0 addr t1 m -> now < t1 <= now + DEFAULT_BAN_DURATION -> op <> OpUnban addr ->
  ban_holds m0 addr t1 (peer_op now op m).
Proof.
  intros H Hn Hop. destruct op; simpl.
  - apply banned_add; [done|lia].
  - apply (ban_holds_frame _ _ _ _ _ H); [done|]. simpl. intros i e [_ He]%lookup_delete_Some ?. eauto.
  - apply (ban_holds_frame _ _ _ _ _ H); [done|]. simpl. intros i e He. by rewrite lookup_empty in He.
  - destruct (remembers_frame es m) as [E1 E2].
    apply (ban_holds_frame _ _ _ _ _ H); [done|]. rewrite E1. eauto.
  - apply (ban_holds_frame _ _ _ _ _ H); [done|]. simpl. eauto.
  - destruct (lower_score_frame id amount m) as (E1 & _ & Hp).
    apply (ban_holds_frame _ _ _ _ _ H); [done|]. intros i e (e0 & ? & <-)%Hp Ha. eauto.
  - assert (forall i e, peers_ (penalize now id amount m) !! i = Some e -> info_address (info_of e) = addr ->
      exists e0, peers_ m !! i = Some e0 /\ info_address (info_of e0) = addr) as Hq.
    { intros i e (e0 & ? & <-)%penalize_peers Ha. eauto. }
    destruct (penalize_banned now id amount m) as [E|[a E]];
      [by apply (ban_holds_frame _ _ _ _ _ H)|by apply (ban_holds_reban now a _ _ _ m); [|lia|..]].
  - apply (ban_holds_frame _ _ _ _ _ H); unfold reward; destruct (peers_ m !! id) as [e|] eqn:He; simpl; eauto.
    intros i e' [[<- <-]|[_ ?]]%lookup_insert_Some ?; eauto.
  - apply banned_now; [done|lia].
  - apply (ban_holds_reban now addr0 _ _ _ m); [done|lia|done|]. simpl. eauto.
  - destruct H as [(until & Hu & Ht) Hp]. split; [|done]. exists until. split; [|done]. simpl.
    rewrite lookup_delete_ne; [done|]. congruence.
Qed.

Lemma ban_establishes now addr m : ban_holds m addr (now + DEFAULT_BAN_DURATION) (ban now addr m).
Proof.
  split; [|simpl; eauto]. eexists. split; [apply lookup_insert_eq|lia].
Qed.

Lemma peer_ops_ban_holds calls m0 addr t1 m :
  ban_holds m0 addr t1 m ->
  Forall (fun call => call.1 < t1 <= call.1 + DEFAULT_BAN_DURATION /\ call.2 <> OpUnban addr) calls ->
  ban_holds m0 addr t1 (peer_ops calls m).
Proof.
  intros H Hc. revert m H. induction Hc as [|[now op] calls [Hn Ho] _ IH]; intros m H; [done|].
  apply IH. by apply peer_op_ban_holds.
Qed.

(** The score falls; at zero the peer is dropped and its address banned. *)
Lemma penalize_spec now id amount m e :
  peers_ m !! id = Some e -> info_address (info_of e) <> [] ->
  penalize now id amount m =
    if info_score (info_of e) <=? amount
    then remove_peer id (ban now (info_address (info_of e)) m)
    else set_peers (<[id := with_score (info_score (info_of e) - amount) e]> (peers_ m)) m.
Proof.
  intros He Ha. unfold penalize, penalize_among, lower_score. rewrite He. unfold BAN_THRESHOLD.
  destruct (info_score _ <=? amount) eqn:E; zbool.
  - rewrite (proj2 (Z.leb_le _ _)) by lia. rewrite bool_decide_eq_false_2 by done.
    unfold remove_peer, ban, set_banned, set_peers. simpl. by rewrite delete_insert_eq.
  - by rewrite (proj2 (Z.leb_gt _ _)) by lia.
Qed.

(** A penalty whose sections other threads' calls come between is a sequence
    of calls. *)
Lemma penalize_interleaved before_ban before_removal now id amount m :
  exists calls, calls `sublist_of`
      (now, OpLowerScore id amount) :: before_ban ++
      (now, OpBan (lower_score id amount m).1) :: before_removal ++ [(now, OpRemove id)] /\
    penalize_among (peer_ops before_ban) (peer_ops before_removal) now id amount m = peer_ops calls m.
Proof.
  unfold penalize_among. destruct (lower_score id amount m) as [a m1] eqn:E. case_bool_decide.
  - exists [(now, OpLowerScore id amount)]. split; [apply sublist_skip, sublist_nil_l|].
    unfold peer_ops. simpl. by rewrite E.
  - eexists. split; [reflexivity|]. unfold peer_ops. cbn [foldl]. rewrite foldl_app. cbn [foldl].
    rewrite foldl_app. simpl. by rewrite E.
Qed.

(** *** Broadcasts *)

(** The outcomes of the next [n] sends. *)
Definition outcomes (s : Script) (n : nat) : list bool := take n (s ++ repeat true n).

Lemma outcomes_S s n : outcomes s (S n) = (next_outcome s).1 :: outcomes (next_outcome s).2 n.
Proof.
  unfold outcomes. destruct s as [|up s]; cbn [next_outcome fst snd]; [done|].
  cbn [app take]. f_equal. cbn [repeat]. rewrite repeat_cons, app_assoc.
  rewrite (take_app_le (s ++ repeat true n) [true]); [done|].
  rewrite length_app, repeat_length. lia.
Qed.

Lemma send_frame_on_ok s c f :
  frame_ok f ->
  send_frame_on s c f =
    if (next_outcome s).1 then (Ok tt, [(c, f)], (next_outcome s).2)
    else (Throw "TCP send failed", [], (next_outcome s).2).
Proof.
  intros H. unfold send_frame_on. rewrite frame_serialize_encode by done. by destruct (next_outcome s).
Qed.

Lemma broadcast_loop_spec s cs f :
  frame_ok f ->
  exists k, (broadcast_loop s cs f).1.2 = (fun c => (c, f)) <$> take k cs /\
    ((k = length cs /\ (broadcast_loop s cs f).1.1 = Ok tt) \/
     (outcomes s (length cs) !! k = Some false /\
      (broadcast_loop s cs f).1.1 = Throw "TCP send failed")).
Proof.
  intros Hf. revert s. induction cs as [|c cs IH]; intros s; [exists 0%nat; auto|].
  cbn [broadcast_loop length]. rewrite send_frame_on_ok, outcomes_S by done.
  destruct (next_outcome s) as [[] s']; cbn [fst snd]; [|exists 0%nat; auto].
  destruct (IH s') as (k & Hs & Hr). exists (S k).
  destruct (broadcast_loop s' cs f) as [[r out] s'']. cbn [fst snd] in *. rewrite Hs.
  split; [done|]. destruct Hr as [[-> ->]|[Hk ->]]; auto.
Qed.

Lemma broadcast_all_loop_spec s cs f :
  frame_ok f ->
  (broadcast_all_loop s cs f).1 =
    (fun cu => (cu.1, f)) <$> filter (fun cu => cu.2 = true) (zip cs (outcomes s (length cs))).
Proof.
  intros Hf. revert s. induction cs as [|c cs IH]; intros s; [done|].
  cbn [broadcast_all_loop length]. rewrite send_frame_on_ok, outcomes_S by done. cbn [zip_with].
  specialize (IH (next_outcome s).2). destruct (next_outcome s) as [[] s']; cbn [fst snd] in *;
    destruct (broadcast_all_loop s' cs f) as [out s'']; cbn [fst] in IH; rewrite IH.
  - by rewrite filter_cons_True.
  - by rewrite filter_cons_False.
Qed.
End BanFacts.

(** ** Claims *)

Section PeerClaims.
Context {order : PeerOrder} {inet : Inet}.

(** Every call along the way is within the integer types. *)
Fixpoint calls_ok (m : P2PPeerManager) (calls : list (Z * PeerOp)) : Prop :=
  match calls with
  | [] => True
  | (now, op) :: calls => op_ok m op /\ calls_ok (peer_op now op m) calls
  end.

(** C25: through any sequence of calls, a penalty being three sections that
    others may come between, the peer table keeps at most 64 peers on distinct
    endpoints, filed under ids that were never used before, with scores between
    0 and 200, and at most 256 distinct validated endpoints are remembered. The
    amounts of penalties and rewards are not negative (no caller passes
    another) and the 64-bit ids last. *)
Theorem peer_table_invariant calls m :
  manager_inv m -> calls_ok m calls -> manager_inv (peer_ops calls m).
Proof.
  revert m. induction calls as [|[now op] calls IH]; intros m H Hc; [done|].
  destruct Hc as [Ho Hc]. apply IH; [|done]. by apply peer_op_inv.
Qed.

(** A peer whose score a penalty brings to zero is disconnected and its
    address banned for 24 hours: until then, whatever calls are made short of
    lifting the ban, no new connection from that address enters the table and
    [add_peer] refuses it. *)
Theorem penalized_peer_is_banned now id amount m e calls :
  peers_ m !! id = Some e -> info_address (info_of e) <> [] -> info_score (info_of e) <= amount ->
  Forall (fun call => now <= call.1 < now + DEFAULT_BAN_DURATION /\
    call.2 <> OpUnban (info_address (info_of e))) calls ->
  let m1 := penalize now id amount m in
  let m2 := peer_ops calls m1 in
  peers_ m1 !! id = None /\
  (forall i e2, peers_ m2 !! i = Some e2 -> info_address (info_of e2) = info_address (info_of e) ->
     is_Some (peers_ m1 !! i)) /\
  (forall t c prt, now <= t < now + DEFAULT_BAN_DURATION ->
     exists x, add_peer t c (info_address (info_of e)) prt m2 = (Throw x, m2)).
Proof.
  intros He Ha Hs Hc m1 m2. set (addr := info_address (info_of e)) in *.
  assert (m1 = remove_peer id (ban now addr m)) as E1.
  { unfold m1. rewrite (penalize_spec now id amount m e) by done.
    by rewrite (proj2 (Z.leb_le _ _)). }
  assert (ban_holds m1 addr (now + DEFAULT_BAN_DURATION) m1) as H1.
  { rewrite E1. split; [|eauto]. simpl. eexists. split; [apply lookup_insert_eq|lia]. }
  assert (ban_holds m1 addr (now + DEFAULT_BAN_DURATION) m2) as H2.
  { apply peer_ops_ban_holds; [done|]. eapply Forall_impl; [exact Hc|]. simpl. intros call [? ?]. split; [lia|done]. }
  split; [rewrite E1; simpl; apply lookup_delete_eq|]. split.
  - intros i e2 Hi Hae. destruct (bh_peers _ _ _ _ H2 i e2 Hi Hae) as (e0 & -> & _). eauto.
  - intros t c prt Ht. by apply (banned_add t c addr addr prt (now + DEFAULT_BAN_DURATION) m1 m2 H2); [lia|].
Qed.

(** Gossip reaches every peer but the sender whose socket takes the
    frame, whatever the other sockets do; a plain broadcast stops at the first
    socket that fails, with an exception, and serves nobody after it. *)
Theorem broadcast_delivery s f m excluded :
  frame_ok f ->
  let conns := (fun kv => connection_of kv.2) <$> peer_iteration (peers_ m) in
  let others := (fun kv => connection_of kv.2) <$>
    filter (fun kv => kv.1 <> excluded) (peer_iteration (peers_ m)) in
  (broadcast_except s excluded f m).1 =
    (fun cu => (cu.1, f)) <$> filter (fun cu => cu.2 = true) (zip others (outcomes s (length others))) /\
  exists k, (broadcast s f m).1.2 = (fun c => (c, f)) <$> take k conns /\
    ((k = length conns /\ (broadcast s f m).1.1 = Ok tt) \/
     (outcomes s (length conns) !! k = Some false /\
      (broadcast s f m).1.1 = Throw "TCP send failed")).
Proof. intros Hf. split; [by apply broadcast_all_loop_spec|by apply broadcast_loop_spec]. Qed.
End PeerClaims.

(** ** Witnesses *)

Definition in_order : PeerOrder :=
  {| peer_iteration := map_to_list; peer_iteration_perm m := reflexivity _ |}.

(** A peer joins, is discovered by another, misbehaves and comes back. *)
Definition peer_story : list (Z * PeerOp) :=
  [(0, OpAdd 5 (str "10.0.0.1") 18444); (1, OpRemember [lan_peer]); (2, OpPenalize 1 60);
   (3, OpReward 1 1); (4, OpAdd 6 (str "10.0.0.2") 18444)].
Definition story_manager : P2PPeerManager :=
  peer_ops (order := in_order) (inet := lan_inet) peer_story new_manager.

Lemma story_manager_inv : manager_inv (inet := lan_inet) story_manager.
Proof.
  unfold story_manager, peer_ops, peer_story. cbn [foldl fst snd].
  repeat (apply peer_op_inv; [|vm_compute; split_and?; first [exact I|congruence]]).
  apply new_manager_inv.
Qed.

Lemma peer_table_invariant_witness : manager_inv (inet := lan_inet) story_manager.
Proof.
  apply (peer_table_invariant (order := in_order) (inet := lan_inet) peer_story new_manager);
    [apply new_manager_inv|]. vm_compute. split_and!; first [exact I|congruence].
Defined.

Lemma penalized_peer_is_banned_witness :
  exists x, (add_peer (order := in_order) (seconds 60) 7 (str "10.0.0.1") 4000
    (penalize 10 1 60 story_manager)).1 = Throw x.
Proof.
  destruct (penalized_peer_is_banned (order := in_order) (inet := lan_inet) 10 1 60 story_manager
    (mkEntry (mkInfo 1 (str "10.0.0.1") 18444 true 41) 5) []) as (_ & _ & H);
    [decide_vm|discriminate|decide_vm|constructor|].
  destruct (H (seconds 60) 7 4000) as [x Hx]; [vm_compute; split; congruence|].
  exists x. change (penalize 10 1 60 story_manager) with
    (peer_ops (order := in_order) (inet := lan_inet) [] (penalize 10 1 60 story_manager)).
  exact (f_equal fst Hx).
Defined.

(** The first socket of the enumeration fails. *)
Lemma broadcast_delivery_witness :
  (broadcast_except (order := in_order) [false] 3 make_get_peers_frame story_manager).1 =
    [(5, make_get_peers_frame)].
Proof.
  etrans; [apply (broadcast_delivery (order := in_order) [false] make_get_peers_frame story_manager 3);
    decide_vm|]. vm_compute. reflexivity.
Defined.
