(* ===== verification/RateLimiter.v ===== *)
(** rate_limiter.hpp and security_layer.hpp: the sliding
    window over the requests of an address, and the ban that follows repeated
    failed logins. *)

From S2P Require Import Prelude PeerManager.
From stdpp Require Import options.
Local Open Scope Z_scope.

Record Config := mkConfig {
  max_requests_per_minute : Z; (* int *)
  max_failed_logins : Z; (* int *)
  ban_duration_seconds : Z (* int *)
}.
Definition default_config : Config := mkConfig 60 5 300.

Record RateLimiter := mkLimiter {
  cfg_ : Config;
  windows_ : gmap bytes (list Z);
  failures_ : gmap bytes Z;
  bans_ : gmap bytes Z
}.
Definition new_limiter (c : Config) : RateLimiter := mkLimiter c ∅ ∅ ∅.

(** The ban test; a ban that is over is dropped. *)
Definition check_ban (now : Z) (ip : bytes) (l : RateLimiter) : bool * RateLimiter :=
  match bans_ l !! ip with
  | None => (false, l)
  | Some until =>
      if now <? until then (true, l)
      else (false, mkLimiter (cfg_ l) (windows_ l) (failures_ l) (delete ip (bans_ l)))
  end.

(** The entries that are not older than 60 seconds. *)
Definition recent (now : Z) (entries : list Z) : list Z :=
  filter (fun t => now - seconds 60 <= t) entries.

Definition set_windows (w : gmap bytes (list Z)) (l : RateLimiter) : RateLimiter :=
  mkLimiter (cfg_ l) w (failures_ l) (bans_ l).

Definition allow (now : Z) (ip : bytes) (l : RateLimiter) : bool * RateLimiter :=
  let '(banned, l) := check_ban now ip l in
  if (banned : bool) then (false, l)
  else
    let entries := recent now (default [] (windows_ l !! ip)) in
    if max_requests_per_minute (cfg_ l) <=? sizeZ entries
    then (false, set_windows (<[ip := entries]> (windows_ l)) l)
    else (true, set_windows (<[ip := entries ++ [now]]> (windows_ l)) l).

Definition record_failure (now : Z) (ip : bytes) (l : RateLimiter) : RateLimiter :=
  let count := default 0 (failures_ l !! ip) + 1 in
  if max_failed_logins (cfg_ l) <=? count then
    mkLimiter (cfg_ l) (windows_ l) (delete ip (failures_ l))
      (<[ip := now + seconds (ban_duration_seconds (cfg_ l))]> (bans_ l))
  else mkLimiter (cfg_ l) (windows_ l) (<[ip := count]> (failures_ l)) (bans_ l).

Definition record_success (ip : bytes) (l : RateLimiter) : RateLimiter :=
  mkLimiter (cfg_ l) (windows_ l) (delete ip (failures_ l)) (bans_ l).

(** ** security_layer.hpp *)

(** The headers of a response; [set_header] is the HTTP library's. *)
Definition security_headers : list (bytes * bytes) := [
  (str "X-Content-Type-Options", str "nosniff");
  (str "X-Frame-Options", str "DENY");
  (str "X-XSS-Protection", str "1; mode=block");
  (str "Referrer-Policy", str "no-referrer");
  (str "Permissions-Policy", str "geolocation=(), microphone=(), camera=()");
  (str "Content-Security-Policy", str "default-src 'self'; " ++ str "script-src 'self' 'unsafe-inline'; "
     ++ str "style-src 'self' 'unsafe-inline'; " ++ str "img-src 'self' data:; " ++ str "connect-src 'self'");
  (str "Strict-Transport-Security", str "max-age=31536000")].
Definition apply_security_headers {R} (set_header : bytes -> bytes -> R -> R) (res : R) : R :=
  foldl (fun res h => set_header h.1 h.2 res) res security_headers.

Definition is_safe_string (max_len : Z) (s : bytes) : bool :=
  negb (bool_decide (s = []) || (max_len <? sizeZ s)) &&
  forallb (fun c =>
    negb (bool_decide (c = Byte.x00) || bool_decide (c = Byte.x0a) || bool_decide (c = Byte.x0d)) &&
    negb (byteZ c <? 32)) s.

Definition is_safe_amount (max amount : Z) : bool := (0 <? amount) && (amount <=? max).

(** ** Sequences of calls *)

Inductive LimiterCall := Allow (ip : bytes) | Failure (ip : bytes) | Success (ip : bytes).
#[global] Instance LimiterCall_eq_dec : EqDecision LimiterCall.
Proof. solve_decision. Defined.

Definition limiter_call (now : Z) (c : LimiterCall) (l : RateLimiter) : RateLimiter :=
  match c with
  | Allow ip => (allow now ip l).2
  | Failure ip => record_failure now ip l
  | Success ip => record_success ip l
  end.
Definition limiter_calls (calls : list (Z * LimiterCall)) (l : RateLimiter) : RateLimiter :=
  foldl (fun l call => limiter_call call.1 call.2 l) l calls.

(** The times at which the calls let a request of [ip] through. *)
Fixpoint allowed_at (ip : bytes) (calls : list (Z * LimiterCall)) (l : RateLimiter) : list Z :=
  match calls with
  | [] => []
  | (now, c) :: calls =>
      (match c with
       | Allow ip' => if (allow now ip' l).1 && bool_decide (ip' = ip) then [now] else []
       | _ => []
       end) ++ allowed_at ip calls (limiter_call now c l)
  end.

(** Those in the minute that starts at [t]. *)
Definition in_minute (t : Z) (times : list Z) : list Z :=
  filter (fun u => t <= u <= t + seconds 60) times.

Section Facts.
Implicit Types (l : RateLimiter).

Lemma check_ban_frame now ip l :
  windows_ (check_ban now ip l).2 = windows_ l /\ cfg_ (check_ban now ip l).2 = cfg_ l /\
  failures_ (check_ban now ip l).2 = failures_ l.
Proof. unfold check_ban. destruct (_ !! _); [|done]. by destruct (_ <? _). Qed.

(** The window of [ip] after a call, and what the call let through. *)
Lemma call_window now c ip l :
  cfg_ (limiter_call now c l) = cfg_ l /\
  ((windows_ (limiter_call now c l) !! ip = windows_ l !! ip /\ allowed_at ip [(now, c)] l = []) \/
   (exists entries, entries = recent now (default [] (windows_ l !! ip)) /\
      ((windows_ (limiter_call now c l) !! ip = Some entries /\ allowed_at ip [(now, c)] l = []) \/
       (windows_ (limiter_call now c l) !! ip = Some (entries ++ [now]) /\
        allowed_at ip [(now, c)] l = [now] /\ sizeZ entries < max_requests_per_minute (cfg_ l))))).
Proof.
  destruct c as [ip'|ip'|ip']; cbn [allowed_at limiter_call]; rewrite ?app_nil_r.
  - destruct (check_ban_frame now ip' l) as (F1 & F2 & _). unfold allow.
    destruct (check_ban now ip' l) as [banned l1]. cbn [snd] in F1, F2. destruct banned.
    { simpl. rewrite F1, F2. auto. }
    rewrite F2. destruct (_ <=? _) eqn:E; cbn [fst snd andb set_windows cfg_ windows_]; zbool; rewrite ?F1 in *.
    + split; [done|]. destruct (decide (ip' = ip)) as [->|Hne].
      * right. eexists. split; [done|]. left. by rewrite lookup_insert_eq.
      * left. by rewrite lookup_insert_ne.
    + split; [done|]. destruct (decide (ip' = ip)) as [->|Hne].
      * right. eexists. split; [done|]. right. rewrite lookup_insert_eq, bool_decide_eq_true_2 by done. done.
      * left. rewrite lookup_insert_ne, bool_decide_eq_false_2 by done. done.
  - unfold record_failure. destruct (_ <=? _); simpl; auto.
  - simpl. auto.
Qed.

(** From [cut] on, the window of an address is what was let through. *)
Definition covers (cut : Z) (past entries : list Z) : Prop :=
  filter (fun t => cut <= t) past = filter (fun t => cut <= t) entries.

Lemma filter_from_from (a b : Z) (ts : list Z) :
  b <= a -> filter (fun t => a <= t) (filter (fun t => b <= t) ts) = filter (fun t => a <= t) ts.
Proof. intros H. rewrite list_filter_filter. apply list_filter_iff. intros t. lia. Qed.
Lemma covers_later cut cut' past entries :
  cut <= cut' -> covers cut past entries -> covers cut' past entries.
Proof.
  unfold covers. intros H E. rewrite <- (filter_from_from cut' cut past), E by done. by apply filter_from_from.
Qed.
Lemma covers_recent now past entries :
  covers (now - seconds 60) past entries -> covers (now - seconds 60) past (recent now entries).
Proof. unfold covers, recent. intros ->. symmetry. by apply filter_from_from. Qed.
Lemma covers_push cut now past entries :
  covers cut past entries -> covers cut (past ++ [now]) (entries ++ [now]).
Proof. unfold covers. intros E. by rewrite !filter_app, E. Qed.

(** A minute that contains [now] holds no more of the past than the window. *)
Lemma minute_in_window now t past entries :
  covers (now - seconds 60) past entries -> t <= now <= t + seconds 60 ->
  sizeZ (in_minute t past) <= sizeZ (recent now entries).
Proof.
  intros Hc Ht. unfold recent. rewrite <- Hc. unfold in_minute, sizeZ. apply inj_le.
  replace (filter (fun u => t <= u <= t + seconds 60) past)
    with (filter (fun u => u <= t + seconds 60 /\ t <= u) (filter (fun u => now - seconds 60 <= u) past)).
  - apply length_filter.
  - rewrite list_filter_filter. apply list_filter_iff. intros u. lia.
Qed.

Lemma allowed_cons ip now c calls l :
  allowed_at ip ((now, c) :: calls) l = allowed_at ip [(now, c)] l ++ allowed_at ip calls (limiter_call now c l).
Proof. cbn [allowed_at]. by rewrite app_nil_r. Qed.

Lemma allowed_minute ip calls l cut past t :
  covers cut past (default [] (windows_ l !! ip)) ->
  (forall t, sizeZ (in_minute t past) <= Z.max 0 (max_requests_per_minute (cfg_ l))) ->
  StronglySorted Z.le calls.*1 -> Forall (fun c => cut <= c.1 - seconds 60) calls ->
  sizeZ (in_minute t (past ++ allowed_at ip calls l)) <= Z.max 0 (max_requests_per_minute (cfg_ l)).
Proof.
  revert l cut past. induction calls as [|[now c] calls IH]; intros l cut past Hc Hb Hs Hcut.
  { simpl. rewrite app_nil_r. apply Hb. }
  simpl in Hs. apply StronglySorted_inv in Hs as [Hs Hle]. apply Forall_cons in Hcut as [Hn Hcut]. simpl in Hn.
  assert (Forall (fun c => now - seconds 60 <= c.1 - seconds 60) calls) as Hnext.
  { rewrite Forall_fmap in Hle. eapply Forall_impl; [exact Hle|]. intros x. simpl. lia. }
  pose proof (covers_later _ _ _ _ Hn Hc) as Hc1.
  rewrite allowed_cons, app_assoc. destruct (call_window now c ip l) as [Hcfg Hw]. rewrite <- Hcfg in *.
  destruct Hw as [[Hw ->]|(entries & -> & [[Hw ->]|(Hw & -> & Hsz)])]; rewrite ?app_nil_r.
  - apply (IH _ cut); [by rewrite Hw|done..].
  - apply (IH _ (now - seconds 60)); [rewrite Hw; by apply covers_recent|done..].
  - apply (IH _ (now - seconds 60)); [rewrite Hw; by apply covers_push, covers_recent| |done..].
    intros t'. unfold in_minute. rewrite filter_app, sizeZ_app. fold (in_minute t' past).
    destruct (decide (t' <= now <= t' + seconds 60)) as [Ht|Ht].
    + pose proof (minute_in_window now t' past _ Hc1 Ht). rewrite filter_cons_True by done.
      change (sizeZ (now :: filter _ [])) with 1. lia.
    + rewrite filter_cons_False by done. change (sizeZ (filter _ [])) with 0. specialize (Hb t'). lia.
Qed.

(** *** Bans *)

(** [ip] is locked out up to [t] at least. *)
Definition locked (ip : bytes) (t : Z) l : Prop := exists u, bans_ l !! ip = Some u /\ t <= u.

Lemma locked_call now c ip t l :
  locked ip t l -> now < t -> t <= now + seconds (ban_duration_seconds (cfg_ l)) ->
  locked ip t (limiter_call now c l) /\ (c = Allow ip -> (allow now ip l).1 = false).
Proof.
  intros (u & Hu & Ht) Hn Hd. destruct c as [ip'|ip'|ip']; cbn [limiter_call].
  - unfold allow, check_ban. destruct (decide (ip' = ip)) as [->|Hne].
    + rewrite Hu, (proj2 (Z.ltb_lt now u)) by lia. split; [by exists u|done].
    + split; [|by intros [= ->]]. exists u. split; [|done].
      destruct (bans_ l !! ip') as [u'|]; [destruct (now <? u')|];
        repeat (case_match; simpl; try (rewrite lookup_delete_ne by done)); done.
  - split; [|done]. unfold record_failure. destruct (_ <=? _); simpl; [|by exists u].
    destruct (decide (ip' = ip)) as [->|Hne].
    + eexists. split; [apply lookup_insert_eq|lia].
    + exists u. split; [|done]. cbn [bans_]. by rewrite lookup_insert_ne.
  - split; [|done]. by exists u.
Qed.

Lemma calls_cfg calls l : cfg_ (limiter_calls calls l) = cfg_ l.
Proof.
  revert l. induction calls as [|[now c] calls IH]; intros l; [done|]. cbn [limiter_calls foldl fst snd].
  fold (limiter_calls calls (limiter_call now c l)). rewrite IH. apply (call_window now c [] l).
Qed.
Lemma locked_calls calls ip t l :
  locked ip t l -> Forall (fun c => c.1 < t <= c.1 + seconds (ban_duration_seconds (cfg_ l))) calls ->
  locked ip t (limiter_calls calls l).
Proof.
  intros H Hc. revert l H Hc. induction calls as [|[now c] calls IH]; intros l H Hc; [done|].
  apply Forall_cons in Hc as [Hn Hc]. cbn [fst] in Hn. destruct (call_window now c ip l) as [Hcfg _].
  apply IH; cbn [fst snd]; [apply locked_call; [done|lia..]|by rewrite Hcfg].
Qed.

(** A call that is no failure and no success of [ip] leaves its count. *)
Lemma other_call_failures now c ip l :
  c <> Failure ip -> c <> Success ip -> failures_ (limiter_call now c l) !! ip = failures_ l !! ip.
Proof.
  intros Hf Hs. destruct c as [ip'|ip'|ip']; cbn [limiter_call].
  - unfold allow. destruct (check_ban_frame now ip' l) as (_ & _ & F). destruct (check_ban now ip' l) as [b l1].
    simpl in F. rewrite <- F. destruct b; [done|]. by destruct (_ <=? _).
  - unfold record_failure. assert (ip' <> ip) by congruence.
    destruct (_ <=? _); simpl; [by rewrite lookup_delete_ne|by rewrite lookup_insert_ne].
  - simpl. assert (ip' <> ip) by congruence. by rewrite lookup_delete_ne.
Qed.

(** Enough failures without a success lock the address out. *)
Lemma failures_lock ip calls l t0 :
  Forall (fun c => t0 <= c.1 < t0 + seconds (ban_duration_seconds (cfg_ l)) /\ c.2 <> Success ip) calls ->
  default 0 (failures_ l !! ip) < max_failed_logins (cfg_ l) <=
    default 0 (failures_ l !! ip) + sizeZ (filter (fun c => c.2 = Failure ip) calls) ->
  locked ip (t0 + seconds (ban_duration_seconds (cfg_ l))) (limiter_calls calls l).
Proof.
  revert l. induction calls as [|[now c] calls IH]; intros l Hc Hm.
  { unfold sizeZ in Hm. simpl in Hm. lia. }
  apply Forall_cons in Hc as [[Hn Hs] Hc]. cbn [fst snd] in Hn, Hs. cbn [limiter_calls foldl fst snd].
  fold (limiter_calls calls (limiter_call now c l)).
  destruct (call_window now c ip l) as [Hcfg _]. rewrite <- Hcfg in Hc |- *.
  destruct (decide (c = Failure ip)) as [->|Hf].
  - rewrite filter_cons_True in Hm by done. rewrite sizeZ_cons in Hm.
    destruct (max_failed_logins (cfg_ l) <=? default 0 (failures_ l !! ip) + 1) eqn:El; zbool.
    + apply locked_calls.
      * cbn [limiter_call]. unfold record_failure. rewrite (proj2 (Z.leb_le _ _)) by done. simpl.
        eexists. split; [apply lookup_insert_eq|lia].
      * eapply Forall_impl; [exact Hc|]. intros x [Hx _]. lia.
    + apply IH; [done|]. rewrite Hcfg. cbn [limiter_call]. unfold record_failure.
      rewrite (proj2 (Z.leb_gt _ _)) by done. simpl. rewrite lookup_insert_eq. simpl. lia.
  - rewrite filter_cons_False in Hm by done. apply IH; [done|].
    by rewrite other_call_failures, Hcfg.
Qed.
End Facts.

(** ** Claims *)

(** The window slides exactly: whatever other calls come in between, no
    address gets more requests through in any sixty seconds, both ends
    included, than the configured number. *)
Theorem requests_per_minute_limited cfg ip calls t :
  0 <= max_requests_per_minute cfg -> StronglySorted Z.le calls.*1 ->
  sizeZ (in_minute t (allowed_at ip calls (new_limiter cfg))) <= max_requests_per_minute cfg.
Proof.
  intros Hm Hs. set (cut := default 0 (head calls.*1) - seconds 60).
  pose proof (allowed_minute ip calls (new_limiter cfg) cut [] t) as H.
  rewrite app_nil_l in H. cbn [cfg_ new_limiter] in H. rewrite Z.max_r in H by done. apply H; [done|done|done|].
  subst cut. destruct calls as [|[now c] calls]; [done|]. cbn [fmap list_fmap head default fst] in *.
  apply StronglySorted_inv in Hs as [_ Hle]. constructor; [done|].
  rewrite Forall_fmap in Hle. eapply Forall_impl; [exact Hle|]. intros x. simpl. lia.
Qed.

(** Repeated failures lock an address out: after the configured number of
    failures with no success in between, whatever else is called, every request
    is refused until the ban, counted from before the first of them, is over. *)
Theorem failed_logins_lock_out cfg ip calls t0 now :
  let lock := seconds (ban_duration_seconds cfg) in
  0 < max_failed_logins cfg <= sizeZ (filter (fun c => c.2 = Failure ip) calls) ->
  Forall (fun c => t0 <= c.1 < t0 + lock /\ c.2 <> Success ip) calls -> now < t0 + lock ->
  (allow now ip (limiter_calls calls (new_limiter cfg))).1 = false.
Proof.
  cbv zeta. intros Hm Hc Hn.
  destruct (failures_lock ip calls (new_limiter cfg) t0 Hc) as (u & Hu & Ht);
    [cbn [failures_ new_limiter cfg_]; rewrite lookup_empty; simpl default; lia|].
  cbn [cfg_ new_limiter] in Ht. unfold allow, check_ban. rewrite Hu, (proj2 (Z.ltb_lt now u)) by lia. done.
Qed.

(** ** Witnesses *)

Lemma requests_per_minute_limited_witness :
  sizeZ (in_minute 0 (allowed_at (str "10.0.0.9") (replicate 62 (5, Allow (str "10.0.0.9")))
    (new_limiter default_config))) <= 60.
Proof.
  apply (requests_per_minute_limited default_config (str "10.0.0.9")
    (replicate 62 (5, Allow (str "10.0.0.9"))) 0); [decide_vm|].
  cbv [replicate fmap list_fmap fst]. repeat constructor; lia.
Defined.

Lemma failed_logins_lock_out_witness :
  (allow 7 (str "10.0.0.9") (limiter_calls (replicate 5 (3, Failure (str "10.0.0.9")))
     (new_limiter default_config))).1 = false.
Proof.
  apply (failed_logins_lock_out default_config (str "10.0.0.9")
    (replicate 5 (3, Failure (str "10.0.0.9"))) 3 7); decide_vm.
Defined.
