(* ===== verification/P2PServer.v ===== *)
(** p2p_server.hpp: [P2PServer], which accepts and opens the connections that
    fill the peer table: the limit on connection attempts, the outbound gate
    and the promotion of discovered endpoints.

    Network operations run without the server's locks, so what other threads do
    to the server meanwhile is part of their environment. [start], [stop] and
    the accept thread, section by section, are in P2PThreads.v. *)

From S2P Require Import Prelude Serialization Crypto Transaction P2PWire P2PStream PeerManager.
From stdpp Require Import options.
Local Open Scope Z_scope.

Definition MAX_CONNECTION_ATTEMPTS_PER_IP : Z := 8.
Definition MAX_TRACKED_CONNECTION_IPS : Z := 1024.
Definition CONNECTION_ATTEMPT_WINDOW : Z := seconds 10.
Definition DISCOVERY_RETRY_COOLDOWN : Z := seconds 30.
Definition MAX_DISCOVERY_RETRY_STATE : Z := 256.
Definition MAX_DISCOVERY_ATTEMPTS_PER_RUN : Z := 4.

(** ** State *)

Record ConnectionAttemptState := mkAttempt { window_start : Z; attempts : Z (* size_t *) }.

Record P2PServer := mkServer {
  listening_ : bool; (* listener_ has a socket *)
  server_peers_ : P2PPeerManager;
  listen_address_ : bytes;
  listen_port_ : Z;
  connection_attempts_ : gmap bytes ConnectionAttemptState;
  discovery_attempts_ : gmap bytes Z;
  local_hello_ : P2PHello.t;
  server_running_ : bool
}.
Definition new_server : P2PServer :=
  mkServer false new_manager [] 0 ∅ ∅ (P2PHello.mk 0 0 0 0 []) false.

Definition set_listening (l : bool) (s : P2PServer) : P2PServer :=
  mkServer l (server_peers_ s) (listen_address_ s) (listen_port_ s) (connection_attempts_ s)
    (discovery_attempts_ s) (local_hello_ s) (server_running_ s).
Definition set_server_peers (m : P2PPeerManager) (s : P2PServer) : P2PServer :=
  mkServer (listening_ s) m (listen_address_ s) (listen_port_ s) (connection_attempts_ s)
    (discovery_attempts_ s) (local_hello_ s) (server_running_ s).
Definition set_listen_endpoint (a : bytes) (p : Z) (s : P2PServer) : P2PServer :=
  mkServer (listening_ s) (server_peers_ s) a p (connection_attempts_ s)
    (discovery_attempts_ s) (local_hello_ s) (server_running_ s).
Definition set_attempts (a : gmap bytes ConnectionAttemptState) (s : P2PServer) : P2PServer :=
  mkServer (listening_ s) (server_peers_ s) (listen_address_ s) (listen_port_ s) a
    (discovery_attempts_ s) (local_hello_ s) (server_running_ s).
Definition set_discovery (d : gmap bytes Z) (s : P2PServer) : P2PServer :=
  mkServer (listening_ s) (server_peers_ s) (listen_address_ s) (listen_port_ s)
    (connection_attempts_ s) d (local_hello_ s) (server_running_ s).
Definition set_hello (h : P2PHello.t) (s : P2PServer) : P2PServer :=
  mkServer (listening_ s) (server_peers_ s) (listen_address_ s) (listen_port_ s)
    (connection_attempts_ s) (discovery_attempts_ s) h (server_running_ s).
Definition set_server_running (b : bool) (s : P2PServer) : P2PServer :=
  mkServer (listening_ s) (server_peers_ s) (listen_address_ s) (listen_port_ s)
    (connection_attempts_ s) (discovery_attempts_ s) (local_hello_ s) b.

(** The trace of an operation is the endpoints it opened a socket to. *)
Abbreviation server_op := (op P2PServer P2PPeerEndpoint).

(** ** Connection attempts *)

(** The loop that drops windows that are over. *)
Definition expire_attempts (now : Z) (m : gmap bytes ConnectionAttemptState)
    : gmap bytes ConnectionAttemptState :=
  filter (fun kv => now - window_start kv.2 < CONNECTION_ATTEMPT_WINDOW) m.

Definition allow_attempt (now : Z) (addr : bytes) (m : gmap bytes ConnectionAttemptState)
    : bool * gmap bytes ConnectionAttemptState :=
  let m := expire_attempts now m in
  match m !! addr with
  | None =>
      if MAX_TRACKED_CONNECTION_IPS <=? Z.of_nat (size m) then (false, m)
      else (true, <[addr := mkAttempt now 1]> m)
  | Some state =>
      if MAX_CONNECTION_ATTEMPTS_PER_IP <=? attempts state then (false, m)
      else (true, <[addr := mkAttempt (window_start state) (attempts state + 1)]> m)
  end.
Definition allow_connection_attempt (now : Z) (addr : bytes) : server_op bool :=
  asking (fun s =>
    let '(ok, m) := allow_attempt now addr (connection_attempts_ s) in
    _ ← update (set_attempts m); mret ok).

(** ** Outbound connections *)

(** A connection that is opened: the outcomes of its network operations, the
    clock at the three looks at the bans, and what the other threads do between
    the gate and the publication and between its last check and the new entry:
    the lifecycle lock that is held then does not cover the table. *)
Record Outbound := mkOutbound {
  connects : result P2PConnection;
  out_timeouts_set : bool;
  out_sends : list SendEvent;
  out_ticks : list Tick;
  out_events : list RecvEvent;
  out_deadline : Z;
  gate_time : Z;
  publish_time : Z;
  add_time : Z;
  out_meanwhile : P2PServer -> P2PServer;
  out_publishing : P2PServer -> P2PServer
}.

Section Server.
Context {order : PeerOrder} {inet : Inet}.

(** [peers_.is_banned(address)]. *)
Definition banned_now (now : Z) (addr : bytes) : server_op bool :=
  asking (fun s =>
    let '(b, m) := is_banned now addr (server_peers_ s) in
    _ ← update (set_server_peers m); mret b).

Definition self_connection (addr : bytes) (host prt : Z) (s : P2PServer) : bool :=
  (prt =? listen_port_ s) &&
  ((Z.land (Z.shiftr host 24) 0xff =? 127) ||
   (negb (bool_decide (listen_address_ s = str "0.0.0.0")) && bool_decide (addr = listen_address_ s))).

(** The checks before a socket is opened. *)
Definition connect_gate (now : Z) (addr : bytes) (prt : Z) : server_op P2PHello.t :=
  asking (fun s =>
    _ ← require_op (server_running_ s) "P2P server is not running";
    _ ← require_op (negb (bool_decide (addr = []))) "P2P peer address is empty";
    _ ← require_op (negb (prt =? 0)) "P2P peer port is invalid";
    _ ← require_op (peer_count (server_peers_ s) <? MAX_PEERS) "P2P peer limit reached";
    match inet_pton (c_str addr) with
    | None => throw "Invalid IPv4 address"
    | Some host =>
        _ ← require_op (negb (self_connection addr host prt s)) "P2P outbound self-connection rejected";
        banned ← banned_now now addr;
        _ ← require_op (negb banned) "P2P outbound peer is banned";
        _ ← require_op (negb (existsb (fun e => bool_decide (address e = addr) && (port e =? prt))
              (peer_endpoints_snapshot (server_peers_ s)))) "P2P peer is already connected";
        mret (local_hello_ s)
    end).

(** The checks and the transition after the handshake. *)
Definition connect_publish (now later : Z) (others : P2PServer -> P2PServer) (c : P2PConnection)
    (addr : bytes) (prt : Z) : server_op Z :=
  asking (fun s =>
    _ ← require_op (server_running_ s) "P2P server stopped during outbound connection";
    _ ← require_op (peer_count (server_peers_ s) <? MAX_PEERS) "P2P peer limit reached";
    banned ← banned_now now addr;
    _ ← require_op (negb banned) "P2P outbound peer is banned";
    _ ← update others;
    asking (fun s =>
      let '(r, m) := add_peer later c addr prt (server_peers_ s) in
      _ ← update (set_server_peers m); reading (fun _ => r))).

Definition connect_to_peer (o : Outbound) (addr : bytes) (prt : Z) : server_op Z :=
  hello ← connect_gate (gate_time o) addr prt;
  _ ← emit (mkEndpoint addr prt);
  c ← reading (fun _ => connects o);
  _ ← require_op (connection_valid c) "P2P outbound connection failed";
  _ ← require_op (out_timeouts_set o) "Failed to set receive timeout";
  _ ← reading (fun _ =>
        (perform_hello_handshake (out_sends o) (out_ticks o) (out_events o) hello
           (P2PHello.network_id hello) (out_deadline o)).1);
  _ ← update (out_meanwhile o);
  connect_publish (publish_time o) (add_time o) (out_publishing o) c addr prt.

(** ** Discovered peers *)

Definition retry_key (e : P2PPeerEndpoint) : bytes := address e ++ str ":" ++ dec_str (port e).

Definition expire_retries (now : Z) (d : gmap bytes Z) : gmap bytes Z :=
  filter (fun kv => now - kv.2 < DISCOVERY_RETRY_COOLDOWN) d.

(** The locked section of one candidate: [true] when it is to be tried. *)
Definition claim_attempt (now : Z) (e : P2PPeerEndpoint) : server_op bool :=
  asking (fun s =>
    let d := expire_retries now (discovery_attempts_ s) in
    match d !! retry_key e with
    | Some _ => _ ← update (set_discovery d); mret false
    | None =>
        if MAX_DISCOVERY_RETRY_STATE <=? Z.of_nat (size d) then _ ← update (set_discovery d); mret false
        else _ ← update (set_discovery (<[retry_key e := now]> d)); mret true
    end).

(** What follows a claim; an exception leaves the claim in place. *)
Definition try_candidate (o : Outbound) (e : P2PPeerEndpoint) : server_op bool :=
  catching
    (_ ← connect_to_peer o (address e) (port e);
     _ ← update (fun s => set_server_peers (forget_peer_endpoint (address e) (port e) (server_peers_ s)) s);
     _ ← update (fun s => set_discovery (delete (retry_key e) (discovery_attempts_ s)) s);
     mret true)
    (fun _ => mret false).

(** The loop over the candidates; candidate [i] meets the clock and the
    network [env i]. *)
Fixpoint candidates_loop (env : nat -> Z * Outbound) (i : nat) (candidates : list P2PPeerEndpoint)
    (allowed tried connected : Z) : server_op Z :=
  match candidates with
  | [] => mret connected
  | e :: candidates =>
      asking (fun s =>
        if (allowed <=? tried) || (MAX_PEERS <=? peer_count (server_peers_ s)) then mret connected
        else
          go ← claim_attempt (env i).1 e;
          if negb go then candidates_loop env (S i) candidates allowed tried connected
          else
            ok ← try_candidate (env i).2 e;
            candidates_loop env (S i) candidates allowed (tried + 1)
              (if (ok : bool) then connected + 1 else connected))
  end.

Definition connect_to_discovered_peers (env : nat -> Z * Outbound) (max_attempts : Z) : server_op Z :=
  asking (fun s =>
    if negb (server_running_ s) || (max_attempts =? 0) then mret 0
    else if MAX_PEERS <=? peer_count (server_peers_ s) then mret 0
    else
      candidates_loop env 0 (known_peer_endpoints_snapshot (server_peers_ s))
        (Z.min max_attempts MAX_DISCOVERY_ATTEMPTS_PER_RUN) 0 0).

End Server.

(** ** The limit on attempts *)

Section Attempts.

Record attempts_inv (m : gmap bytes ConnectionAttemptState) : Prop := {
  ai_size : Z.of_nat (size m) <= MAX_TRACKED_CONNECTION_IPS;
  ai_counts : map_Forall (fun _ st => 1 <= attempts st <= MAX_CONNECTION_ATTEMPTS_PER_IP) m
}.

Lemma expire_lookup now m addr st :
  expire_attempts now m !! addr = Some st <->
  m !! addr = Some st /\ now - window_start st < CONNECTION_ATTEMPT_WINDOW.
Proof. apply map_lookup_filter_Some. Qed.
Lemma expire_inv now m : attempts_inv m -> attempts_inv (expire_attempts now m).
Proof.
  intros [Hs Hc]. split.
  - pose proof (map_size_filter (fun kv => now - window_start kv.2 < CONNECTION_ATTEMPT_WINDOW) m).
    unfold expire_attempts. lia.
  - intros a st [H _]%expire_lookup. by apply (Hc a).
Qed.
Lemma allow_attempt_inv now addr m : attempts_inv m -> attempts_inv (allow_attempt now addr m).2.
Proof.
  intros H%(expire_inv now). unfold allow_attempt. set (m1 := expire_attempts now m) in *.
  destruct (m1 !! addr) as [st|] eqn:E.
  - pose proof (ai_counts _ H addr st E) as Hst; cbn beta in Hst.
    destruct (_ <=? _) eqn:El; [done|]. zbool. destruct H as [Hs Hc]. split; simpl.
    + by rewrite map_size_insert_Some.
    + apply map_Forall_insert_2; [simpl; lia|done].
  - destruct (_ <=? _) eqn:El; [done|]. zbool. destruct H as [Hs Hc]. split; simpl.
    + rewrite map_size_insert_None by done. lia.
    + apply map_Forall_insert_2; [simpl; unfold MAX_CONNECTION_ATTEMPTS_PER_IP; lia|done].
Qed.

(** How many more attempts of [addr] can pass before the interval of one
    window's length that starts at [t] is over. *)
Definition allowance (t : Z) (addr : bytes) (m : gmap bytes ConnectionAttemptState) : Z :=
  match m !! addr with
  | None => MAX_CONNECTION_ATTEMPTS_PER_IP
  | Some st =>
      if window_start st <? t then 2 * MAX_CONNECTION_ATTEMPTS_PER_IP - attempts st
      else MAX_CONNECTION_ATTEMPTS_PER_IP - attempts st
  end.

Lemma allowance_bound t addr m :
  attempts_inv m -> 0 <= allowance t addr m <= 2 * MAX_CONNECTION_ATTEMPTS_PER_IP.
Proof.
  intros H. unfold allowance. destruct (m !! addr) as [st|] eqn:E.
  - pose proof (ai_counts _ H addr st E) as Hst; cbn beta in Hst. destruct (_ <? _); lia.
  - unfold MAX_CONNECTION_ATTEMPTS_PER_IP. lia.
Qed.

Lemma allowance_expire t now addr m :
  attempts_inv m -> t <= now < t + CONNECTION_ATTEMPT_WINDOW ->
  allowance t addr (expire_attempts now m) <= allowance t addr m.
Proof.
  intros H Hn. unfold allowance. destruct (m !! addr) as [st|] eqn:E.
  - pose proof (ai_counts _ H addr st E) as Hst; cbn beta in Hst.
    destruct (expire_attempts now m !! addr) as [st'|] eqn:E'.
    + apply expire_lookup in E' as [? _]. simplify_eq. done.
    + destruct (window_start st <? t) eqn:El; zbool; [lia|]. exfalso.
      enough (expire_attempts now m !! addr = Some st) by congruence. apply expire_lookup. split; [done|lia].
  - destruct (expire_attempts now m !! addr) as [st'|] eqn:E'; [|done].
    apply expire_lookup in E' as [? _]. congruence.
Qed.

(** A call within the interval uses up what it is granted. *)
Lemma allowance_step t now addr a m :
  attempts_inv m -> t <= now < t + CONNECTION_ATTEMPT_WINDOW ->
  Z.b2z ((allow_attempt now a m).1 && bool_decide (a = addr)) + allowance t addr (allow_attempt now a m).2
    <= allowance t addr m.
Proof.
  intros H Hn. pose proof (allowance_expire t now addr m H Hn) as He. pose proof (expire_inv now m H) as H1.
  unfold allow_attempt. set (m1 := expire_attempts now m) in *.
  assert (forall st, (m1 !! a = None /\ st = mkAttempt now 1) \/
    (exists st0, m1 !! a = Some st0 /\ st = mkAttempt (window_start st0) (attempts st0 + 1)) ->
    Z.b2z (true && bool_decide (a = addr)) + allowance t addr (<[a := st]> m1) <= allowance t addr m1) as Hins.
  { intros st Hst. case_bool_decide as Ea; simpl.
    - subst a. unfold allowance. rewrite lookup_insert_eq. destruct Hst as [[-> ->]|(st0 & -> & ->)]; simpl.
      + destruct (now <? t) eqn:El; zbool; lia.
      + destruct (_ <? t); lia.
    - unfold allowance. rewrite lookup_insert_ne by done. lia. }
  destruct (m1 !! a) as [st|] eqn:E; destruct (_ <=? _); cbn [fst snd andb];
    (simpl; lia) || (etransitivity; [apply Hins|exact He]); eauto.
Qed.

(** The attempts of [addr] that a sequence of calls lets pass at times from
    [t] on, before one window's length is over. *)
Fixpoint passed (t : Z) (addr : bytes) (calls : list (Z * bytes)) (m : gmap bytes ConnectionAttemptState) : Z :=
  match calls with
  | [] => 0
  | (now, a) :: calls =>
      let '(ok, m) := allow_attempt now a m in
      Z.b2z (ok && bool_decide (a = addr) && (t <=? now) && (now <? t + CONNECTION_ATTEMPT_WINDOW)) +
      passed t addr calls m
  end.

Lemma passed_late t addr calls m :
  Forall (fun c => t + CONNECTION_ATTEMPT_WINDOW <= c.1) calls -> passed t addr calls m = 0.
Proof.
  intros H. revert m. induction H as [|[now a] calls Hn H IH]; intros m; simpl; [done|]. simpl in Hn.
  destruct (allow_attempt now a m) as [ok m1].
  rewrite (proj2 (Z.ltb_ge now _)) by lia. by rewrite andb_false_r, IH.
Qed.
Lemma passed_from t addr calls m :
  attempts_inv m -> StronglySorted Z.le calls.*1 -> Forall (fun c => t <= c.1) calls ->
  passed t addr calls m <= allowance t addr m.
Proof.
  revert m. induction calls as [|[now a] calls IH]; intros m H Hs Ht; [by apply allowance_bound|].
  apply Forall_cons in Ht as [Hn Ht]. simpl in Hn, Hs. apply StronglySorted_inv in Hs as [Hs Hle].
  destruct (Z.lt_ge_cases now (t + CONNECTION_ATTEMPT_WINDOW)) as [Hl|Hl].
  - pose proof (allowance_step t now addr a m H ltac:(lia)) as Hstep.
    pose proof (allow_attempt_inv now a m H) as H1. simpl. destruct (allow_attempt now a m) as [ok m1].
    simpl in *. rewrite (proj2 (Z.leb_le _ _)), (proj2 (Z.ltb_lt _ _)), !andb_true_r by done.
    specialize (IH m1 H1 Hs Ht). lia.
  - rewrite passed_late; [by apply allowance_bound|]. constructor; [done|].
    rewrite Forall_fmap in Hle. eapply Forall_impl; [exact Hle|]. intros c. simpl. lia.
Qed.
End Attempts.

(** ** Threads of the server as interleaved atomic sections *)

Section Interleaving.
Context {order : PeerOrder} {inet : Inet}.
Implicit Types (s : P2PServer).

(** One section of any thread, whichever it is and whatever locks it holds:
    what the tables and their limits have to withstand. The lifecycle sections
    change the flag, the listener, its endpoint and the hello. *)
Inductive server_step : P2PServer -> P2PServer -> Prop :=
  | sstep_lifecycle running listening addr prt hello s :
      server_step s (set_server_running running (set_listening listening
        (set_listen_endpoint addr prt (set_hello hello s))))
  | sstep_peers now o s :
      match o with
      | OpLowerScore _ amount | OpPenalize _ amount | OpReward _ amount =>
          0 <= amount <= INT_MAX - PEER_SCORE_MAX
      | _ => True
      end ->
      server_step s (set_server_peers (peer_op now o (server_peers_ s)) s)
  | sstep_allow now addr s : server_step s (allow_connection_attempt now addr s).1.2
  | sstep_claim now e s : server_step s (claim_attempt now e s).1.2
  | sstep_unclaim e s : server_step s (set_discovery (delete (retry_key e) (discovery_attempts_ s)) s)
  | sstep_forget_claims s : server_step s (set_discovery ∅ s).

Record server_inv s : Prop := {
  si_peers : manager_inv (server_peers_ s);
  si_attempts : attempts_inv (connection_attempts_ s);
  si_retries : Z.of_nat (size (discovery_attempts_ s)) <= MAX_DISCOVERY_RETRY_STATE
}.

Lemma new_server_inv : server_inv new_server.
Proof.
  split; simpl; [apply new_manager_inv| |].
  - split; [|apply map_Forall_empty]. rewrite map_size_empty. unfold MAX_TRACKED_CONNECTION_IPS. lia.
  - rewrite map_size_empty. unfold MAX_DISCOVERY_RETRY_STATE. lia.
Qed.

Lemma peer_op_next now o (m : P2PPeerManager) :
  next_id_ m < UINT64_MAX -> 0 <= next_id_ m -> next_id_ m <= next_id_ (peer_op now o m) <= next_id_ m + 1.
Proof.
  intros Hn H0. destruct o; simpl; try lia.
  - destruct (add_peer now c addr prt m) as [r m'] eqn:E. cbn [snd].
    apply add_peer_outcome in E as [(e & _ & _ & _ & ->)|(_ & _ & _ & _ & _ & ->)]; simpl; [lia|].
    rewrite u64_small by ints. lia.
  - enough (next_id_ (remember_peer_endpoints es m).2 = next_id_ m) by lia. clear.
    revert m. induction es as [|e es IH]; intros m; [done|]. simpl.
    destruct (remember_peer_endpoint e m) as [r m'] eqn:E.
    assert (next_id_ m' = next_id_ m) as Hm by (apply remember_outcome in E as [->|[-> _]]; done).
    destruct r as [[]|]; simpl; [by rewrite IH|done].
  - destruct (lower_score_frame id amount m) as (_ & -> & _). lia.
  - unfold penalize, penalize_among. destruct (lower_score_frame id amount m) as (_ & <- & _).
    destruct (lower_score id amount m) as [a m1]. case_bool_decide; simpl; lia.
  - unfold reward. destruct (_ !! _); simpl; lia.
  - unfold is_banned. rewrite (proj2 (proj2 (is_banned_frame now addr m))). lia.
Qed.

Lemma server_step_inv s s' :
  server_inv s -> next_id_ (server_peers_ s) < UINT64_MAX -> server_step s s' ->
  server_inv s' /\ next_id_ (server_peers_ s') <= next_id_ (server_peers_ s) + 1.
Proof.
  intros H Hn Hst. pose proof (mi_next _ (si_peers _ H)) as H0.
  destruct Hst as [r l a p h s|now o s Hok|now addr s|now e s|e s|s].
  - destruct H. split; [by split|simpl; lia].
  - destruct H as [H1 H2 H3]. split; [|simpl; pose proof (peer_op_next now o _ Hn); lia].
    split; simpl; [apply peer_op_inv; [done|by destruct o]|done..].
  - unfold allow_connection_attempt, asking. pose proof (allow_attempt_inv now addr _ (si_attempts _ H)) as Ha.
    destruct (allow_attempt now addr (connection_attempts_ s)) as [ok m]. rewrite run_update.
    destruct H as [H1 H2 H3]. split; [by split|simpl; lia].
  - unfold claim_attempt, asking. cbv zeta.
    pose proof (map_size_filter (fun kv => now - kv.2 < DISCOVERY_RETRY_COOLDOWN) (discovery_attempts_ s)) as Hsz.
    fold (expire_retries now (discovery_attempts_ s)) in Hsz.
    set (d := expire_retries now (discovery_attempts_ s)) in *. destruct H as [H1 H2 H3].
    destruct (d !! retry_key e) eqn:E; [rewrite run_update; split; [split; simpl; done || lia|simpl; lia]|].
    destruct (_ <=? _) eqn:El; zbool; rewrite run_update; (split; [split; simpl; try done|simpl; lia]); [lia|].
    rewrite map_size_insert_None by done. lia.
  - destruct H as [H1 H2 H3]. split; [|simpl; lia]. split; simpl; try done. rewrite map_size_delete.
    destruct (_ !! _); simpl; lia.
  - destruct H as [H1 H2 H3]. split; [|simpl; lia]. by split.
Qed.
(** At most [n] sections use up at most [n] ids. *)
Lemma server_steps_inv n s s' :
  server_inv s -> next_id_ (server_peers_ s) + Z.of_nat n <= UINT64_MAX -> bsteps server_step n s s' ->
  server_inv s' /\ next_id_ (server_peers_ s') <= next_id_ (server_peers_ s) + Z.of_nat n.
Proof.
  intros H Hn Hs. induction Hs as [n s|n s s1 s2 H1 _ IH]; [split; [done|lia]|].
  destruct (server_step_inv s s1 H ltac:(lia) H1) as [Hi Hx].
  destruct (IH Hi ltac:(lia)) as [Hi2 Hx2]. split; [done|lia].
Qed.

(** *** What an operation does to the server, as sections *)

Definition steps {A} (n : nat) (m : server_op A) s : Prop := bsteps server_step n s (m s).1.2.

Lemma steps_same {A} n (m : server_op A) s : (m s).1.2 = s -> steps n m s.
Proof. intros H. unfold steps. rewrite H. constructor. Qed.
Lemma steps_weaken {A} n k (m : server_op A) s : steps n m s -> (n <= k)%nat -> steps k m s.
Proof. intros H Hk. by eapply bsteps_weaken. Qed.
Lemma steps_bind {A B} n k (m : server_op A) (f : A -> server_op B) s :
  steps n m s -> (forall a s' ev, m s = (Ok a, s', ev) -> steps k (f a) s') -> steps (n + k) (m ≫= f) s.
Proof.
  intros Hm Hf. unfold steps, mbind, op_bind in *. destruct (m s) as [[[a|e] s1] ev] eqn:E.
  - specialize (Hf a s1 ev eq_refl). simpl in *. destruct (f a s1) as [[r s2] ev2]. by eapply bsteps_trans.
  - simpl in *. by apply bsteps_add_r.
Qed.
Lemma steps_guard {B} n c e (f : unit -> server_op B) s :
  (c = true -> steps n (f tt) s) -> steps n (require_op c e ≫= f) s.
Proof. intros H. unfold steps. rewrite run_require. destruct c; [by apply H|constructor]. Qed.
Lemma steps_reading {A B} n (g : P2PServer -> result A) (f : A -> server_op B) s :
  (forall a, g s = Ok a -> steps n (f a) s) -> steps n (reading g ≫= f) s.
Proof. intros H. unfold steps. rewrite run_reading. destruct (g s); [by apply H|constructor]. Qed.
Lemma steps_update {B} n k g (f : unit -> server_op B) s :
  bsteps server_step n s (g s) -> steps k (f tt) (g s) -> steps (n + k) (update g ≫= f) s.
Proof. intros H1 H2. unfold steps. rewrite run_update. by eapply bsteps_trans. Qed.
Lemma steps_catching {A} n (m : server_op A) h s :
  steps n m s -> (forall e s', (h e s').1.2 = s') -> steps n (catching m h) s.
Proof.
  intros Hm Hh. unfold steps, catching in *. destruct (m s) as [[[a|e] s1] ev]; [done|].
  specialize (Hh e s1). destruct (h e s1) as [[r s2] ev2]. simpl in *. by subst.
Qed.

(** Other threads: at most [k] sections of the server. *)
Definition interleaved (k : nat) (f : P2PServer -> P2PServer) : Prop := forall s, bsteps server_step k s (f s).

Lemma steps_banned now addr s : steps 1 (banned_now now addr) s.
Proof.
  unfold banned_now, steps, asking. destruct (is_banned now addr (server_peers_ s)) as [b m] eqn:E.
  rewrite run_update. apply bsteps_once. replace m with (peer_op now (OpIsBanned addr) (server_peers_ s)).
  - by apply sstep_peers.
  - simpl. by rewrite E.
Qed.
Lemma run_banned {B} now addr (f : bool -> server_op B) s :
  (banned_now now addr ≫= f) s =
  f (is_banned now addr (server_peers_ s)).1 (set_server_peers (is_banned now addr (server_peers_ s)).2 s).
Proof.
  unfold mbind, op_bind, banned_now, asking. destruct (is_banned now addr (server_peers_ s)) as [b m].
  rewrite run_update. apply run_nil.
Qed.
Lemma banned_now_frame now addr s b s' ev :
  banned_now now addr s = (Ok b, s', ev) ->
  server_running_ s' = server_running_ s /\ next_id_ (server_peers_ s') = next_id_ (server_peers_ s) /\
  peers_ (server_peers_ s') = peers_ (server_peers_ s) /\ ev = [].
Proof.
  unfold banned_now, asking. pose proof (is_banned_frame now addr (server_peers_ s)) as (F1 & _ & F3).
  unfold is_banned. destruct (is_banned_locked now addr (server_peers_ s)) as [b' m].
  rewrite run_update. by intros [= <- <- <-].
Qed.

Lemma steps_gate now addr prt s : steps 1 (connect_gate now addr prt) s.
Proof.
  unfold connect_gate, steps, asking. fold (steps (A := P2PHello.t) 1).
  do 4 (apply steps_guard; intros _). destruct (inet_pton _); [|by apply steps_same].
  apply steps_guard. intros _. apply (steps_bind 1 0); [apply steps_banned|]. intros b s' ev _.
  do 2 (apply steps_guard; intros _). by apply steps_same.
Qed.
Lemma steps_add now c addr prt s :
  bsteps server_step 1 s (set_server_peers (add_peer now c addr prt (server_peers_ s)).2 s).
Proof. by apply bsteps_once, (sstep_peers now (OpAdd c addr prt)). Qed.

Lemma steps_publish k now later others c addr prt s :
  interleaved k others -> steps (2 + k) (connect_publish now later others c addr prt) s.
Proof.
  intros Hm. unfold connect_publish, steps, asking. fold (steps (A := Z) (2 + k)).
  apply steps_guard. intros Hr. apply steps_guard. intros _. apply (steps_bind 1 (1 + k)); [apply steps_banned|].
  intros b s' ev _. apply steps_guard. intros _. eapply steps_weaken; [apply (steps_update k 1); [apply Hm|]|lia].
  pose proof (steps_add later c addr prt (others s')) as Hadd.
  unfold steps, asking. destruct (add_peer later c addr prt (server_peers_ (others s'))) as [r m]. by rewrite run_update.
Qed.

(** The other threads of a connection. *)
Definition out_interleaved (k : nat) (o : Outbound) : Prop :=
  interleaved k (out_meanwhile o) /\ interleaved k (out_publishing o).

Lemma steps_connect k o addr prt s :
  out_interleaved k o -> steps (3 + 2 * k) (connect_to_peer o addr prt) s.
Proof.
  intros Hm. unfold connect_to_peer. apply (steps_bind 1 (2 + 2 * k)); [apply steps_gate|]. intros hello s1 ev _.
  apply (steps_bind 0); [by apply steps_same|]. intros [] s2 ev2 _.
  apply steps_reading. intros c _. do 2 (apply steps_guard; intros _). apply steps_reading. intros _ _.
  eapply steps_weaken; [apply (steps_update k (2 + k)); [apply Hm|apply steps_publish, Hm]|lia].
Qed.
Lemma steps_candidate k o e s : out_interleaved k o -> steps (5 + 2 * k) (try_candidate o e) s.
Proof.
  intros Hm. unfold try_candidate. apply steps_catching; [|done]. eapply steps_weaken.
  - apply (steps_bind (3 + 2 * k) (1 + (1 + 0))); [by apply steps_connect|]. intros id s1 ev _.
    apply steps_update; [by apply bsteps_once, (sstep_peers 0 (OpForget (address e) (port e)))|].
    apply steps_update; [apply bsteps_once, sstep_unclaim|]. by apply steps_same.
  - lia.
Qed.
Lemma steps_candidates k env i es allowed tried connected s :
  (forall j, out_interleaved k (env j).2) ->
  steps (length es * (6 + 2 * k)) (candidates_loop env i es allowed tried connected) s.
Proof.
  intros Hm. revert i tried connected s. induction es as [|e es IH]; intros i tried connected s; [by apply steps_same|].
  cbn [candidates_loop length]. unfold steps, asking. fold (steps (A := Z) (S (length es) * (6 + 2 * k))).
  destruct (_ || _); [by apply steps_same|]. eapply steps_weaken.
  - apply (steps_bind 1 ((5 + 2 * k) + length es * (6 + 2 * k))); [apply bsteps_once, sstep_claim|].
    intros go s1 ev _. destruct (negb go); [eapply steps_weaken; [apply IH|lia]|].
    apply steps_bind; [by apply steps_candidate|]. intros ok s2 ev2 _. apply IH.
  - lia.
Qed.
Lemma steps_discovered k env n s :
  (forall j, out_interleaved k (env j).2) ->
  steps (length (known_peers_ (server_peers_ s)) * (6 + 2 * k)) (connect_to_discovered_peers env n) s.
Proof.
  intros Hm. unfold connect_to_discovered_peers, steps, asking.
  destruct (_ || _); [constructor|]. destruct (_ <=? _); [constructor|]. by apply steps_candidates.
Qed.

(** *** What the checks of an outbound connection establish *)

Lemma gate_returns now addr prt s hello s' ev :
  connect_gate now addr prt s = (Ok hello, s', ev) ->
  exists host, inet_pton (c_str addr) = Some host /\ self_connection addr host prt s = false /\
    hello = local_hello_ s /\ peers_ (server_peers_ s') = peers_ (server_peers_ s) /\ ev = [].
Proof.
  unfold connect_gate, asking. intros E. do 4 apply require_returns in E as [_ E].
  destruct (inet_pton (c_str addr)) as [host|]; [|done]. apply require_returns in E as [Hself E].
  apply bind_returns in E as (b & s1 & ev1 & ev2 & Hb & E & ->).
  apply banned_now_frame in Hb as (_ & _ & Hp & ->). do 2 apply require_returns in E as [_ E].
  injection E as <- <- <-. exists host. by apply negb_true_iff in Hself.
Qed.
Lemma publish_returns now later others c addr prt s id s' ev :
  connect_publish now later others c addr prt s = (Ok id, s', ev) ->
  ev = [] /\ server_running_ s = true /\ peer_count (server_peers_ s) < MAX_PEERS /\
  (forall until, banned_addresses_ (server_peers_ s) !! addr = Some until -> until <= now) /\
  exists s1, steps 1 (banned_now now addr) s /\ s1 = (banned_now now addr s).1.2 /\
    (manager_inv (server_peers_ (others s1)) ->
     peers_ (server_peers_ (others s1)) !! id = None /\ peer_count (server_peers_ (others s1)) < MAX_PEERS /\
     peers_ (server_peers_ s') =
       <[id := mkEntry (mkInfo id addr prt true PEER_SCORE_INITIAL) c]> (peers_ (server_peers_ (others s1)))).
Proof.
  unfold connect_publish, asking. intros E.
  apply require_returns in E as [Hr E]. apply require_returns in E as [Hcount E]. zbool.
  apply bind_returns in E as (b & s1 & ev1 & ev2 & Hb & E & ->).
  pose proof (banned_now_frame _ _ _ _ _ _ Hb) as (_ & _ & _ & ->). apply require_returns in E as [Hnb E].
  rewrite run_update in E. cbv beta in E.
  destruct (add_peer later c addr prt (server_peers_ (others s1))) as [r m] eqn:Ha. rewrite run_update in E.
  injection E as -> <- <-. split; [done|]. split; [done|]. split; [done|]. split.
  { intros t Hu. revert Hb. unfold banned_now, asking, is_banned, is_banned_locked. rewrite Hu.
    destruct (t <=? now) eqn:Hle; zbool; [done|]. rewrite run_update. intros [= <- _]. done. }
  exists s1. split; [apply steps_banned|]. split; [by rewrite Hb|]. intros Hinv.
  apply add_peer_outcome in Ha as [(e & ? & _)|([= ->] & _ & Hroom & _ & _ & ->)]; [done|].
  assert (peers_ (server_peers_ (others s1)) !! next_id_ (server_peers_ (others s1)) = None) as Hfresh.
  { destruct (peers_ (server_peers_ (others s1)) !! _) as [e|] eqn:Hl; [|done].
    pose proof (eo_fresh _ _ _ (mi_entries _ Hinv _ e Hl)). lia. }
  simpl. by rewrite Hfresh.
Qed.

(** *** What a run over the discovered endpoints opens *)

Lemma claim_returns now e s : exists go s', claim_attempt now e s = (Ok go, s', []).
Proof.
  unfold claim_attempt, asking. cbv zeta. destruct (_ !! _); [|destruct (_ <=? _)]; rewrite run_update; by eexists _, _.
Qed.

Lemma gate_silent now addr prt s : (connect_gate now addr prt s).2 = [].
Proof.
  unfold connect_gate, asking. rewrite run_require. destruct (server_running_ s); [|done].
  rewrite run_require. destruct (negb _); [|done]. rewrite run_require. destruct (negb _); [|done].
  rewrite run_require. destruct (_ <? _); [|done]. destruct (inet_pton _) as [host|]; [|done].
  rewrite run_require. destruct (negb _); [|done].
  rewrite run_banned, run_require. destruct (negb _); [|done]. rewrite run_require. by destruct (negb _).
Qed.
Lemma connect_trace o addr prt s r s' tr :
  connect_to_peer o addr prt s = (r, s', tr) ->
  (tr = [] /\ exists e, r = Throw e) \/ tr = [mkEndpoint addr prt].
Proof.
  unfold connect_to_peer. unfold mbind at 1, op_bind at 1. pose proof (gate_silent (gate_time o) addr prt s) as Hg.
  destruct (connect_gate _ addr prt s) as [[[hello|e] s0] ev]; simpl in Hg; subst ev;
    [|intros [= <- <- <-]; left; eauto]. rewrite run_nil.
  unfold mbind at 1, op_bind at 1. cbn [emit].
  match goal with |- context [?m s0] => assert ((m s0).2 = []) as Hq end.
  { rewrite run_reading. destruct (connects o); [|done]. rewrite run_require. destruct (connection_valid _); [|done].
    rewrite run_require. destruct (out_timeouts_set o); [|done]. rewrite run_reading.
    destruct (perform_hello_handshake _ _ _ _ _ _).1 as [[]|]; [|done]. rewrite run_update.
    generalize (out_meanwhile o s0) as s1. intros s1. unfold connect_publish, asking. rewrite run_require.
    destruct (server_running_ s1); [|done]. rewrite run_require. destruct (_ <? _); [|done].
    rewrite run_banned, run_require. destruct (negb _); [|done]. rewrite run_update. cbv beta.
    destruct (add_peer _ _ _ _ _) as [rr mm]. by rewrite run_update. }
  match goal with |- context [?m s0] => destruct (m s0) as [[r1 s1] tr1] end. simpl in Hq. subst tr1.
  intros [= <- <- <-]. by right.
Qed.
Lemma candidate_trace o e s :
  exists ok s' tr, try_candidate o e s = (Ok ok, s', tr) /\ (tr = [] \/ tr = [e]) /\ (ok = true -> tr = [e]).
Proof.
  unfold try_candidate, catching, mbind at 1, op_bind at 1.
  destruct (connect_to_peer o (address e) (port e) s) as [[r s1] tr] eqn:E. apply connect_trace in E.
  replace (mkEndpoint (address e) (port e)) with e in E by (by destruct e).
  destruct r as [id|x].
  - destruct E as [[_ [? ?]]| ->]; [done|]. rewrite !run_update. cbn. eexists _, _, _. split; [done|]. auto.
  - cbn. rewrite app_nil_r. eexists _, _, _. split; [done|]. split; [|done]. destruct E as [[-> _]| ->]; auto.
Qed.

Lemma candidates_trace env i es allowed tried n s :
  exists k s' tr, candidates_loop env i es allowed tried n s = (Ok k, s', tr) /\
    n <= k <= n + sizeZ tr /\ sizeZ tr <= Z.max 0 (allowed - tried) /\ tr ⊆ es.
Proof.
  revert i tried n s. induction es as [|e es IH]; intros i tried n s.
  { eexists _, _, _. split; [done|]. unfold sizeZ. simpl. split_and!; try lia. done. }
  cbn [candidates_loop]. unfold asking.
  destruct ((allowed <=? tried) || _) eqn:Hstop.
  { eexists _, _, _. split; [done|]. unfold sizeZ. simpl. split_and!; try lia. set_solver. }
  apply orb_false_iff in Hstop as [Hlt _]. zbool.
  destruct (claim_returns (env i).1 e s) as (go & s1 & Hc). unfold mbind at 1, op_bind at 1. rewrite Hc.
  destruct go; cbn [negb].
  - destruct (candidate_trace (env i).2 e s1) as (ok & s2 & tr1 & Ht & Htr & Hok).
    unfold mbind at 1, op_bind at 1. rewrite Ht.
    destruct (IH (S i) (tried + 1) (if ok then n + 1 else n) s2) as (k & s3 & tr2 & -> & Hk & Hl & Hsub).
    rewrite app_nil_l. eexists _, _, _. split; [done|]. rewrite sizeZ_app.
    assert (sizeZ tr1 <= 1 /\ (ok = true -> sizeZ tr1 = 1) /\ 0 <= sizeZ tr1) as (H1 & H2 & H3).
    { split_and!; [destruct Htr as [->| ->]; done|by intros ->%Hok|apply sizeZ_nonneg]. }
    split; [destruct ok; [specialize (H2 eq_refl)|]; lia|]. split; [lia|].
    destruct Htr as [->| ->]; set_solver.
  - destruct (IH (S i) tried n s1) as (k & s3 & tr2 & -> & Hk & Hl & Hsub).
    eexists _, _, _. split; [done|]. rewrite app_nil_l. split; [done|]. split; [done|]. set_solver.
Qed.

End Interleaving.

(** ** Claims *)

Section ServerClaims.
Context {order : PeerOrder} {inet : Inet}.

(** However the attempts of all addresses are ordered, no address passes
    the accept limit more than sixteen times, twice the limit of a window,
    within any stretch of time as long as a window. *)
Theorem connection_attempts_limited t addr calls m :
  attempts_inv m -> StronglySorted Z.le calls.*1 ->
  passed t addr calls m <= 2 * MAX_CONNECTION_ATTEMPTS_PER_IP.
Proof.
  revert m. induction calls as [|[now a] calls IH]; intros m H Hs; [simpl; unfold MAX_CONNECTION_ATTEMPTS_PER_IP; lia|].
  destruct (Z.lt_ge_cases now t) as [Hl|Hl].
  - pose proof (allow_attempt_inv now a m H) as H1. simpl in *. apply StronglySorted_inv in Hs as [Hs _].
    destruct (allow_attempt now a m) as [ok m1]. rewrite (proj2 (Z.leb_gt _ _)), andb_false_r by done. simpl.
    by apply IH.
  - etransitivity; [apply (passed_from t); [done..|]|by apply allowance_bound].
    pose proof Hs as Hs'. simpl in Hs'. apply StronglySorted_inv in Hs' as [_ Hle]. constructor; [done|].
    rewrite Forall_fmap in Hle. eapply Forall_impl; [exact Hle|]. intros c. simpl. lia.
Qed.

(** [connect_to_peer] adds a peer only after every check held: the address
    is an IPv4 address and not the server's own endpoint, the remote side
    completed the handshake for this network, and, when it is published and
    whatever other threads did since the first checks, the server is running,
    the address is not banned and there is room in the table. Then exactly that
    peer is added, under a new id, to what the other threads have made of the
    table. *)
Theorem outbound_publication k o addr prt s id s' tr :
  server_inv s -> out_interleaved k o ->
  next_id_ (server_peers_ s) + Z.of_nat (2 + 2 * k) <= UINT64_MAX ->
  connect_to_peer o addr prt s = (Ok id, s', tr) ->
  exists c host s0, let s1 := out_meanwhile o s0 in
    let s2 := out_publishing o (banned_now (publish_time o) addr s1).1.2 in
    connects o = Ok c /\ tr = [mkEndpoint addr prt] /\
    inet_pton (c_str addr) = Some host /\ self_connection addr host prt s = false /\
    (perform_hello_handshake (out_sends o) (out_ticks o) (out_events o) (local_hello_ s)
       (P2PHello.network_id (local_hello_ s)) (out_deadline o)).1 = Ok tt /\
    peers_ (server_peers_ s0) = peers_ (server_peers_ s) /\
    server_running_ s1 = true /\ peer_count (server_peers_ s1) < MAX_PEERS /\
    (forall until, banned_addresses_ (server_peers_ s1) !! addr = Some until -> until <= publish_time o) /\
    peers_ (server_peers_ s2) !! id = None /\ peer_count (server_peers_ s2) < MAX_PEERS /\
    peers_ (server_peers_ s') =
      <[id := mkEntry (mkInfo id addr prt true PEER_SCORE_INITIAL) c]> (peers_ (server_peers_ s2)).
Proof.
  intros H [Hm Hp2] Hids E. unfold connect_to_peer in E. apply bind_returns in E as (hello & s0 & ev & tr1 & Hg & E & ->).
  pose proof (steps_gate (gate_time o) addr prt s) as Hsteps. unfold steps in Hsteps. rewrite Hg in Hsteps.
  apply gate_returns in Hg as (host & Hi & Hself & -> & Hp & ->).
  apply bind_returns in E as ([] & s0' & ev2 & tr2 & [= <- <-] & E & ->).
  apply reading_returns in E as (c & Hc & E). apply require_returns in E as [_ E].
  apply require_returns in E as [_ E]. apply reading_returns in E as ([] & Hh & E).
  rewrite run_update in E.
  apply publish_returns in E as (-> & Hr & Hcount & Hban & s1 & Hs1 & -> & Hadd).
  destruct Hadd as (Hnew & Hroom & Hpeers).
  { apply si_peers, (server_steps_inv (1 + k + (1 + k)) s _ H); [lia|].
    eapply bsteps_trans; [eapply bsteps_trans; [exact Hsteps|apply Hm]|].
    eapply bsteps_trans; [exact Hs1|apply Hp2]. }
  exists c, host, s0. by split_and!.
Qed.

(** A run over the discovered endpoints, with the other threads' sections in
    between, keeps the limits of the tables. *)
Theorem discovery_keeps_tables k env n s :
  server_inv s -> (forall j, out_interleaved k (env j).2) ->
  next_id_ (server_peers_ s) +
    Z.of_nat (length (known_peers_ (server_peers_ s)) * (6 + 2 * k)) <= UINT64_MAX ->
  server_inv (connect_to_discovered_peers env n s).1.2.
Proof. intros H Hm Hn. eapply server_steps_inv; [exact H|exact Hn|by apply steps_discovered]. Qed.

(** One run over the discovered endpoints returns, opens at most four
    connections and at most as many as asked for, only to endpoints that peers
    announced, and counts no more successes than connections. *)
Theorem discovery_run_bounded env n s :
  0 <= n ->
  exists k s' tr, connect_to_discovered_peers env n s = (Ok k, s', tr) /\
    0 <= k <= sizeZ tr /\ sizeZ tr <= Z.min n MAX_DISCOVERY_ATTEMPTS_PER_RUN /\
    tr ⊆ known_peers_ (server_peers_ s).
Proof.
  intros Hn. unfold connect_to_discovered_peers, asking.
  assert (0 <= Z.min n MAX_DISCOVERY_ATTEMPTS_PER_RUN) as Hmin by (unfold MAX_DISCOVERY_ATTEMPTS_PER_RUN; lia).
  assert (forall s' : P2PServer, exists k s'' (tr : list P2PPeerEndpoint), (Ok 0, s', []) = (Ok k, s'', tr) /\ 0 <= k <= sizeZ tr /\
    sizeZ tr <= Z.min n MAX_DISCOVERY_ATTEMPTS_PER_RUN /\ tr ⊆ known_peers_ (server_peers_ s)) as Hnone.
  { intros s'. eexists _, _, _. split; [done|]. unfold sizeZ. simpl. split_and!; [lia|lia|lia|set_solver]. }
  destruct (_ || _); [apply Hnone|]. destruct (_ <=? _); [apply Hnone|].
  destruct (candidates_trace env 0 (known_peer_endpoints_snapshot (server_peers_ s))
    (Z.min n MAX_DISCOVERY_ATTEMPTS_PER_RUN) 0 0 s) as (k & s' & tr & E & Hk & Hl & Hsub).
  exists k, s', tr. split_and!; [done|lia|lia|lia|done].
Qed.
End ServerClaims.

(** ** Witnesses *)

(** A running server on the sample network. *)
Definition sample_server : P2PServer :=
  mkServer true story_manager (str "0.0.0.0") 18444 ∅ ∅
    (P2PHello.mk CZR_P2P_PROTOCOL_VERSION 1 0 0 (str "Caesar-CZR")) true.

Lemma sample_server_inv : server_inv (inet := lan_inet) sample_server.
Proof.
  split; [apply story_manager_inv| |decide_vm].
  split; [decide_vm|apply map_Forall_empty].
Qed.

(** A remote node that answers with the same hello. *)
Definition sample_outbound : Outbound :=
  mkOutbound (Ok 9) true [Accepts 100] (replicate 4 (tick 1))
    (match enc_frame (mkFrame P2PMessageType.Hello (enc_hello (local_hello_ sample_server))) with
     | b :: bs => [Data b bs] | [] => [] end)
    5 0 0 0 (fun s => s) (fun s => s).

Lemma quiet_interleaved : out_interleaved (order := in_order) (inet := lan_inet) 0 sample_outbound.
Proof. split; intros s; constructor. Qed.

Lemma connection_attempts_limited_witness :
  passed 0 (str "10.0.0.9") (replicate 20 (5, str "10.0.0.9")) ∅ <= 16.
Proof.
  apply (connection_attempts_limited 0 (str "10.0.0.9") (replicate 20 (5, str "10.0.0.9")) ∅).
  - split; [decide_vm|apply map_Forall_empty].
  - simpl. repeat constructor; lia.
Defined.

Lemma outbound_publication_witness :
  exists id s' tr c,
    connect_to_peer (order := in_order) (inet := lan_inet) sample_outbound (str "10.0.0.1") 9000 sample_server
      = (Ok id, s', tr) /\ peers_ (server_peers_ s') !! id =
        Some (mkEntry (mkInfo id (str "10.0.0.1") 9000 true PEER_SCORE_INITIAL) c).
Proof.
  destruct (connect_to_peer (order := in_order) (inet := lan_inet) sample_outbound (str "10.0.0.1") 9000 sample_server)
    as [[[id|e] s'] tr] eqn:E; [|vm_compute in E; discriminate].
  destruct (outbound_publication (order := in_order) (inet := lan_inet) 0 sample_outbound (str "10.0.0.1") 9000
    sample_server id s' tr sample_server_inv quiet_interleaved) as (c & host & s0 & H); [decide_vm|exact E|].
  exists id, s', tr, c. split; [reflexivity|]. destruct H as (_ & _ & _ & _ & _ & _ & _ & _ & _ & _ & _ & ->).
  apply lookup_insert_eq.
Defined.

Lemma discovery_run_bounded_witness :
  exists k s' tr, connect_to_discovered_peers (order := in_order) (inet := lan_inet)
      (fun _ => (0, sample_outbound)) 2 sample_server = (Ok k, s', tr) /\ sizeZ tr <= 2.
Proof.
  destruct (discovery_run_bounded (order := in_order) (inet := lan_inet) (fun _ => (0, sample_outbound)) 2
    sample_server) as (k & s' & tr & E & _ & Hl & _); [lia|].
  exists k, s', tr. split; [exact E|]. unfold MAX_DISCOVERY_ATTEMPTS_PER_RUN in Hl. lia.
Defined.
