(* ===== verification/P2PThreads.v ===== *)
(** p2p_server.hpp: the threads of [P2PServer]: [start], [stop] and the
    publication of an outbound connection, which hold the lifecycle mutex, the
    accept thread, which holds none of the server's locks while it checks the
    flag and adds a peer, and the other clients of the tables.

    Each thread is at a point of its code; the points are the places between
    which it touches the shared state once. A schedule says which thread runs
    next and what the network answers it. *)

From S2P Require Import Prelude Serialization Crypto Transaction P2PWire P2PStream PeerManager P2PServer.
From stdpp Require Import options.
Local Open Scope Z_scope.

(** ** The accept thread *)

(** Where [accept_loop] is. *)
Inductive Accepting :=
  | LoopHead                                             (* while (running_) *)
  | Accept                                               (* listener_.accept_connection() *)
  | Recheck (c : P2PConnection)                          (* if (!running_) *)
  | Timeouts (c : P2PConnection)
  | Capacity (c : P2PConnection)
  | Address (c : P2PConnection)
  | Allow (c : P2PConnection) (addr : bytes)
  | Port (c : P2PConnection) (addr : bytes)
  | Handshake (c : P2PConnection) (addr : bytes) (prt : Z)
  | FinalCheck (c : P2PConnection) (addr : bytes) (prt : Z)
  | Add (c : P2PConnection) (addr : bytes) (prt : Z)
  | Caught                                               (* catch (...) *)
  | Ended.

#[global] Instance Accepting_eq_dec : EqDecision Accepting.
Proof. solve_decision. Defined.

(** What one step of the thread meets; it looks at the field it is about.
    [callback_returns]: the callback of the new peer does not throw. *)
Record Inbound := mkInbound {
  accepts : result P2PConnection;
  in_timeouts_set : bool;
  in_address : result bytes;
  in_port : result Z;
  in_sends : list SendEvent;
  in_ticks : list Tick;
  in_events : list RecvEvent;
  in_deadline : Z;
  in_now : Z;
  callback_returns : bool
}.

(** ** The holder of the lifecycle mutex *)

Record StartArgs := mkStart {
  start_port : Z; start_address : bytes; start_network : Z; start_height : Z
}.

(** Where the thread that holds [lifecycle_mutex_] is. *)
Inductive LockHolder :=
  (* start *)
  | StartCheck (a : StartArgs)
  | StartClear (a : StartArgs)
  | StartHello (a : StartArgs)
  | StartListen (a : StartArgs)
  | StartEndpoint (a : StartArgs)
  | StartFlag
  | StartThread
  | StartUndoFlag
  | StartUndoClose
  (* connect_to_peer: the gate and the publication *)
  | GateCheck
  | PublishCheck (c : P2PConnection) (addr : bytes) (prt : Z)
  | PublishRoom (c : P2PConnection) (addr : bytes) (prt : Z)
  | PublishBan (c : P2PConnection) (addr : bytes) (prt : Z)
  | PublishAdd (c : P2PConnection) (addr : bytes) (prt : Z)
  (* stop *)
  | StopCheck
  | StopFlag
  | StopClose
  | StopJoin
  | StopClear
  | StopDiscovery.

Record HolderEnv := mkHolderEnv {
  listens : bool; (* listen_on succeeds *)
  thread_starts : bool; (* the accept thread can be created *)
  holder_now : Z
}.

(** A section of the holder: it goes on, [None] when it leaves the function and
    unlocks; it waits in [join]; or it assigns to a joinable [std::thread],
    which ends the process. *)
Inductive Progress :=
  | Goes (next : option LockHolder) (s : P2PServer) (thread : option Accepting)
  | Waits
  | Terminates.

Section Sections.
Context {order : PeerOrder} {inet : Inet}.

Definition accept_section (e : Inbound) (at_ : Accepting) (s : P2PServer) : Accepting * P2PServer :=
  match at_ with
  | LoopHead => (if server_running_ s then Accept else Ended, s)
  | Accept => (match accepts e with Ok c => Recheck c | Throw _ => Caught end, s)
  | Recheck c => (if server_running_ s then Timeouts c else Ended, s)
  | Timeouts c => (if in_timeouts_set e then Capacity c else Caught, s)
  | Capacity c => (if MAX_PEERS <=? peer_count (server_peers_ s) then LoopHead else Address c, s)
  | Address c => (match in_address e with Ok addr => Allow c addr | Throw _ => Caught end, s)
  | Allow c addr =>
      let '(ok, m) := allow_attempt (in_now e) addr (connection_attempts_ s) in
      (if (ok : bool) then Port c addr else LoopHead, set_attempts m s)
  | Port c addr => (match in_port e with Ok prt => Handshake c addr prt | Throw _ => Caught end, s)
  | Handshake c addr prt =>
      (match (perform_hello_handshake (in_sends e) (in_ticks e) (in_events e) (local_hello_ s)
                (P2PHello.network_id (local_hello_ s)) (in_deadline e)).1 with
       | Ok _ => FinalCheck c addr prt
       | Throw _ => Caught
       end, s)
  | FinalCheck c addr prt => (if server_running_ s then Add c addr prt else Ended, s)
  | Add c addr prt =>
      let '(r, m) := add_peer (in_now e) c addr prt (server_peers_ s) in
      (match r with
       | Ok _ => if callback_returns e then LoopHead else Caught
       | Throw _ => Caught
       end, set_server_peers m s)
  | Caught => (if server_running_ s then LoopHead else Ended, s)
  | Ended => (Ended, s)
  end.

(** [thread] is [accept_thread_]: [None] when it is not joinable. *)
Definition holder_section (e : HolderEnv) (h : LockHolder) (s : P2PServer) (thread : option Accepting) : Progress :=
  match h with
  | StartCheck a =>
      if server_running_ s then Goes None s thread (* throws *) else Goes (Some (StartClear a)) s thread
  | StartClear a => Goes (Some (StartHello a)) (set_discovery ∅ s) thread
  | StartHello a =>
      Goes (Some (StartListen a))
        (set_hello (P2PHello.mk CZR_P2P_PROTOCOL_VERSION (start_network a) (start_height a) 0
           (str "Caesar-CZR")) s) thread
  | StartListen a =>
      if listens e then Goes (Some (StartEndpoint a)) (set_listening true s) thread
      else Goes None (set_listening false s) thread (* throws *)
  | StartEndpoint a => Goes (Some StartFlag) (set_listen_endpoint (start_address a) (start_port a) s) thread
  | StartFlag => Goes (Some StartThread) (set_server_running true s) thread
  | StartThread =>
      if thread_starts e then
        match thread with Some _ => Terminates | None => Goes None s (Some LoopHead) end
      else Goes (Some StartUndoFlag) s thread
  | StartUndoFlag => Goes (Some StartUndoClose) (set_server_running false s) thread
  | StartUndoClose => Goes None (set_listening false s) thread (* rethrows *)
  | GateCheck => Goes None s thread (* reads only *)
  | PublishCheck c addr prt =>
      Goes (if server_running_ s then Some (PublishRoom c addr prt) else None) s thread
  | PublishRoom c addr prt =>
      Goes (if peer_count (server_peers_ s) <? MAX_PEERS then Some (PublishBan c addr prt) else None) s thread
  | PublishBan c addr prt =>
      let '(banned, m) := is_banned (holder_now e) addr (server_peers_ s) in
      Goes (if (banned : bool) then None else Some (PublishAdd c addr prt)) (set_server_peers m s) thread
  | PublishAdd c addr prt =>
      Goes None (set_server_peers (add_peer (holder_now e) c addr prt (server_peers_ s)).2 s) thread
  | StopCheck => Goes (if server_running_ s then Some StopFlag else None) s thread
  | StopFlag => Goes (Some StopClose) (set_server_running false s) thread
  | StopClose => Goes (Some StopJoin) (set_listening false s) thread
  | StopJoin =>
      match thread with
      | None | Some Ended => Goes (Some StopClear) s None
      | Some _ => Waits
      end
  | StopClear => Goes (Some StopDiscovery) (set_server_peers (clear_peers (server_peers_ s)) s) thread
  | StopDiscovery => Goes None (set_discovery ∅ s) thread
  end.

(** ** All threads *)

Record Threads := mkThreads {
  shared : P2PServer;
  lifecycle_mutex_ : option LockHolder; (* [None]: free *)
  accept_thread_ : option Accepting
}.
Definition new_threads : Threads := mkThreads new_server None None.

(** The calls that take the mutex. *)
Inductive LifecycleCall :=
  | CallStart (a : StartArgs)
  | CallGate
  | CallPublish (c : P2PConnection) (addr : bytes) (prt : Z)
  | CallStop.
Definition entry_point (call : LifecycleCall) : LockHolder :=
  match call with
  | CallStart a => StartCheck a
  | CallGate => GateCheck
  | CallPublish c addr prt => PublishCheck c addr prt
  | CallStop => StopCheck
  end.

(** Sections of the other clients: the relay and the discovery loop. *)
Inductive Client :=
  | ClientPeers (now : Z) (o : PeerOp)
  | ClientClaim (now : Z) (e : P2PPeerEndpoint)
  | ClientUnclaim (e : P2PPeerEndpoint).
Definition client_section (f : Client) (s : P2PServer) : P2PServer :=
  match f with
  | ClientPeers now o => set_server_peers (peer_op now o (server_peers_ s)) s
  | ClientClaim now e => (claim_attempt now e s).1.2
  | ClientUnclaim e => set_discovery (delete (retry_key e) (discovery_attempts_ s)) s
  end.

(** Who runs next. *)
Inductive Choice :=
  | Locks (call : LifecycleCall)
  | HolderRuns (e : HolderEnv)
  | AcceptRuns (e : Inbound)
  | ClientRuns (f : Client).

(** [None]: that thread cannot run now. *)
Definition thread_step (c : Choice) (t : Threads) : option Threads :=
  match c with
  | Locks call =>
      match lifecycle_mutex_ t with
      | Some _ => None
      | None => Some (mkThreads (shared t) (Some (entry_point call)) (accept_thread_ t))
      end
  | HolderRuns e =>
      match lifecycle_mutex_ t with
      | None => None
      | Some h =>
          match holder_section e h (shared t) (accept_thread_ t) with
          | Goes next s thread => Some (mkThreads s next thread)
          | _ => None
          end
      end
  | AcceptRuns e =>
      match accept_thread_ t with
      | None | Some Ended => None
      | Some at_ =>
          let '(at_, s) := accept_section e at_ (shared t) in
          Some (mkThreads s (lifecycle_mutex_ t) (Some at_))
      end
  | ClientRuns f => Some (mkThreads (client_section f (shared t)) (lifecycle_mutex_ t) (accept_thread_ t))
  end.
Fixpoint run_threads (schedule : list Choice) (t : Threads) : option Threads :=
  match schedule with
  | [] => Some t
  | c :: schedule => t ← thread_step c t; run_threads schedule t
  end.

(** Only the accept thread and a publication add peers, only [stop] clears the
    table, and nobody passes a negative amount. *)
Definition choice_ok (c : Choice) : Prop :=
  match c with
  | ClientRuns (ClientPeers _ o) =>
      match o with
      | OpAdd _ _ _ | OpClear => False
      | OpLowerScore _ amount | OpPenalize _ amount | OpReward _ amount =>
          0 <= amount <= INT_MAX - PEER_SCORE_MAX
      | _ => True
      end
  | _ => True
  end.
End Sections.

(** ** What holds at each point *)

Section Lifecycle.
Context {order : PeerOrder} {inet : Inet}.
Implicit Types (t : Threads) (s : P2PServer).

(** Between the calls. *)
Record stopped t : Prop := {
  st_flag : server_running_ (shared t) = false;
  st_peers : peers_ (server_peers_ (shared t)) = ∅;
  st_listener : listening_ (shared t) = false;
  st_thread : accept_thread_ t = None
}.
Record serving t : Prop := {
  sv_flag : server_running_ (shared t) = true;
  sv_listener : listening_ (shared t) = true;
  sv_thread : exists at_, accept_thread_ t = Some at_ /\ at_ <> Ended
}.
Definition settled t : Prop := stopped t \/ serving t.

(** With no accept thread there are no peers; the flag and the listener. *)
Definition starting (running listening : bool) t : Prop :=
  server_running_ (shared t) = running /\ listening_ (shared t) = listening /\
  peers_ (server_peers_ (shared t)) = ∅ /\ accept_thread_ t = None.
(** The flag is down; peers may still be there and may still be added. *)
Definition stopping (listening : bool) t : Prop :=
  server_running_ (shared t) = false /\ listening_ (shared t) = listening /\ is_Some (accept_thread_ t).

Definition holds_at (h : option LockHolder) t : Prop :=
  match h with
  | None | Some (StartCheck _) | Some GateCheck | Some (PublishCheck _ _ _) | Some StopCheck => settled t
  | Some (StartClear _) | Some (StartHello _) | Some (StartListen _) | Some StopDiscovery => stopped t
  | Some (StartEndpoint _) | Some StartFlag | Some StartUndoClose => starting false true t
  | Some StartThread | Some StartUndoFlag => starting true true t
  | Some (PublishRoom _ _ _) | Some (PublishBan _ _ _) | Some (PublishAdd _ _ _) | Some StopFlag => serving t
  | Some StopClose => stopping true t
  | Some StopJoin => stopping false t
  | Some StopClear =>
      server_running_ (shared t) = false /\ listening_ (shared t) = false /\ accept_thread_ t = None
  end.
Definition lifecycle_inv t : Prop := holds_at (lifecycle_mutex_ t) t.

(** The holder's point is kept when another thread leaves the flag, the
    listener and the accept thread as they are, and adds no peer unless there
    is an accept thread. *)
Record unaffected t t' : Prop := {
  un_flag : server_running_ (shared t') = server_running_ (shared t);
  un_listener : listening_ (shared t') = listening_ (shared t);
  un_thread : match accept_thread_ t with
              | None => accept_thread_ t' = None /\
                  (peers_ (server_peers_ (shared t)) = ∅ -> peers_ (server_peers_ (shared t')) = ∅)
              | Some at_ => exists at', accept_thread_ t' = Some at' /\
                  (server_running_ (shared t) = true -> at_ <> Ended -> at' <> Ended)
              end
}.

Lemma stopped_unaffected t t' : unaffected t t' -> stopped t -> stopped t'.
Proof. intros [F L T] [H1 H2 H3 H4]. rewrite H4 in T. destruct T as [? T]. split; auto; congruence. Qed.
Lemma serving_unaffected t t' : unaffected t t' -> serving t -> serving t'.
Proof.
  intros [F L T] [H1 H2 (at_ & H3 & H4)]. rewrite H3 in T. destruct T as (at' & ? & T).
  split; [congruence..|]. eauto.
Qed.
Lemma starting_unaffected t t' r l : unaffected t t' -> starting r l t -> starting r l t'.
Proof.
  intros [F L T] (H1 & H2 & H3 & H4). rewrite H4 in T. destruct T as [? T]. split_and!; auto; congruence.
Qed.
Lemma stopping_unaffected t t' l : unaffected t t' -> stopping l t -> stopping l t'.
Proof.
  intros [F L T] (H1 & H2 & [at_ H3]). rewrite H3 in T. destruct T as (at' & ? & T).
  split_and!; [congruence..|eauto].
Qed.
Lemma holds_at_unaffected h t t' : unaffected t t' -> holds_at h t -> holds_at h t'.
Proof.
  intros U. assert (settled t -> settled t') as Hs.
  { intros [H|H]; [left; by apply (stopped_unaffected t)|right; by apply (serving_unaffected t)]. }
  destruct h as [[]|]; simpl;
    eauto using stopped_unaffected, serving_unaffected, starting_unaffected, stopping_unaffected.
  intros (H1 & H2 & H3). destruct U as [F L T]. rewrite H3 in T. destruct T. split_and!; congruence.
Qed.

(** *** The threads without the mutex *)

Lemma accept_section_frame e at_ s :
  let '(at', s') := accept_section e at_ s in
  server_running_ s' = server_running_ s /\ listening_ s' = listening_ s /\
  (server_running_ s = true -> at_ <> Ended -> at' <> Ended).
Proof.
  destruct at_; simpl; repeat case_match; simplify_eq/=; split_and!; done || congruence.
Qed.
Lemma accept_unaffected e at_ t :
  accept_thread_ t = Some at_ ->
  let '(at', s') := accept_section e at_ (shared t) in
  unaffected t (mkThreads s' (lifecycle_mutex_ t) (Some at')).
Proof.
  intros Ht. pose proof (accept_section_frame e at_ (shared t)) as H.
  destruct (accept_section e at_ (shared t)) as [at' s']. destruct H as (F & L & T).
  split; [done..|]. rewrite Ht. simpl. eauto.
Qed.

Lemma peer_op_empty now o (m : P2PPeerManager) :
  peers_ m = ∅ -> match o with OpAdd _ _ _ => False | _ => True end -> peers_ (peer_op now o m) = ∅.
Proof.
  intros H Ho.
  assert (forall id amount, peers_ (lower_score id amount m).2 = ∅) as Hl
    by (intros; unfold lower_score; by rewrite H, lookup_empty).
  destruct o; simpl; try done.
  - by rewrite H, delete_empty.
  - by rewrite (proj1 (remembers_frame es m)).
  - unfold penalize, penalize_among. specialize (Hl id amount). destruct (lower_score id amount m) as [a m1].
    case_bool_decide; [done|]. simpl in *. by rewrite Hl, delete_empty.
  - unfold reward. by rewrite H, lookup_empty.
  - unfold is_banned. by rewrite (proj1 (is_banned_frame now addr m)).
Qed.
Lemma claim_frame now e s :
  let s' := (claim_attempt now e s).1.2 in
  server_running_ s' = server_running_ s /\ listening_ s' = listening_ s /\ server_peers_ s' = server_peers_ s.
Proof.
  cbv zeta. unfold claim_attempt, asking. cbv zeta. destruct (_ !! _); [|destruct (_ <=? _)]; by rewrite run_update.
Qed.
Lemma client_unaffected f t :
  choice_ok (ClientRuns f) ->
  unaffected t (mkThreads (client_section f (shared t)) (lifecycle_mutex_ t) (accept_thread_ t)).
Proof.
  intros Hf. set (s' := client_section f (shared t)).
  assert (server_running_ s' = server_running_ (shared t) /\ listening_ s' = listening_ (shared t) /\
    (peers_ (server_peers_ (shared t)) = ∅ -> peers_ (server_peers_ s') = ∅)) as (F & L & P).
  { subst s'. destruct f as [now o|now e|e]; simpl; [|pose proof (claim_frame now e (shared t)) as (-> & -> & ->)|]; auto.
    split_and!; [done..|]. intros E. apply peer_op_empty; [done|]. by destruct o. }
  split; [done..|]. simpl. destruct (accept_thread_ t); [eauto|done].
Qed.

(** *** The holder *)

(** Closes a goal about one point from the facts about another. *)
Local Ltac lifecycle_goal :=
  unfold starting, stopping;
  first [ left; split; simpl; congruence
        | right; split; simpl; eauto; congruence
        | split; simpl; eauto; congruence
        | split_and!; simpl; eauto; congruence ].

Lemma holder_progress e t h :
  lifecycle_mutex_ t = Some h -> lifecycle_inv t ->
  match holder_section e h (shared t) (accept_thread_ t) with
  | Goes next s thread => lifecycle_inv (mkThreads s next thread)
  | Waits => h = StopJoin
  | Terminates => False
  end.
Proof.
  unfold lifecycle_inv. intros ->. destruct t as [s m thread]. simpl. intros H.
  destruct h; simpl in *; repeat case_match; simplify_eq/=; auto.
  all: unfold settled in *; repeat match goal with H : _ \/ _ |- _ => destruct H end.
  all: repeat match goal with
    | H : stopped _ |- _ => destruct H | H : serving _ |- _ => destruct H as [? ? (? & ? & ?)]
    | H : starting _ _ _ |- _ => destruct H as (? & ? & ? & ?)
    | H : stopping _ _ |- _ => destruct H as (? & ? & [? ?]) end.
  all: simpl in *; destruct_and?; try congruence.
  all: lifecycle_goal.
Qed.

(** *** The tables *)

Lemma peers_section now o s :
  choice_ok (ClientRuns (ClientPeers now o)) \/ (exists c addr prt, o = OpAdd c addr prt) \/ o = OpClear ->
  bsteps server_step 1 s (set_server_peers (peer_op now o (server_peers_ s)) s).
Proof. intros H. apply bsteps_once, sstep_peers. destruct o; simpl in *; naive_solver. Qed.
Lemma lifecycle_section s s' :
  server_peers_ s' = server_peers_ s -> connection_attempts_ s' = connection_attempts_ s ->
  discovery_attempts_ s' = discovery_attempts_ s -> bsteps server_step 1 s s'.
Proof.
  intros H1 H2 H3. apply bsteps_once.
  pose proof (sstep_lifecycle (server_running_ s') (listening_ s') (listen_address_ s') (listen_port_ s')
    (local_hello_ s') s) as H. destruct s, s'. simpl in *. by subst.
Qed.

Lemma accept_section_steps e at_ s : bsteps server_step 1 s (accept_section e at_ s).2.
Proof.
  destruct at_; try apply bsteps_refl; simpl.
  - apply bsteps_once. pose proof (sstep_allow (in_now e) addr s) as H.
    unfold allow_connection_attempt, asking in H.
    destruct (allow_attempt (in_now e) addr (connection_attempts_ s)) as [ok m]. by rewrite run_update in H.
  - pose proof (peers_section (in_now e) (OpAdd c addr prt) s) as H. simpl in H.
    destruct (add_peer (in_now e) c addr prt (server_peers_ s)) as [r m]. cbn [snd] in *. apply H. right. left. by eexists _, _, _.
Qed.
Lemma client_steps f s : choice_ok (ClientRuns f) -> bsteps server_step 1 s (client_section f s).
Proof.
  intros Hf. destruct f as [now o|now e|e]; simpl.
  - apply peers_section. by left.
  - apply bsteps_once, sstep_claim.
  - apply bsteps_once, sstep_unclaim.
Qed.
Lemma holder_section_steps e h s thread next s' thread' :
  holder_section e h s thread = Goes next s' thread' -> bsteps server_step 1 s s'.
Proof.
  destruct h; simpl; repeat case_match; intros [= <- <- <-]; try apply bsteps_refl.
  all: first
    [ by apply lifecycle_section
    | apply bsteps_once, sstep_forget_claims
    | apply (peers_section (holder_now e) (OpAdd c addr prt)); eauto 6
    | apply (peers_section (holder_now e) OpClear); eauto
    | match goal with H : is_banned ?t ?a ?m0 = (_, ?m) |- _ =>
        replace m with (peer_op t (OpIsBanned a) m0) by (simpl; by rewrite H) end;
      apply peers_section; by left ].
Qed.
End Lifecycle.

(** ** Claims *)

Section ThreadClaims.
Context {order : PeerOrder} {inet : Inet}.

Lemma thread_step_ok c t t' :
  choice_ok c -> thread_step c t = Some t' -> lifecycle_inv t ->
  lifecycle_inv t' /\ bsteps server_step 1 (shared t) (shared t').
Proof.
  intros Hc E H. destruct c as [call|e|e|f]; simpl in E.
  - destruct (lifecycle_mutex_ t) as [h|] eqn:Hm; simplify_eq. split; [|apply bsteps_refl].
    unfold lifecycle_inv in *. rewrite Hm in H. destruct H as [[]|[]]; destruct call; [left|left|left|left|right|right|right|right];
      split; simpl; auto.
  - destruct (lifecycle_mutex_ t) as [h|] eqn:Hm; [|done].
    pose proof (holder_progress e t h Hm H) as Hp.
    destruct (holder_section e h (shared t) (accept_thread_ t)) as [next s thread| |] eqn:Eh; [|done..].
    injection E as <-. split; [done|]. by eapply holder_section_steps.
  - destruct (accept_thread_ t) as [at_|] eqn:Ht; [|done].
    pose proof (accept_unaffected e at_ t Ht) as Hu. pose proof (accept_section_steps e at_ (shared t)) as Hs.
    destruct (accept_section e at_ (shared t)) as [at' s].
    assert (t' = mkThreads s (lifecycle_mutex_ t) (Some at')) as -> by (destruct at_; by simplify_eq).
    split; [|exact Hs]. unfold lifecycle_inv. simpl. by apply (holds_at_unaffected _ t _ Hu).
  - injection E as <-. split; [|by apply client_steps]. unfold lifecycle_inv. simpl.
    by apply (holds_at_unaffected _ t _ (client_unaffected f t Hc)).
Qed.

Lemma run_threads_ok schedule t t' :
  Forall choice_ok schedule -> run_threads schedule t = Some t' -> lifecycle_inv t ->
  lifecycle_inv t' /\ bsteps server_step (length schedule) (shared t) (shared t').
Proof.
  intros Hc. revert t. induction Hc as [|c schedule Hc _ IH]; intros t E H; simpl in E.
  - injection E as <-. split; [done|apply bsteps_refl].
  - destruct (thread_step c t) as [t1|] eqn:E1; [|done].
    destruct (thread_step_ok c t t1 Hc E1 H) as [H1 S1]. destruct (IH t1 E H1) as [H2 S2].
    split; [done|]. by apply (bsteps_trans 1 (length schedule) _ (shared t1)).
Qed.

Lemma new_threads_inv : lifecycle_inv new_threads.
Proof. by left. Qed.

(** The turns that are left to the accept thread once the flag is down. *)
Definition turns_left (at_ : Accepting) : nat :=
  match at_ with
  | Timeouts _ => 7
  | Capacity _ => 6
  | Address _ => 5
  | Allow _ _ => 4
  | Port _ _ => 3
  | Accept | Handshake _ _ _ | Add _ _ _ => 2
  | LoopHead | Recheck _ | FinalCheck _ _ _ | Caught => 1
  | Ended => 0
  end%nat.
Definition is_accept_turn (c : Choice) : bool := match c with AcceptRuns _ => true | _ => false end.

Lemma accept_turn_decreases e at_ s :
  server_running_ s = false -> at_ <> Ended -> (turns_left (accept_section e at_ s).1 < turns_left at_)%nat.
Proof.
  intros Hr Hn. destruct at_; simpl; try rewrite Hr; repeat case_match; simpl; done || lia.
Qed.

Lemma joining_turns schedule t t' at_ :
  lifecycle_mutex_ t = Some StopJoin -> server_running_ (shared t) = false -> accept_thread_ t = Some at_ ->
  Forall choice_ok schedule -> Forall (fun c => forall e, c <> HolderRuns e) schedule ->
  run_threads schedule t = Some t' ->
  exists at', accept_thread_ t' = Some at' /\
    (length (filter is_accept_turn schedule) + turns_left at' <= turns_left at_)%nat.
Proof.
  intros Hm Hr Ht Hc Hh. revert t at_ Hm Hr Ht. induction Hc as [|c schedule Hc _ IH]; intros t at_ Hm Hr Ht E.
  { injection E as <-. exists at_. split; [done|simpl; lia]. }
  apply Forall_cons in Hh as [Hh0 Hh]. simpl in E. destruct (thread_step c t) as [t1|] eqn:E1; [|done].
  destruct c as [call|e|e|f]; simpl in E1; [by rewrite Hm in E1|by destruct (Hh0 e)| |].
  - rewrite Ht in E1. pose proof (accept_section_frame e at_ (shared t)) as Hf.
    pose proof (accept_turn_decreases e at_ (shared t) Hr) as Hd.
    destruct (accept_section e at_ (shared t)) as [at1 s1]. destruct Hf as (F & _ & _).
    assert (at_ <> Ended /\ t1 = mkThreads s1 (lifecycle_mutex_ t) (Some at1)) as [Hn ->]
      by (destruct at_; by simplify_eq).
    destruct (IH Hh (mkThreads s1 (lifecycle_mutex_ t) (Some at1)) at1 Hm ltac:(simpl; congruence) eq_refl E) as (at' & ? & ?).
    exists at'. split; [done|]. specialize (Hd Hn). rewrite filter_cons_True by done. simpl in *. lia.
  - injection E1 as <-. pose proof (un_flag _ _ (client_unaffected f t Hc)) as F. cbn [shared] in F.
    destruct (IH Hh (mkThreads (client_section f (shared t)) (lifecycle_mutex_ t) (accept_thread_ t)) at_ Hm
      (eq_trans F Hr) Ht E) as (at' & ? & ?). exists at'. split; [done|].
    by rewrite filter_cons_False by (intros []).
Qed.

(** C23: however start, stop, the publications of outbound connections, the
    accept thread and the other clients of the server are scheduled, one access
    to the shared state at a time, from a new server on: the peer table keeps
    its invariant and its 64 places, at most 1024 addresses are tracked with 1
    to 8 attempts each and at most 256 endpoints wait for a retry; whenever
    nobody holds the lifecycle mutex, either the flag is down, the listener
    closed, the accept thread joined and the table empty (although that thread
    may add a peer after stop took the flag down), or the flag is up, the
    listener open and the accept thread alive; start never assigns over a
    joinable thread; and a stop that waits in join waits for at most seven
    turns of the accept thread. Only these threads add peers or clear the
    table, amounts of penalties and rewards are not negative, and the 64-bit
    peer ids last. *)
Theorem server_safety schedule t :
  Forall choice_ok schedule -> 1 + sizeZ schedule <= UINT64_MAX ->
  run_threads schedule new_threads = Some t ->
  server_inv (shared t) /\
  (lifecycle_mutex_ t = None -> stopped t \/ serving t) /\
  (forall e h, lifecycle_mutex_ t = Some h ->
     holder_section e h (shared t) (accept_thread_ t) <> Terminates) /\
  (lifecycle_mutex_ t = Some StopJoin -> forall later t',
     Forall choice_ok later -> Forall (fun c => forall e, c <> HolderRuns e) later ->
     run_threads later t = Some t' ->
     (length (filter is_accept_turn later) <= 7)%nat /\
     (accept_thread_ t' = Some Ended \/ forall e, is_Some (thread_step (AcceptRuns e) t'))).
Proof.
  intros Hc Hn E. destruct (run_threads_ok schedule _ t Hc E new_threads_inv) as [H Hs].
  split; [|split; [|split]].
  - apply (server_steps_inv (length schedule) new_server); [apply new_server_inv|exact Hn|exact Hs].
  - intros Hm. unfold lifecycle_inv in H. by rewrite Hm in H.
  - intros e h Hm Ht. pose proof (holder_progress e t h Hm H) as Hp. by rewrite Ht in Hp.
  - intros Hm later t' Hl Hh E'. unfold lifecycle_inv in H. rewrite Hm in H. destruct H as (Hr & _ & [at_ Ht]).
    destruct (joining_turns later t t' at_ Hm Hr Ht Hl Hh E') as (at' & Ht' & Hle).
    assert (turns_left at_ <= 7)%nat by (destruct at_; simpl; lia). split; [lia|].
    destruct (decide (at' = Ended)) as [->|Hne]; [by left|right]. intros e. simpl. rewrite Ht'.
    destruct (accept_section e at' (shared t')). destruct at'; done.
Qed.
End ThreadClaims.

(** ** Witnesses *)

(** A remote node connects and answers with the server's own hello. *)
Definition sample_inbound : Inbound :=
  mkInbound (Ok 9) true (Ok (str "10.0.0.1")) (Ok 9000) (out_sends sample_outbound) (out_ticks sample_outbound)
    (out_events sample_outbound) 5 0 true.
Definition sample_holder : HolderEnv := mkHolderEnv true true 0.
Definition sample_start : StartArgs := mkStart 18444 (str "0.0.0.0") 1 0.

(** The server starts; the accept thread has taken a connection through its
    last look at the flag when [stop] takes it down and waits in [join]; then
    the peer is added, the thread ends and [stop] clears the table. *)
Definition joins_late : list Choice :=
  Locks (CallStart sample_start) :: replicate 7 (HolderRuns sample_holder) ++
  replicate 10 (AcceptRuns sample_inbound) ++ Locks CallStop :: replicate 3 (HolderRuns sample_holder) ++
  [AcceptRuns sample_inbound].
Definition thread_ends : list Choice :=
  AcceptRuns sample_inbound :: replicate 3 (HolderRuns sample_holder).

Lemma joins_late_ok : Forall choice_ok joins_late /\ Forall choice_ok (joins_late ++ thread_ends).
Proof. split; repeat (constructor; [exact I|]); constructor. Qed.

Definition after (schedule : list Choice) : Threads :=
  default new_threads (run_threads (order := in_order) (inet := lan_inet) schedule new_threads).
Lemma after_run schedule :
  (if run_threads (order := in_order) (inet := lan_inet) schedule new_threads is Some _ then true else false) = true ->
  run_threads (order := in_order) (inet := lan_inet) schedule new_threads = Some (after schedule).
Proof. unfold after. by destruct (run_threads schedule new_threads). Qed.

Lemma server_safety_witness :
  let t1 := after joins_late in let t2 := after (joins_late ++ thread_ends) in
  (server_running_ (shared t1) = false /\ size (peers_ (server_peers_ (shared t1))) = 1%nat /\
   forall e h, lifecycle_mutex_ t1 = Some h ->
     holder_section (order := in_order) e h (shared t1) (accept_thread_ t1) <> Terminates) /\
  (stopped t2 \/ serving t2) /\ server_running_ (shared t2) = false.
Proof.
  cbv zeta. split; [split; [vm_compute; reflexivity|split; [vm_compute; reflexivity|]]|split; [|vm_compute; reflexivity]].
  - apply (server_safety (order := in_order) (inet := lan_inet) joins_late);
      [apply joins_late_ok|decide_vm|apply after_run; vm_compute; reflexivity].
  - apply (server_safety (order := in_order) (inet := lan_inet) (joins_late ++ thread_ends));
      [apply joins_late_ok|decide_vm|apply after_run; vm_compute; reflexivity|vm_compute; reflexivity].
Defined.
