(* ===== verification/RelayWire.v ===== *)
(** The payloads of the relay (p2p_relay.hpp): block locators and requests,
    header lists and block lists, with the frames that carry them. *)

From S2P Require Import Prelude Serialization Crypto Transaction UTXO Ownership Coinbase.
From S2P Require Import Consensus Block NetworkParams ChainValidator Storage P2PWire.
From stdpp Require Import options.
Local Open Scope Z_scope.

Definition MAX_LOCATORS : Z := 32.
Definition MAX_HEADERS : Z := 2000.
Definition max_batch : Z := 1024.

(** ** Frames *)

Definition make_blocks_frame (block : Block) : result P2PFrame :=
  encoded ← block_serialize_full_binary block;
  throw_if (UINT32_MAX <? sizeZ encoded) "serialized block too large" ;;
  Ok (mkFrame P2PMessageType.Blocks
        (write_bytes encoded (write_u32 (u32 (sizeZ encoded)) (write_u32 1 [])))).

Definition make_transaction_frame (tx : Transaction) : result P2PFrame :=
  encoded ← tx_serialize_full_binary tx;
  throw_if (bool_decide (encoded = []) || (CZR_P2P_MAX_PAYLOAD <? sizeZ encoded)
            || (UINT32_MAX <? sizeZ encoded)) "transaction too large for P2P relay" ;;
  Ok (mkFrame P2PMessageType.Transaction encoded).

(** The count and the hashes, byte by byte. *)
Definition write_hashes (hashes : list Hash256) : BinaryWriter :=
  foldl (fun w h => write_hash h w) (write_u32 (u32 (sizeZ hashes)) []) hashes.

Definition make_get_headers_frame (locator_hashes : list Hash256) : result P2PFrame :=
  throw_if (bool_decide (locator_hashes = []) || (MAX_LOCATORS <? sizeZ locator_hashes))
    "invalid header locator count" ;;
  Ok (mkFrame P2PMessageType.GetHeaders (write_hashes locator_hashes)).

Definition make_get_blocks_frame (block_hashes : list Hash256) : result P2PFrame :=
  throw_if (bool_decide (block_hashes = []) || (max_batch <? sizeZ block_hashes))
    "invalid block request count" ;;
  Ok (mkFrame P2PMessageType.GetBlocks (write_hashes block_hashes)).

(** The answer to a header request. *)
Definition write_relayed_header (w : BinaryWriter) (h : BlockHeader) : BinaryWriter :=
  let encoded := header_serialize_binary h in
  write_bytes encoded (write_u32 (u32 (sizeZ encoded)) w).
Definition make_headers_frame (headers : list BlockHeader) : P2PFrame :=
  mkFrame P2PMessageType.Headers
    (foldl write_relayed_header (write_u32 (u32 (sizeZ headers)) []) headers).

(** The answer to a block request. *)
Definition write_relayed_block (w : BinaryWriter) (block : Block) : result BinaryWriter :=
  encoded ← block_serialize_full_binary block;
  throw_if (bool_decide (encoded = []) || (CZR_P2P_MAX_PAYLOAD <? sizeZ encoded)
            || (UINT32_MAX <? sizeZ encoded)) "block too large for getblocks response" ;;
  Ok (write_bytes encoded (write_u32 (u32 (sizeZ encoded)) w)).
Definition make_requested_blocks_frame (blocks : list Block) : result P2PFrame :=
  w ← foldM_r write_relayed_block (write_u32 (u32 (sizeZ blocks)) []) blocks;
  Ok (mkFrame P2PMessageType.Blocks w).

(** ** Payloads *)

(** [count == 0 || count > limit] *)
Definition bad_count (limit n : Z) : bool := (n =? 0) || (limit <? n).

Definition parse_get_headers_payload (p : bytes) : result (list Hash256) :=
  run (whole (read_counted (bad_count MAX_LOCATORS) "invalid header locator count"
                read_hash_bytewise) "trailing bytes in getheaders payload") p.

Definition parse_get_blocks_payload (p : bytes) : result (list Hash256) :=
  run (whole (read_counted (bad_count max_batch) "invalid getblocks request count"
                read_hash_bytewise) "trailing bytes in getblocks payload") p.

Definition parse_blocks_payload (p : bytes) : result (list Block) :=
  run (whole (read_counted (bad_count max_batch) "invalid relayed block count"
                (read_sized CZR_P2P_MAX_PAYLOAD "relayed block too large" block_deserialize_full))
         "trailing bytes in relayed blocks payload") p.

Definition default_header : BlockHeader :=
  mkHeader 1 0 zero_hash zero_hash zero_hash 0 0 0.

Section Headers.
Context {ssl : OpenSSL}.

(** The header without its nonce, which is what was mined. *)
Definition header_validate_pow (h : BlockHeader) : bool :=
  validate_pow
    (header_serialize_binary (mkHeader (version h) (height h) (previous_hash h) (header_merkle_root h)
       (witness_root h) (timestamp h) 0 (difficulty h)))
    (nonce h) (difficulty h).

Definition read_relayed_header : parser BlockHeader :=
  size ← read_u32;
  _ ← reject_if (negb (size =? sizeZ (header_serialize_binary default_header))) "invalid block header size";
  data ← read_bytes (Z.to_nat size);
  h ← lift (header_deserialize_binary data);
  _ ← reject_if (version h =? 0) "invalid received header version";
  _ ← reject_if (256 <? difficulty h) "invalid received header difficulty";
  _ ← reject_if (negb (header_validate_pow h)) "invalid received header proof of work";
  mret h.

Definition parse_headers_payload (p : bytes) : result (list BlockHeader) :=
  run (whole (read_counted (fun n => MAX_HEADERS <? n) "invalid received header count" read_relayed_header)
         "trailing bytes in headers payload") p.
End Headers.

(** ** Encodings *)

Definition header_acceptable {ssl : OpenSSL} (h : BlockHeader) : Prop :=
  header_typed h /\ version h <> 0 /\ difficulty h <= 256 /\ header_validate_pow h = true.
Definition relayable (b : Block) : Prop :=
  block_full_ok b /\ sizeZ (enc_block b) <= CZR_P2P_MAX_PAYLOAD.
#[global] Instance relayable_dec b : Decision (relayable b) := ltac:(unfold relayable; apply _).

(** A loop of writes that each append an encoding. *)
Lemma foldl_write {A} (f : BinaryWriter -> A -> BinaryWriter) (enc : A -> bytes) l w :
  (forall w a, f w a = w ++ enc a) -> foldl f w l = w ++ mjoin (enc <$> l).
Proof.
  intros Hf. revert w. induction l as [|a l IH]; intros w; [by rewrite app_nil_r|].
  cbn [foldl]. rewrite Hf, IH. by rewrite <- app_assoc.
Qed.

Lemma write_hashes_encode hashes :
  sizeZ hashes <= UINT32_MAX -> write_hashes hashes = enc_counted hash_bytes hashes.
Proof.
  intros H. unfold write_hashes. rewrite sizeZ_u32 by done. autorewrite with writer.
  rewrite (foldl_write _ hash_bytes); [done|]. intros w h. by autorewrite with writer.
Qed.

Lemma headers_frame_encode headers :
  sizeZ headers <= UINT32_MAX ->
  payload (make_headers_frame headers) = enc_counted (fun h => enc_string (enc_header h)) headers.
Proof.
  intros H. unfold make_headers_frame. cbn [payload]. rewrite sizeZ_u32 by done.
  autorewrite with writer. rewrite (foldl_write _ (fun h => enc_string (enc_header h))); [done|].
  intros w h. unfold write_relayed_header, write_bytes, enc_string.
  rewrite header_serialize_encode, sizeZ_u32 by (rewrite enc_header_length; ints).
  autorewrite with writer. by rewrite <- app_assoc.
Qed.

Lemma write_relayed_block_encode w b :
  relayable b -> write_relayed_block w b = Ok (w ++ enc_string (enc_block b)).
Proof.
  intros [Hb Hs]. unfold write_relayed_block, throw_if. rewrite block_full_ok_serialize by done.
  cbn [mbind result_bind]. pose proof (enc_block_length b) as Hl.
  rewrite bool_decide_eq_false_2 by (intros E; rewrite E in Hl; unfold sizeZ in Hl; simpl in Hl; lia).
  rewrite (proj2 (Z.ltb_ge CZR_P2P_MAX_PAYLOAD _)) by done.
  rewrite (proj2 (Z.ltb_ge UINT32_MAX _)) by (unfold CZR_P2P_MAX_PAYLOAD in Hs; ints).
  cbn [orb mbind result_bind]. rewrite sizeZ_u32 by (unfold CZR_P2P_MAX_PAYLOAD in Hs; ints).
  autorewrite with writer. unfold write_bytes, enc_string. by rewrite <- app_assoc.
Qed.
Lemma requested_blocks_encode blocks :
  Forall relayable blocks -> sizeZ blocks <= UINT32_MAX ->
  make_requested_blocks_frame blocks =
    Ok (mkFrame P2PMessageType.Blocks (enc_counted (fun b => enc_string (enc_block b)) blocks)).
Proof.
  intros Hb Hn. unfold make_requested_blocks_frame. rewrite sizeZ_u32 by done.
  autorewrite with writer. rewrite app_nil_l, (foldM_write _ (fun b => enc_string (enc_block b))); [done|].
  eapply Forall_impl; [exact Hb|]. intros b H w. by apply write_relayed_block_encode.
Qed.
Lemma blocks_frame_encode b :
  relayable b ->
  make_blocks_frame b =
    Ok (mkFrame P2PMessageType.Blocks (enc_counted (fun b => enc_string (enc_block b)) [b])).
Proof.
  intros [Hb Hs]. unfold make_blocks_frame, throw_if. rewrite block_full_ok_serialize by done.
  cbn [mbind result_bind]. unfold CZR_P2P_MAX_PAYLOAD in Hs.
  rewrite (proj2 (Z.ltb_ge UINT32_MAX _)) by ints. cbn [mbind result_bind].
  rewrite sizeZ_u32 by ints. autorewrite with writer. unfold write_bytes, enc_counted, enc_string.
  cbn [fmap list_fmap mjoin list_join]. by rewrite app_nil_l, app_nil_r, <- !app_assoc.
Qed.

(** ** Codecs *)

Lemma counted_bound limit n : limit < n -> bad_count limit n = true.
Proof. intros H. apply orb_true_iff. right. by apply Z.ltb_lt. Qed.
Lemma good_count {A} limit (l : list A) : bad_count limit (sizeZ l) = false <-> 0 < sizeZ l <= limit.
Proof.
  unfold bad_count. pose proof (sizeZ_nonneg l). rewrite orb_false_iff, Z.eqb_neq, Z.ltb_ge. lia.
Qed.

Lemma locators_codec :
  Codec (read_counted (bad_count MAX_LOCATORS) "invalid header locator count"
    read_hash_bytewise) (enc_counted hash_bytes)
    (fun l => Forall (fun _ => True) l /\ bad_count MAX_LOCATORS (sizeZ l) = false).
Proof.
  apply (read_counted_codec _ _ _ _ _ MAX_LOCATORS); [apply _|by vm_compute|apply counted_bound].
Qed.
Lemma requests_codec :
  Codec (read_counted (bad_count max_batch) "invalid getblocks request count"
    read_hash_bytewise) (enc_counted hash_bytes)
    (fun l => Forall (fun _ => True) l /\ bad_count max_batch (sizeZ l) = false).
Proof.
  apply (read_counted_codec _ _ _ _ _ max_batch); [apply _|by vm_compute|apply counted_bound].
Qed.
Lemma relayed_blocks_codec :
  Codec (read_counted (bad_count max_batch) "invalid relayed block count"
    (read_sized CZR_P2P_MAX_PAYLOAD "relayed block too large" block_deserialize_full))
    (enc_counted (fun b => enc_string (enc_block b)))
    (fun l => Forall relayable l /\ bad_count max_batch (sizeZ l) = false).
Proof.
  apply (read_counted_codec _ _ _ _ _ max_batch); [|by vm_compute|apply counted_bound].
  apply read_sized_codec; [by vm_compute| |].
  - intros b Hb. by apply block_deserialize_full_spec.
  - intros bs b. apply block_deserialize_full_spec.
Qed.

Lemma header_deserialize_spec bs h :
  header_deserialize_binary bs = Ok h <-> header_typed h /\ bs = enc_header h.
Proof.
  split.
  - apply (run_whole_sound _ _ _ _ _ _ header_codec).
  - intros [H ->]. by apply (run_whole_complete _ _ _ _ _ header_codec).
Qed.

Section HeaderCodec.
Context {ssl : OpenSSL}.

#[export] Instance relayed_header_codec :
  Codec read_relayed_header (fun h => enc_string (enc_header h)) header_acceptable.
Proof.
  eapply codec_enc_ext.
  - refine (codec_step _ _ _ (fun h => sizeZ (enc_header h)) _ _ _ read_u32_codec _ _).
    { intros h _. rewrite enc_header_length. ints. }
    intros size _. apply codec_reject.
    { intros h [_ <-]. by rewrite header_serialize_encode, !enc_header_length. }
    intros Hsize. rewrite header_serialize_encode, enc_header_length in Hsize. result_inv. zbool. subst.
    refine (codec_step _ _ _ enc_header _ _ _ (read_bytes_codec _) _ _).
    { intros h _. pose proof (enc_header_length h). unfold sizeZ in *. lia. }
    intros data _. refine (codec_step _ (fun _ => []) (fun h => header_deserialize_binary data = Ok h)
      (fun h => h) _ (fun _ => []) _ _ _ _).
    + by apply codec_lift.
    + intros h [[(Ht & _) _] <-]. by apply header_deserialize_spec.
    + intros h Hd. apply header_deserialize_spec in Hd as [Ht ->].
      apply codec_reject; [intros h' [[[(_ & Hv & _) _] _] ->]; by apply Z.eqb_neq|]. intros Hv.
      apply codec_reject; [intros h' [[[(_ & _ & Hd & _) _] _] ->]; by apply Z.ltb_ge|]. intros Hd.
      apply codec_reject; [intros h' [[[(_ & _ & _ & Hp) _] _] ->]; by rewrite Hp|]. intros Hp.
      apply codec_ret. intros h'. unfold header_acceptable. result_inv. zbool.
      split; [by intros [_ ->]|]. intros ->. rewrite enc_header_length. naive_solver.
  - intros h _. cbn beta. unfold enc_string. by rewrite !app_nil_r.
Qed.

Lemma relayed_headers_codec :
  Codec (read_counted (fun n => MAX_HEADERS <? n) "invalid received header count" read_relayed_header)
    (enc_counted (fun h => enc_string (enc_header h)))
    (fun l => Forall header_acceptable l /\ (MAX_HEADERS <? sizeZ l) = false).
Proof.
  apply (read_counted_codec _ _ _ _ _ MAX_HEADERS); [apply _|by vm_compute|].
  intros n. apply Z.ltb_lt.
Qed.

(** *** The payloads by their encodings *)

Lemma parse_get_headers_spec p l :
  parse_get_headers_payload p = Ok l <->
  0 < sizeZ l <= MAX_LOCATORS /\ p = enc_counted hash_bytes l.
Proof.
  unfold parse_get_headers_payload. split.
  - intros ([_ Hn] & ->)%(run_whole_sound _ _ _ _ _ _ locators_codec).
    by apply good_count in Hn.
  - intros [Hn ->]. apply (run_whole_complete _ _ _ _ _ locators_codec).
    split; [by apply Forall_true|by apply good_count].
Qed.
Lemma parse_get_blocks_spec p l :
  parse_get_blocks_payload p = Ok l <->
  0 < sizeZ l <= max_batch /\ p = enc_counted hash_bytes l.
Proof.
  unfold parse_get_blocks_payload. split.
  - intros ([_ Hn] & ->)%(run_whole_sound _ _ _ _ _ _ requests_codec).
    by apply good_count in Hn.
  - intros [Hn ->]. apply (run_whole_complete _ _ _ _ _ requests_codec).
    split; [by apply Forall_true|by apply good_count].
Qed.
Lemma parse_blocks_spec p l :
  parse_blocks_payload p = Ok l <->
  Forall relayable l /\ 0 < sizeZ l <= max_batch /\ p = enc_counted (fun b => enc_string (enc_block b)) l.
Proof.
  unfold parse_blocks_payload. split.
  - intros ([Hb Hn] & ->)%(run_whole_sound _ _ _ _ _ _ relayed_blocks_codec).
    by apply good_count in Hn.
  - intros (Hb & Hn & ->). apply (run_whole_complete _ _ _ _ _ relayed_blocks_codec).
    split; [done|by apply good_count].
Qed.
Lemma parse_headers_spec p l :
  parse_headers_payload p = Ok l <->
  Forall header_acceptable l /\ sizeZ l <= MAX_HEADERS /\
  p = enc_counted (fun h => enc_string (enc_header h)) l.
Proof.
  unfold parse_headers_payload. split.
  - intros ([Hh Hn] & ->)%(run_whole_sound _ _ _ _ _ _ relayed_headers_codec). by zbool.
  - intros (Hh & Hn & ->). apply (run_whole_complete _ _ _ _ _ relayed_headers_codec).
    split; [done|]. by apply Z.ltb_ge.
Qed.

(** ** Claims *)

(** The relay's payloads have one encoding each: a locator list, a block
    request, a header list or a block list is read from a payload exactly when
    it is within its limits and its frame carries that payload. In particular
    every header that is read carries a proof of work that meets its own
    difficulty. *)
Theorem relay_payloads_canonical p :
  (forall l, parse_get_headers_payload p = Ok l <->
     make_get_headers_frame l = Ok (mkFrame P2PMessageType.GetHeaders p)) /\
  (forall l, parse_get_blocks_payload p = Ok l <->
     make_get_blocks_frame l = Ok (mkFrame P2PMessageType.GetBlocks p)) /\
  (forall l, parse_headers_payload p = Ok l <->
     Forall header_acceptable l /\ sizeZ l <= MAX_HEADERS /\
     make_headers_frame l = mkFrame P2PMessageType.Headers p) /\
  (forall l, parse_blocks_payload p = Ok l <->
     Forall relayable l /\ 0 < sizeZ l <= max_batch /\
     make_requested_blocks_frame l = Ok (mkFrame P2PMessageType.Blocks p)).
Proof.
  assert (forall limit (l : list Hash256), bool_decide (l = []) || (limit <? sizeZ l) = false <->
    0 < sizeZ l <= limit) as Hb.
  { intros limit l. rewrite orb_false_iff, bool_decide_eq_false, Z.ltb_ge.
    destruct l; unfold sizeZ; simpl; [naive_solver lia|]. split; [lia|done || (intros; split; [done|lia])]. }
  split_and!; intros l.
  - rewrite parse_get_headers_spec. unfold make_get_headers_frame, throw_if. rewrite <- Hb.
    destruct (_ || _) eqn:E; [naive_solver|]. cbn [mbind result_bind]. apply Hb in E.
    rewrite write_hashes_encode by (unfold MAX_LOCATORS in E; ints). naive_solver.
  - rewrite parse_get_blocks_spec. unfold make_get_blocks_frame, throw_if. rewrite <- Hb.
    destruct (_ || _) eqn:E; [naive_solver|]. cbn [mbind result_bind]. apply Hb in E.
    rewrite write_hashes_encode by (unfold max_batch in E; ints). naive_solver.
  - rewrite parse_headers_spec. split.
    + intros (Hh & Hn & ->). split_and!; [done..|]. unfold make_headers_frame. f_equal.
      apply headers_frame_encode. unfold MAX_HEADERS in Hn. ints.
    + intros (Hh & Hn & E). split_and!; [done..|].
      rewrite <- headers_frame_encode by (unfold MAX_HEADERS in Hn; ints). by rewrite E.
  - rewrite parse_blocks_spec. split.
    + intros (Hh & Hn & ->). split_and!; [done|lia..|].
      apply requested_blocks_encode; [done|]. unfold max_batch in Hn. ints.
    + intros (Hh & Hn & E). split_and!; [done|lia..|].
      rewrite requested_blocks_encode in E; [naive_solver|done|]. unfold max_batch in Hn. ints.
Qed.
End HeaderCodec.
