(* ===== verification/Relay.v ===== *)
(** p2p_relay.hpp: [P2PRelay], the handlers of the block, header, transaction
    and discovery messages, and the reader of a peer's connection.

    The relay works on the storage and the callbacks of its node and on the
    peer table of its server, so these are part of its state. A handler is an
    operation whose trace is the frames it hands to connections; at the end, the
    handlers that take several locks are cut into their sections. *)

From S2P Require Import Prelude Serialization Crypto Transaction UTXO Ownership Coinbase.
From S2P Require Import Consensus Block NetworkParams ChainValidator ChainWork Mempool.
From S2P Require Import BlockBuilder ChainReplacement MempoolReorg Storage Node.
From S2P Require Import P2PWire P2PStream PeerManager RelayWire.
From stdpp Require Import options.
Local Open Scope Z_scope.

(** ** State *)

Record PendingChainSync := mkPending {
  session_id : P2PSyncSessionId;
  pending_headers : list BlockHeader;
  pending_blocks : list Block;
  received : list bool
}.
#[global] Instance PendingChainSync_eq_dec : EqDecision PendingChainSync.
Proof. solve_decision. Defined.

Record P2PRelay := mkRelay {
  node_ : CaesarNode;
  peers : P2PPeerManager; (* server_.peers() *)
  pending_chain_syncs_ : gmap Z PendingChainSync;
  active_readers_ : gset Z;
  relay_running_ : bool;
  link_ : Script (* the outcomes of the sends to come *)
}.

Definition set_node (n : CaesarNode) (w : P2PRelay) : P2PRelay :=
  mkRelay n (peers w) (pending_chain_syncs_ w) (active_readers_ w) (relay_running_ w) (link_ w).
Definition set_manager (m : P2PPeerManager) (w : P2PRelay) : P2PRelay :=
  mkRelay (node_ w) m (pending_chain_syncs_ w) (active_readers_ w) (relay_running_ w) (link_ w).
Definition set_pending (p : gmap Z PendingChainSync) (w : P2PRelay) : P2PRelay :=
  mkRelay (node_ w) (peers w) p (active_readers_ w) (relay_running_ w) (link_ w).
Definition set_readers (r : gset Z) (w : P2PRelay) : P2PRelay :=
  mkRelay (node_ w) (peers w) (pending_chain_syncs_ w) r (relay_running_ w) (link_ w).
Definition set_relay_running (b : bool) (w : P2PRelay) : P2PRelay :=
  mkRelay (node_ w) (peers w) (pending_chain_syncs_ w) (active_readers_ w) b (link_ w).
Definition set_link (s : Script) (w : P2PRelay) : P2PRelay :=
  mkRelay (node_ w) (peers w) (pending_chain_syncs_ w) (active_readers_ w) (relay_running_ w) s.

(** ** Operations *)

Abbreviation relay_op := (op P2PRelay Sent).

(** A call of the sending layer: it consumes outcomes of the script. *)
Definition sending (f : Script -> P2PPeerManager -> result unit * list Sent * Script) : relay_op unit :=
  fun w => let '(r, out, s) := f (link_ w) (peers w) in (r, set_link s w, out).
(** [connection->send_frame(frame)]. *)
Definition send_on (c : P2PConnection) (f : P2PFrame) : relay_op unit :=
  sending (fun s _ => send_frame_on s c f).
(** [server_.peers().send_to(id, frame)]. *)
Definition send_peer (id : Z) (f : P2PFrame) : relay_op unit := sending (fun s m => send_to s id f m).
(** The loop [for (...) f(x);] of statements. *)
Fixpoint for_each {A} (l : list A) (f : A -> relay_op unit) : relay_op unit :=
  match l with
  | [] => mret tt
  | a :: l => _ ← f a; for_each l f
  end.
(** [auto connection = peers().connection(id); if (!connection) return;] *)
Definition with_connection (id : Z) (k : P2PConnection -> relay_op unit) : relay_op unit :=
  asking (fun w => match connection (peers w) id with None => mret tt | Some c => k c end).

(** A call of the node that does not announce anything. *)
Definition in_node {A} (m : node_op A) : relay_op A := fun w =>
  let '(r, n, _) := m (node_ w) in (r, set_node n w, []).
Definition storage_load {ssl : OpenSSL} : relay_op (list Block) :=
  reading (fun w => load (storage_ (node_ w))).
Definition has_storage (w : P2PRelay) : bool := storage_exists (storage_ (node_ w)).

Section Relay.
Context {ssl : OpenSSL} {iter : UnorderedMap} {order : PeerOrder} {inet : Inet}.

(** ** Announcements *)

Definition announce_block (block : Block) : relay_op unit :=
  f ← reading (fun _ => make_blocks_frame block); sending (fun s m => broadcast s f m).
Definition announce_transaction (tx : Transaction) : relay_op unit :=
  f ← reading (fun _ => make_transaction_frame tx); sending (fun s m => broadcast s f m).

Definition send_ping (id nonce : Z) : relay_op unit :=
  send_peer id (mkFrame P2PMessageType.Ping (P2PPing.serialize_binary (P2PPing.mk nonce))).
Definition send_get_mempool (id : Z) : relay_op unit :=
  send_peer id (mkFrame P2PMessageType.GetMempool []).
Definition send_get_transaction (id : Z) (id_tx : Hash256) : relay_op unit :=
  send_peer id (mkFrame P2PMessageType.GetTransaction (hash_bytes id_tx)).

(** The locator of the node, cut to what a request may carry. *)
Definition send_get_headers (id : Z) (locator : list Hash256) : relay_op unit :=
  with_connection id (fun c =>
    let use := if bool_decide (locator = []) then [zero_hash] else locator in
    let use := take (Z.to_nat MAX_LOCATORS) use in
    catching (f ← reading (fun _ => make_get_headers_frame use); send_on c f) (fun _ => mret tt)).

(** ** Requests *)

(** The pieces of at most [max_batch] elements. *)
Definition batches {A} (l : list A) : list (list A) :=
  let n := Z.to_nat max_batch in
  (fun k => take n (drop (k * n) l)) <$> seq 0 ((length l + n - 1) / n).

Definition request_blocks (id : Z) (block_hashes : list Hash256) : relay_op unit :=
  if bool_decide (block_hashes = []) then mret tt
  else with_connection id (fun c =>
    for_each (batches block_hashes) (fun batch =>
      f ← reading (fun _ => make_get_blocks_frame batch); send_on c f)).

Definition request_sync_blocks (id : Z) (session : P2PSyncSessionId) (block_hashes : list Hash256)
    : relay_op unit :=
  if bool_decide (block_hashes = []) then mret tt
  else asking (fun w =>
    match connection (peers w) id with
    | None => throw "peer disconnected before sync block request"
    | Some c =>
        for_each (batches block_hashes) (fun batch =>
          p ← reading (fun _ =>
            GetSyncBlocksMessage.serialize_binary (GetSyncBlocksMessage.mk session batch));
          send_on c (mkFrame P2PMessageType.GetSyncBlocks p))
    end).

(** The locator loop: the ten last blocks, then steps that double. *)
Fixpoint locators_loop (fuel : nat) (chain : list Block) (index step : Z) (locators : list Hash256)
    : list Hash256 :=
  match fuel with
  | O => locators
  | S fuel =>
      match chain !! Z.to_nat index with
      | None => locators
      | Some b =>
          let locators := locators ++ [block_hash b] in
          if (index =? 0) || (sizeZ locators =? MAX_LOCATORS) then locators
          else
            let next_index := if step <? index then index - step else 0 in
            let step :=
              if (10 <=? sizeZ locators) && (step <=? UINT64_MAX / 2) then step * 2 else step in
            locators_loop fuel chain next_index step locators
      end
  end.
Definition chain_locators (chain : list Block) : list Hash256 :=
  locators_loop 32 chain (sizeZ chain - 1) 1 [].

Definition request_headers (id : Z) : relay_op unit :=
  with_connection id (fun c => asking (fun w =>
    if negb (has_storage w) then mret tt
    else
      chain ← storage_load;
      if bool_decide (chain = []) then mret tt
      else f ← reading (fun _ => make_get_headers_frame (chain_locators chain)); send_on c f)).

(** ** Answers *)

(** [std::map<Hash256, std::size_t>]; [emplace] keeps the first index. *)
Definition chain_index (chain : list Block) : gmap Hash256 nat :=
  foldl (fun m ib => match m !! block_hash ib.2 with Some _ => m | None => <[block_hash ib.2 := ib.1]> m end)
    ∅ (imap pair chain).

Fixpoint first_known (index : gmap Hash256 nat) (locators : list Hash256) : option nat :=
  match locators with
  | [] => None
  | h :: locators =>
      match index !! h with Some i => Some i | None => first_known index locators end
  end.

Definition handle_get_headers (id : Z) (p : bytes) : relay_op unit :=
  locators ← reading (fun _ => parse_get_headers_payload p);
  asking (fun w =>
    if negb (has_storage w) then mret tt
    else
      chain ← storage_load;
      if bool_decide (chain = []) then mret tt
      else
        let headers :=
          match first_known (chain_index chain) locators with
          | None => []
          | Some i => take (Z.to_nat MAX_HEADERS) (drop (S i) chain)
          end in
        with_connection id (fun c => send_on c (make_headers_frame (header <$> headers)))).

Definition handle_get_blocks (id : Z) (p : bytes) : relay_op unit :=
  requested ← reading (fun _ => parse_get_blocks_payload p);
  asking (fun w =>
    if negb (has_storage w) then mret tt
    else
      chain ← storage_load;
      if bool_decide (chain = []) then mret tt
      else
        let index := chain_index chain in
        let blocks := omap (fun h => (i ← index !! h; chain !! i) : option Block) requested in
        if bool_decide (blocks = []) then mret tt
        else
          f ← reading (fun _ => make_requested_blocks_frame blocks);
          with_connection id (fun c => send_on c f)).

Definition send_sync_blocks (c : P2PConnection) (m : SyncBlocksMessage.t) : relay_op unit :=
  p ← reading (fun _ => SyncBlocksMessage.serialize_binary m);
  send_on c (mkFrame P2PMessageType.SyncBlocks p).

(** The loop that fills responses; [blocks] is what the current one holds. *)
Fixpoint sync_response_loop (c : P2PConnection) (session : P2PSyncSessionId) (requested : list Block)
    (blocks : list bytes) : relay_op unit :=
  match requested with
  | [] =>
      if bool_decide (blocks = []) then mret tt
      else send_sync_blocks c (SyncBlocksMessage.mk session blocks)
  | block :: requested =>
      encoded ← reading (fun _ => block_serialize_full_binary block);
      _ ← require_op (negb (bool_decide (encoded = []) || (CZR_P2P_MAX_PAYLOAD <? sizeZ encoded)))
            "sync block exceeds payload limit";
      let next_size := 16 + 4 + (sizeZ blocks + 1) * 4 + sizeZ encoded in
      if CZR_P2P_MAX_PAYLOAD <? next_size then
        if bool_decide (blocks = []) then sync_response_loop c session requested blocks
        else
          _ ← send_sync_blocks c (SyncBlocksMessage.mk session blocks);
          sync_response_loop c session requested [encoded]
      else sync_response_loop c session requested (blocks ++ [encoded])
  end.

Definition handle_get_sync_blocks (id : Z) (p : bytes) : relay_op unit :=
  request ← reading (fun _ => GetSyncBlocksMessage.deserialize_binary p);
  let session := GetSyncBlocksMessage.session_id request in
  with_connection id (fun c => asking (fun w =>
    if negb (has_storage w) then send_sync_blocks c (SyncBlocksMessage.mk session [])
    else
      chain ← storage_load;
      let index := chain_index chain in
      match mapM (fun h => (i ← index !! h; chain !! i) : option Block)
              (GetSyncBlocksMessage.block_hashes request) with
      | None => send_sync_blocks c (SyncBlocksMessage.mk session [])
      | Some requested => sync_response_loop c session requested []
      end)).

(** ** Headers from a peer *)

(** The loop that links the headers; the messages differ by branch. *)
Fixpoint check_header_links (bad_height bad_link : string) (headers : list BlockHeader)
    (previous : Hash256) (expected_height : Z) : result (list Hash256) :=
  match headers with
  | [] => Ok []
  | h :: headers =>
      throw_if (negb (height h =? expected_height)) bad_height ;;
      throw_if (negb (hash_eqb (previous_hash h) previous)) bad_link ;;
      hs ← check_header_links bad_height bad_link headers (header_hash h) (u64 (expected_height + 1));
      Ok (header_hash h :: hs)
  end.

(** Four 32-bit numbers of [std::random_device]. *)
Definition make_sync_session_id (rd : Z * Z * Z * Z) : P2PSyncSessionId :=
  let '(r0, r1, r2, r3) := rd in
  let high := Z.lor (Z.shiftl r0 32) r1 in
  let low := Z.lor (Z.shiftl r2 32) r3 in
  if (high =? 0) && (low =? 0) then mkSession high 1 else mkSession high low.

Definition default_block : Block := mkBlock default_header [].

(** Remove the session of this peer, if it is still this one. *)
Definition clear_pending_session (id : Z) (session : P2PSyncSessionId) : relay_op unit :=
  update (fun w =>
    match pending_chain_syncs_ w !! id with
    | Some p =>
        if bool_decide (session_id p = session) then set_pending (delete id (pending_chain_syncs_ w)) w
        else w
    | None => w
    end).

(** Under the mutex of the sessions; [false] when the peer has one. *)
Definition open_session (id : Z) (session : P2PSyncSessionId) (headers : list BlockHeader) : relay_op bool :=
  asking (fun w =>
    match pending_chain_syncs_ w !! id with
    | Some _ => mret false
    | None =>
        let n := length headers in
        let pending := mkPending session headers (replicate n default_block) (replicate n false) in
        _ ← update (fun w => set_pending (<[id := pending]> (pending_chain_syncs_ w)) w);
        mret true
    end).

Definition start_fork_sync (id : Z) (session : P2PSyncSessionId) (headers : list BlockHeader)
    (block_hashes : list Hash256) : relay_op unit :=
  opened ← open_session id session headers;
  if (opened : bool) then
    catching (request_sync_blocks id session block_hashes)
      (fun e => _ ← clear_pending_session id session; throw e)
  else mret tt.

(** The section under the storage mutex: whether the headers extend the tip,
    and their hashes. *)
Definition classify_headers (first : BlockHeader) (headers : list BlockHeader)
    : relay_op (bool * list Hash256) :=
  asking (fun w =>
    if negb (has_storage w) then throw "cannot process headers without local chain"
    else
      chain ← storage_load;
      match last chain with
      | None => throw "cannot process headers on empty chain"
      | Some tip =>
          if hash_eqb (previous_hash first) (block_hash tip) then
            hs ← reading (fun _ => check_header_links "received header height is not sequential"
              "received header does not extend local tip" headers (block_hash tip)
              (u64 (height (header tip) + 1)));
            mret (true, hs)
          else
            _ ← require_op (existsb (fun b => hash_eqb (block_hash b) (previous_hash first)) chain)
                  "received fork has no known common ancestor";
            hs ← reading (fun _ => check_header_links "received fork header height is not sequential"
              "received fork header does not link sequentially" headers (previous_hash first)
              (height first));
            mret (false, hs)
      end).

Definition handle_headers (rd : Z * Z * Z * Z) (id : Z) (p : bytes) : relay_op unit :=
  headers ← reading (fun _ => parse_headers_payload p);
  match headers with
  | [] => mret tt
  | first :: _ =>
      '(direct_extension, hs) ← classify_headers first headers;
      if (direct_extension : bool) then request_blocks id hs
      else start_fork_sync id (make_sync_session_id rd) headers hs
  end.

(** ** Blocks of a fork *)

(** The loop over the received blocks; what was filed before an exception
    stays filed. *)
Fixpoint receive_sync_blocks (encs : list bytes) (p : PendingChainSync) : result unit * PendingChainSync :=
  match encs with
  | [] => (Ok tt, p)
  | encoded :: encs =>
      match block_deserialize_full encoded with
      | Throw e => (Throw e, p)
      | Ok block =>
          match list_find (fun h => header_hash h = block_hash block) (pending_headers p) with
          | None => (Throw "sync block was not requested", p)
          | Some (i, h) =>
              if default false (received p !! i) then (Throw "duplicate sync block", p)
              else if negb (hash_eqb (header_hash (header block)) (header_hash h))
              then (Throw "sync block header mismatch", p)
              else
                receive_sync_blocks encs
                  (mkPending (session_id p) (pending_headers p) (<[i := block]> (pending_blocks p))
                     (<[i := true]> (received p)))
          end
      end
  end.

(** The section under the mutex of the sessions: the blocks are filed, and the
    headers and blocks of a session that is complete come back as a copy. *)
Definition sync_receive (id : Z) (message : SyncBlocksMessage.t)
    : relay_op (option (list BlockHeader * list Block)) :=
  asking (fun w =>
    match pending_chain_syncs_ w !! id with
    | None => mret None
    | Some pending =>
        if negb (bool_decide (session_id pending = SyncBlocksMessage.session_id message)) then mret None
        else if bool_decide (SyncBlocksMessage.blocks message = [])
        then _ ← update (fun w => set_pending (delete id (pending_chain_syncs_ w)) w); mret None
        else
          let '(r, pending) := receive_sync_blocks (SyncBlocksMessage.blocks message) pending in
          _ ← update (fun w => set_pending (<[id := pending]> (pending_chain_syncs_ w)) w);
          _ ← reading (fun _ => r);
          if forallb (fun b => b) (received pending)
          then mret (Some (pending_headers pending, pending_blocks pending))
          else mret None
    end).

(** The section under the storage mutex, and the assembly after it. *)
Definition sync_candidate (headers : list BlockHeader) (blocks : list Block) : relay_op (list Block) :=
  asking (fun w =>
    if negb (has_storage w) then throw "cannot assemble sync candidate without local chain"
    else
      current ← storage_load;
      match assemble_candidate_chain current headers blocks with
      | None => throw "failed to assemble sync candidate"
      | Some candidate => mret candidate
      end).

(** The callback into the node, which takes the node's locks. *)
Definition sync_replace (f : Faults) (candidate : list Block) : relay_op unit :=
  ok ← in_node (replace_chain f candidate);
  require_op ok "sync candidate was rejected".

(** The handler's sections in turn, when no other thread gets in between;
    [run_task] below has them one by one. *)
Definition handle_sync_blocks (f : Faults) (id : Z) (p : bytes) : relay_op unit :=
  message ← reading (fun _ => SyncBlocksMessage.deserialize_binary p);
  let session := SyncBlocksMessage.session_id message in
  complete ← sync_receive id message;
  match complete with
  | None => mret tt
  | Some (headers, blocks) =>
      catching
        (candidate ← sync_candidate headers blocks;
         _ ← sync_replace f candidate;
         clear_pending_session id session)
        (fun e => _ ← clear_pending_session id session; throw e)
  end.

(** ** Relayed blocks *)

(** The variables of the batch loop. *)
Record Batch := mkBatch {
  batch_chain : list Block;
  batch_utxos : UTXOSet;
  batch_issued : Z;
  accepted_blocks : list Block
}.

(** One block of the batch; [continue] keeps the variables as they are. *)
Definition batch_step (s : Batch) (block : Block) : result Batch :=
  ok ← validate_basic block;
  if negb ok then Ok s
  else
    match last (batch_chain s) with
    | None => Ok s
    | Some previous =>
        if negb (height (header block) =? u64 (height (header previous) + 1)) then Ok s
        else if negb (hash_eqb (previous_hash (header block)) (block_hash previous)) then Ok s
        else if timestamp (header block) <? timestamp (header previous) then Ok s
        else if negb (difficulty (header block) =? expected_next_difficulty (batch_chain s)) then Ok s
        else
          match add_coinbase_issuance block (batch_issued s) with
          | None => Ok s
          | Some candidate_total =>
              '(ok, candidate_utxos) ←
                apply_block_transactions_in_place_after_basic_validation block (batch_utxos s);
              if negb ok then Ok s
              else Ok (mkBatch (batch_chain s ++ [block]) candidate_utxos candidate_total
                         (accepted_blocks s ++ [block]))
          end
    end.

(** [total_issued] over the stored chain. *)
Definition stored_issuance (chain : list Block) : result Z :=
  foldM_r (fun total historical =>
      if height (header historical) =? 0 then Ok total
      else
        match add_coinbase_issuance historical total with
        | None => Throw "stored chain has invalid coinbase issuance"
        | Some total => Ok total
        end) 0 chain.

Definition gossip_block (id : Z) (block : Block) : relay_op unit := fun w =>
  match make_blocks_frame block with
  | Throw _ => (Ok tt, w, [])
  | Ok f => let '(out, s) := broadcast_except (link_ w) id f (peers w) in (Ok tt, set_link s w, out)
  end.

(** The section under the storage mutex; the blocks that were accepted. *)
Definition store_batch (f : Faults) (incoming : list Block) : relay_op (list Block) :=
  asking (fun w =>
    if negb (has_storage w) then throw "no local chain"
    else
      chain ← storage_load;
      _ ← require_op (negb (bool_decide (chain = []))) "cannot process blocks on empty chain";
      utxos ← reading (fun _ => rebuild_utxo_set chain);
      total ← reading (fun _ => stored_issuance chain);
      s ← reading (fun _ => foldM_r batch_step (mkBatch chain utxos total []) incoming);
      if bool_decide (accepted_blocks s = []) then mret []
      else
        _ ← in_node (storing (fun d => replace f d (batch_chain s)));
        mret (accepted_blocks s)).

(** The node's callback, under the chain mutex again. *)
Definition invalidate_cache : relay_op unit :=
  in_node (update (fun n => set_cache (chain_cache_ n) false n)).

Definition handle_blocks (f : Faults) (id : Z) (p : bytes) : relay_op unit :=
  incoming ← reading (fun _ => parse_blocks_payload p);
  accepted ← store_batch f incoming;
  if bool_decide (accepted = []) then mret tt
  else _ ← invalidate_cache; for_each accepted (gossip_block id).

(** ** Transactions *)

(** The node's callback: admission, and the broadcast that follows it. *)
Definition transaction_callback (tx : Transaction) : relay_op bool := fun w =>
  let '(sent, w', out) := announce_transaction tx w in
  let relay_ok := match sent with Ok _ => true | Throw _ => false end in
  let '(r, n, ev) := submit_transaction relay_ok tx (node_ w) in
  if bool_decide (ev = []) then (r, set_node n w, []) else (r, set_node n w', out).

Definition handle_transaction (p : bytes) : relay_op unit :=
  if bool_decide (p = []) || (CZR_P2P_MAX_PAYLOAD <? sizeZ p) then mret tt
  else
    catching (tx ← reading (fun _ => tx_deserialize_full p); _ ← transaction_callback tx; mret tt)
      (fun _ => mret tt).

Definition handle_get_mempool (id : Z) (p : bytes) : relay_op unit :=
  _ ← require_op (bool_decide (p = [])) "GetMempool payload must be empty";
  txs ← in_node mempool_transactions;
  for_each txs (fun tx => asking (fun w =>
    if negb (contains (peers w) id) then mret tt
    else f ← reading (fun _ => make_transaction_frame tx); send_peer id f)).

Definition handle_get_transaction (id : Z) (p : bytes) : relay_op unit :=
  _ ← require_op (bool_decide (length p = 32%nat)) "GetTransaction payload must be 32 bytes";
  asking (fun w =>
    match mempool_get (mempool_ (node_ w)) (hash_of_bytes p) with
    | None => mret tt
    | Some tx =>
        if negb (contains (peers w) id) then mret tt
        else f ← reading (fun _ => make_transaction_frame tx); send_peer id f
    end).

(** ** Liveness and discovery *)

Definition handle_ping (id : Z) (p : bytes) : relay_op unit :=
  ping ← reading (fun _ => P2PPing.deserialize_binary p);
  send_peer id (mkFrame P2PMessageType.Pong (P2PPong.serialize_binary (P2PPong.mk (P2PPing.nonce ping)))).

Definition handle_pong (p : bytes) : relay_op unit :=
  _ ← reading (fun _ => P2PPong.deserialize_binary p); mret tt.

Definition handle_get_peers (id : Z) (p : bytes) : relay_op unit :=
  _ ← reading (fun _ => parse_get_peers_payload p);
  with_connection id (fun c => asking (fun w =>
    requester ← reading (fun w => info (peers w) id);
    let others := filter (fun e => ~ (address e = info_address requester /\ port e = info_port requester))
      (peer_endpoints_snapshot (peers w)) in
    f ← reading (fun _ => make_peers_frame (take (Z.to_nat CZR_P2P_MAX_DISCOVERY_PEERS) others));
    send_on c f)).

Definition remembering (es : list P2PPeerEndpoint) : relay_op unit := fun w =>
  let '(r, m) := remember_peer_endpoints es (peers w) in (r, set_manager m w, []).
Definition handle_peers (p : bytes) : relay_op unit :=
  es ← reading (fun _ => parse_peers_payload p);
  remembering es.

(** ** Dispatch *)

Definition handle_frame (f : Faults) (rd : Z * Z * Z * Z) (id : Z) (frame : P2PFrame) : relay_op unit :=
  let p := payload frame in
  match frame_type frame with
  | P2PMessageType.Blocks => handle_blocks f id p
  | P2PMessageType.GetSyncBlocks => handle_get_sync_blocks id p
  | P2PMessageType.SyncBlocks => handle_sync_blocks f id p
  | P2PMessageType.GetBlocks => handle_get_blocks id p
  | P2PMessageType.GetHeaders => handle_get_headers id p
  | P2PMessageType.Headers => handle_headers rd id p
  | P2PMessageType.Transaction => handle_transaction p
  | P2PMessageType.Ping => handle_ping id p
  | P2PMessageType.Pong => handle_pong p
  | P2PMessageType.Reject => mret tt
  | P2PMessageType.GetMempool => handle_get_mempool id p
  | P2PMessageType.GetTransaction => handle_get_transaction id p
  | P2PMessageType.GetPeers => handle_get_peers id p
  | P2PMessageType.Peers => handle_peers p
  | P2PMessageType.Hello => mret tt
  end.

(** ** The handlers section by section

    What a handler that let its lock go has still to do, with its local
    variables. *)

Inductive Task :=
  | TAssemble (id : Z) (session : P2PSyncSessionId) (headers : list BlockHeader) (blocks : list Block)
  | TReplace (id : Z) (session : P2PSyncSessionId) (candidate : list Block)
  | TClear (id : Z) (session : P2PSyncSessionId)
  | TOpen (id : Z) (session : P2PSyncSessionId) (headers : list BlockHeader) (block_hashes : list Hash256)
  | TRequestSync (id : Z) (session : P2PSyncSessionId) (block_hashes : list Hash256)
  | TRequest (id : Z) (block_hashes : list Hash256)
  | TInvalidate (id : Z) (accepted : list Block)
  | TGossip (id : Z) (accepted : list Block).

(** The first section of a handler; the handlers that are not listed have one
    section, or only send after it. *)
Definition begin_frame (f : Faults) (rd : Z * Z * Z * Z) (id : Z) (frame : P2PFrame) : relay_op (list Task) :=
  let p := payload frame in
  match frame_type frame with
  | P2PMessageType.Blocks =>
      incoming ← reading (fun _ => parse_blocks_payload p);
      accepted ← store_batch f incoming;
      mret (if bool_decide (accepted = []) then [] else [TInvalidate id accepted])
  | P2PMessageType.SyncBlocks =>
      message ← reading (fun _ => SyncBlocksMessage.deserialize_binary p);
      complete ← sync_receive id message;
      mret (match complete with
            | None => []
            | Some (headers, blocks) => [TAssemble id (SyncBlocksMessage.session_id message) headers blocks]
            end)
  | P2PMessageType.Headers =>
      headers ← reading (fun _ => parse_headers_payload p);
      match headers with
      | [] => mret []
      | first :: _ =>
          '(direct_extension, hs) ← classify_headers first headers;
          mret (if (direct_extension : bool) then [TRequest id hs]
                else [TOpen id (make_sync_session_id rd) headers hs])
      end
  | _ => _ ← handle_frame f rd id frame; mret []
  end.

(** The next section of a handler in flight, and what is left of it. *)
Definition run_task (f : Faults) (t : Task) : relay_op (list Task) :=
  match t with
  | TAssemble id session headers blocks =>
      catching (candidate ← sync_candidate headers blocks; mret [TReplace id session candidate])
        (fun _ => mret [TClear id session])
  | TReplace id session candidate =>
      catching (_ ← sync_replace f candidate; mret [TClear id session]) (fun _ => mret [TClear id session])
  | TClear id session => _ ← clear_pending_session id session; mret []
  | TOpen id session headers hs =>
      opened ← open_session id session headers;
      mret (if (opened : bool) then [TRequestSync id session hs] else [])
  | TRequestSync id session hs =>
      catching (_ ← request_sync_blocks id session hs; mret []) (fun _ => mret [TClear id session])
  | TRequest id hs => _ ← request_blocks id hs; mret []
  | TInvalidate id accepted => _ ← invalidate_cache; mret [TGossip id accepted]
  | TGossip id accepted => _ ← for_each accepted (gossip_block id); mret []
  end.

(** ** Lifecycle *)

(** [thread_starts] is the outcome of creating the periodic thread. *)
Definition relay_start (thread_starts : bool) : relay_op unit :=
  asking (fun w =>
    if relay_running_ w then mret tt
    else if thread_starts then update (set_relay_running true)
    else throw "thread creation failed").

(** The readers that are joined take themselves out of [active_readers_], see
    [reader_exit]; a reader that ends while the relay is stopped leaves the peer
    table alone. *)
Definition relay_stop : relay_op unit :=
  asking (fun w =>
    if negb (relay_running_ w) then mret tt
    else update (fun w => set_pending ∅ (set_relay_running false w))).

(** One round of the periodic thread. *)
Definition sync_round : relay_op unit :=
  asking (fun w =>
    for_each (list_ids (peers w)) (fun pid => catching (request_headers pid) (fun _ => mret tt))).

(** [false] when the relay is stopped or the peer has a reader. *)
Definition register_reader (id : Z) : relay_op bool :=
  asking (fun w =>
    if negb (relay_running_ w) then mret false
    else if bool_decide (id ∈ active_readers_ w) then mret false
    else _ ← update (set_readers ({[id]} ∪ active_readers_ w)); mret true).

(** The peer manager's callback, up to the start of the reader. *)
Definition on_peer_added (id : Z) : relay_op unit :=
  registered ← register_reader id;
  if (registered : bool) then catching (request_headers id) (fun _ => mret tt) else mret tt.

(** ** The reader of a connection *)

(** [error.find("TCP receive timeout") != npos]; both timeouts of
    [receive_all] say so. *)
Definition is_timeout (e : string) : bool :=
  bool_decide (is_Some (String.index 0 "TCP receive timeout" e)).

(** One turn with what [receive_frame] gave; [false] ends the loop. *)
Definition reader_turn (f : Faults) (rd : Z * Z * Z * Z) (id : Z) (frame : result P2PFrame)
    : relay_op bool :=
  catching
    (frame ← reading (fun _ => frame);
     _ ← handle_frame f rd id frame;
     _ ← update (fun w => set_manager (reward id DEFAULT_REWARD (peers w)) w);
     mret true)
    (fun e => mret (is_timeout e)).

(** The loop on the socket's script; turn [i] meets the faults and the random
    numbers [env i]. *)
Fixpoint reader_loop (fuel i : nat) (env : nat -> Faults * (Z * Z * Z * Z)) (id : Z)
    (evs : list RecvEvent) : relay_op unit :=
  asking (fun w =>
    if negb (relay_running_ w) then mret tt
    else
      match fuel with
      | O => throw "the script of the socket is longer than the fuel"
      | S fuel =>
          let '(frame, evs) := receive_frame evs in
          go_on ← reader_turn (env i).1 (env i).2 id frame;
          if (go_on : bool) then reader_loop fuel (S i) env id evs else mret tt
      end).

Definition reader_exit (id : Z) : relay_op unit :=
  asking (fun w =>
    _ ← update (set_readers (active_readers_ w ∖ {[id]}));
    if negb (relay_running_ w) then mret tt
    else update (fun w => set_manager (remove_peer id (peers w)) w)).

(** A peer that is gone at once leaves the registration behind. *)
Definition reader_thread (fuel : nat) (env : nat -> Faults * (Z * Z * Z * Z)) (id : Z)
    (evs : list RecvEvent) : relay_op unit :=
  with_connection id (fun _ => _ ← reader_loop fuel 0 env id evs; reader_exit id).
End Relay.

(** ** Running operations of the relay *)

Section RelayRun.
Implicit Types (w : P2PRelay).

Lemma run_asking {A B} (k : P2PRelay -> relay_op A) (f : A -> relay_op B) w :
  (asking k ≫= f) w = (k w ≫= f) w.
Proof. done. Qed.
Lemma run_throw {A B} e (f : A -> relay_op B) w : (throw e ≫= f) w = (Throw e, w, []).
Proof. done. Qed.
Lemma run_in_node {A B} (m : node_op A) (f : A -> relay_op B) w :
  (in_node m ≫= f) w =
  match m (node_ w) with
  | (Ok a, n, _) => f a (set_node n w)
  | (Throw e, n, _) => (Throw e, set_node n w, [])
  end.
Proof.
  unfold mbind, op_bind, in_node. destruct (m (node_ w)) as [[[a|] n] ev]; [apply run_nil|done].
Qed.
End RelayRun.
#[global] Hint Rewrite @run_asking @run_throw @run_in_node : run.
