(* ===== verification/RelayFacts.v ===== *)
(** Facts about the relay's handlers: what they leave alone, the batch of
    relayed blocks against one-by-one validation, the sessions of a fork
    synchronisation, and the invariant of the whole, kept by every section of
    every handler; a handler that nothing comes between is a sequence of them. *)

From S2P Require Import Prelude Serialization Crypto Transaction UTXO Ownership Coinbase.
From S2P Require Import Consensus Block NetworkParams ChainValidator ChainWork Mempool.
From S2P Require Import BlockBuilder ChainReplacement MempoolReorg Storage Node.
From S2P Require Import P2PWire P2PStream PeerManager RelayWire Relay.
From stdpp Require Import options.
Local Open Scope Z_scope.

(** ** Operations that only send *)

(** Whatever happens, only the script of the links advances. *)
Definition sends_only {A} (m : relay_op A) : Prop :=
  forall w, exists s, (m w).1.2 = set_link s w.

Lemma set_link_id w : set_link (link_ w) w = w.
Proof. by destruct w. Qed.
Lemma set_link_twice s s' w : set_link s (set_link s' w) = set_link s w.
Proof. done. Qed.

Section SendsOnly.
Context {A B : Type}.

Lemma so_ret (a : A) : sends_only (mret a).
Proof. intros w. exists (link_ w). by rewrite set_link_id. Qed.
Lemma so_throw e : sends_only (throw (A := A) e).
Proof. intros w. exists (link_ w). by rewrite set_link_id. Qed.
Lemma so_reading (f : P2PRelay -> result A) : sends_only (reading f).
Proof. intros w. exists (link_ w). by rewrite set_link_id. Qed.
Lemma so_require c e : sends_only (require_op c e).
Proof. intros w. exists (link_ w). by rewrite set_link_id. Qed.
Lemma so_bind (m : relay_op A) (f : A -> relay_op B) :
  sends_only m -> (forall a, sends_only (f a)) -> sends_only (m ≫= f).
Proof.
  intros Hm Hf w. unfold mbind, op_bind. destruct (Hm w) as [s Hs].
  destruct (m w) as [[[a|e] w1] out]; simpl in Hs; subst; [|by exists s].
  destruct (Hf a (set_link s w)) as [s' Hs']. destruct (f a (set_link s w)) as [[r w2] out'].
  exists s'. exact Hs'.
Qed.
Lemma so_asking (k : P2PRelay -> relay_op A) : (forall w, sends_only (k w)) -> sends_only (asking k).
Proof. intros Hk w. apply Hk. Qed.
Lemma so_catching (m : relay_op A) h :
  sends_only m -> (forall e, sends_only (h e)) -> sends_only (catching m h).
Proof.
  intros Hm Hh w. unfold catching. destruct (Hm w) as [s Hs].
  destruct (m w) as [[[a|e] w1] out]; simpl in Hs; subst; [by exists s|].
  destruct (Hh e (set_link s w)) as [s' Hs']. destruct (h e (set_link s w)) as [[r w2] out'].
  exists s'. exact Hs'.
Qed.
Lemma so_sending f : sends_only (sending f).
Proof. intros w. unfold sending. destruct (f _ _) as [[r out] s]. by exists s. Qed.
Lemma so_for_each (l : list A) (f : A -> relay_op unit) :
  (forall a, sends_only (f a)) -> sends_only (for_each l f).
Proof.
  intros Hf w. revert w. induction l as [|a l IH]; intros w; simpl; [exists (link_ w); by rewrite set_link_id|].
  unfold mbind, op_bind. destruct (Hf a w) as [s Hs].
  destruct (f a w) as [[[[]|e] w1] out]; simpl in Hs; subst; [|by exists s].
  destruct (IH (set_link s w)) as [s' Hs']. destruct (for_each l f (set_link s w)) as [[r w2] out'].
  exists s'. exact Hs'.
Qed.
Lemma so_connection id (k : P2PConnection -> relay_op unit) :
  (forall c, sends_only (k c)) -> sends_only (with_connection id k).
Proof.
  intros Hk w. unfold with_connection, asking. destruct (connection _ id); [apply Hk|].
  exists (link_ w). by rewrite set_link_id.
Qed.
Lemma so_node (m : node_op A) : (forall n, (m n).1.2 = n) -> sends_only (in_node m).
Proof.
  intros Hm w. exists (link_ w). unfold in_node. specialize (Hm (node_ w)).
  destruct (m (node_ w)) as [[r n] ev]. simpl in *. subst. by destruct w.
Qed.
End SendsOnly.

#[export] Hint Resolve so_ret so_throw so_reading so_require so_sending : caesar.
Ltac sends_only_step :=
  match goal with
  | |- sends_only (mbind _ _) => apply so_bind; [|intros ?]
  | |- sends_only (asking _) => apply so_asking; intros ?
  | |- sends_only (catching _ _) => apply so_catching; [|intros ?]
  | |- sends_only (for_each _ _) => apply so_for_each; intros ?
  | |- sends_only (with_connection _ _) => apply so_connection; intros ?
  | |- sends_only (if ?b then _ else _) => destruct b
  | |- sends_only (match ?x with _ => _ end) => destruct x
  | |- sends_only _ => solve [auto with caesar]
  end.
Ltac sends_only := repeat sends_only_step.

Section Handlers.
Context {ssl : OpenSSL} {iter : UnorderedMap} {order : PeerOrder} {inet : Inet}.

Lemma so_send_on c f : sends_only (send_on c f).
Proof. apply so_sending. Qed.
Lemma so_send_peer id f : sends_only (send_peer id f).
Proof. apply so_sending. Qed.
Hint Resolve so_send_on so_send_peer : caesar.
Lemma so_gossip id b : sends_only (gossip_block id b).
Proof.
  intros w. unfold gossip_block. destruct (make_blocks_frame b); [|exists (link_ w); by rewrite set_link_id].
  destruct (broadcast_except _ _ _ _) as [out s]. by exists s.
Qed.
Lemma so_request_headers id : sends_only (request_headers id).
Proof. unfold request_headers, storage_load. sends_only. Qed.
Lemma so_request_blocks id hs : sends_only (request_blocks id hs).
Proof. unfold request_blocks. sends_only. Qed.
Lemma so_request_sync_blocks id s hs : sends_only (request_sync_blocks id s hs).
Proof. unfold request_sync_blocks. sends_only. Qed.
Lemma so_send_get_headers id l : sends_only (send_get_headers id l).
Proof. unfold send_get_headers. sends_only. Qed.
Lemma so_get_headers id p : sends_only (handle_get_headers id p).
Proof. unfold handle_get_headers, storage_load. sends_only. Qed.
Lemma so_get_blocks id p : sends_only (handle_get_blocks id p).
Proof. unfold handle_get_blocks, storage_load. sends_only. Qed.
Lemma so_send_sync c m : sends_only (send_sync_blocks c m).
Proof. unfold send_sync_blocks. sends_only. Qed.
Hint Resolve so_send_sync : caesar.
Lemma so_sync_response c s bs acc : sends_only (sync_response_loop c s bs acc).
Proof. revert acc. induction bs; intros acc; simpl; sends_only; auto. Qed.
Hint Resolve so_sync_response : caesar.
Lemma so_get_sync_blocks id p : sends_only (handle_get_sync_blocks id p).
Proof. unfold handle_get_sync_blocks, storage_load. sends_only. Qed.
Lemma so_get_mempool id p : sends_only (handle_get_mempool id p).
Proof. unfold handle_get_mempool. sends_only. by apply so_node. Qed.
Lemma so_get_transaction id p : sends_only (handle_get_transaction id p).
Proof. unfold handle_get_transaction. sends_only. Qed.
Lemma so_ping id p : sends_only (handle_ping id p).
Proof. unfold handle_ping. sends_only. Qed.
Lemma so_pong p : sends_only (handle_pong p).
Proof. unfold handle_pong. sends_only. Qed.
Lemma so_get_peers id p : sends_only (handle_get_peers id p).
Proof. unfold handle_get_peers. sends_only. Qed.
End Handlers.
#[export] Hint Resolve so_send_on so_send_peer so_gossip so_request_headers so_request_blocks
  so_request_sync_blocks so_send_get_headers so_get_headers so_get_blocks so_send_sync so_sync_response
  so_get_sync_blocks so_get_mempool so_get_transaction so_ping so_pong so_get_peers : caesar.

(** ** The batch of relayed blocks *)

Section BatchFacts.
Context {ssl : OpenSSL}.
Implicit Types (c : list Block) (r : ChainValidationResult).

(** The specification: each block in turn extends the chain, or is passed over
    because it does not. *)
Inductive absorbs : list Block -> ChainValidationResult -> list Block -> list Block ->
    ChainValidationResult -> Prop :=
  | absorbs_nil c r : absorbs c r [] [] r
  | absorbs_take c r b r1 bs acc r' :
      extends c r b r1 -> absorbs (c ++ [b]) r1 bs acc r' -> absorbs c r (b :: bs) (b :: acc) r'
  | absorbs_skip c r b bs acc r' :
      (forall r1, ~ extends c r b r1) -> absorbs c r bs acc r' -> absorbs c r (b :: bs) acc r'.

Lemma absorbs_valid c r bs acc r' :
  absorbs c r bs acc r' -> valid_chain c r -> valid_chain (c ++ acc) r'.
Proof.
  induction 1 as [c r|c r b r1 bs acc r' He Hb IH|c r b bs acc r' Hn Hb IH]; intros Hc.
  - by rewrite app_nil_r.
  - rewrite (cons_middle b c acc), app_assoc. apply IH. by eapply valid_extend.
  - by apply IH.
Qed.
Lemma absorbs_sublist c r bs acc r' : absorbs c r bs acc r' -> acc `sublist_of` bs.
Proof. induction 1; [constructor|by constructor|by constructor]. Qed.

Lemma batch_step_spec c r acc b :
  valid_chain c r -> block_full_ok b ->
  (exists r', extends c r b r' /\
     batch_step (mkBatch c (utxo r) (total_issued r) acc) b =
       Ok (mkBatch (c ++ [b]) (utxo r') (total_issued r') (acc ++ [b]))) \/
  ((forall r', ~ extends c r b r') /\
   batch_step (mkBatch c (utxo r) (total_issued r) acc) b =
     Ok (mkBatch c (utxo r) (total_issued r) acc)).
Proof.
  intros Hc Hb. unfold batch_step. cbn [batch_chain batch_utxos batch_issued accepted_blocks].
  destruct (validate_basic_returns b Hb) as [ok Hok]. rewrite Hok. cbn [mbind result_bind].
  destruct ok; cbn [negb]; [|right; split; [|done]; intros r' []; congruence].
  destruct (last c) as [p|] eqn:Hp;
    [|apply last_None in Hp; by apply valid_chain_nonempty in Hc].
  destruct (height _ =? _) eqn:E1; cbn [negb]; zbool;
    [|right; split; [|done]; intros r' [_ (p' & ? & ? & _) _ _ _]; by simplify_eq].
  unfold hash_eqb. case_bool_decide as E2; cbn [negb];
    [|right; split; [|done]; intros r' [_ (p' & ? & _ & ? & _) _ _ _]; by simplify_eq].
  destruct (_ <? timestamp _) eqn:E3; zbool;
    [right; split; [|done]; intros r' [_ (p' & ? & _ & _ & ?) _ _ _]; simplify_eq; lia|].
  destruct (difficulty _ =? _) eqn:E4; cbn [negb]; zbool;
    [|right; split; [|done]; intros r' []; done].
  destruct (add_coinbase_issuance b _) as [t|] eqn:E5;
    [|right; split; [|done]; intros r' []; congruence].
  destruct (apply_block_returns b (utxo r) Hb) as [[ok u] E6]. rewrite E6. cbn [mbind result_bind].
  destruct ok; cbn [negb]; [|right; split; [|done]; intros r' []; congruence].
  left. exists (mkValidation u t). split; [|done]. split; try done. eauto.
Qed.

Lemma batch_absorbs c r bs acc :
  valid_chain c r -> Forall block_full_ok bs ->
  exists new r', absorbs c r bs new r' /\
    foldM_r batch_step (mkBatch c (utxo r) (total_issued r) acc) bs =
      Ok (mkBatch (c ++ new) (utxo r') (total_issued r') (acc ++ new)).
Proof.
  intros Hc Hb. revert c r acc Hc. induction Hb as [|b bs Hb Hbs IH]; intros c r acc Hc.
  - exists [], r. rewrite !app_nil_r. split; [constructor|done].
  - cbn [foldM_r]. destruct (batch_step_spec c r acc b Hc Hb) as [(r1 & He & ->)|[Hn ->]];
      cbn [mbind result_bind].
    + destruct (IH (c ++ [b]) r1 (acc ++ [b])) as (new & r' & Ha & ->); [by eapply valid_extend|].
      exists (b :: new), r'. rewrite <- !app_assoc. split; [by eapply absorbs_take|done].
    + destruct (IH c r acc Hc) as (new & r' & Ha & ->). exists new, r'.
      split; [by apply absorbs_skip|done].
Qed.

(** The specification is deterministic, so the batch is exactly it. *)
Lemma extends_functional c r b r1 r2 : extends c r b r1 -> extends c r b r2 -> r1 = r2.
Proof. intros [_ _ _ Hi1 Ha1] [_ _ _ Hi2 Ha2]. destruct r1, r2. simpl in *. congruence. Qed.
Lemma absorbs_functional c r bs acc1 r1 acc2 r2 :
  absorbs c r bs acc1 r1 -> absorbs c r bs acc2 r2 -> acc1 = acc2 /\ r1 = r2.
Proof.
  intros H. revert acc2 r2. induction H as [c r|c r b r1 bs acc r' He Hb IH|c r b bs acc r' Hn Hb IH];
    intros acc2 r2 H2;
    inversion H2 as [|c0 r0 b0 r3 bs0 acc3 r4 He' Hb'|c0 r0 b0 bs0 acc3 r4 Hn' Hb']; subst;
    [done| |by destruct (Hn' r1)|by destruct (Hn r3)|by apply IH].
  rewrite (extends_functional _ _ _ _ _ He' He) in Hb'. destruct (IH acc3 r2 Hb') as [-> ->]. done.
Qed.

(** A linked extension is absorbed whole. *)
Lemma absorbs_all c r ext r' :
  c <> [] -> valid_chain c r -> valid_chain (c ++ ext) r' -> absorbs c r ext ext r'.
Proof.
  revert c r. induction ext as [|b ext IH]; intros c r Hne Hc Hv.
  - rewrite app_nil_r in Hv. rewrite (valid_chain_functional _ _ _ Hv Hc). constructor.
  - rewrite (cons_middle b c ext), app_assoc in Hv.
    destruct (valid_chain_prefix (c ++ [b]) ext r') as [r1 H1]; [by destruct c|done|].
    pose proof (valid_chain_snoc_inv c b r1 Hne H1) as (r0 & H0 & He).
    rewrite (valid_chain_functional _ _ _ H0 Hc) in He.
    eapply absorbs_take; [exact He|]. apply IH; [by destruct c|done|done].
Qed.

(** The running total of the loop is the total of validation. *)
Lemma issuance_loop c t t' :
  foldl (fun acc previous =>
      total ← acc;
      if height (header previous) =? 0 then Some total else add_coinbase_issuance previous total)
    (Some t) c = Some t' ->
  foldM_r (fun total historical =>
      if height (header historical) =? 0 then Ok total
      else
        match add_coinbase_issuance historical total with
        | None => Throw "stored chain has invalid coinbase issuance"
        | Some total => Ok total
        end) t c = Ok t'.
Proof.
  revert t. induction c as [|b c IH]; intros t; cbn [foldl foldM_r]; [by intros [= ->]|].
  cbn [mbind option_bind]. destruct (height _ =? 0); cbn [mbind result_bind]; [apply IH|].
  destruct (add_coinbase_issuance b t); cbn [mbind result_bind]; [apply IH|].
  intros H. exfalso. clear IH. induction c as [|b' c IH]; [done|]. by apply IH.
Qed.
Lemma stored_issuance_valid c r : valid_chain c r -> stored_issuance c = Ok (total_issued r).
Proof. intros Hc. by apply issuance_loop, issuance_fold. Qed.
End BatchFacts.

(** ** The chain of the node, whatever its pool *)

Section ChainInvariant.
Context {ssl : OpenSSL} {iter : UnorderedMap}.

Record chain_inv (n : CaesarNode) (c : list Block) (r : ChainValidationResult) : Prop := {
  ci_load : load (storage_ n) = Ok c;
  ci_valid : valid_chain c r;
  ci_cache : chain_cache_valid_ n = true -> chain_cache_ n = c
}.

Lemma chain_inv_node n c r : node_inv n c r -> chain_inv n c r.
Proof. intros []. by split. Qed.
Lemma chain_inv_stored n c r : chain_inv n c r -> stored n c r.
Proof. intros []. by split. Qed.
Lemma stored_chain_inv n c r : stored n c r -> cache_ok n c -> chain_inv n c r.
Proof. intros []. by split. Qed.

Lemma chain_inv_size n c r : chain_inv n c r -> sizeZ c <= UINT64_MAX.
Proof.
  intros H. apply ci_load, load_spec in H as (_ & [_ Hs] & _). unfold MAX_BLOCKS in Hs. ints.
Qed.
Lemma chain_inv_storable n c r : chain_inv n c r -> storable c.
Proof. intros H. by apply ci_load, load_spec in H as (_ & Hs & _). Qed.
Lemma chain_inv_exists n c r : chain_inv n c r -> storage_exists (storage_ n) = true.
Proof.
  intros H. apply ci_load, load_spec in H as (Hc & _). unfold storage_exists.
  apply bool_decide_eq_true_2. rewrite Hc. eauto.
Qed.
Lemma chain_inv_rebuild n c r : chain_inv n c r -> rebuild_utxo_set c = Ok (utxo r).
Proof. intros H. apply rebuild_utxo_set_spec, H. Qed.
End ChainInvariant.

(** ** Relayed blocks *)

Section RelayedBlocks.
Context {ssl : OpenSSL} {iter : UnorderedMap} {order : PeerOrder} {inet : Inet}.
Implicit Types (w : P2PRelay).

Lemma relayable_storable b : relayable b -> storable_block b.
Proof.
  intros [Hb Hs]. split; [done|]. unfold CZR_P2P_MAX_PAYLOAD, MAX_BLOCK_BYTES in *. lia.
Qed.

Lemma absorbs_storable c r bs acc r' :
  absorbs c r bs acc r' -> storable c -> Forall relayable bs -> sizeZ c + sizeZ bs <= MAX_BLOCKS ->
  storable (c ++ acc).
Proof.
  intros Ha [Hc Hs] Hb Hn. pose proof (absorbs_sublist _ _ _ _ _ Ha) as Hsub.
  apply sublist_length in Hsub as Hlen. split.
  - apply Forall_app. split; [done|]. eapply Forall_impl; [|apply relayable_storable].
    rewrite Forall_forall in *. intros b Hin. apply Hb. by eapply elem_of_sublist.
  - rewrite sizeZ_app. unfold sizeZ in *. lia.
Qed.

Lemma absorbs_work c r bs acc r' :
  absorbs c r bs acc r' -> valid_chain c r -> sizeZ (c ++ acc) <= UINT64_MAX -> acc <> [] ->
  work c < work (c ++ acc).
Proof.
  intros Ha Hc Hs Hne. pose proof (absorbs_valid _ _ _ _ _ Ha Hc) as Hv.
  pose proof (valid_chain_difficulties _ _ Hv Hs) as Hd. apply Forall_app in Hd as [_ Hd].
  unfold work. rewrite sumZ_app. destruct acc as [|b acc]; [done|].
  apply Forall_cons in Hd as [Hb Hd]. change (sumZ ?f (b :: acc)) with (f b + sumZ f acc).
  assert (0 < 2 ^ difficulty (header b)) by (apply Z.pow_pos_nonneg; lia).
  assert (0 <= sumZ (fun b => 2 ^ difficulty (header b)) acc).
  { apply sumZ_nonneg. eapply Forall_impl; [exact Hd|]. intros x Hx. simpl. lia. }
  simpl. lia.
Qed.

Lemma gossip_returns id bs w : exists s out, for_each bs (gossip_block id) w = (Ok tt, set_link s w, out).
Proof.
  revert w. induction bs as [|b bs IH]; intros w; simpl.
  - exists (link_ w), []. by rewrite set_link_id.
  - unfold mbind, op_bind. unfold gossip_block at 1.
    destruct (make_blocks_frame b) as [f|].
    + destruct (broadcast_except _ _ _ _) as [out s]. destruct (IH (set_link s w)) as (s' & out' & E).
      rewrite E. eauto.
    + destruct (IH w) as (s' & out' & E). rewrite E. eauto.
Qed.

(** The section that stores a batch, when the chain is sound. *)
Lemma store_batch_run f w c r bs new r' :
  stored (node_ w) c r -> Forall block_full_ok bs -> absorbs c r bs new r' ->
  store_batch f bs w =
    if bool_decide (new = []) then (Ok [], w, [])
    else
      match save f (storage_ (node_ w)) (c ++ new) with
      | (Throw e, d) => (Throw e, set_node (set_storage d (node_ w)) w, [])
      | (Ok _, d) => (Ok new, set_node (set_storage d (node_ w)) w, [])
      end.
Proof.
  intros H Hb Ha. unfold store_batch, storage_load, has_storage, asking.
  rewrite (stored_exists _ c r H). cbn [negb]. rewrite run_reading, (st_load _ _ _ H).
  pose proof (st_valid _ _ _ H) as Hv. rewrite run_require.
  rewrite bool_decide_eq_false_2 by (by eapply valid_chain_nonempty). cbn [negb].
  rewrite run_reading, (stored_rebuild _ _ _ H), run_reading, (stored_issuance_valid c r Hv), run_reading.
  destruct (batch_absorbs c r bs [] Hv Hb) as (new' & r1 & Ha' & E).
  destruct (absorbs_functional _ _ _ _ _ _ _ Ha Ha') as [<- <-]. rewrite E. cbn [accepted_blocks batch_chain].
  rewrite app_nil_l. case_bool_decide; [done|]. rewrite run_in_node. unfold storing, replace.
  by destruct (save f _ _) as [[[]|] d].
Qed.

(** The handler, when the payload parses and the chain is sound. *)
Lemma handle_blocks_run f id p w c r bs new r' :
  chain_inv (node_ w) c r -> parse_blocks_payload p = Ok bs -> absorbs c r bs new r' ->
  handle_blocks f id p w =
    if bool_decide (new = []) then (Ok tt, w, [])
    else
      match save f (storage_ (node_ w)) (c ++ new) with
      | (Throw e, d) => (Throw e, set_node (set_storage d (node_ w)) w, [])
      | (Ok _, d) =>
          for_each new (gossip_block id)
            (set_node (set_cache (chain_cache_ (node_ w)) false (set_storage d (node_ w))) w)
      end.
Proof.
  intros H%chain_inv_stored Hp Ha. unfold handle_blocks. rewrite run_reading, Hp.
  apply parse_blocks_spec in Hp as (Hb & _).
  assert (Forall block_full_ok bs) as Hb' by (eapply Forall_impl; [exact Hb|]; by intros b []).
  unfold mbind at 1, op_bind at 1. rewrite (store_batch_run f w c r bs new r' H Hb' Ha).
  case_bool_decide as Hn; [by rewrite bool_decide_eq_true_2|].
  destruct (save f _ _) as [[[]|] d]; [|done]. rewrite bool_decide_eq_false_2 by done.
  unfold invalidate_cache. rewrite run_in_node. cbn [update node_ set_node storage_ set_storage chain_cache_].
  change (chain_cache_ (set_storage d (node_ w))) with (chain_cache_ (node_ w)). by rewrite run_nil.
Qed.
End RelayedBlocks.

(** ** Sessions of a fork synchronisation *)

Section Sessions.
Context {ssl : OpenSSL} {iter : UnorderedMap} {order : PeerOrder} {inet : Inet}.
Implicit Types (w : P2PRelay) (p : PendingChainSync).

(** Headers at consecutive heights, each naming the hash of the one before. *)
Fixpoint header_path (prev : Hash256) (h : Z) (headers : list BlockHeader) : Prop :=
  match headers with
  | [] => True
  | x :: headers =>
      height x = h /\ previous_hash x = prev /\ header_path (header_hash x) (u64 (h + 1)) headers
  end.

Lemma check_links_spec e1 e2 headers prev h hs :
  check_header_links e1 e2 headers prev h = Ok hs <->
  hs = header_hash <$> headers /\ header_path prev h headers.
Proof.
  revert prev h hs. induction headers as [|x headers IH]; intros prev h hs; simpl; [naive_solver|].
  unfold throw_if, hash_eqb. destruct (height x =? h) eqn:E1; cbn [negb mbind result_bind]; zbool; [|naive_solver].
  case_bool_decide as E2; cbn [negb mbind result_bind]; [|naive_solver].
  rewrite bind_Ok. setoid_rewrite IH. naive_solver.
Qed.

Record session_inv p : Prop := {
  se_blocks_len : length (pending_blocks p) = length (pending_headers p);
  se_received_len : length (received p) = length (pending_headers p);
  se_size : 0 < sizeZ (pending_headers p) <= MAX_HEADERS;
  se_headers : Forall header_acceptable (pending_headers p);
  se_path : exists prev h, header_path prev h (pending_headers p);
  se_filed : forall i b h, received p !! i = Some true -> pending_blocks p !! i = Some b ->
    pending_headers p !! i = Some h -> relayable b /\ block_hash b = header_hash h
}.

Lemma new_session_inv session headers prev h :
  Forall header_acceptable headers -> 0 < sizeZ headers <= MAX_HEADERS -> header_path prev h headers ->
  session_inv (mkPending session headers (replicate (length headers) default_block)
                 (replicate (length headers) false)).
Proof.
  intros Hh Hn Hp. split; simpl; rewrite ?length_replicate; try done; [eauto|].
  intros i b x [? _]%lookup_replicate. done.
Qed.

(** Blocks are filed under their headers, and nothing else changes. *)
Lemma receive_sync_blocks_inv encs p r p' :
  session_inv p -> Forall (fun e => sizeZ e <= CZR_P2P_MAX_PAYLOAD) encs ->
  receive_sync_blocks encs p = (r, p') ->
  session_inv p' /\ session_id p' = session_id p /\ pending_headers p' = pending_headers p.
Proof.
  intros H He. revert p H. induction He as [|e encs Hs He IH]; intros p H; simpl; [by intros [= <- <-]|].
  destruct (block_deserialize_full e) as [b|] eqn:Hb; [|by intros [= <- <-]].
  destruct (list_find _ _) as [[i h]|] eqn:Hf; [|by intros [= <- <-]].
  destruct (default false _); [by intros [= <- <-]|].
  destruct (negb _); [by intros [= <- <-]|].
  apply list_find_Some in Hf as (Hi & Hbh & _). apply block_deserialize_full_spec in Hb as [Hb ->].
  set (p1 := mkPending _ _ _ _). assert (session_inv p1) as H1.
  { destruct H as [L1 L2 Hn Hh Hp Hfi]. split; simpl; rewrite ?length_insert; try done.
    intros j b' h' Hr Hbl Hhd. destruct (decide (i = j)) as [->|Hne].
    - rewrite list_lookup_insert_eq in Hbl by (rewrite L1; by eapply lookup_lt_Some).
      simplify_eq. split; [by split|congruence].
    - rewrite list_lookup_insert_ne in Hbl by done. rewrite list_lookup_insert_ne in Hr by done. eauto. }
  intros E. destruct (IH p1 H1 E) as (H2 & E1 & E2). done.
Qed.

(** A complete session has the block of every header. *)
Lemma complete_session p :
  session_inv p -> forallb (fun b => b) (received p) = true ->
  Forall2 (fun h b => relayable b /\ block_hash b = header_hash h) (pending_headers p) (pending_blocks p).
Proof.
  intros H Hall. apply Forall2_same_length_lookup. split; [by rewrite se_blocks_len|].
  intros i h b Hh Hb. assert (is_Some (received p !! i)) as [x Hx].
  { apply lookup_lt_is_Some. rewrite se_received_len by done. by eapply lookup_lt_Some. }
  rewrite forallb_forall in Hall. rewrite (Hall x) in Hx.
  - by eapply se_filed.
  - apply list_elem_of_In. by eapply list_elem_of_lookup_2.
Qed.

Lemma assemble_shape current headers blocks candidate :
  assemble_candidate_chain current headers blocks = Some candidate ->
  exists i, candidate = take (S i) current ++ blocks.
Proof.
  unfold assemble_candidate_chain. destruct headers as [|first headers]; [done|].
  destruct (_ || _); [done|]. case_bool_decide as Hl; cbn [negb]; [|done].
  destruct (find_ancestor _ _ _) as [i|]; [|done]. destruct (current !! i) as [a|]; [|done].
  intros Ha%assemble_loop_spec; [|done]. destruct Ha as (-> & _). eauto.
Qed.

Lemma candidate_storable c headers blocks candidate :
  storable c -> sizeZ c + MAX_HEADERS <= MAX_BLOCKS -> sizeZ headers <= MAX_HEADERS ->
  Forall2 (fun h b => relayable b /\ block_hash b = header_hash h) headers blocks ->
  assemble_candidate_chain c headers blocks = Some candidate -> storable candidate.
Proof.
  intros [Hc Hl] Hn Hh Hf Ha. apply Forall2_length in Hf as Hlen.
  destruct (assemble_shape _ _ _ _ Ha) as [i ->].
  split.
  - apply Forall_app. split; [by apply Forall_take|]. apply Forall_forall. intros b [j Hj]%list_elem_of_lookup.
    eapply Forall2_lookup_r in Hf as (h & _ & Hb & _); [|exact Hj]. by apply relayable_storable.
  - rewrite sizeZ_app. unfold sizeZ in *. rewrite length_take. destruct c; simpl in *; lia.
Qed.

(** *** The invariant *)

Definition sessions_ok w : Prop := map_Forall (fun _ p => session_inv p) (pending_chain_syncs_ w).
Definition sync_room w : Prop :=
  forall c, load (storage_ (node_ w)) = Ok c -> sizeZ c + MAX_HEADERS <= MAX_BLOCKS.

(** Over the stored chain [c], whatever the cache. *)
Record relay_core w (c : list Block) (r : ChainValidationResult) : Prop := {
  rc_stored : stored (node_ w) c r;
  rc_sessions : sessions_ok w;
  rc_peers : manager_inv (peers w)
}.

(** What a handler in flight knows of its local variables. *)
Definition task_ok (t : Task) : Prop :=
  match t with
  | TAssemble _ _ headers blocks =>
      sizeZ headers <= MAX_HEADERS /\
      Forall2 (fun h b => relayable b /\ block_hash b = header_hash h) headers blocks
  | TReplace _ _ candidate => readable_chain candidate
  | TOpen _ _ headers _ =>
      Forall header_acceptable headers /\ 0 < sizeZ headers <= MAX_HEADERS /\
      exists prev h, header_path prev h headers
  | _ => True
  end.
Definition is_invalidate (t : Task) : bool := match t with TInvalidate _ _ => true | _ => false end.
(** No handler has stored a batch and not yet invalidated the cache. *)
Definition quiet (ts : list Task) : Prop := Forall (fun t => is_invalidate t = false) ts.

(** The invariant of the relay and the handlers in flight; [s]: no directory
    sync fails. *)
Record relay_inv (s : bool) (ws : P2PRelay * list Task) (c : list Block) (r : ChainValidationResult) : Prop := {
  ri_core : relay_core ws.1 c r;
  ri_cache : s = true -> quiet ws.2 -> cache_ok (node_ ws.1) c;
  ri_tasks : Forall task_ok ws.2
}.

Lemma relay_core_frame w w' c r :
  relay_core w c r -> node_ w' = node_ w -> sessions_ok w' -> manager_inv (peers w') -> relay_core w' c r.
Proof. intros [H1 _ _] E H2 H3. split; by rewrite ?E. Qed.
Lemma relay_core_node w c r c' r' n s :
  relay_core w c r -> stored n c' r' -> relay_core (set_link s (set_node n w)) c' r'.
Proof. intros [_ H2 H3] H. by split. Qed.

(** *** What one section does *)

Definition tasks_of (res : result (list Task)) : list Task := match res with Ok l => l | Throw _ => [] end.

(** After a section that leaves the tasks [new]; [due]: the section was to
    invalidate the cache. *)
Definition section_ok (s due : bool) w c w' (new : list Task) : Prop :=
  exists c' r', relay_core w' c' r' /\ (c' = c \/ work c < work c') /\ Forall task_ok new /\
    (s = true -> (due = false -> cache_ok (node_ w) c) -> quiet new -> cache_ok (node_ w') c').

Lemma section_frame s w c r w' new :
  relay_core w c r -> node_ w' = node_ w -> sessions_ok w' -> manager_inv (peers w') -> Forall task_ok new ->
  section_ok s false w c w' new.
Proof.
  intros H E H2 H3 Ht. exists c, r. split; [by eapply relay_core_frame|]. split; [by left|].
  split; [done|]. rewrite E. auto.
Qed.
Lemma section_link s w c r l new :
  relay_core w c r -> Forall task_ok new -> section_ok s false w c (set_link l w) new.
Proof. intros H Ht. by eapply section_frame; [exact H|done|apply H|apply H|]. Qed.
Lemma section_id s w c r new : relay_core w c r -> Forall task_ok new -> section_ok s false w c w new.
Proof. intros H Ht. rewrite <- (set_link_id w) at 2. by eapply section_link. Qed.
Lemma section_sessions s w c r ps new :
  relay_core w c r -> map_Forall (fun _ p => session_inv p) ps -> Forall task_ok new ->
  section_ok s false w c (set_pending ps w) new.
Proof. intros H Hp Ht. by eapply section_frame; [exact H|done|exact Hp|apply H|]. Qed.

(** Only sending. *)
Lemma sends_section {A} (m : relay_op A) s w c r res w' out new :
  sends_only m -> relay_core w c r -> m w = (res, w', out) -> Forall task_ok new ->
  section_ok s false w c w' new.
Proof.
  intros Hm H E Ht. destruct (Hm w) as [l Hl]. rewrite E in Hl. simpl in Hl. subst. by eapply section_link.
Qed.

Lemma stored_storable n c r : stored n c r -> storable c.
Proof. intros H. by apply st_load, load_spec in H as (_ & Hs & _). Qed.

Lemma store_batch_ok f id bs s w c r res w' out :
  relay_core w c r -> sync_room w -> (s = true -> fsync_dir_fails f = false) ->
  Forall relayable bs -> sizeZ bs <= max_batch -> store_batch f bs w = (res, w', out) ->
  match res with
  | Ok new => section_ok s false w c w' (if bool_decide (new = []) then [] else [TInvalidate id new])
  | Throw _ => section_ok s false w c w' []
  end.
Proof.
  intros H Hroom Hf Hb Hn. pose proof (rc_stored _ _ _ H) as Hst. pose proof (st_valid _ _ _ Hst) as Hv.
  assert (Forall block_full_ok bs) as Hbf by (eapply Forall_impl; [exact Hb|]; by intros b []).
  destruct (batch_absorbs c r bs [] Hv Hbf) as (new & r' & Ha & _).
  rewrite (store_batch_run f w c r bs new r' Hst Hbf Ha).
  case_bool_decide as Hnew; [intros [= <- <- <-]; by eapply section_id|].
  assert (storable (c ++ new)) as Hs.
  { eapply absorbs_storable; [exact Ha|by eapply stored_storable|done|].
    specialize (Hroom c (st_load _ _ _ Hst)). unfold MAX_HEADERS, max_batch in *. lia. }
  assert (work c < work (c ++ new)) as Hw.
  { eapply absorbs_work; [done..| |done]. destruct Hs as [_ Hs]. unfold MAX_BLOCKS in Hs. ints. }
  pose proof (absorbs_valid _ _ _ _ _ Ha Hv) as Hv'.
  assert (forall d c1 r1, load d = Ok c1 -> valid_chain c1 r1 ->
    relay_core (set_node (set_storage d (node_ w)) w) c1 r1) as Hcore.
  { intros d c1 r1 Hl Hv1. destruct H as [_ H2 H3]. by split; [split|..]. }
  destruct (save f _ _) as [rs d] eqn:Es.
  apply save_outcomes in Es as [[-> Hload]|[[Hne Hload]|(Hne & Hfs & Hload)]]; [| | |by apply storable_readable].
  - intros [= <- <- <-]. rewrite bool_decide_eq_false_2 by done. exists (c ++ new), r'.
    split; [by apply Hcore|]. split; [by right|]. split; [by repeat constructor|].
    intros _ _ Hq. by apply Forall_cons in Hq as [? _].
  - destruct rs as [[]|e]; [done|]. intros [= <- <- <-]. exists c, r. rewrite (st_load _ _ _ Hst) in Hload.
    split; [by apply Hcore|]. split; [by left|]. split; [done|]. by intros _ Hc _; apply Hc.
  - destruct rs as [[]|e]; [done|]. intros [= <- <- <-]. exists (c ++ new), r'.
    split; [by apply Hcore|]. split; [by right|]. split; [done|]. intros Es. rewrite Hf in Hfs; done.
Qed.

Lemma sync_receive_ok id m s w c r res w' out :
  relay_core w c r -> sync_ok m -> sync_receive id m w = (res, w', out) ->
  section_ok s false w c w'
    (match res with
     | Ok (Some (headers, blocks)) => [TAssemble id (SyncBlocksMessage.session_id m) headers blocks]
     | _ => []
     end).
Proof.
  intros H (_ & Hbs & _). pose proof (rc_sessions _ _ _ H) as Hss. unfold sync_receive, asking.
  destruct (pending_chain_syncs_ w !! id) as [p|] eqn:Hp; [|intros [= <- <- <-]; by eapply section_id].
  destruct (negb _); [intros [= <- <- <-]; by eapply section_id|]. case_bool_decide.
  { rewrite run_update. intros [= <- <- <-]. eapply section_sessions; [exact H| |done].
    by apply map_Forall_delete. }
  destruct (receive_sync_blocks _ p) as [rr p'] eqn:Er. apply receive_sync_blocks_inv in Er as (Hp' & Ei & Eh);
    [|by eapply Hss|eapply Forall_impl; [exact Hbs|]; by intros e []].
  rewrite run_update, run_reading.
  assert (map_Forall (fun _ p => session_inv p) (<[id:=p']> (pending_chain_syncs_ w))) as Hss'
    by by apply map_Forall_insert_2.
  destruct rr as [[]|e]; [|intros [= <- <- <-]; by eapply section_sessions].
  destruct (forallb _ _) eqn:Hall; intros [= <- <- <-]; (eapply section_sessions; [done..|]); [|done].
  constructor; [|done]. split; [apply Hp'|by apply complete_session].
Qed.

Lemma classify_ok first headers w c r res w' out :
  relay_core w c r -> classify_headers first headers w = (res, w', out) ->
  w' = w /\ match res with
            | Ok (false, hs) => exists prev h, header_path prev h headers
            | _ => True
            end.
Proof.
  intros H. unfold classify_headers, asking, storage_load. destruct (negb _); [by intros [= <- <- <-]|].
  rewrite run_reading. destruct (load _) as [chain|]; [|by intros [= <- <- <-]].
  destruct (last chain) as [tip|]; [|by intros [= <- <- <-]]. destruct (hash_eqb _ _).
  - rewrite run_reading. destruct (check_header_links _ _ _ _ _) as [hs|]; by intros [= <- <- <-].
  - rewrite run_require. destruct (existsb _ _); [|by intros [= <- <- <-]]. rewrite run_reading.
    destruct (check_header_links _ _ _ _ _) as [hs|] eqn:Hc; [|by intros [= <- <- <-]].
    apply check_links_spec in Hc as [_ Hpath]. intros [= <- <- <-]. eauto.
Qed.

Lemma handle_transaction_ok (pl : bytes) s w c r res w' out :
  relay_core w c r -> handle_transaction pl w = (res, w', out) -> section_ok s false w c w' [].
Proof.
  intros H. unfold handle_transaction. destruct (_ || _); [intros [= <- <- <-]; by eapply section_id|].
  unfold catching. rewrite run_reading.
  destruct (tx_deserialize_full pl) as [tx|]; [|intros [= <- <- <-]; by eapply section_id].
  unfold mbind, op_bind, transaction_callback.
  destruct (announce_transaction tx w) as [[sent w1] out1] eqn:E1.
  assert (exists s, w1 = set_link s w) as [l ->].
  { assert (sends_only (announce_transaction tx)) as Hs by (unfold announce_transaction; sends_only).
    destruct (Hs w) as [l Hs']. rewrite E1 in Hs'. eauto. }
  unfold submit_transaction, mbind, op_bind.
  destruct (accept_transaction _ tx (node_ w)) as [[ra n] ev] eqn:Ea.
  apply (accept_transaction_frame _ _ _ c r) in Ea as [mp ->]; [|apply H].
  assert (forall l', section_ok s false w c (set_link l' (set_node (set_mempool mp (node_ w)) w)) []) as Hi.
  { intros l'. exists c, r. split; [|split; [by left|]; split; [done|]; by intros _ Hc _; apply Hc].
    eapply relay_core_node; [exact H|]. destruct (rc_stored _ _ _ H). by split. }
  pose proof (Hi l) as Hi1. specialize (Hi (link_ w)).
  destruct ra as [reason|e]; simpl; rewrite ?app_nil_r; case_bool_decide; intros [= <- <- <-];
    try exact Hi1; by destruct w.
Qed.

Lemma handle_peers_ok (pl : bytes) s w c r res w' out :
  relay_core w c r -> handle_peers pl w = (res, w', out) -> section_ok s false w c w' [].
Proof.
  intros H. unfold handle_peers. rewrite run_reading.
  destruct (parse_peers_payload pl) as [es|]; [|intros [= <- <- <-]; by eapply section_id]. unfold remembering.
  pose proof (manager_inv_remembers es (peers w) (rc_peers _ _ _ H)) as H4.
  destruct (remember_peer_endpoints es (peers w)) as [rr m]. intros [= <- <- <-].
  by eapply section_frame; [exact H|done|apply H|..].
Qed.

(** The first section of every handler. *)
Lemma begin_frame_ok f rd id frame s w c r res w' out :
  relay_core w c r -> sync_room w -> (s = true -> fsync_dir_fails f = false) ->
  begin_frame f rd id frame w = (res, w', out) -> section_ok s false w c w' (tasks_of res).
Proof.
  intros H Hroom Hf. unfold begin_frame. cbv zeta.
  assert (forall m : relay_op unit, (forall r1 w1 o1, m w = (r1, w1, o1) -> section_ok s false w c w1 []) ->
    (_ ← m; mret []) w = (res, w', out) -> section_ok s false w c w' (tasks_of res)) as Hwhole.
  { intros m Hm. unfold mbind, op_bind. destruct (m w) as [[[[]|e] w1] o1] eqn:E; intros [= <- <- <-]; eauto. }
  assert (forall m : relay_op unit, sends_only m -> (_ ← m; mret []) w = (res, w', out) ->
    section_ok s false w c w' (tasks_of res)) as Hso.
  { intros m Hm. apply Hwhole. intros r1 w1 o1 E. by eapply sends_section. }
  destruct (frame_type frame) eqn:Ht; unfold handle_frame; rewrite ?Ht; try (apply Hso; solve [auto with caesar]).
  - rewrite run_reading. destruct (parse_headers_payload _) as [headers|] eqn:Hp;
      [|intros [= <- <- <-]; by eapply section_id].
    apply parse_headers_spec in Hp as (Hh & Hn & _).
    destruct headers as [|first headers]; [intros [= <- <- <-]; by eapply section_id|].
    unfold mbind, op_bind. destruct (classify_headers _ _ w) as [[rc w1] o1] eqn:E.
    apply (classify_ok _ _ w c r) in E as [-> Hpath]; [|done].
    destruct rc as [[[] hs]|e]; intros [= <- <- <-]; (eapply section_id; [done|]); [by constructor| |done].
    constructor; [|done]. split; [done|]. split; [split; [unfold sizeZ; simpl; lia|done]|done].
  - rewrite run_reading. destruct (parse_blocks_payload _) as [bs|] eqn:Hp;
      [|intros [= <- <- <-]; by eapply section_id].
    apply parse_blocks_spec in Hp as (Hb & Hn & _).
    unfold mbind, op_bind. destruct (store_batch f bs w) as [[rs w1] o1] eqn:E.
    apply (store_batch_ok f id bs s w c r) in E; [|done..|lia].
    destruct rs as [new|e]; intros [= <- <- <-]; exact E.
  - apply Hwhole. intros r1 w1 o1 E. by eapply handle_transaction_ok.
  - rewrite run_reading. destruct (SyncBlocksMessage.deserialize_binary _) as [m|] eqn:Hm;
      [|intros [= <- <- <-]; by eapply section_id].
    assert (sync_ok m) as Hok by exact (proj1 (proj1 (wire_spec m _) Hm)).
    unfold mbind, op_bind. destruct (sync_receive id m w) as [[rc w1] o1] eqn:E.
    apply (sync_receive_ok id m s w c r) in E; [|done..].
    destruct rc as [[[headers blocks]|]|e]; intros [= <- <- <-]; exact E.
  - apply Hwhole. intros r1 w1 o1 E. by eapply handle_peers_ok.
Qed.

(** *** The sections after the first *)

Lemma sync_candidate_ok headers blocks id session s w c r res w' out :
  relay_core w c r -> sync_room w -> task_ok (TAssemble id session headers blocks) ->
  sync_candidate headers blocks w = (res, w', out) ->
  section_ok s false w c w' (match res with Ok candidate => [TReplace id session candidate] | Throw _ => [] end).
Proof.
  intros H Hroom [Hn Hb]. unfold sync_candidate, asking, storage_load.
  destruct (negb _); [intros [= <- <- <-]; by eapply section_id|].
  pose proof (rc_stored _ _ _ H) as Hc. rewrite run_reading, (st_load _ _ _ Hc).
  destruct (assemble_candidate_chain c headers blocks) as [candidate|] eqn:Ha;
    intros [= <- <- <-]; (eapply section_id; [done|]); [|done].
  constructor; [|done]. apply storable_readable.
  apply (candidate_storable c headers blocks); [by eapply stored_storable|by apply Hroom, Hc|done..].
Qed.

Lemma sync_replace_ok f candidate s w c r res w' out :
  relay_core w c r -> readable_chain candidate -> (s = true -> fsync_dir_fails f = false) ->
  sync_replace f candidate w = (res, w', out) -> section_ok s false w c w' [].
Proof.
  intros H Hr Hf. unfold sync_replace. rewrite run_in_node.
  destruct (replace_chain f candidate (node_ w)) as [[rr n'] ev] eqn:Er.
  destruct (replace_chain_outcome f _ c r candidate rr n' ev (rc_stored _ _ _ H) Hr Er) as [Ho _].
  destruct (replaced_stored _ _ _ _ _ _ _ (rc_stored _ _ _ H) Ho) as (c' & r' & H1 & H2 & H3).
  assert (section_ok s false w c (set_node n' w) []) as Hok.
  { exists c', r'. split; [by eapply (relay_core_node w c r c' r' n' (link_ w))|]. split; [done|]. split; [done|].
    intros Es Hc _. apply H3; [by apply Hf|by apply Hc]. }
  destruct rr as [ok|e]; [unfold require_op, reading; cbn|]; by intros [= <- <- <-].
Qed.

Lemma clear_session_ok id session s w c r res w' out :
  relay_core w c r -> clear_pending_session id session w = (res, w', out) -> section_ok s false w c w' [].
Proof.
  intros H. unfold clear_pending_session, update. intros [= <- <- <-].
  destruct (_ !! id) as [p|]; [|by eapply section_id]. case_bool_decide; [|by eapply section_id].
  eapply section_sessions; [exact H| |done]. apply map_Forall_delete, H.
Qed.

Lemma open_session_ok id session headers s w c r res w' out prev h :
  relay_core w c r -> Forall header_acceptable headers -> 0 < sizeZ headers <= MAX_HEADERS ->
  header_path prev h headers -> open_session id session headers w = (res, w', out) ->
  section_ok s false w c w' [].
Proof.
  intros H Hh Hn Hp. unfold open_session, asking.
  destruct (pending_chain_syncs_ w !! id); [intros [= <- <- <-]; by eapply section_id|].
  cbv zeta. rewrite run_update. intros [= <- <- <-]. eapply section_sessions; [exact H| |done].
  apply map_Forall_insert_2; [by eapply new_session_inv|apply H].
Qed.

Lemma section_tasks s w c w' new new' :
  section_ok s false w c w' new -> Forall task_ok new' -> (quiet new' -> quiet new) ->
  section_ok s false w c w' new'.
Proof. intros (c' & r' & H1 & H2 & H3 & H4) Ht Hq. exists c', r'. split_and!; auto. Qed.

Lemma run_task_ok f t s w c r res w' out :
  relay_core w c r -> task_ok t -> sync_room w \/ (forall id ss hs bs, t <> TAssemble id ss hs bs) ->
  (s = true -> fsync_dir_fails f = false) ->
  run_task f t w = (res, w', out) -> section_ok s (is_invalidate t) w c w' (tasks_of res).
Proof.
  intros H Ht Hroom Hf. destruct t as [id session headers blocks|id session candidate|id session
    |id session headers hs|id session hs|id hs|id accepted|id accepted]; cbn [run_task is_invalidate].
  - destruct Hroom as [Hroom|Hno]; [|by destruct (Hno id session headers blocks)].
    unfold catching, mbind, op_bind. destruct (sync_candidate headers blocks w) as [[rc w1] o1] eqn:E.
    apply (sync_candidate_ok headers blocks id session s w c r) in E; [|done..].
    destruct rc as [candidate|e]; intros [= <- <- <-]; [exact E|].
    eapply section_tasks; [exact E|by constructor|constructor].
  - unfold catching, mbind, op_bind. destruct (sync_replace f candidate w) as [[rc w1] o1] eqn:E.
    apply (sync_replace_ok f candidate s w c r) in E; [|done..].
    destruct rc as [[]|e]; intros [= <- <- <-]; (eapply section_tasks; [exact E|by constructor|constructor]).
  - unfold mbind, op_bind. destruct (clear_pending_session id session w) as [[rc w1] o1] eqn:E.
    apply (clear_session_ok id session s w c r) in E; [|done].
    destruct rc as [[]|e]; intros [= <- <- <-]; exact E.
  - destruct Ht as (Hh & Hn & prev & h & Hp). unfold mbind, op_bind.
    destruct (open_session id session headers w) as [[rc w1] o1] eqn:E.
    apply (open_session_ok id session headers s w c r _ _ _ prev h) in E; [|done..].
    destruct rc as [[]|e]; intros [= <- <- <-]; (eapply section_tasks; [exact E| |constructor]); by constructor.
  - unfold catching, mbind, op_bind. destruct (request_sync_blocks id session hs w) as [[rc w1] o1] eqn:E.
    destruct rc as [[]|e]; intros [= <- <- <-];
      (eapply sends_section; [|exact H|exact E|by constructor]); auto with caesar.
  - unfold mbind, op_bind. destruct (request_blocks id hs w) as [[rc w1] o1] eqn:E.
    destruct rc as [[]|e]; intros [= <- <- <-];
      (eapply sends_section; [|exact H|exact E|by constructor]); auto with caesar.
  - unfold invalidate_cache. rewrite run_in_node. intros [= <- <- <-]. exists c, r.
    split; [|split; [by left|]; split; [by constructor|by intros _ _ _]].
    eapply (relay_core_node w c r c r _ (link_ w)); [exact H|]. destruct (rc_stored _ _ _ H). by split.
  - unfold mbind, op_bind. destruct (for_each accepted (gossip_block id) w) as [[rc w1] o1] eqn:E.
    destruct rc as [[]|e]; intros [= <- <- <-];
      (eapply sends_section; [|exact H|exact E|done]); sends_only.
Qed.
End Sessions.

(** ** The relay as a transition system *)

Section RelaySystem.
Context {ssl : OpenSSL} {iter : UnorderedMap} {order : PeerOrder} {inet : Inet}.
Implicit Types (w : P2PRelay) (ts : list Task).

(** One locked section of one thread: a call of the node, the first section of
    the handler of a frame, the next one of any handler in flight, a call of the
    peer table, the registration of the readers, the flag and the sessions when
    the relay starts and stops. Sends only consume the script of the links,
    which may change at any time. With [s] no directory sync fails. *)
Inductive relay_step (s : bool) : P2PRelay * list Task -> P2PRelay * list Task -> Prop :=
  | rstep_node w n' ts : node_step s false (node_ w) n' -> relay_step s (w, ts) (set_node n' w, ts)
  | rstep_frame f rd id frame w res w' out ts :
      (s = true -> fsync_dir_fails f = false) -> sync_room w ->
      begin_frame f rd id frame w = (res, w', out) -> relay_step s (w, ts) (w', tasks_of res ++ ts)
  | rstep_task f t w res w' out ts1 ts2 :
      (s = true -> fsync_dir_fails f = false) ->
      sync_room w \/ (forall id ss hs bs, t <> TAssemble id ss hs bs) ->
      run_task f t w = (res, w', out) ->
      relay_step s (w, ts1 ++ t :: ts2) (w', tasks_of res ++ ts1 ++ ts2)
  | rstep_peers now o w ts :
      op_ok (peers w) o -> relay_step s (w, ts) (set_manager (peer_op now o (peers w)) w, ts)
  | rstep_readers r w ts : relay_step s (w, ts) (set_readers r w, ts)
  | rstep_flag b w ts : relay_step s (w, ts) (set_relay_running b w, ts)
  | rstep_drop w ts : relay_step s (w, ts) (set_pending ∅ w, ts)
  | rstep_link l w ts : relay_step s (w, ts) (set_link l w, ts).

Lemma relay_frame_inv s w w' ts c r :
  relay_inv s (w, ts) c r -> node_ w' = node_ w -> sessions_ok w' -> manager_inv (peers w') ->
  relay_inv s (w', ts) c r.
Proof.
  intros [H1 H2 H3] E Hs Hp. split; [by eapply relay_core_frame|cbn; by rewrite E|done].
Qed.

Lemma section_inv s due w c r w' new ts1 ts2 t :
  relay_inv s (w, ts1 ++ t ++ ts2) c r -> section_ok s due w c w' new ->
  (due = false -> quiet t) -> exists c' r', relay_inv s (w', new ++ ts1 ++ ts2) c' r' /\ (c' = c \/ work c < work c').
Proof.
  intros [H1 H2 H3] (c' & r' & Hc & Hw & Ht & Hcache) Hdue. exists c', r'. split; [|done].
  cbn [fst snd] in *. rewrite !Forall_app in H3. destruct H3 as (T1 & _ & T2).
  split; cbn [fst snd]; [done| |by rewrite !Forall_app]. intros Es Hq. unfold quiet in *. rewrite !Forall_app in Hq.
  destruct Hq as (Qn & Q1 & Q2). apply Hcache; [done| |done]. intros Ed. apply H2; [done|].
  rewrite !Forall_app. auto.
Qed.

Lemma relay_step_spec s ws ws' c r :
  relay_inv s ws c r -> relay_step s ws ws' ->
  exists c' r', relay_inv s ws' c' r' /\ (c' = c \/ work c < work c').
Proof.
  intros H Hst. destruct Hst as [w n' ts Hn|f rd id frame w res w' out ts Hf Hroom E
    |f t w res w' out ts1 ts2 Hf Hroom E|now o w ts Ho|rs w ts|b w ts|w ts|l w ts].
  - destruct (node_step_stored s false _ n' c r (rc_stored _ _ _ (ri_core _ _ _ _ H)) Hn)
      as (c' & r' & Hi & Hw & Hc).
    exists c', r'. split; [|done]. destruct H as [H1 H2 H3].
    split; [by eapply (relay_core_node w c r c' r' n' (link_ w))|by auto|done].
  - eapply (section_inv s false w c r w' (tasks_of res) [] ts []); [exact H| |by constructor].
    eapply begin_frame_ok; [apply H|done..|exact E].
  - eapply (section_inv s _ w c r w' (tasks_of res) ts1 ts2 [t]); [exact H| |].
    + eapply run_task_ok; [apply H| |done..|exact E].
      pose proof (ri_tasks _ _ _ _ H) as Ht. cbn in Ht. apply Forall_app in Ht as [_ [Ht _]%Forall_cons]. done.
    + intros Ed. by constructor.
  - exists c, r. split; [|by left]. eapply relay_frame_inv; [exact H|done|apply H|]. apply peer_op_inv; [|done]. apply H.
  - exists c, r. split; [|by left]. eapply relay_frame_inv; [exact H|done|apply H|apply H].
  - exists c, r. split; [|by left]. eapply relay_frame_inv; [exact H|done|apply H|apply H].
  - exists c, r. split; [|by left]. eapply relay_frame_inv; [exact H|done|apply map_Forall_empty|apply H].
  - exists c, r. split; [|by left]. eapply relay_frame_inv; [exact H|done|apply H|apply H].
Qed.

(** A handler that nobody interrupts is a sequence of these sections. *)
Lemma step_begin s f rd id frame w res w' out ts :
  (s = true -> fsync_dir_fails f = false) -> sync_room w -> begin_frame f rd id frame w = (res, w', out) ->
  rtc (relay_step s) (w, ts) (w', tasks_of res ++ ts).
Proof. intros. by eapply rtc_once, rstep_frame. Qed.
Lemma step_task s f t w res w' out ts :
  (s = true -> fsync_dir_fails f = false) ->
  sync_room w \/ (forall id ss hs bs, t <> TAssemble id ss hs bs) ->
  run_task f t w = (res, w', out) -> rtc (relay_step s) (w, t :: ts) (w', tasks_of res ++ ts).
Proof. intros. by eapply rtc_once, (rstep_task s f t w res w' out []). Qed.

Lemma begin_whole (m : relay_op unit) w res w' out :
  m w = (res, w', out) -> exists res' out', (_ ← m; mret []) w = (res', w', out') /\ @tasks_of res' = [].
Proof.
  intros E. unfold mbind, op_bind. rewrite E. destruct res as [[]|e]; eexists _, _; by split.
Qed.

Lemma clear_steps s f id session w ts :
  (s = true -> fsync_dir_fails f = false) ->
  exists w', clear_pending_session id session w = (Ok tt, w', []) /\
    rtc (relay_step s) (w, TClear id session :: ts) (w', ts).
Proof.
  intros Hf. eexists. split; [reflexivity|].
  apply (step_task s f (TClear id session) w (Ok []) _ []); [done|by right|done].
Qed.

Lemma handle_blocks_steps s f id frame w res w' out ts :
  (s = true -> fsync_dir_fails f = false) -> sync_room w -> frame_type frame = P2PMessageType.Blocks ->
  handle_blocks f id (payload frame) w = (res, w', out) -> rtc (relay_step s) (w, ts) (w', ts).
Proof.
  intros Hf Hroom Ht. unfold handle_blocks. rewrite run_reading.
  destruct (begin_frame f (0, 0, 0, 0) id frame w) as [[rb w1] o1] eqn:Eb.
  pose proof (step_begin s f (0, 0, 0, 0) id frame w rb w1 o1 ts Hf Hroom Eb) as H1.
  unfold begin_frame in Eb. rewrite Ht, run_reading in Eb.
  destruct (parse_blocks_payload _) as [bs|e]; [|injection Eb as <- <- <-; by intros [= <- <- <-]].
  unfold mbind, op_bind in Eb |- *. destruct (store_batch f bs w) as [[rs w2] o2].
  destruct rs as [new|e]; [|injection Eb as <- <- <-; by intros [= <- <- <-]].
  injection Eb as <- <- <-. case_bool_decide; [by intros [= <- <- <-]|].
  unfold invalidate_cache, in_node, update. set (w3 := set_node _ w2).
  destruct (for_each new (gossip_block id) w3) as [[rg w4] o4] eqn:Eg.
  assert (rtc (relay_step s) (w2, TInvalidate id new :: ts) (w3, TGossip id new :: ts)) as H2.
  { by apply (step_task s f (TInvalidate id new) w2 (Ok [TGossip id new]) w3 []); [|right|]. }
  destruct (begin_whole (for_each new (gossip_block id)) w3 rg w4 o4 Eg) as (res' & out' & Et & Hnil).
  assert (rtc (relay_step s) (w3, TGossip id new :: ts) (w4, ts)) as H3.
  { pose proof (step_task s f (TGossip id new) w3 res' w4 out' ts Hf) as H3. rewrite Hnil in H3.
    apply H3; [by right|done]. }
  destruct rg as [[]|e]; intros [= <- <- <-]; (etrans; [exact H1|]); by etrans.
Qed.

Lemma handle_headers_steps s f rd id frame w res w' out ts :
  (s = true -> fsync_dir_fails f = false) -> sync_room w -> frame_type frame = P2PMessageType.Headers ->
  handle_headers rd id (payload frame) w = (res, w', out) -> rtc (relay_step s) (w, ts) (w', ts).
Proof.
  intros Hf Hroom Ht. unfold handle_headers. rewrite run_reading.
  destruct (begin_frame f rd id frame w) as [[rb w1] o1] eqn:Eb.
  pose proof (step_begin s f rd id frame w rb w1 o1 ts Hf Hroom Eb) as H1.
  unfold begin_frame in Eb. rewrite Ht, run_reading in Eb.
  destruct (parse_headers_payload _) as [headers|e]; [|injection Eb as <- <- <-; by intros [= <- <- <-]].
  destruct headers as [|first headers]; [injection Eb as <- <- <-; by intros [= <- <- <-]|].
  unfold mbind, op_bind in Eb |- *. destruct (classify_headers first _ w) as [[rc w2] o2].
  destruct rc as [[direct hs]|e]; [|injection Eb as <- <- <-; by intros [= <- <- <-]].
  injection Eb as <- <- <-. destruct direct.
  - destruct (request_blocks id hs w2) as [[rr w3] o3] eqn:Er. intros [= <- <- <-].
    destruct (begin_whole (request_blocks id hs) w2 rr w3 o3 Er) as (res' & out' & Et & Hnil).
    pose proof (step_task s f (TRequest id hs) w2 res' w3 out' ts Hf) as H2. rewrite Hnil in H2.
    etrans; [exact H1|]. apply H2; [by right|done].
  - set (ss := make_sync_session_id rd) in *. unfold start_fork_sync. unfold mbind at 1, op_bind at 1.
    destruct (open_session id ss (first :: headers) w2) as [[ro w3] o3] eqn:Eo.
    assert (rtc (relay_step s) (w2, TOpen id ss (first :: headers) hs :: ts)
      (w3, (match ro with Ok true => [TRequestSync id ss hs] | _ => [] end) ++ ts)) as H2.
    { pose proof (step_task s f (TOpen id ss (first :: headers) hs) w2
        (match ro with Ok true => Ok [TRequestSync id ss hs] | Ok false => Ok [] | Throw e => Throw e end) w3
        (match ro with Ok _ => o3 ++ [] | Throw _ => o3 end) ts Hf) as H2.
      destruct ro as [[]|e]; apply H2; try (by right); cbn [run_task]; unfold mbind, op_bind; by rewrite Eo. }
    destruct ro as [[]|e]; [|intros [= <- <- <-]; by etrans..].
    unfold catching at 1. destruct (request_sync_blocks id ss hs w3) as [[rr w4] o4] eqn:Er.
    assert (rtc (relay_step s) (w3, TRequestSync id ss hs :: ts)
      (w4, (match rr with Ok _ => [] | Throw _ => [TClear id ss] end) ++ ts)) as H3.
    { pose proof (step_task s f (TRequestSync id ss hs) w3
        (Ok (match rr with Ok _ => [] | Throw _ => [TClear id ss] end)) w4 (o4 ++ []) ts Hf) as H3.
      apply H3; [by right|]. cbn [run_task]. unfold catching, mbind, op_bind. rewrite Er. by destruct rr as [[]|]. }
    destruct rr as [[]|e].
    + intros [= <- <- <-]. etrans; [exact H1|]. by etrans.
    + destruct (clear_steps s f id ss w4 ts Hf) as (w5 & E5 & H5). unfold mbind, op_bind. rewrite E5.
      intros [= <- <- <-]. etrans; [exact H1|]. etrans; [exact H2|]. by etrans.
Qed.

Lemma handle_sync_blocks_steps s f id frame w res w' out ts :
  (s = true -> fsync_dir_fails f = false) -> sync_room w -> frame_type frame = P2PMessageType.SyncBlocks ->
  handle_sync_blocks f id (payload frame) w = (res, w', out) -> rtc (relay_step s) (w, ts) (w', ts).
Proof.
  intros Hf Hroom Ht. unfold handle_sync_blocks. rewrite run_reading.
  destruct (begin_frame f (0, 0, 0, 0) id frame w) as [[rb w1] o1] eqn:Eb.
  pose proof (step_begin s f (0, 0, 0, 0) id frame w rb w1 o1 ts Hf Hroom Eb) as H1.
  unfold begin_frame in Eb. rewrite Ht, run_reading in Eb.
  destruct (SyncBlocksMessage.deserialize_binary _) as [m|e]; [|injection Eb as <- <- <-; by intros [= <- <- <-]].
  cbv zeta. set (ss := SyncBlocksMessage.session_id m) in *.
  unfold mbind at 1, op_bind at 1. unfold mbind in Eb at 1. unfold op_bind in Eb at 1.
  destruct (sync_receive id m w) as [[rc w2] o2] eqn:Er.
  assert (sync_room w2) as Hroom2.
  { assert (node_ w2 = node_ w) as En; [|unfold sync_room; by rewrite En].
    revert Er. unfold sync_receive, asking. destruct (_ !! id); [|by intros [= <- <- <-]].
    destruct (negb _); [by intros [= <- <- <-]|]. case_bool_decide; [rewrite run_update; by intros [= <- <- <-]|].
    destruct (receive_sync_blocks _ _) as [rr p']. rewrite run_update, run_reading.
    destruct rr; [|by intros [= <- <- <-]]. destruct (forallb _ _); by intros [= <- <- <-]. }
  destruct rc as [[[headers blocks]|]|e]; injection Eb as <- <- <-; [|by intros [= <- <- <-]..].
  unfold catching, mbind at 1, op_bind at 1.
  destruct (sync_candidate headers blocks w2) as [[ra w3] o3] eqn:Ea.
  assert (rtc (relay_step s) (w2, TAssemble id ss headers blocks :: ts)
    (w3, (match ra with Ok candidate => [TReplace id ss candidate] | Throw _ => [TClear id ss] end) ++ ts)) as H2.
  { pose proof (step_task s f (TAssemble id ss headers blocks) w2
      (Ok (match ra with Ok candidate => [TReplace id ss candidate] | Throw _ => [TClear id ss] end)) w3 (o3 ++ []) ts Hf) as H2.
    apply H2; [by left|]. cbn [run_task]. unfold catching, mbind, op_bind. rewrite Ea. by destruct ra. }
  destruct ra as [candidate|e].
  2: { destruct (clear_steps s f id ss w3 ts Hf) as (w4 & E4 & H4). unfold mbind at 1, op_bind at 1. rewrite E4.
       intros [= <- <- <-]. etrans; [exact H1|]. by etrans. }
  unfold mbind at 1, op_bind at 1. destruct (sync_replace f candidate w3) as [[rp w4] o4] eqn:Ep.
  assert (rtc (relay_step s) (w3, TReplace id ss candidate :: ts) (w4, TClear id ss :: ts)) as H3.
  { pose proof (step_task s f (TReplace id ss candidate) w3 (Ok [TClear id ss]) w4 (o4 ++ []) ts Hf) as H3.
    apply H3; [by right|]. cbn [run_task]. unfold catching, mbind, op_bind. rewrite Ep. by destruct rp as [[]|]. }
  destruct (clear_steps s f id ss w4 ts Hf) as (w5 & E5 & H5).
  assert (rtc (relay_step s) (w, ts) (w5, ts)) as Hall
    by (etrans; [exact H1|]; etrans; [exact H2|]; by etrans).
  destruct rp as [[]|e]; [|unfold mbind, op_bind]; rewrite E5; by intros [= <- <- <-].
Qed.

(** The whole handler of any frame. *)
Lemma handle_frame_steps s f rd id frame w res w' out ts :
  (s = true -> fsync_dir_fails f = false) -> sync_room w ->
  handle_frame f rd id frame w = (res, w', out) -> rtc (relay_step s) (w, ts) (w', ts).
Proof.
  intros Hf Hroom E.
  assert (begin_frame f rd id frame = (_ ← handle_frame f rd id frame; mret []) ->
    rtc (relay_step s) (w, ts) (w', ts)) as Hwhole.
  { intros Eb. destruct (begin_whole _ _ _ _ _ E) as (res' & out' & Et & Hnil). rewrite <- Eb in Et.
    pose proof (step_begin s f rd id frame w res' w' out' ts Hf Hroom Et) as H. by rewrite Hnil in H. }
  destruct (frame_type frame) eqn:Ht;
    try (apply Hwhole; unfold begin_frame; rewrite Ht; reflexivity);
    unfold handle_frame in E; rewrite Ht in E.
  - by eapply handle_headers_steps.
  - by eapply handle_blocks_steps.
  - by eapply handle_sync_blocks_steps.
Qed.

(** Gossip when every link is up. *)
Lemma broadcast_except_up id f m :
  frame_ok f ->
  broadcast_except [] id f m =
    ((fun c => (c, f)) <$> ((fun kv => connection_of kv.2) <$>
       filter (fun kv => kv.1 <> id) (peer_iteration (peers_ m))), []).
Proof.
  intros Hf. unfold broadcast_except. generalize ((fun kv => connection_of kv.2) <$>
    filter (fun kv => kv.1 <> id) (peer_iteration (peers_ m))) as cs.
  induction cs as [|c cs IH]; [done|]. cbn [broadcast_all_loop]. rewrite send_frame_on_ok by done.
  cbn [next_outcome fst snd]. by rewrite IH.
Qed.

Definition others (id : Z) (m : P2PPeerManager) : list P2PConnection :=
  (fun kv => connection_of kv.2) <$> filter (fun kv => kv.1 <> id) (peer_iteration (peers_ m)).
Definition block_frame (b : Block) : P2PFrame :=
  mkFrame P2PMessageType.Blocks (enc_counted (fun b => enc_string (enc_block b)) [b]).

Lemma block_frame_ok b : sizeZ (enc_block b) + 8 <= CZR_P2P_MAX_PAYLOAD -> frame_ok (block_frame b).
Proof.
  intros H. unfold frame_ok, block_frame. cbn [payload]. rewrite counted_size.
  change (sumZ ?f [b]) with (f b + 0). unfold enc_string. rewrite sizeZ_app. unfold sizeZ at 1.
  rewrite le_encode_length. lia.
Qed.

Lemma gossip_up id bs w :
  Forall (fun b => block_full_ok b /\ sizeZ (enc_block b) + 8 <= CZR_P2P_MAX_PAYLOAD) bs -> link_ w = [] ->
  for_each bs (gossip_block id) w =
    (Ok tt, w, mjoin ((fun b => (fun c => (c, block_frame b)) <$> others id (peers w)) <$> bs)).
Proof.
  intros Hb Hl. induction Hb as [|b bs [Hb Hs] Hbs IH]; [done|]. cbn [for_each].
  unfold mbind, op_bind. unfold gossip_block at 1.
  rewrite blocks_frame_encode by (split; [done|lia]). fold (block_frame b).
  rewrite Hl, broadcast_except_up by (by apply block_frame_ok).
  replace (set_link [] w) with w by (destruct w; simpl in *; by subst). by rewrite IH.
Qed.
End RelaySystem.

(** ** Claims *)

Section RelayClaims.
Context {ssl : OpenSSL} {iter : UnorderedMap} {order : PeerOrder} {inet : Inet}.

(** C2: whatever frames peers send, in whatever order and however malformed,
    with the locked sections of their handlers interleaved in any way with each
    other, with the calls of the node and of the peer table and with the
    relay's own threads, and with any system call of a save failing: as long as
    the chain keeps room for one more message below the ten million blocks of
    the format and reading the file succeeds, the stored chain stays valid and
    loadable and changes only to one with more work, every open synchronisation
    session holds only blocks that hash to the headers it asked for, and the
    peer table keeps its limits. If moreover no sync of the directory fails
    (s), the cache is coherent whenever no handler is between storing a batch
    and invalidating it. *)
Theorem relay_safety s ws ws' c r :
  relay_inv s ws c r -> rtc (relay_step s) ws ws' ->
  exists c' r', relay_inv s ws' c' r' /\ (c' = c \/ work c < work c').
Proof.
  intros H Hs. revert c r H. induction Hs as [w|w w1 w2 H1 H2 IH]; intros c r H; [eauto|].
  destruct (relay_step_spec s w w1 c r H H1) as (c1 & r1 & Hi & Hw).
  destruct (IH c1 r1 Hi) as (c2 & r2 & Hi2 & Hw2). exists c2, r2. split; [done|].
  destruct Hw as [->|Hw], Hw2 as [->|Hw2]; auto. right. lia.
Qed.

(** C11: a batch of relayed blocks, validated with one running set of outputs
    and one running total, has exactly the effect of validating its blocks one
    by one against the growing chain: the blocks that extend it are stored, the
    others are passed over, each stored block is sent to every peer but the
    sender, and the pool is left as it was. The links are up, no system call
    fails, nothing else runs, each block fits into a frame, and the chain has
    room for a batch below the limit of the format. *)
Theorem relayed_batch_exact w c r id p bs :
  chain_inv (node_ w) c r -> sizeZ c + max_batch <= MAX_BLOCKS -> link_ w = [] ->
  parse_blocks_payload p = Ok bs ->
  Forall (fun b => sizeZ (enc_block b) + 8 <= CZR_P2P_MAX_PAYLOAD) bs ->
  exists acc r' n', absorbs c r bs acc r' /\
    handle_blocks no_faults id p w =
      (Ok tt, set_node n' w, mjoin ((fun b => (fun c => (c, block_frame b)) <$> others id (peers w)) <$> acc)) /\
    chain_inv n' (c ++ acc) r' /\ mempool_ n' = mempool_ (node_ w).
Proof.
  intros H Hn Hl Hp Hs. pose proof (proj1 (parse_blocks_spec p bs) Hp) as (Hb & Hlen & _).
  pose proof (ci_valid _ _ _ H) as Hv.
  destruct (batch_absorbs c r bs [] Hv) as (acc & r' & Ha & _).
  { eapply Forall_impl; [exact Hb|]. by intros b []. }
  pose proof (absorbs_valid _ _ _ _ _ Ha Hv) as Hv'.
  exists acc, r'. rewrite (handle_blocks_run no_faults id p w c r bs acc r' H Hp Ha).
  case_bool_decide as Hacc.
  - exists (node_ w). subst acc. rewrite app_nil_r in Hv' |- *. simpl. split_and!; [done|by destruct w| |done].
    rewrite (valid_chain_functional _ _ _ Hv' Hv). done.
  - assert (storable (c ++ acc)) as Hst.
    { eapply absorbs_storable; [exact Ha|by eapply chain_inv_storable|done|lia]. }
    rewrite save_storable; [|done|apply validate_candidate_chain_spec; eauto].
    eexists. split; [done|]. rewrite gossip_up; [split; [reflexivity|]| |done].
    + split; [|done]. split; simpl; [|done|done]. apply load_spec. split_and!; [done|done|].
      apply validate_candidate_chain_spec. eauto.
    + apply Forall_forall. intros b Hin. apply (elem_of_sublist _ bs) in Hin; [|by eapply absorbs_sublist].
      rewrite Forall_forall in Hb, Hs. split; [apply Hb, Hin|by apply Hs].
Qed.

(** A relayed block that spends what a pooled transaction spends leaves
    the pool blocked: the block is stored and the pool is not revalidated, so
    from then on the list of transactions for the miner is empty and no
    transaction whatever is admitted. *)
Theorem relayed_block_blocks_pool w c r b r' sender id q :
  node_inv (node_ w) c r -> sizeZ c + max_batch <= MAX_BLOCKS -> link_ w = [] ->
  block_full_ok b -> sizeZ (enc_block b) + 8 <= CZR_P2P_MAX_PAYLOAD ->
  extends c r b r' -> stale (mempool_ (node_ w)) (utxo r') id q ->
  exists n' out, handle_blocks no_faults sender (payload (block_frame b)) w = (Ok tt, set_node n' w, out) /\
    load (storage_ n') = Ok (c ++ [b]) /\
    (forall l, ordered_transactions (mempool_ n') (utxo r') = Ok l -> l = []) /\
    (forall relay_ok tx reason n'' ev,
       accept_transaction relay_ok tx n' = (Ok reason, n'', ev) -> reason <> None_).
Proof.
  intros Hinv Hn Hl Hb Hs He Hst. pose proof (chain_inv_node _ _ _ Hinv) as Hc.
  assert (absorbs c r [b] [b] r') as Ha by (eapply absorbs_take; [exact He|constructor]).
  assert (parse_blocks_payload (payload (block_frame b)) = Ok [b]) as Hp.
  { apply parse_blocks_spec. split_and!; [|done..]. constructor; [|done]. split; [done|lia]. }
  assert (keyed (transactions_ (mempool_ (node_ w)))) as Hk.
  { intros i tx Hi. pose proof (con_entries _ _ (pi_connectable _ _ (ni_pool _ _ _ Hinv))) as Hx.
    rewrite Forall_forall in Hx. apply (Hx (i, tx)). by apply elem_of_map_to_list. }
  pose proof (absorbs_valid _ _ _ _ _ Ha (ci_valid _ _ _ Hc)) as Hv.
  rewrite (handle_blocks_run no_faults sender _ w c r [b] [b] r' Hc Hp Ha).
  rewrite bool_decide_eq_false_2 by done.
  assert (storable (c ++ [b])) as Hsto.
  { eapply absorbs_storable; [exact Ha|by eapply chain_inv_storable| |].
    - constructor; [split; [done|lia]|done].
    - unfold sizeZ at 2. simpl. unfold max_batch in Hn. lia. }
  assert (validate_candidate_chain (c ++ [b]) = Ok true) as Hval by (apply validate_candidate_chain_spec; eauto).
  rewrite save_storable by done. rewrite gossip_up; [|by constructor|done].
  eexists _, _. split; [reflexivity|]. cbn [storage_ mempool_ running_ chain_cache_ chain_cache_valid_ set_cache set_storage set_node node_].
  split; [by apply load_spec|].
  destruct (stale_transaction_blocks_pool _ _ _ _ Hk Hst) as [H1 H2]. split; [exact H1|].
  intros relay_ok tx reason n'' ev. unfold accept_transaction, load_chain. autorewrite with run.
  cbn [storage_ mempool_ running_ chain_cache_ chain_cache_valid_ set_cache set_storage set_node node_].
  destruct (running_ _); [|done].
  rewrite (proj2 (load_spec (mkDisk (Some (enc_storage (c ++ [b]))) None) (c ++ [b])) (conj eq_refl (conj Hsto Hval))).
  autorewrite with run.
  destruct (negb _); [|done]. autorewrite with run.
  rewrite (rebuild_utxo_set_spec _ _ Hv). destruct (is_coinbase_transaction tx).
  { rewrite run_ret. by intros [= <- _ _]. }
  unfold mbind, op_bind, reading, update, announce, mret, op_ret.
  cbn [storage_ mempool_ running_ chain_cache_ chain_cache_valid_ set_cache set_storage set_node node_].
  destruct (mempool_accept _ tx (utxo r')) as [[reason' mp']|] eqn:Hacc; [|done]. apply H2 in Hacc.
  destruct (accepted reason'), relay_ok; intros [= <- _ _]; done.
Qed.
End RelayClaims.

(** ** Witnesses *)

(** The sample node, whose pool holds the spend that the second block
    confirms, with two peers. *)
Definition sample_relay : P2PRelay := mkRelay sample_node story_manager ∅ ∅ true [].

Lemma sample_chain_inv : chain_inv (ssl := Toy.ssl) (node_ sample_relay) node_chain sample_result1.
Proof. apply chain_inv_node, sample_node_inv. Qed.
Lemma sample_relay_inv s :
  relay_inv (ssl := Toy.ssl) (inet := lan_inet) s (sample_relay, []) node_chain sample_result1.
Proof.
  split; [split; [apply chain_inv_stored, sample_chain_inv|apply map_Forall_empty|apply story_manager_inv]| |constructor].
  intros _ _. exact (ci_cache _ _ _ sample_chain_inv).
Qed.

(** A peer's block is handled. *)
Lemma relay_safety_witness :
  exists w' c' r',
    rtc (relay_step (ssl := Toy.ssl) (iter := listed) (order := in_order) (inet := lan_inet) true)
      (sample_relay, []) (w', []) /\
    relay_inv (ssl := Toy.ssl) (inet := lan_inet) true (w', []) c' r' /\ work node_chain <= work c'.
Proof.
  destruct (handle_frame (ssl := Toy.ssl) (iter := listed) (order := in_order) (inet := lan_inet)
    no_faults (1, 2, 3, 4) 1 (block_frame chain_block2) sample_relay) as [[res w'] out] eqn:E.
  assert (rtc (relay_step (ssl := Toy.ssl) (iter := listed) (order := in_order) (inet := lan_inet) true)
    (sample_relay, []) (w', [])) as Hs.
  { eapply (handle_frame_steps (ssl := Toy.ssl)); [| |exact E]; [reflexivity|].
    intros c. change (storage_ (node_ sample_relay)) with (sample_disk node_chain). unfold node_chain.
    rewrite sample_disk1_load. intros [= <-]. decide_vm. }
  destruct (relay_safety (ssl := Toy.ssl) (iter := listed) (order := in_order) (inet := lan_inet) true
    (sample_relay, []) (w', []) node_chain sample_result1 (sample_relay_inv true) Hs) as (c' & r' & Hi & Hw).
  exists w', c', r'. split; [exact Hs|]. split; [exact Hi|]. destruct Hw as [->|Hw]; lia.
Defined.

Lemma chain_block2_sized : sizeZ (enc_block chain_block2) + 8 <= CZR_P2P_MAX_PAYLOAD.
Proof. decide_vm. Qed.

Lemma relayed_batch_exact_witness :
  exists acc r' n',
    absorbs (ssl := Toy.ssl) node_chain sample_result1 [chain_block2; chain_block1] acc r' /\
    chain_inv (ssl := Toy.ssl) n' (node_chain ++ acc) r'.
Proof.
  destruct (relayed_batch_exact (ssl := Toy.ssl) (order := in_order) sample_relay
    node_chain sample_result1 1 (enc_counted (fun b => enc_string (enc_block b)) [chain_block2; chain_block1])
    [chain_block2; chain_block1]) as (acc & r' & n' & H1 & _ & H2 & _).
  - apply sample_chain_inv.
  - decide_vm.
  - reflexivity.
  - apply parse_blocks_spec. split; [decide_vm|]. split; [decide_vm|reflexivity].
  - decide_vm.
  - exists acc, r', n'. exact (conj H1 H2).
Defined.

Lemma relayed_block_blocks_pool_witness :
  exists n', load (ssl := Toy.ssl) (storage_ n') = Ok (node_chain ++ [chain_block2]) /\
    forall relay_ok tx reason n'' ev,
      accept_transaction (ssl := Toy.ssl) relay_ok tx n' = (Ok reason, n'', ev) -> reason <> None_.
Proof.
  destruct (relayed_block_blocks_pool (ssl := Toy.ssl) (order := in_order) sample_relay node_chain
    sample_result1 chain_block2 sample_result 1 (toy_txid chain_spend) spent_point)
    as (n' & out & _ & H1 & _ & H2).
  - apply sample_node_inv.
  - decide_vm.
  - reflexivity.
  - decide_vm.
  - apply chain_block2_sized.
  - apply sample_block2_extends.
  - exists chain_spend. split; [decide_vm|]. split; [decide_vm|]. split; decide_vm.
  - exists n'. exact (conj H1 H2).
Defined.
