(* ===== verification/RelaySync.v ===== *)
(** Synchronisation between two nodes: the locator a node sends, the headers
    and blocks its peer answers with, and what the node ends up storing. *)

From S2P Require Import Prelude Serialization Crypto Transaction UTXO Ownership Coinbase.
From S2P Require Import Consensus Block NetworkParams ChainValidator ChainWork Mempool.
From S2P Require Import BlockBuilder ChainReplacement MempoolReorg Storage Node.
From S2P Require Import P2PWire P2PStream PeerManager RelayWire Relay RelayFacts.
From stdpp Require Import options.
Local Open Scope Z_scope.

(** ** The locator *)

Section Locator.
Context {ssl : OpenSSL}.
Implicit Types (chain : list Block).

(** What the loop appends, and that it stops at 32 hashes whatever the fuel. *)
Lemma locators_loop_app fuel chain index step l :
  exists new, locators_loop fuel chain index step l = l ++ new /\
    Forall (fun h => h ∈ block_hash <$> chain) new.
Proof.
  revert index step l. induction fuel as [|fuel IH]; intros index step l; simpl;
    [exists []; by rewrite app_nil_r|].
  destruct (chain !! _) as [b|] eqn:Hb; [|exists []; by rewrite app_nil_r].
  assert (block_hash b ∈ block_hash <$> chain) as Hin by (by eapply list_elem_of_fmap_2, list_elem_of_lookup_2).
  destruct (_ || _); [exists [block_hash b]; split; [done|by constructor]|].
  destruct (IH (if step <? index then index - step else 0)
    (if (10 <=? sizeZ (l ++ [block_hash b])) && (step <=? UINT64_MAX / 2) then step * 2 else step)
    (l ++ [block_hash b])) as (new & -> & Hn).
  exists (block_hash b :: new). rewrite <- app_assoc. split; [done|by constructor].
Qed.

Lemma locators_loop_bound fuel chain index step l :
  sizeZ l < MAX_LOCATORS -> sizeZ (locators_loop fuel chain index step l) <= MAX_LOCATORS.
Proof.
  revert index step l. induction fuel as [|fuel IH]; intros index step l Hl; simpl; [lia|].
  destruct (chain !! _) as [b|]; [|lia].
  assert (sizeZ (l ++ [block_hash b]) = sizeZ l + 1) as Hs by (by rewrite sizeZ_app).
  destruct (index =? 0); cbn [orb]; [lia|]. destruct (_ =? MAX_LOCATORS) eqn:E; zbool; [lia|].
  apply IH. lia.
Qed.

(** More fuel changes nothing once 32 hashes fit in it. *)
Lemma locators_loop_fuel fuel k chain index step l :
  sizeZ l < MAX_LOCATORS -> MAX_LOCATORS <= sizeZ l + Z.of_nat fuel ->
  locators_loop (fuel + k) chain index step l = locators_loop fuel chain index step l.
Proof.
  revert index step l. induction fuel as [|fuel IH]; intros index step l Hl Hf; [lia|]. simpl.
  destruct (chain !! _) as [b|]; [|done].
  assert (sizeZ (l ++ [block_hash b]) = sizeZ l + 1) as Hs by (by rewrite sizeZ_app).
  destruct (index =? 0); cbn [orb]; [done|]. destruct (_ =? MAX_LOCATORS) eqn:E; zbool; [done|].
  apply IH; lia.
Qed.

(** The first hash is the tip's. *)
Lemma locators_loop_first fuel chain index step b :
  chain !! Z.to_nat index = Some b ->
  exists new, locators_loop (S fuel) chain index step [] = block_hash b :: new.
Proof.
  intros Hb. simpl. rewrite Hb. destruct (_ || _); [by exists []|].
  match goal with |- context [locators_loop ?f ?c ?i ?s ?l] =>
    destruct (locators_loop_app f c i s l) as (new & -> & _) end. by exists new.
Qed.
Lemma locators_tip chain tip :
  last chain = Some tip -> exists new, chain_locators chain = block_hash tip :: new.
Proof.
  intros Ht. unfold chain_locators. apply (locators_loop_first 31). rewrite last_lookup in Ht.
  rewrite <- Ht. f_equal. unfold sizeZ. destruct chain; [done|]. simpl. lia.
Qed.

(** The steps reach the first block: one by one until nine hashes are there,
    then doubling. *)
Lemma locators_loop_reach fuel chain g index step l :
  chain !! 0%nat = Some g -> 0 <= index < sizeZ chain ->
  sizeZ l + Z.of_nat fuel = MAX_LOCATORS -> 1 <= step -> step * 2 ^ Z.of_nat fuel <= 2 ^ 32 ->
  ((9 <= sizeZ l /\ (1 <= fuel)%nat /\ index <= step * (2 ^ (Z.of_nat fuel - 1) - 1)) \/
   (sizeZ l < 9 /\ step = 1 /\ index <= (9 - sizeZ l) + (2 ^ 22 - 1))) ->
  last (locators_loop fuel chain index step l) = Some (block_hash g).
Proof.
  intros Hg. revert index step l. induction fuel as [|fuel IH]; intros index step l Hi Hf Hs Hb Hc.
  { unfold MAX_LOCATORS in Hf. lia. }
  cbn [locators_loop]. destruct (chain !! Z.to_nat index) as [b|] eqn:Hx.
  2: { apply lookup_ge_None in Hx. unfold sizeZ in Hi. lia. }
  set (l' := l ++ [block_hash b]). assert (sizeZ l' = sizeZ l + 1) as Hl' by (unfold l'; by rewrite sizeZ_app).
  destruct (index =? 0) eqn:E0; zbool; cbn [orb].
  { subst index. change (Z.to_nat 0) with 0%nat in Hx. rewrite Hg in Hx. injection Hx as ->. unfold l'. by rewrite last_snoc. }
  rewrite Nat2Z.inj_succ in *. rewrite Z.pow_succ_r in Hb by lia.
  assert (0 < 2 ^ Z.of_nat fuel) by (apply Z.pow_pos_nonneg; lia).
  assert (step <= UINT64_MAX / 2) as Hst.
  { transitivity (2 ^ 32); [nia|]. by vm_compute. }
  assert (fuel = 0%nat -> False) as Hf0.
  { intros ->. destruct Hc as [(_ & _ & Hc)|(H9 & _)]; [simpl in Hc; nia|].
    unfold MAX_LOCATORS in Hf. lia. }
  assert (sizeZ l' <> MAX_LOCATORS) by (unfold MAX_LOCATORS in *; destruct fuel; [done|lia]).
  rewrite (proj2 (Z.eqb_neq _ _)) by done. rewrite (proj2 (Z.leb_le step _)) by done. rewrite andb_true_r.
  assert (0 <= (if step <? index then index - step else 0) <= Z.max 0 (index - step)) as Hn
    by (destruct (step <? index) eqn:E; zbool; lia).
  assert (2 ^ Z.of_nat fuel = 2 * 2 ^ (Z.of_nat fuel - 1)) as Hp.
  { rewrite <- Z.pow_succ_r by (destruct fuel; [done|lia]). f_equal. lia. }
  destruct Hc as [(H9 & _ & Hc)|(H9 & -> & Hc)].
  - rewrite (proj2 (Z.leb_le 10 _)) by lia.
    replace (Z.succ (Z.of_nat fuel) - 1) with (Z.of_nat fuel) in Hc by lia.
    apply IH; [lia|lia|lia|nia|]. left. split; [lia|]. split; [lia|]. nia.
  - destruct (Z.leb_spec 10 (sizeZ l')); [lia|]. apply IH; [lia|lia|lia|lia|].
    destruct (Z.eq_dec (sizeZ l') 9) as [E|E].
    + left. split; [lia|]. assert (fuel = 23%nat) as -> by (unfold MAX_LOCATORS in Hf; lia).
      split; [lia|]. change (2 ^ (Z.of_nat 23 - 1)) with (2 ^ 22). lia.
    + right. split_and!; lia.
Qed.
Lemma locators_end chain g :
  head chain = Some g -> sizeZ chain <= 4194313 -> last (chain_locators chain) = Some (block_hash g).
Proof.
  intros Hg Hs. destruct chain as [|x chain]; [done|]. injection Hg as ->. unfold chain_locators.
  apply locators_loop_reach; [done|unfold sizeZ; simpl; lia|done|done|done|]. right.
  split; [done|]. split; [done|]. change (2 ^ 22) with 4194304. change (sizeZ []) with 0. lia.
Qed.
End Locator.

(** ** Looking blocks up by hash *)

Section Lookup.
Context {ssl : OpenSSL}.
Implicit Types (c : list Block).

(** Within these blocks SHA-256 does not collide. *)
Definition collision_free (l : list Block) : Prop :=
  forall b1 b2, b1 ∈ l -> b2 ∈ l -> block_hash b1 = block_hash b2 -> b1 = b2.

Lemma collision_free_spec l :
  Forall (fun b1 => Forall (fun b2 => block_hash b1 = block_hash b2 -> b1 = b2) l) l -> collision_free l.
Proof. rewrite Forall_forall. intros H b1 b2 H1 H2. specialize (H b1 H1). rewrite Forall_forall in H. by apply H. Qed.
Lemma collision_free_sub l l' : l' ⊆ l -> collision_free l -> collision_free l'.
Proof. intros Hs H b1 b2 H1 H2. apply H; by apply Hs. Qed.

Lemma chain_index_snoc c b :
  chain_index (c ++ [b]) =
    match chain_index c !! block_hash b with
    | Some _ => chain_index c
    | None => <[block_hash b := length c]> (chain_index c)
    end.
Proof. unfold chain_index. rewrite imap_app, foldl_app. simpl. by rewrite Nat.add_0_r. Qed.

(** [emplace] keeps the first index of a hash. *)
Lemma chain_index_find c h :
  chain_index c !! h = fst <$> list_find (fun b => block_hash b = h) c.
Proof.
  revert h. induction c as [|b c IH] using rev_ind; intros h; [apply lookup_empty|].
  rewrite chain_index_snoc, (IH (block_hash b)).
  destruct (list_find (fun x => block_hash x = h) c) as [[k x]|] eqn:Hf.
  - rewrite (list_find_app_l _ _ _ _ _ Hf). destruct (list_find (fun x => block_hash x = block_hash b) c) eqn:Hb.
    + simpl. by rewrite IH, Hf.
    + simpl. rewrite lookup_insert_ne; [by rewrite IH, Hf|]. intros E. rewrite E in Hb. congruence.
  - rewrite (list_find_app_r _ _ _ Hf). simpl. destruct (decide (block_hash b = h)) as [->|Hne].
    + rewrite Hf. simpl. by rewrite lookup_insert_eq.
    + simpl. destruct (list_find (fun x => block_hash x = block_hash b) c); simpl;
        [|rewrite lookup_insert_ne by done]; by rewrite IH, Hf.
Qed.

Lemma chain_index_Some c h i :
  chain_index c !! h = Some i -> exists b, c !! i = Some b /\ block_hash b = h.
Proof.
  rewrite chain_index_find. destruct (list_find _ c) as [[k b]|] eqn:E; [|done].
  apply list_find_Some in E as (? & ? & _). intros [= <-]. eauto.
Qed.
Lemma chain_index_None c b : b ∈ c -> chain_index c !! block_hash b <> None.
Proof.
  intros Hb. rewrite chain_index_find.
  destruct (list_find_elem_of (fun x => block_hash x = block_hash b) c b Hb eq_refl) as [[? ?] ->]. done.
Qed.

(** Blocks of a valid chain are at their heights, so a block is there once. *)
Lemma valid_position c r i j b :
  valid_chain c r -> sizeZ c <= UINT64_MAX -> c !! i = Some b -> c !! j = Some b -> i = j.
Proof.
  intros Hc Hs Hi Hj.
  pose proof (bic_height _ _ _ (valid_chain_blocks c r Hc Hs i b Hi)).
  pose proof (bic_height _ _ _ (valid_chain_blocks c r Hc Hs j b Hj)). lia.
Qed.
Lemma valid_index c r i b :
  valid_chain c r -> sizeZ c <= UINT64_MAX -> collision_free c -> c !! i = Some b ->
  chain_index c !! block_hash b = Some i.
Proof.
  intros Hc Hs Hf Hi. destruct (chain_index c !! block_hash b) as [j|] eqn:E.
  - apply chain_index_Some in E as (b' & Hj & Hh). f_equal.
    assert (b' = b) as -> by (apply Hf; [by eapply list_elem_of_lookup_2..|done]).
    by eapply valid_position.
  - by apply chain_index_None in E; [|eapply list_elem_of_lookup_2].
Qed.

(** Two valid chains with the same block at some place agree up to it. *)
Lemma shared_prefix c1 r1 c2 r2 i b :
  valid_chain c1 r1 -> valid_chain c2 r2 -> sizeZ c1 <= UINT64_MAX -> sizeZ c2 <= UINT64_MAX ->
  collision_free (c1 ++ c2) -> c1 !! i = Some b -> c2 !! i = Some b ->
  take (S i) c1 = take (S i) c2.
Proof.
  intros H1 H2 S1 S2 Hf. revert b. induction i as [|i IH]; intros b E1 E2.
  { by rewrite !(take_S_r _ 0 b). }
  rewrite (take_S_r c1 (S i) b), (take_S_r c2 (S i) b) by done. f_equal.
  destruct (c1 !! i) as [p1|] eqn:P1; [|apply lookup_ge_None in P1; apply lookup_lt_Some in E1; lia].
  destruct (c2 !! i) as [p2|] eqn:P2; [|apply lookup_ge_None in P2; apply lookup_lt_Some in E2; lia].
  pose proof (bic_parent _ _ _ (valid_chain_blocks c1 r1 H1 S1 (S i) b E1) p1) as Q1.
  pose proof (bic_parent _ _ _ (valid_chain_blocks c2 r2 H2 S2 (S i) b E2) p2) as Q2.
  simpl in Q1, Q2. rewrite Nat.sub_0_r in Q1, Q2.
  destruct (Q1 P1) as [Q1' _]; [lia|]. destruct (Q2 P2) as [Q2' _]; [lia|].
  assert (p1 = p2) as <-.
  { apply Hf; [| |congruence]; apply elem_of_app; [left|right]; by eapply list_elem_of_lookup_2. }
  by apply (IH p1).
Qed.

(** The tail of a valid chain is a path of acceptable headers. *)
Lemma block_acceptable c r i b :
  valid_chain c r -> sizeZ c <= UINT64_MAX -> c !! i = Some b -> block_full_ok b ->
  header_acceptable (header b).
Proof.
  intros Hc Hs Hb [Ht _]. destruct (valid_chain_blocks c r Hc Hs i b Hb) as [Hbas Hh Hd Hfl _].
  assert (version (header b) <> 0 /\ block_validate_pow b = true) as [Hv Hp].
  { revert Hbas. unfold validate_basic. destruct (version _ =? 0) eqn:E; [done|]. zbool.
    destruct (block_validate_pow b); [done|]. done. }
  split; [done|]. split; [done|]. split; [|exact Hp].
  case_bool_decide; [rewrite Hd; lia|]. destruct Hfl; [done|lia].
Qed.

Lemma tail_path c r prev i :
  valid_chain c r -> sizeZ c <= UINT64_MAX -> c !! i = Some prev ->
  header_path (block_hash prev) (u64 (height (header prev) + 1)) (header <$> drop (S i) c) /\
  chained (block_hash prev) (drop (S i) c).
Proof.
  intros Hc Hs. remember (length c - S i)%nat as n eqn:Hn. revert i prev Hn.
  induction n as [|n IH]; intros i prev Hn Hp.
  { rewrite drop_ge by lia. done. }
  destruct (c !! S i) as [b|] eqn:Hb; [|apply lookup_ge_None in Hb; lia].
  rewrite (drop_S _ b (S i) Hb). cbn [fmap list_fmap header_path chained].
  destruct (valid_chain_blocks c r Hc Hs (S i) b Hb) as [_ Hh _ _ Hpar].
  destruct (valid_chain_blocks c r Hc Hs i prev Hp) as [_ Hh' _ _ _].
  simpl in Hpar. rewrite Nat.sub_0_r in Hpar. destruct (Hpar prev Hp) as [Hprev _]; [lia|].
  assert (height (header b) = u64 (height (header prev) + 1)) as Hhb.
  { rewrite Hh, Hh'. apply lookup_lt_Some in Hb. rewrite u64_small by (unfold sizeZ in Hs; ints). lia. }
  destruct (IH (S i) b) as [I1 I2]; [lia|done|]. rewrite Hhb in I1. done.
Qed.
End Lookup.

(** ** The messages of an exchange, with the links up *)

Ltac size_absurd := exfalso; unfold sizeZ in *; simpl in *; lia.

Section Exchange.
Context {ssl : OpenSSL} {iter : UnorderedMap} {order : PeerOrder} {inet : Inet}.
Implicit Types (w : P2PRelay) (c ext : list Block).

Lemma blocks_payload_size bs :
  sizeZ (enc_counted (fun b => enc_string (enc_block b)) bs) =
    4 + sumZ (fun b => 4 + sizeZ (enc_block b)) bs.
Proof.
  rewrite counted_size. f_equal. apply sumZ_ext, Forall_forall. intros b _. unfold enc_string.
  rewrite sizeZ_app. unfold sizeZ at 1. by rewrite le_encode_length.
Qed.

Lemma send_on_up k f w :
  link_ w = [] -> frame_ok f -> send_on k f w = (Ok tt, w, [(k, f)]).
Proof.
  intros Hl Hf. unfold send_on, sending. rewrite send_frame_on_ok, Hl by done. simpl.
  by destruct w; simpl in *; subst.
Qed.
Lemma with_connection_run id k (f : P2PConnection -> relay_op unit) w :
  connection (peers w) id = Some k -> with_connection id f w = f k w.
Proof. intros H. unfold with_connection, asking. by rewrite H. Qed.
Lemma storage_load_run {A} (f : list Block -> relay_op A) w c r :
  chain_inv (node_ w) c r -> (storage_load ≫= f) w = f c w.
Proof. intros H. unfold storage_load. by rewrite run_reading, (ci_load _ _ _ H). Qed.
Lemma has_storage_run w c r : chain_inv (node_ w) c r -> has_storage w = true.
Proof. apply chain_inv_exists. Qed.

Lemma batches_one {A} (l : list A) : 0 < sizeZ l <= max_batch -> batches l = [l].
Proof.
  intros H. assert (0 < length l <= Z.to_nat max_batch)%nat as Hl by (unfold sizeZ in H; lia).
  clear H. unfold batches. revert Hl. generalize (Z.to_nat max_batch) as n. intros n Hl.
  assert ((length l + n - 1) / n = 1)%nat as ->.
  { symmetry. apply (Nat.div_unique _ _ 1 (length l - 1)); lia. }
  cbn [seq fmap list_fmap]. rewrite Nat.mul_0_l, drop_0. by rewrite take_ge by lia.
Qed.

Lemma chain_locators_size c r :
  valid_chain c r -> 0 < sizeZ (chain_locators c) <= MAX_LOCATORS.
Proof.
  intros Hc%valid_chain_nonempty. split; [|by apply locators_loop_bound].
  destruct (last c) as [tip|] eqn:Ht; [|by apply last_None in Ht].
  destruct (locators_tip c tip Ht) as [new ->]. unfold sizeZ. simpl. lia.
Qed.

Lemma hashes_payload_size (l : list Hash256) : sizeZ (enc_counted hash_bytes l) = 4 + 32 * sizeZ l.
Proof.
  rewrite counted_size.
  rewrite (sumZ_ext _ (fun _ => 32)) by (apply Forall_forall; intros h _; unfold sizeZ; by rewrite hash_length).
  by rewrite sumZ_const.
Qed.
Lemma hashes_frame_ok ty (l : list Hash256) :
  sizeZ l <= 1024 -> frame_ok (mkFrame ty (enc_counted hash_bytes l)).
Proof.
  intros H. unfold frame_ok. cbn [payload]. rewrite hashes_payload_size. unfold CZR_P2P_MAX_PAYLOAD. lia.
Qed.

Lemma request_headers_run id k w c r :
  chain_inv (node_ w) c r -> connection (peers w) id = Some k -> link_ w = [] ->
  request_headers id w =
    (Ok tt, w, [(k, mkFrame P2PMessageType.GetHeaders (enc_counted hash_bytes (chain_locators c)))]).
Proof.
  intros H Hk Hl. pose proof (ci_valid _ _ _ H) as Hv. pose proof (chain_locators_size c r Hv) as Hn.
  unfold request_headers. rewrite (with_connection_run id k) by done. unfold asking.
  rewrite (has_storage_run w c r H). cbn [negb]. rewrite (storage_load_run _ w c r H).
  rewrite bool_decide_eq_false_2 by (by eapply valid_chain_nonempty). rewrite run_reading.
  unfold make_get_headers_frame, throw_if. rewrite bool_decide_eq_false_2 by (intros E; rewrite E in Hn; unfold sizeZ in Hn; simpl in Hn; lia).
  rewrite (proj2 (Z.ltb_ge _ _)) by lia. cbn [orb mbind result_bind].
  rewrite write_hashes_encode by (unfold MAX_LOCATORS in Hn; ints).
  apply send_on_up; [done|]. apply hashes_frame_ok. unfold MAX_LOCATORS in Hn. lia.
Qed.

Lemma headers_frame_fits headers :
  sizeZ headers <= MAX_HEADERS -> frame_ok (make_headers_frame headers).
Proof.
  intros H. unfold frame_ok. rewrite headers_frame_encode by (unfold MAX_HEADERS in H; ints).
  rewrite counted_size. rewrite (sumZ_ext _ (fun _ => 132)).
  - rewrite sumZ_const. unfold sizeZ, CZR_P2P_MAX_PAYLOAD, MAX_HEADERS in *. lia.
  - apply Forall_forall. intros h _. unfold enc_string. rewrite sizeZ_app, enc_header_length.
    unfold sizeZ. by rewrite le_encode_length.
Qed.

Lemma get_headers_run id k w c r locators i :
  chain_inv (node_ w) c r -> connection (peers w) id = Some k -> link_ w = [] ->
  0 < sizeZ locators <= MAX_LOCATORS -> first_known (chain_index c) locators = Some i ->
  (length c - S i <= Z.to_nat MAX_HEADERS)%nat ->
  handle_get_headers id (enc_counted hash_bytes locators) w =
    (Ok tt, w, [(k, make_headers_frame (header <$> drop (S i) c))]).
Proof.
  intros H Hk Hl Hn Hi Hfit. unfold handle_get_headers. rewrite run_reading.
  rewrite (proj2 (parse_get_headers_spec _ locators)) by done. unfold asking.
  rewrite (has_storage_run w c r H). cbn [negb]. rewrite (storage_load_run _ w c r H).
  rewrite bool_decide_eq_false_2 by (eapply valid_chain_nonempty; apply H). rewrite Hi.
  rewrite take_ge by (rewrite length_drop; lia). rewrite (with_connection_run id k) by done.
  apply send_on_up; [done|]. apply headers_frame_fits. unfold sizeZ, MAX_HEADERS in *.
  rewrite length_fmap, length_drop. lia.
Qed.

(** *** Headers that extend the tip *)

Lemma headers_payload_parse ext :
  Forall (fun b => header_acceptable (header b)) ext -> sizeZ ext <= MAX_HEADERS ->
  parse_headers_payload (payload (make_headers_frame (header <$> ext))) = Ok (header <$> ext).
Proof.
  intros Hh Hn. apply parse_headers_spec. split; [by apply Forall_fmap|].
  unfold sizeZ in *. rewrite length_fmap. split; [done|].
  apply headers_frame_encode. unfold sizeZ, MAX_HEADERS in *. rewrite length_fmap. ints.
Qed.

Lemma run_one (m : relay_op unit) w out :
  m w = (Ok tt, w, out) -> (m ≫= fun _ => mret tt) w = (Ok tt, w, out).
Proof. intros H. unfold mbind, op_bind. rewrite H. simpl. by rewrite app_nil_r. Qed.

Lemma request_blocks_run id k w (hs : list Hash256) :
  connection (peers w) id = Some k -> link_ w = [] -> 0 < sizeZ hs <= max_batch ->
  request_blocks id hs w =
    (Ok tt, w, [(k, mkFrame P2PMessageType.GetBlocks (enc_counted hash_bytes hs))]).
Proof.
  intros Hk Hl Hn. unfold request_blocks.
  assert (hs <> []) as Hne by (intros ->; size_absurd).
  rewrite bool_decide_eq_false_2 by done. rewrite (with_connection_run id k) by done.
  rewrite batches_one by done. cbn [for_each]. apply run_one. rewrite run_reading.
  unfold make_get_blocks_frame, throw_if. rewrite bool_decide_eq_false_2 by done.
  rewrite (proj2 (Z.ltb_ge _ _)) by lia. cbn [orb mbind result_bind]. unfold max_batch in Hn.
  rewrite write_hashes_encode by ints. apply send_on_up; [done|]. apply hashes_frame_ok. lia.
Qed.

Lemma headers_direct_run rd id k w c r tip ext :
  chain_inv (node_ w) c r -> connection (peers w) id = Some k -> link_ w = [] ->
  last c = Some tip -> Forall (fun b => header_acceptable (header b)) ext -> 0 < sizeZ ext <= max_batch ->
  header_path (block_hash tip) (u64 (height (header tip) + 1)) (header <$> ext) ->
  handle_headers rd id (payload (make_headers_frame (header <$> ext))) w =
    (Ok tt, w, [(k, mkFrame P2PMessageType.GetBlocks (enc_counted hash_bytes (block_hash <$> ext)))]).
Proof.
  intros H Hk Hl Ht Hh Hn Hp. unfold handle_headers. rewrite run_reading.
  rewrite headers_payload_parse by (unfold MAX_HEADERS, max_batch in *; done || lia).
  destruct ext as [|b ext]; [size_absurd|]. rewrite fmap_cons in *.
  pose proof Hp as (_ & Hprev & _).
  assert (classify_headers (header b) (header b :: (header <$> ext)) w =
    (Ok (true, header_hash <$> (header b :: (header <$> ext))), w, [])) as Hcl.
  { unfold classify_headers, asking. rewrite (has_storage_run w c r H). cbn [negb].
    rewrite (storage_load_run _ w c r H), Ht. unfold hash_eqb. rewrite bool_decide_eq_true_2 by done.
    by rewrite run_reading, (proj2 (check_links_spec _ _ _ _ _ _) (conj eq_refl Hp)). }
  unfold mbind at 1, op_bind at 1. rewrite Hcl, run_nil.
  rewrite <- fmap_cons, <- list_fmap_compose. apply (request_blocks_run id k); [done|done|].
  unfold sizeZ in *. by rewrite length_fmap.
Qed.

(** The blocks of a tail of the chain, by their hashes. *)
Lemma resolve_tail c r i :
  valid_chain c r -> sizeZ c <= UINT64_MAX -> collision_free c ->
  forall b, b ∈ drop i c -> (k ← chain_index c !! block_hash b; c !! k) = Some b.
Proof.
  intros Hc Hs Hf b [j Hj]%list_elem_of_lookup. rewrite lookup_drop in Hj.
  rewrite (valid_index c r (i + j) b) by done. done.
Qed.
Lemma omap_resolve {A B} (f : A -> B) (g : B -> option A) (l : list A) :
  (forall a, a ∈ l -> g (f a) = Some a) -> omap g (f <$> l) = l /\ mapM g (f <$> l) = Some l.
Proof.
  intros H. split.
  - induction l as [|a l IH]; [done|]. cbn. rewrite (H a) by (by left). f_equal.
    apply IH. intros x Hx. apply H. by right.
  - apply mapM_Some. induction l as [|a l IH]; constructor; [apply H; by left|].
    apply IH. intros x Hx. apply H. by right.
Qed.

Lemma get_blocks_run id k w c r i :
  chain_inv (node_ w) c r -> connection (peers w) id = Some k -> link_ w = [] -> collision_free c ->
  0 < sizeZ (drop i c) <= max_batch -> Forall relayable (drop i c) ->
  4 + sumZ (fun b => 4 + sizeZ (enc_block b)) (drop i c) <= CZR_P2P_MAX_PAYLOAD ->
  handle_get_blocks id (enc_counted hash_bytes (block_hash <$> drop i c)) w =
    (Ok tt, w, [(k, mkFrame P2PMessageType.Blocks (enc_counted (fun b => enc_string (enc_block b)) (drop i c)))]).
Proof.
  intros H Hk Hl Hf Hn Hr Hsz. unfold handle_get_blocks. rewrite run_reading.
  rewrite (proj2 (parse_get_blocks_spec _ (block_hash <$> drop i c)))
    by (split; [unfold sizeZ in *; by rewrite length_fmap|done]).
  unfold asking. rewrite (has_storage_run w c r H). cbn [negb]. rewrite (storage_load_run _ w c r H).
  rewrite bool_decide_eq_false_2 by (eapply valid_chain_nonempty; apply H). cbv zeta.
  destruct (omap_resolve block_hash (fun h => k ← chain_index c !! h; c !! k) (drop i c)) as [-> _].
  { eapply resolve_tail; [apply H|by eapply chain_inv_size|done]. }
  rewrite bool_decide_eq_false_2 by (intros E; rewrite E in Hn; size_absurd).
  rewrite run_reading, requested_blocks_encode by (unfold max_batch in Hn; done || ints).
  rewrite (with_connection_run id k) by done. apply send_on_up; [done|].
  unfold frame_ok. cbn [payload]. by rewrite blocks_payload_size.
Qed.
End Exchange.

(** *** Blocks of a fork *)

Section Fork.
Context {ssl : OpenSSL} {iter : UnorderedMap} {order : PeerOrder} {inet : Inet}.
Implicit Types (w : P2PRelay) (c ext : list Block).

Lemma lor_shift_u64 a b : is_u32 a -> is_u32 b -> is_u64 (Z.lor (Z.shiftl a 32) b).
Proof.
  intros Ha Hb. pose proof (Z.add_lor_land (Z.shiftl a 32) b) as Hadd.
  rewrite Z.shiftl_mul_pow2 in * by lia.
  assert (0 <= Z.land (a * 2 ^ 32) b) by (apply Z.land_nonneg; ints).
  split; [apply Z.lor_nonneg; ints|ints].
Qed.
Lemma session_id_ok r0 r1 r2 r3 :
  is_u32 r0 -> is_u32 r1 -> is_u32 r2 -> is_u32 r3 ->
  session_ok (make_sync_session_id (r0, r1, r2, r3)).
Proof.
  intros H0 H1 H2 H3. pose proof (lor_shift_u64 r0 r1 H0 H1). pose proof (lor_shift_u64 r2 r3 H2 H3).
  unfold make_sync_session_id. cbv zeta. destruct (_ && _); split; simpl; done || ints.
Qed.

Lemma session_size s : sizeZ (enc_session s) = 16.
Proof. unfold enc_session, sizeZ. by rewrite length_app, !le_encode_length. Qed.

Lemma sync_message_ok s bs :
  session_ok s -> Forall relayable bs -> sizeZ bs <= max_batch ->
  sync_ok (SyncBlocksMessage.mk s (enc_block <$> bs)).
Proof.
  intros Hs Hb Hn. split; [done|]. cbn. split; [|unfold sizeZ in *; by rewrite length_fmap].
  apply Forall_fmap. eapply Forall_impl; [exact Hb|]. intros b [_ H]. pose proof (enc_block_length b).
  unfold compose, sync_block_ok, sizeZ in *. lia.
Qed.
Lemma sync_size s bs :
  sizeZ (enc_sync (SyncBlocksMessage.mk s (enc_block <$> bs))) =
    20 + sumZ (fun b => 4 + sizeZ (enc_block b)) bs.
Proof.
  unfold enc_sync. cbn. rewrite sizeZ_app, session_size.
  pose proof (blocks_payload_size bs) as H. unfold enc_counted in H. 
  rewrite <- list_fmap_compose. unfold sizeZ at 2. rewrite length_fmap. fold (sizeZ bs). unfold compose.
  rewrite H. lia.
Qed.

Lemma start_fork_run id k w s headers (hs : list Hash256) :
  connection (peers w) id = Some k -> link_ w = [] -> pending_chain_syncs_ w !! id = None ->
  session_ok s -> 0 < sizeZ hs <= max_batch ->
  start_fork_sync id s headers hs w =
    (Ok tt,
     set_pending (<[id := mkPending s headers (replicate (length headers) default_block)
                            (replicate (length headers) false)]> (pending_chain_syncs_ w)) w,
     [(k, mkFrame P2PMessageType.GetSyncBlocks (enc_get_sync (GetSyncBlocksMessage.mk s hs)))]).
Proof.
  intros Hk Hl Hp Hs Hn. set (w1 := set_pending _ w).
  assert (open_session id s headers w = (Ok true, w1, [])) as Ho.
  { unfold open_session, asking. by rewrite Hp. }
  unfold start_fork_sync. unfold mbind at 1, op_bind at 1. rewrite Ho, run_nil.
  unfold catching, request_sync_blocks.
  assert (hs <> []) as Hne by (intros ->; size_absurd).
  rewrite bool_decide_eq_false_2 by done. unfold asking. change (peers w1) with (peers w). rewrite Hk.
  rewrite batches_one by done. cbn [for_each]. erewrite run_one; [done|]. rewrite run_reading.
  rewrite get_sync_encode by (split; done). apply send_on_up; [done|].
  unfold frame_ok. cbn [payload]. change (enc_get_sync _) with (enc_session s ++ enc_counted hash_bytes hs).
  rewrite sizeZ_app, session_size, hashes_payload_size. unfold max_batch, CZR_P2P_MAX_PAYLOAD in *. lia.
Qed.

(** The answer, when everything asked for fits into one message. *)
Lemma sync_response_run k s w bs sent :
  link_ w = [] -> session_ok s -> Forall relayable (sent ++ bs) ->
  0 < sizeZ (sent ++ bs) <= max_batch ->
  20 + sumZ (fun b => 4 + sizeZ (enc_block b)) (sent ++ bs) <= CZR_P2P_MAX_PAYLOAD ->
  sync_response_loop k s bs (enc_block <$> sent) w =
    (Ok tt, w, [(k, mkFrame P2PMessageType.SyncBlocks
       (enc_sync (SyncBlocksMessage.mk s (enc_block <$> (sent ++ bs)))))]).
Proof.
  intros Hl Hs. revert sent. induction bs as [|b bs IH]; intros sent Hr Hn Hsz.
  - rewrite app_nil_r in *. cbn [sync_response_loop].
    rewrite bool_decide_eq_false_2 by (destruct sent; [size_absurd|done]).
    unfold send_sync_blocks. rewrite run_reading, sync_encode by (apply sync_message_ok; [done..|apply Hn]).
    apply send_on_up; [done|]. unfold frame_ok. cbn [payload]. by rewrite sync_size.
  - cbn [sync_response_loop].
    assert (relayable b) as [Hb Hbs] by (rewrite Forall_forall in Hr; apply Hr; set_solver).
    rewrite run_reading, block_full_ok_serialize, run_require by done.
    pose proof (enc_block_length b) as Hlen.
    rewrite bool_decide_eq_false_2 by (intros E; rewrite E in Hlen; size_absurd).
    rewrite (proj2 (Z.ltb_ge _ _)) by done. cbn [orb negb].
    assert (16 + 4 + (sizeZ (enc_block <$> sent) + 1) * 4 + sizeZ (enc_block b) <= CZR_P2P_MAX_PAYLOAD) as Hnext.
    { rewrite sumZ_app in Hsz. change (sumZ ?f (b :: bs)) with (f b + sumZ f bs) in Hsz. cbn beta in Hsz.
      rewrite !sumZ_add, !sumZ_const in Hsz.
      assert (forall l, 0 <= sumZ (fun b => sizeZ (enc_block b)) l) as Hpos
        by (intros l; apply sumZ_nonneg, Forall_forall; intros; unfold sizeZ; lia).
      pose proof (Hpos sent). pose proof (Hpos bs). unfold sizeZ at 1. rewrite length_fmap. lia. }
    cbv zeta. rewrite (proj2 (Z.ltb_ge _ _)) by done.
    replace ((enc_block <$> sent) ++ [enc_block b]) with (enc_block <$> (sent ++ [b])) by (by rewrite fmap_app).
    rewrite (cons_middle b sent bs), app_assoc in *. by apply IH.
Qed.

Lemma get_sync_blocks_run id k w c r i s :
  chain_inv (node_ w) c r -> connection (peers w) id = Some k -> link_ w = [] -> collision_free c ->
  session_ok s -> 0 < sizeZ (drop i c) <= max_batch -> Forall relayable (drop i c) ->
  20 + sumZ (fun b => 4 + sizeZ (enc_block b)) (drop i c) <= CZR_P2P_MAX_PAYLOAD ->
  handle_get_sync_blocks id (enc_get_sync (GetSyncBlocksMessage.mk s (block_hash <$> drop i c))) w =
    (Ok tt, w, [(k, mkFrame P2PMessageType.SyncBlocks
       (enc_sync (SyncBlocksMessage.mk s (enc_block <$> drop i c))))]).
Proof.
  intros H Hk Hl Hf Hs Hn Hr Hsz. unfold handle_get_sync_blocks. rewrite run_reading.
  assert (get_sync_ok (GetSyncBlocksMessage.mk s (block_hash <$> drop i c))) as Hok.
  { split; [done|]. cbn. unfold sizeZ in *. by rewrite length_fmap. }
  rewrite get_sync_decode by done.
  cbv zeta. cbn [GetSyncBlocksMessage.session_id GetSyncBlocksMessage.block_hashes].
  rewrite (with_connection_run id k) by done. unfold asking.
  rewrite (has_storage_run w c r H). cbn [negb]. rewrite (storage_load_run _ w c r H). cbv zeta.
  destruct (omap_resolve block_hash (fun h => k ← chain_index c !! h; c !! k) (drop i c)) as [_ ->].
  { eapply resolve_tail; [apply H|by eapply chain_inv_size|done]. }
  by apply (sync_response_run k s w (drop i c) []).
Qed.

Lemma insert_middle {A} (l k : list A) x y i : i = length l -> <[i := x]> (l ++ y :: k) = l ++ x :: k.
Proof. intros ->. rewrite <- (Nat.add_0_r (length l)). by rewrite insert_app_r. Qed.

(** The blocks of a session arrive in order, after those filed before. *)
Lemma receive_run s filed bs :
  Forall relayable bs -> NoDup (block_hash <$> (filed ++ bs)) ->
  receive_sync_blocks (enc_block <$> bs)
    (mkPending s (header <$> (filed ++ bs)) (filed ++ replicate (length bs) default_block)
       (replicate (length filed) true ++ replicate (length bs) false)) =
    (Ok tt, mkPending s (header <$> (filed ++ bs)) (filed ++ bs) (replicate (length (filed ++ bs)) true)).
Proof.
  revert filed. induction bs as [|b bs IH]; intros filed Hr Hd.
  { simpl. by rewrite !app_nil_r. }
  apply Forall_cons in Hr as [[Hb _] Hr]. cbn [fmap list_fmap receive_sync_blocks].
  assert (block_deserialize_full (enc_block b) = Ok b) as ->
    by (by apply (run_whole_complete _ _ _ _ _ block_codec)).
  cbn [pending_headers received pending_blocks session_id length replicate].
  rewrite fmap_app, fmap_cons. rewrite list_find_app_r.
  2: { apply list_find_None, Forall_fmap, Forall_forall. intros x Hx E. rewrite fmap_app, fmap_cons in Hd.
       apply NoDup_app in Hd as (_ & Hd & _). apply (Hd (block_hash x)); [by apply list_elem_of_fmap_2|].
       unfold compose in E. fold (block_hash x) in E. rewrite E. by left. }
  cbn [list_find]. rewrite decide_True by done. cbn. rewrite length_fmap.
  rewrite list_lookup_middle by (by rewrite length_replicate). unfold hash_eqb.
  rewrite bool_decide_eq_true_2 by done. cbn [default negb]. 
  rewrite (insert_middle filed), (insert_middle (replicate (length filed) true)) by (by rewrite ?length_replicate).
  change (id false) with false. cbv iota.
  replace (replicate (length filed) true ++ true :: replicate (length bs) false)
    with (replicate (length (filed ++ [b])) true ++ replicate (length bs) false)
    by (rewrite length_app, replicate_add, <- app_assoc; done).
  rewrite <- fmap_cons, <- fmap_app, (cons_middle b filed bs), (cons_middle b filed (replicate _ _)), !app_assoc.
  rewrite (cons_middle b filed bs), app_assoc in Hd. by apply IH.
Qed.

(** Assembled with the ancestor and those headers, the blocks give the chain
    they come from. *)
Lemma find_ancestor_first c (b : Block) i k :
  c !! i = Some b -> (forall j x, c !! j = Some x -> block_hash x = block_hash b -> j = i) ->
  find_ancestor c (block_hash b) k = Some (k + i)%nat.
Proof.
  revert i k. induction c as [|x c IH]; intros i k Hi Hu; [done|]. simpl. unfold hash_eqb.
  case_bool_decide as E.
  - rewrite <- (Hu 0%nat x eq_refl E). by rewrite Nat.add_0_r.
  - destruct i as [|i]; [by injection Hi as ->|]. rewrite (IH i (S k)); [f_equal; lia|done|].
    intros j y Hj Hy. specialize (Hu (S j) y Hj Hy). lia.
Qed.
Lemma assemble_loop_run bs candidate prev h :
  header_path prev h (header <$> bs) ->
  assemble_loop (header <$> bs) bs candidate prev h = Some (candidate ++ bs).
Proof.
  revert candidate prev h. induction bs as [|b bs IH]; intros candidate prev h Hp; simpl.
  { by rewrite app_nil_r. }
  destruct Hp as (Hh & Hprev & Hp). unfold hash_eqb. rewrite !bool_decide_eq_true_2 by done.
  rewrite (proj2 (Z.eqb_eq _ _)) by done. cbn [negb]. rewrite IH; [by rewrite <- app_assoc|done].
Qed.

(** Chain [c2] from the block at [i] on, which [c1] has at the same place. *)
Lemma valid_unique c r i b :
  valid_chain c r -> sizeZ c <= UINT64_MAX -> collision_free c -> c !! i = Some b ->
  forall j x, c !! j = Some x -> block_hash x = block_hash b -> j = i.
Proof.
  intros Hc Hs Hf Hi j x Hj Hx. assert (x = b) as ->.
  { apply Hf; [by eapply list_elem_of_lookup_2..|done]. }
  by eapply valid_position.
Qed.
Lemma tail_hashes_NoDup c r i :
  valid_chain c r -> sizeZ c <= UINT64_MAX -> collision_free c -> NoDup (block_hash <$> drop i c).
Proof.
  intros Hc Hs Hf. apply NoDup_alt. intros j k h Hj Hk. rewrite list_lookup_fmap, lookup_drop in Hj, Hk.
  destruct (c !! (i + j)%nat) as [x|] eqn:Ex; [|done]. destruct (c !! (i + k)%nat) as [y|] eqn:Ey; [|done].
  simpl in *. simplify_eq. enough (i + j = i + k)%nat by lia.
  by eapply (valid_unique c r (i + k) y).
Qed.

Lemma assemble_fork c1 r1 c2 r2 i b :
  valid_chain c1 r1 -> valid_chain c2 r2 -> sizeZ c1 <= UINT64_MAX -> sizeZ c2 <= UINT64_MAX ->
  collision_free (c1 ++ c2) -> c1 !! i = Some b -> c2 !! i = Some b -> drop (S i) c2 <> [] ->
  assemble_candidate_chain c1 (header <$> drop (S i) c2) (drop (S i) c2) = Some c2.
Proof.
  intros H1 H2 S1 S2 Hf E1 E2 Hne. pose proof (tail_path c2 r2 b i H2 S2 E2) as [Hp _].
  pose proof (shared_prefix c1 r1 c2 r2 i b H1 H2 S1 S2 Hf E1 E2) as Hpre.
  unfold assemble_candidate_chain. destruct (drop (S i) c2) as [|x tl] eqn:Hd; [done|].
  rewrite fmap_cons. rewrite bool_decide_eq_false_2 by (by eapply valid_chain_nonempty).
  rewrite bool_decide_eq_false_2 by done. cbn [orb]. rewrite <- fmap_cons.
  rewrite bool_decide_eq_true_2 by (by rewrite length_fmap). cbn [negb].
  pose proof Hp as (_ & -> & _). rewrite (find_ancestor_first c1 b i 0); [|done|].
  - cbn [Nat.add]. rewrite E1, assemble_loop_run by done. by rewrite Hpre, <- Hd, take_drop.
  - eapply valid_unique; [done..| |done]. eapply collision_free_sub; [|exact Hf]. set_solver.
Qed.

(** A heavier chain is stored, whatever becomes of the pool. *)
Lemma replace_chain_run n c r candidate r' :
  chain_inv n c r -> running_ n = true -> storable candidate -> valid_chain candidate r' ->
  work c < work candidate -> block_hash <$> head candidate = block_hash <$> head c ->
  exists res n', replace_chain no_faults candidate n = (res, n', []) /\ chain_inv n' candidate r' /\
    (res = Ok true \/ exists e, res = Throw e).
Proof.
  intros H Hrun Hst Hv Hw Hg. pose proof (chain_inv_size n c r H) as Hsz.
  assert (sizeZ candidate <= UINT64_MAX) as Hszc by (destruct Hst as [_ Hs]; unfold MAX_BLOCKS in Hs; ints).
  unfold replace_chain, load_chain. autorewrite with run. rewrite Hrun, (ci_load _ _ _ H).
  autorewrite with run.
  rewrite (proj2 (prepare_spec c candidate (mkPlan candidate (utxo r')) r (ci_valid _ _ _ H) Hsz Hszc)) by eauto.
  cbn [plan_chain]. autorewrite with run. unfold replace.
  assert (validate_candidate_chain candidate = Ok true) by (apply validate_candidate_chain_spec; eauto).
  rewrite save_storable by done. autorewrite with run.
  destruct (revalidate_mempool_after_reorg _ _) as [mp|e]; autorewrite with run; eexists _, _;
    (split; [reflexivity|]); (split; [|eauto]); split; simpl; try done; by apply load_spec.
Qed.

Lemma sync_blocks_run id w c r c2 r2 i b s :
  chain_inv (node_ w) c r -> running_ (node_ w) = true -> storable c2 -> valid_chain c2 r2 ->
  work c < work c2 -> collision_free (c ++ c2) -> c !! i = Some b -> c2 !! i = Some b ->
  session_ok s -> Forall relayable (drop (S i) c2) -> 0 < sizeZ (drop (S i) c2) <= max_batch ->
  let n := length (drop (S i) c2) in
  pending_chain_syncs_ w !! id = Some (mkPending s (header <$> drop (S i) c2)
    (replicate n default_block) (replicate n false)) ->
  exists res w' n', handle_sync_blocks no_faults id
      (enc_sync (SyncBlocksMessage.mk s (enc_block <$> drop (S i) c2))) w = (res, w', []) /\
    chain_inv n' c2 r2 /\ w' = set_node n' (set_pending (delete id (pending_chain_syncs_ w)) w).
Proof.
  intros H Hrun Hst Hv Hw Hf E1 E2 Hs Hr Hn. cbv zeta. intros Hp.
  pose proof (chain_inv_size _ _ _ H) as Hsz.
  assert (sizeZ c2 <= UINT64_MAX) as Hsz2 by (destruct Hst as [_ ?]; unfold MAX_BLOCKS in *; ints).
  assert (collision_free c2) as Hf2 by (eapply collision_free_sub; [|exact Hf]; set_solver).
  set (tl := drop (S i) c2) in *. assert (tl <> []) as Hne by (intros E; rewrite E in Hn; size_absurd).
  unfold handle_sync_blocks. rewrite run_reading, sync_decode by (apply sync_message_ok; [done..|apply Hn]).
  cbv zeta. cbn [SyncBlocksMessage.session_id SyncBlocksMessage.blocks].
  set (w1 := set_pending (<[id := mkPending s (header <$> tl) tl (replicate (length tl) true)]>
    (pending_chain_syncs_ w)) w).
  assert (sync_receive id (SyncBlocksMessage.mk s (enc_block <$> tl)) w = (Ok (Some (header <$> tl, tl)), w1, []))
    as Hreceive.
  { unfold sync_receive, asking. cbn [SyncBlocksMessage.session_id SyncBlocksMessage.blocks]. rewrite Hp.
    cbn [session_id]. rewrite bool_decide_eq_true_2 by done. cbn [negb].
    rewrite bool_decide_eq_false_2 by (by intros ?%fmap_nil_inv).
    pose proof (receive_run s [] tl Hr) as Hrec. cbn [app length replicate] in Hrec.
    rewrite Hrec by (by eapply tail_hashes_NoDup).
    rewrite run_update, run_reading. cbn [received pending_headers pending_blocks].
    rewrite (proj2 (forallb_forall _ _)) by (intros x [-> _]%list_elem_of_In%elem_of_replicate; done). done. }
  unfold mbind at 1, op_bind at 1. rewrite Hreceive, run_nil.
  assert (sync_candidate (header <$> tl) tl w1 = (Ok c2, w1, [])) as Hcand.
  { unfold sync_candidate, asking. rewrite (has_storage_run w1 c r H). cbn [negb].
    rewrite (storage_load_run _ w1 c r H).
    pose proof (assemble_fork c r c2 r2 i b (ci_valid _ _ _ H) Hv Hsz Hsz2 Hf E1 E2 Hne) as Hasm.
    fold tl in Hasm. by rewrite Hasm. }
  unfold catching, mbind at 1, op_bind at 1. rewrite Hcand, run_nil.
  unfold mbind at 1, op_bind at 1, sync_replace. rewrite run_in_node. change (node_ w1) with (node_ w).
  destruct (replace_chain_run (node_ w) c r c2 r2 H Hrun Hst Hv Hw) as (res & n' & -> & Hn' & Hres).
  { destruct c as [|g c]; [by rewrite lookup_nil in E1|]. destruct c2 as [|g2 c2]; [by rewrite lookup_nil in E2|].
    pose proof (shared_prefix _ r _ r2 i b (ci_valid _ _ _ H) Hv Hsz Hsz2 Hf E1 E2) as Hpre.
    simpl in Hpre. injection Hpre as -> _. done. }
  assert (clear_pending_session id s (set_node n' w1) =
    (Ok tt, set_node n' (set_pending (delete id (pending_chain_syncs_ w)) w), [])) as Hclear.
  { unfold clear_pending_session, update. cbn [set_node w1 set_pending pending_chain_syncs_].
    rewrite lookup_insert_eq. cbn [session_id]. rewrite bool_decide_eq_true_2 by done.
    unfold set_pending. cbn. by rewrite delete_insert_eq. }
  destruct Hres as [->|[e ->]].
  - unfold require_op. rewrite Hclear. eauto 6.
  - unfold mbind, op_bind. rewrite Hclear. cbn. eauto 6.
Qed.

Lemma headers_fork_run r0 r1 r2 r3 id k w c r tip b ext :
  chain_inv (node_ w) c r -> connection (peers w) id = Some k -> link_ w = [] ->
  last c = Some tip -> b ∈ c -> block_hash b <> block_hash tip ->
  pending_chain_syncs_ w !! id = None -> is_u32 r0 -> is_u32 r1 -> is_u32 r2 -> is_u32 r3 ->
  Forall (fun b => header_acceptable (header b)) ext -> 0 < sizeZ ext <= max_batch ->
  header_path (block_hash b) (u64 (height (header b) + 1)) (header <$> ext) ->
  let s := make_sync_session_id (r0, r1, r2, r3) in
  handle_headers (r0, r1, r2, r3) id (payload (make_headers_frame (header <$> ext))) w =
    (Ok tt,
     set_pending (<[id := mkPending s (header <$> ext) (replicate (length ext) default_block)
                            (replicate (length ext) false)]> (pending_chain_syncs_ w)) w,
     [(k, mkFrame P2PMessageType.GetSyncBlocks
            (enc_get_sync (GetSyncBlocksMessage.mk s (block_hash <$> ext))))]).
Proof.
  intros H Hk Hl Ht Hb Hne Hpend U0 U1 U2 U3 Hh Hn Hp s. unfold handle_headers. rewrite run_reading.
  rewrite headers_payload_parse by (unfold MAX_HEADERS, max_batch in *; done || lia).
  destruct ext as [|x ext]; [size_absurd|]. rewrite fmap_cons in *.
  pose proof Hp as (Hhx & Hprev & _).
  assert (classify_headers (header x) (header x :: (header <$> ext)) w =
    (Ok (false, header_hash <$> (header x :: (header <$> ext))), w, [])) as Hcl.
  { unfold classify_headers, asking. rewrite (has_storage_run w c r H). cbn [negb].
    rewrite (storage_load_run _ w c r H), Ht. unfold hash_eqb at 1. rewrite Hprev, bool_decide_eq_false_2 by done.
    rewrite run_require, (proj2 (existsb_exists _ _)).
    2: { exists b. split; [by apply list_elem_of_In|]. unfold hash_eqb. by rewrite bool_decide_eq_true_2. }
    rewrite <- Hhx in Hp. by rewrite run_reading, (proj2 (check_links_spec _ _ _ _ _ _) (conj eq_refl Hp)). }
  unfold mbind at 1, op_bind at 1. rewrite Hcl, run_nil.
  rewrite <- fmap_cons, <- list_fmap_compose.
  rewrite (start_fork_run id k); [|done..| |].
  - by rewrite length_fmap.
  - by apply session_id_ok.
  - unfold sizeZ in *. by rewrite length_fmap.
Qed.
End Fork.

(** ** One exchange between two nodes *)

Section Converge.
Context {ssl : OpenSSL} {iter : UnorderedMap} {order : PeerOrder} {inet : Inet}.

(** The frames an operation handed to connection [k]. *)
Definition sent_to (k : P2PConnection) (out : list Sent) : list P2PFrame :=
  snd <$> filter (fun s => s.1 = k) out.

(** Nodes A and B, each with the other as a peer. *)
Record Pair := mkPair { side_a : P2PRelay; side_b : P2PRelay }.
Record Link := mkLink { id_of_a : Z; id_of_b : Z; to_a : P2PConnection; to_b : P2PConnection }.

(** B reads the frames of A and answers; A reads the answers. What A sends
    then is left to the next turn. *)
Definition turn (rd : Z * Z * Z * Z) (l : Link) (s : Pair * list P2PFrame) : Pair * list P2PFrame :=
  let '(p, frames) := s in
  let '(_, b, out) := for_each frames (handle_frame no_faults rd (id_of_a l)) (side_b p) in
  let '(_, a, out) := for_each (sent_to (to_a l) out) (handle_frame no_faults rd (id_of_b l)) (side_a p) in
  (mkPair a b, sent_to (to_b l) out).

(** A asks for headers; two turns follow. *)
Definition synchronise (rd : Z * Z * Z * Z) (l : Link) (p : Pair) : Pair :=
  let '(_, a, out) := request_headers (id_of_b l) (side_a p) in
  (turn rd l (turn rd l (mkPair a (side_b p), sent_to (to_b l) out))).1.

Lemma sent_to_one k f : sent_to k [(k, f)] = [f].
Proof. unfold sent_to. rewrite filter_cons_True by done. done. Qed.
Lemma for_each_one {A} (f : A -> relay_op unit) a w w' r out :
  f a w = (r, w', out) -> exists r', for_each [a] f w = (r', w', out).
Proof.
  intros H. cbn [for_each]. unfold mbind, op_bind. rewrite H. destruct r as [[]|e]; cbn; [|eauto].
  rewrite app_nil_r. eauto.
Qed.
Lemma turn_one rd l p f b out g a res_b res_a out_a :
  handle_frame no_faults rd (id_of_a l) f (side_b p) = (res_b, b, out) -> sent_to (to_a l) out = [g] ->
  handle_frame no_faults rd (id_of_b l) g (side_a p) = (res_a, a, out_a) ->
  turn rd l (p, [f]) = (mkPair a b, sent_to (to_b l) out_a).
Proof.
  intros Hb Hg Ha. unfold turn. destruct (for_each_one _ _ _ _ _ _ Hb) as [? ->]. rewrite Hg.
  by destruct (for_each_one _ _ _ _ _ _ Ha) as [? ->].
Qed.

(** A shared genesis and a locator that reaches it find a common block. *)
Lemma first_known_exists (c2 : list Block) locators (g : Block) :
  g ∈ c2 -> block_hash g ∈ locators -> exists i, first_known (chain_index c2) locators = Some i.
Proof.
  intros Hg. induction locators as [|h ls IH]; [by intros ?%not_elem_of_nil|].
  cbn [first_known]. destruct (chain_index c2 !! h) eqn:E; [eauto|].
  intros [<-|Hin]%elem_of_cons; [by apply chain_index_None in E|by apply IH].
Qed.
Lemma first_known_Some (c2 : list Block) locators i :
  first_known (chain_index c2) locators = Some i ->
  exists b, c2 !! i = Some b /\ block_hash b ∈ locators.
Proof.
  induction locators as [|h ls IH]; [done|]. cbn [first_known].
  destruct (chain_index c2 !! h) as [j|] eqn:E.
  - intros [= <-]. apply chain_index_Some in E as (b & Hb & <-). exists b. split; [done|by left].
  - intros (b & Hb & Hin)%IH. exists b. split; [done|by right].
Qed.
Lemma locators_of (c : list Block) h : h ∈ chain_locators c -> exists j b, c !! j = Some b /\ block_hash b = h.
Proof.
  unfold chain_locators. destruct (locators_loop_app 32 c (sizeZ c - 1) 1 []) as (new & -> & Hn).
  intros Hin. rewrite Forall_forall in Hn. apply Hn in Hin as (b & -> & [j Hj]%list_elem_of_lookup)%list_elem_of_fmap.
  eauto.
Qed.

Lemma work_app (c d : list Block) : work c <= work (c ++ d).
Proof.
  unfold work. rewrite sumZ_app. assert (0 <= sumZ (fun b => 2 ^ difficulty (header b)) d); [|lia].
  apply sumZ_nonneg, Forall_forall. intros b _. apply Z.pow_nonneg. lia.
Qed.

(** What B has after the first block of A's locator that it knows is at most
    one batch and one message. *)
Definition one_message (ca cb : list Block) : Prop :=
  forall i, first_known (chain_index cb) (chain_locators ca) = Some i ->
    sizeZ (drop (S i) cb) <= max_batch /\
    20 + sumZ (fun b => 4 + sizeZ (enc_block b)) (drop (S i) cb) <= CZR_P2P_MAX_PAYLOAD.

Record connected (l : Link) (p : Pair) : Prop := {
  co_a : connection (peers (side_b p)) (id_of_a l) = Some (to_a l);
  co_b : connection (peers (side_a p)) (id_of_b l) = Some (to_b l);
  co_links : link_ (side_a p) = [] /\ link_ (side_b p) = [];
  co_idle : pending_chain_syncs_ (side_a p) !! id_of_b l = None;
  co_running : running_ (node_ (side_a p)) = true
}.

(** The block the exchange starts from. *)
Lemma common_block ca ra cb rb :
  valid_chain ca ra -> valid_chain cb rb -> sizeZ ca <= 4194313 -> sizeZ cb <= UINT64_MAX ->
  head ca = head cb -> work ca < work cb -> collision_free (ca ++ cb) ->
  exists i b, first_known (chain_index cb) (chain_locators ca) = Some i /\
    ca !! i = Some b /\ cb !! i = Some b /\ 0 < sizeZ (drop (S i) cb).
Proof.
  intros Ha Hb Sa Sb Hg Hw Hf. assert (sizeZ ca <= UINT64_MAX) as Sa' by ints.
  destruct ca as [|g ca']; [by apply valid_chain_nonempty in Ha|]. destruct cb as [|g' cb']; [done|].
  injection Hg as <-. set (ca := g :: ca') in *. set (cb := g :: cb') in *.
  destruct (first_known_exists cb (chain_locators ca) g) as [i Hi]; [by left| |].
  { by apply (last_Some_elem_of _ (block_hash g)), locators_end. }
  destruct (first_known_Some cb _ i Hi) as (b & Hib & Hin).
  destruct (locators_of ca _ Hin) as (j & x & Hj & Hx). assert (x = b) as ->.
  { apply Hf; [| |done]; apply elem_of_app; [left|right]; by eapply list_elem_of_lookup_2. }
  pose proof (bic_height _ _ _ (valid_chain_blocks ca ra Ha Sa' j b Hj)) as H1.
  pose proof (bic_height _ _ _ (valid_chain_blocks cb rb Hb Sb i b Hib)) as H2.
  assert (j = i) as -> by lia. exists i, b. split_and!; [done..|].
  destruct (drop (S i) cb) as [|y tl] eqn:Hd; [|unfold sizeZ; simpl; lia]. exfalso.
  pose proof (shared_prefix ca ra cb rb i b Ha Hb Sa' Sb Hf Hj Hib) as Hpre.
  pose proof (work_app (take (S i) ca) (drop (S i) ca)) as Hle. rewrite take_drop, Hpre in Hle.
  pose proof (take_drop (S i) cb) as Htd. rewrite Hd, app_nil_r in Htd. rewrite Htd in Hle. lia.
Qed.

Lemma relayable_tail (bs : list Block) :
  Forall storable_block bs -> 20 + sumZ (fun b => 4 + sizeZ (enc_block b)) bs <= CZR_P2P_MAX_PAYLOAD ->
  Forall relayable bs.
Proof.
  induction 1 as [|b bs [Hb _] Hbs IH]; intros Hs; [constructor|].
  change (sumZ ?f (b :: bs)) with (f b + sumZ f bs) in Hs. cbn beta in Hs.
  assert (0 <= sumZ (fun b => 4 + sizeZ (enc_block b)) bs)
    by (apply sumZ_nonneg, Forall_forall; intros x _; unfold sizeZ; lia).
  constructor; [split; [done|lia]|apply IH; unfold sizeZ in *; lia].
Qed.
End Converge.

(** The exchange from the common block [b] at [i] on. *)
Section Turns.
Context {ssl : OpenSSL} {iter : UnorderedMap} {order : PeerOrder} {inet : Inet}.
Context (l : Link) (p : Pair) (ca cb : list Block) (ra rb : ChainValidationResult) (i : nat) (b : Block).
Hypothesis (Hco : connected l p).
Hypothesis (Ha : chain_inv (node_ (side_a p)) ca ra) (Hb : chain_inv (node_ (side_b p)) cb rb).
Hypothesis (Hf : collision_free (ca ++ cb)) (Hone : one_message ca cb).
Hypothesis (Hi : first_known (chain_index cb) (chain_locators ca) = Some i).
Hypothesis (Eia : ca !! i = Some b) (Eib : cb !! i = Some b) (Hpos : 0 < sizeZ (drop (S i) cb)).

#[local] Set Default Proof Using "All".
Local Abbreviation tl := (drop (S i) cb).

Lemma tl_size : 0 < sizeZ tl <= max_batch.
Proof. split; [done|]. by apply Hone. Qed.
Lemma tl_bytes : 20 + sumZ (fun b => 4 + sizeZ (enc_block b)) tl <= CZR_P2P_MAX_PAYLOAD.
Proof. by apply Hone. Qed.
Lemma tl_relayable : Forall relayable tl.
Proof. apply relayable_tail, tl_bytes. apply Forall_drop, (chain_inv_storable _ _ _ Hb). Qed.
Lemma tl_acceptable : Forall (fun b => header_acceptable (header b)) tl.
Proof.
  apply Forall_forall. intros x Hx. pose proof tl_relayable as Hr. rewrite Forall_forall in Hr.
  pose proof (Hr x Hx) as [Hok _]. apply list_elem_of_lookup in Hx as [j Hj]. rewrite lookup_drop in Hj.
  eapply block_acceptable; [apply Hb|by eapply chain_inv_size|exact Hj|exact Hok].
Qed.
Lemma tl_path : header_path (block_hash b) (u64 (height (header b) + 1)) (header <$> tl).
Proof. eapply tail_path; [apply Hb|by eapply chain_inv_size|done]. Qed.
Lemma cb_free : collision_free cb.
Proof. eapply collision_free_sub; [|exact Hf]. set_solver. Qed.

(** B answers the locator with the headers after the common block. *)
Lemma first_turn rd a k frame :
  handle_headers rd (id_of_b l) (payload (make_headers_frame (header <$> tl))) (side_a p) =
    (Ok tt, a, [(to_b l, frame)]) -> k = mkPair a (side_b p) ->
  synchronise rd l p = (turn rd l (k, [frame])).1.
Proof.
  intros Hh ->. destruct Hco as [Ca Cb [La Lb] _ _]. unfold synchronise.
  rewrite (request_headers_run _ (to_b l) _ ca ra) by done. rewrite sent_to_one.
  erewrite (turn_one rd l _ (mkFrame P2PMessageType.GetHeaders _));
    [|apply (get_headers_run _ (to_a l) _ cb rb _ i)|by rewrite sent_to_one|exact Hh]; try done.
  - by rewrite sent_to_one.
  - by eapply chain_locators_size, Ha.
  - pose proof tl_size as Hs. unfold sizeZ, max_batch, MAX_HEADERS in *. rewrite length_drop in Hs. lia.
Qed.

Lemma synchronise_direct rd :
  last ca = Some b ->
  let p' := synchronise rd l p in chain_inv (node_ (side_a p')) cb rb /\ side_b p' = side_b p.
Proof.
  intros Hlast. cbv zeta. destruct Hco as [Ca Cb [La Lb] _ _].
  erewrite first_turn; [|apply (headers_direct_run rd _ (to_b l) _ ca ra b);
    eauto using tl_acceptable, tl_size, tl_path|reflexivity].
  set (blocks := enc_counted (fun b => enc_string (enc_block b)) tl).
  assert (parse_blocks_payload blocks = Ok tl) as Hparse.
  { apply parse_blocks_spec. split; [apply tl_relayable|]. split; [apply tl_size|done]. }
  pose proof (chain_inv_size _ _ _ Ha) as Sa. pose proof (chain_inv_size _ _ _ Hb) as Sb.
  pose proof (shared_prefix ca ra cb rb i b (ci_valid _ _ _ Ha) (ci_valid _ _ _ Hb) Sa Sb Hf Eia Eib) as Hpre.
  assert (ca ++ tl = cb) as Happ.
  { transitivity (take (S i) cb ++ tl); [|apply take_drop]. rewrite <- Hpre. f_equal. symmetry. apply take_ge.
    rewrite last_lookup in Hlast.
    pose proof (valid_position ca ra _ _ _ (ci_valid _ _ _ Ha) Sa Hlast Eia). lia. }
  assert (absorbs ca ra tl tl rb) as Habs.
  { apply absorbs_all; [by eapply valid_chain_nonempty, Ha|apply Ha|rewrite Happ; apply Hb]. }
  assert (validate_candidate_chain cb = Ok true) as Hval by (apply validate_candidate_chain_spec; exists rb; apply Hb).
  pose proof (chain_inv_storable _ _ _ Hb) as Hst.
  destruct (handle_blocks no_faults (id_of_b l) blocks (side_a p)) as [[res a] out] eqn:E.
  erewrite (turn_one rd l _ (mkFrame P2PMessageType.GetBlocks _));
    [|apply (get_blocks_run _ (to_a l) _ cb rb (S i))|by rewrite sent_to_one|exact E];
    [|eauto using cb_free, tl_size, tl_relayable..|pose proof tl_bytes; lia].
  cbn [fst side_a side_b]. split; [|done].
  rewrite (handle_blocks_run no_faults _ _ _ ca ra tl tl rb Ha Hparse Habs) in E.
  rewrite bool_decide_eq_false_2, Happ, save_storable in E by (done || intros E0; rewrite E0 in Hpos; done).
  destruct (gossip_returns (id_of_b l) tl (set_node (set_cache (chain_cache_ (node_ (side_a p))) false
    (set_storage (mkDisk (Some (enc_storage cb)) None) (node_ (side_a p)))) (side_a p))) as (s & out' & E').
  rewrite E' in E. injection E as _ <- _. split; simpl; [by apply load_spec|apply Hb|done].
Qed.

Lemma synchronise_fork r0 r1 r2 r3 :
  last ca <> Some b -> work ca < work cb -> is_u32 r0 -> is_u32 r1 -> is_u32 r2 -> is_u32 r3 ->
  let p' := synchronise (r0, r1, r2, r3) l p in
  chain_inv (node_ (side_a p')) cb rb /\ side_b p' = side_b p.
Proof.
  intros Hlast Hw U0 U1 U2 U3. cbv zeta. destruct Hco as [Ca Cb [La Lb] Ci Cr].
  pose proof (chain_inv_size _ _ _ Ha) as Sa. pose proof (ci_valid _ _ _ Ha) as Va.
  assert (collision_free ca) as Hfa by (eapply collision_free_sub; [|exact Hf]; set_solver).
  destruct (last ca) as [tip|] eqn:Ht; [|by apply last_None in Ht; eapply valid_chain_nonempty in Ht].
  erewrite first_turn; [|apply (headers_fork_run r0 r1 r2 r3 _ (to_b l) _ ca ra tip b);
    eauto using tl_acceptable, tl_size, tl_path, list_elem_of_lookup_2|reflexivity].
  2: { intros E. rewrite last_lookup in Ht.
       assert (i = pred (length ca)) as -> by (by eapply (valid_unique ca ra _ tip)). congruence. }
  set (s := make_sync_session_id (r0, r1, r2, r3)). assert (session_ok s) as Hs by (by apply session_id_ok).
  set (a := set_pending _ (side_a p)).
  destruct (sync_blocks_run (id_of_b l) a ca ra cb rb i b s) as (res & w' & n' & E & Hn' & ->);
    eauto using tl_relayable, tl_size, chain_inv_storable, ci_valid.
  { apply lookup_insert_eq. }
  erewrite (turn_one _ l _ (mkFrame P2PMessageType.GetSyncBlocks _));
    [|apply (get_sync_blocks_run _ (to_a l) _ cb rb (S i))|by rewrite sent_to_one|exact E];
    [|eauto using cb_free, tl_size, tl_relayable, tl_bytes..]. done.
Qed.
End Turns.

(** ** Claims *)

Section SyncClaims.
Context {ssl : OpenSSL} {iter : UnorderedMap} {order : PeerOrder} {inet : Inet}.

(** The locator loop ends within its 32 passes, more passes change
    nothing, and its hashes lead from the tip to the genesis block for every
    chain of up to 4,194,313 blocks. *)
Theorem locator_reaches_genesis chain tip g :
  last chain = Some tip -> head chain = Some g -> sizeZ chain <= 4194313 ->
  head (chain_locators chain) = Some (block_hash tip) /\
  last (chain_locators chain) = Some (block_hash g) /\
  0 < sizeZ (chain_locators chain) <= MAX_LOCATORS /\
  forall k, locators_loop (32 + k) chain (sizeZ chain - 1) 1 [] = chain_locators chain.
Proof.
  intros Ht Hg Hs. destruct (locators_tip chain tip Ht) as [new E].
  split; [by rewrite E|]. split; [|split].
  - by apply locators_end.
  - split; [rewrite E; unfold sizeZ; simpl; lia|]. by apply locators_loop_bound.
  - intros k. by apply locators_loop_fuel.
Qed.

(** C3: a node that is behind catches up in one exchange with a peer of more
    work, whether the peer's chain extends its own or forks from it: it asks
    for headers, the peer answers from the last common block the locator names,
    the node asks for the blocks and ends with the peer's chain stored. The
    links are up and nothing else runs, the node is running with no
    synchronisation session open with the peer, its chain has at most 4,194,313
    blocks (what its locator can reach back over), the two chains share their
    genesis, no two of their blocks collide under SHA-256, and the blocks fit
    into one message. *)
Theorem sync_converges l p ca ra cb rb r0 r1 r2 r3 :
  connected l p -> chain_inv (node_ (side_a p)) ca ra -> chain_inv (node_ (side_b p)) cb rb ->
  head ca = head cb -> work ca < work cb -> sizeZ ca <= 4194313 ->
  collision_free (ca ++ cb) -> one_message ca cb ->
  is_u32 r0 -> is_u32 r1 -> is_u32 r2 -> is_u32 r3 ->
  let p' := synchronise (r0, r1, r2, r3) l p in
  chain_inv (node_ (side_a p')) cb rb /\ side_b p' = side_b p.
Proof.
  intros Hco Ha Hb Hg Hw Hs Hf Hone U0 U1 U2 U3.
  destruct (common_block ca ra cb rb) as (i & b & Hi & Eia & Eib & Hpos);
    eauto using ci_valid, chain_inv_size.
  destruct (decide (last ca = Some b)).
  - by apply (synchronise_direct l p ca cb ra rb i b).
  - by apply (synchronise_fork l p ca cb ra rb i b).
Qed.
End SyncClaims.

(** ** Witnesses *)

Lemma locator_reaches_genesis_witness :
  last (chain_locators (ssl := Toy.ssl) sample_chain) = Some (block_hash (ssl := Toy.ssl) sample_genesis).
Proof.
  destruct (locator_reaches_genesis (ssl := Toy.ssl) sample_chain chain_block2 sample_genesis)
    as (_ & H & _); [reflexivity|reflexivity|decide_vm|exact H].
Defined.

(** The sample node, one block behind its peer. *)
Definition ahead_node : CaesarNode :=
  mkNode (sample_disk sample_chain) new_mempool [] false 0 true false NETWORK_MAINNET.
Definition sample_pair : Pair := mkPair sample_relay (mkRelay ahead_node story_manager ∅ ∅ true []).
Definition sample_link : Link := mkLink 1 2 5 6.

Lemma sync_converges_witness :
  let p' := synchronise (ssl := Toy.ssl) (iter := listed) (order := in_order) (inet := lan_inet)
              (1, 2, 3, 4) sample_link sample_pair in
  load (ssl := Toy.ssl) (storage_ (node_ (side_a p'))) = Ok sample_chain /\ side_b p' = side_b sample_pair.
Proof.
  destruct (sync_converges (ssl := Toy.ssl) (iter := listed) (order := in_order) (inet := lan_inet)
    sample_link sample_pair node_chain sample_result1 sample_chain sample_result 1 2 3 4)
    as [Hc Hb]; [..|split; [apply (ci_load _ _ _ Hc)|exact Hb]].
  - split; [decide_vm|decide_vm|split; reflexivity|reflexivity|reflexivity].
  - apply sample_chain_inv.
  - split; [|apply rebuild_valid_chain, sample_chain_valid|done].
    apply load_spec. split; [reflexivity|]. split; [apply sample_chain_storable|apply sample_chain_candidate].
  - reflexivity.
  - decide_vm.
  - decide_vm.
  - apply collision_free_spec. decide_vm.
  - intros i Hi. assert (i = 1%nat) as ->; [|split; decide_vm].
    enough (Some i = Some 1%nat) as E by (by injection E as ->). rewrite <- Hi. decide_vm.
  - decide_vm.
  - decide_vm.
  - decide_vm.
  - decide_vm.
Defined.
