(* ===== verification/RelayReader.v ===== *)
(** The reader of a peer's connection: it ends on every script of the socket,
    it leaves no registration behind, and what makes it give up a peer. *)

From S2P Require Import Prelude Serialization Crypto Transaction UTXO Ownership Coinbase.
From S2P Require Import Consensus Block NetworkParams ChainValidator ChainWork Mempool.
From S2P Require Import BlockBuilder ChainReplacement MempoolReorg Storage Node.
From S2P Require Import P2PWire P2PStream PeerManager RelayWire Relay RelayFacts.
From stdpp Require Import options.
Local Open Scope Z_scope.

(** ** What a script still holds *)

Definition event_size (ev : RecvEvent) : nat :=
  match ev with Data b bs => S (length bs) | _ => 1 end.
Definition script_size (evs : list RecvEvent) : nat := sum_list_with event_size evs.

(** A read takes something, unless it fails for good. *)
Lemma recv_data_size want b bs got left_over :
  (0 < want)%nat -> recv_data want b bs = (got, left_over) ->
  (script_size left_over < event_size (Data b bs))%nat.
Proof.
  intros Hw. unfold recv_data. intros [= _ <-]. destruct (drop want (b :: bs)) as [|x xs] eqn:E; [simpl; lia|].
  apply (f_equal length) in E. rewrite length_drop in E. simpl in *. lia.
Qed.

Lemma receive_loop_size evs size received res evs' :
  receive_loop evs size received = (res, evs') ->
  (script_size evs' <= script_size evs)%nat /\
  ((length received < size)%nat -> (exists out, res = Ok out) \/ (exists e, res = Throw e /\ is_timeout e = true) ->
   (script_size evs' < script_size evs)%nat).
Proof.
  revert received. induction evs as [|ev evs IH]; intros received; cbn [receive_loop]; case_bool_decide as Hl;
    [intros [= <- <-]|intros [= <- <-]; split; [done|lia]| |intros [= <- <-]; split; [done|lia]].
  { split; [done|]. intros _ [[? ?]|(e & [= <-] & ?)]; done. }
  destruct ev as [b bs| | | |].
  - destruct (recv_data _ b bs) as [got left_over] eqn:E. apply recv_data_size in E as Hd; [|lia].
    destruct left_over as [|x xs].
    + intros [H1 H2]%IH. change (script_size (Data b bs :: evs)) with (event_size (Data b bs) + script_size evs)%nat.
      simpl in Hd |- *. split; [lia|]. intros; lia.
    + intros [= <- <-]. unfold script_size in *. rewrite ?app_comm_cons, sum_list_with_app.
      change (sum_list_with event_size (Data b bs :: evs))
        with (event_size (Data b bs) + sum_list_with event_size evs)%nat. split; [lia|]. intros; lia.
  - intros [= <- <-]. split; [done|]. intros _ [[? ?]|(e & [= <-] & ?)]; done.
  - intros [H1 H2]%IH. change (script_size (Eintr :: evs)) with (S (script_size evs)). split; [lia|]. intros; lia.
  - intros [= <- <-]. change (script_size (Again :: evs)) with (S (script_size evs)). split; [lia|]. intros; lia.
  - intros [= <- <-]. change (script_size (RecvFailed :: evs)) with (S (script_size evs)). split; [lia|]. intros; lia.
Qed.

Lemma receive_frame_size evs res evs' :
  receive_frame evs = (res, evs') ->
  (exists f, res = Ok f) \/ (exists e, res = Throw e /\ is_timeout e = true) ->
  (script_size evs' < script_size evs)%nat.
Proof.
  unfold receive_frame, receive_all. destruct (receive_loop evs 4 []) as [[lb|e] e1] eqn:E1;
    apply receive_loop_size in E1 as [H1 H1'].
  2: { intros [= <- <-] [[? ?]|(e' & [= <-] & Ht)]; [done|]. apply H1'; [simpl; lia|]. eauto. }
  specialize (H1' ltac:(simpl; lia) (or_introl (ex_intro _ lb eq_refl))).
  destruct (_ <? _); [intros [= <- <-]; lia|].
  destruct (receive_loop e1 _ []) as [[body|e] e2] eqn:E2; apply receive_loop_size in E2 as [H2 _];
    intros [= <- <-] _; lia.
Qed.

(** ** The loop *)

Section Reader.
Context {ssl : OpenSSL} {iter : UnorderedMap} {order : PeerOrder} {inet : Inet}.
Implicit Types (w : P2PRelay).

(** A turn returns whatever the handler does, and goes on only after a frame
    or a timeout. *)
Lemma reader_turn_returns f rd id frame w :
  exists go_on w' out, reader_turn f rd id frame w = (Ok go_on, w', out) /\
    (go_on = true -> (exists fr, frame = Ok fr) \/ (exists e, frame = Throw e /\ is_timeout e = true)).
Proof.
  unfold reader_turn, catching, mbind, op_bind, reading. destruct frame as [fr|e].
  - destruct (handle_frame f rd id fr w) as [[[[]|e] w1] out1] eqn:E; cbn; eexists _, _, _; (split; [done|eauto]).
  - cbn. eexists _, _, _. split; [done|]. intros Ht. right. eauto.
Qed.

Lemma reader_loop_returns fuel i env id evs w :
  (script_size evs < fuel)%nat ->
  exists w' out, reader_loop fuel i env id evs w = (Ok tt, w', out) /\
    forall k, reader_loop (fuel + k) i env id evs w = (Ok tt, w', out).
Proof.
  revert i evs w. induction fuel as [|fuel IH]; intros i evs w Hf; [lia|].
  cbn [reader_loop Nat.add]. unfold asking. destruct (relay_running_ w); cbn [negb]; [|eauto].
  destruct (receive_frame evs) as [frame evs'] eqn:E.
  destruct (reader_turn_returns (env i).1 (env i).2 id frame w) as (go & w1 & out & Ht & Hgo).
  unfold mbind, op_bind. rewrite Ht. destruct go; [|cbn; eauto].
  pose proof (receive_frame_size evs frame evs' E (Hgo eq_refl)) as Hs.
  destruct (IH (S i) evs' w1) as (w2 & out2 & E2 & Hk); [lia|]. rewrite E2. eexists _, _. split; [done|].
  intros k. by rewrite Hk.
Qed.

(** A frame that ends the loop at once. *)
Lemma reader_stops fuel i env id evs evs' frame w w1 out :
  relay_running_ w = true -> receive_frame evs = (frame, evs') ->
  reader_turn (env i).1 (env i).2 id frame w = (Ok false, w1, out) ->
  reader_loop (S fuel) i env id evs w = (Ok tt, w1, out).
Proof.
  intros Hr E Ht. cbn [reader_loop]. unfold asking. rewrite Hr. cbn [negb]. rewrite E.
  unfold mbind, op_bind. rewrite Ht. cbn. by rewrite app_nil_r.
Qed.
Lemma reader_goes_on fuel i env id evs evs' frame w w1 out :
  relay_running_ w = true -> receive_frame evs = (frame, evs') ->
  reader_turn (env i).1 (env i).2 id frame w = (Ok true, w1, out) ->
  reader_loop (S fuel) i env id evs w =
    let '(r, w2, out') := reader_loop fuel (S i) env id evs' w1 in (r, w2, out ++ out').
Proof.
  intros Hr E Ht. cbn [reader_loop]. unfold asking. rewrite Hr. cbn [negb]. rewrite E.
  unfold mbind, op_bind. by rewrite Ht.
Qed.

(** After a cut of the first byte of the length, the next four bytes are the
    rest of the length and the type, which is too large a length. *)
Lemma shifted_length f tl b rest :
  frame_ok f -> enc_frame f ++ tl = b :: rest ->
  (4 <= length rest)%nat /\ CZR_P2P_MAX_PAYLOAD < frame_length (take 4 rest).
Proof.
  intros Hf. rewrite enc_frame_split. pose proof (le_encode_length 4 (sizeZ (payload f))) as Hl.
  destruct (le_encode 4 (sizeZ (payload f))) as [|b0 [|b1 [|b2 [|b3 [|]]]]]; try done.
  cbn [app]. intros [= <- <-]. split; [simpl; lia|]. cbn [take]. rewrite frame_length_decode by done.
  set (ty := P2PMessageType.value (frame_type f)).
  assert (1 <= ty <= 15) as Hty by (unfold ty; destruct (frame_type f); simpl; lia).
  pose proof (byteZ_bound b1). pose proof (byteZ_bound b2). pose proof (byteZ_bound b3).
  cbn [le_decode]. rewrite take_0, byteZ_u8, Z.mod_small by lia. cbn [le_decode]. unfold CZR_P2P_MAX_PAYLOAD. lia.
Qed.

(** Writing an endpoint that does not validate fails, and not with a message
    of the receive timeout. *)
Lemma throw_if_Throw c m e : throw_if c m = Throw e -> e = m.
Proof. destruct c; [by intros [= <-]|done]. Qed.
Lemma write_endpoint_error (buf : BinaryWriter) x e : write_endpoint buf x = Throw e -> is_timeout e = false.
Proof.
  unfold write_endpoint. intros [H|(? & _ & H)]%bind_Throw.
  - unfold endpoint_validate in H.
    do 3 (apply bind_Throw in H as [->%throw_if_Throw|(? & _ & H)]; [reflexivity|]).
    destruct (inet_pton _) as [host|]; [|by injection H as <-]. cbv zeta in H.
    do 2 (apply bind_Throw in H as [->%throw_if_Throw|(? & _ & H)]; [reflexivity|]).
    apply throw_if_Throw in H as ->. reflexivity.
  - apply bind_Throw in H as [H|(? & _ & H)]; [|done]. unfold write_string in H.
    apply bind_Throw in H as [->%throw_if_Throw|(? & _ & H)]; [reflexivity|done].
Qed.
Lemma peers_frame_error l bad :
  bad ∈ l -> endpoint_validate bad <> Ok tt -> exists e, make_peers_frame l = Throw e /\ is_timeout e = false.
Proof.
  intros Hin Hbad. unfold make_peers_frame, throw_if. destruct (_ <? _); [by eexists|]. cbn [mbind result_bind].
  generalize (write_u32 (u32 (sizeZ l)) []) as buf.
  induction l as [|x l IH]; intros buf; [by apply not_elem_of_nil in Hin|]. cbn [foldM_r].
  destruct (write_endpoint buf x) as [buf'|e] eqn:E; [|eexists; split; [done|by eapply write_endpoint_error]].
  apply elem_of_cons in Hin as [->|Hin]; [|by apply IH]. unfold write_endpoint in E.
  destruct (endpoint_validate x) as [[]|]; done.
Qed.

Lemma reader_thread_run fuel env id evs w k w1 out :
  connection (peers w) id = Some k -> reader_loop fuel 0 env id evs w = (Ok tt, w1, out) ->
  reader_thread fuel env id evs w =
    (Ok tt,
     if relay_running_ w1
     then set_manager (remove_peer id (peers w1)) (set_readers (active_readers_ w1 ∖ {[id]}) w1)
     else set_readers (active_readers_ w1 ∖ {[id]}) w1, out).
Proof.
  intros Hk E. unfold reader_thread, with_connection, asking. rewrite Hk. unfold mbind at 1, op_bind at 1.
  rewrite E. unfold reader_exit, asking. rewrite run_update. cbn [relay_running_ set_readers].
  destruct (relay_running_ w1); cbn; by rewrite app_nil_r.
Qed.
End Reader.

(** ** Claims *)

Section ReaderClaims.
Context {ssl : OpenSSL} {iter : UnorderedMap} {order : PeerOrder} {inet : Inet}.

(** C26: whatever bytes, pauses and failures a connection delivers, its reader
    ends after at most one turn per byte and event, with no exception; the peer
    has no reader then and, unless the relay was stopped, is out of the table. *)
Theorem reader_terminates fuel env id evs w :
  contains (peers w) id = true -> (script_size evs < fuel)%nat ->
  exists w' out,
    (forall k, reader_thread (fuel + k) env id evs w = (Ok tt, w', out)) /\
    id ∉ active_readers_ w' /\
    (relay_running_ w' = true -> contains (peers w') id = false).
Proof.
  unfold contains. intros [e He]%bool_decide_eq_true Hf.
  assert (connection (peers w) id = Some (connection_of e)) as Hk by (unfold connection; by rewrite He).
  destruct (reader_loop_returns fuel 0 env id evs w Hf) as (w1 & out & _ & Hloop).
  eexists _, out. split; [intros k; by apply (reader_thread_run _ _ _ _ _ _ _ _ Hk (Hloop k))|].
  destruct (relay_running_ w1) eqn:Hr; cbn; (split; [set_solver|]); [intros _|congruence].
  apply bool_decide_eq_false. unfold remove_peer. cbn. rewrite lookup_delete_eq. by intros [? ?].
Qed.

(** A pause of the connection after the first byte of a frame makes the
    reader drop a peer that sent nothing but well-formed frames: the timeout
    discards that byte, the reader goes on as if at the start of a frame, and
    reads the rest of the length and the type as a length beyond the limit.
    Without the pause the same bytes are the frame. *)
Theorem partial_timeout_drops_peer fuel env id w b evs f tl :
  contains (peers w) id = true -> relay_running_ w = true -> frame_ok f ->
  b :: stream evs = enc_frame f ++ tl ->
  (exists evs', receive_frame (Data b [] :: evs) = (Ok f, evs')) /\
  exists w', reader_thread (2 + fuel) env id (Data b [] :: Again :: evs) w = (Ok tt, w', []) /\
    node_ w' = node_ w /\ contains (peers w') id = false.
Proof.
  unfold contains. intros [e He]%bool_decide_eq_true Hr Hf Hs.
  split. { destruct (receive_frame_complete (Data b [] :: evs) f tl Hf) as (evs' & E & _); eauto. }
  assert (connection (peers w) id = Some (connection_of e)) as Hk by (unfold connection; by rewrite He).
  destruct (shifted_length f tl b (stream evs) Hf (eq_sym Hs)) as [Hl Hbig].
  destruct (receive_all_spec evs 4 Hl) as (evs1 & E1 & _).
  assert (receive_frame evs = (Throw "P2P payload too large", evs1)) as Hsecond.
  { unfold receive_frame. rewrite E1. cbv zeta. by rewrite (proj2 (Z.ltb_lt _ _) Hbig). }
  assert (reader_loop (2 + fuel) 0 env id (Data b [] :: Again :: evs) w = (Ok tt, w, [])) as Hloop.
  { rewrite (reader_goes_on (1 + fuel) 0 env id _ evs (Throw "TCP receive timeout during partial frame") w w []);
      [|done|done|done].
    by rewrite (reader_stops fuel 1 env id evs evs1 _ w w [] Hr Hsecond). }
  eexists. split; [apply (reader_thread_run _ _ _ _ _ _ _ _ Hk Hloop)|]. rewrite Hr. split; [done|].
  apply bool_decide_eq_false. unfold remove_peer. cbn. rewrite lookup_delete_eq. by intros [? ?].
Qed.

(** One connected peer whose address is not a unicast address outside
    loopback ends discovery for the others: any peer that asks for addresses
    gets none and is dropped for asking. *)
Theorem private_peer_breaks_discovery fuel env id w evs evs' e bad :
  peers_ (peers w) !! id = Some e -> relay_running_ w = true ->
  receive_frame evs = (Ok (mkFrame P2PMessageType.GetPeers []), evs') ->
  bad ∈ take (Z.to_nat CZR_P2P_MAX_DISCOVERY_PEERS)
    (filter (fun x => ~ (address x = info_address (info_of e) /\ port x = info_port (info_of e)))
       (peer_endpoints_snapshot (peers w))) ->
  endpoint_validate bad <> Ok tt ->
  exists w', reader_thread (1 + fuel) env id evs w = (Ok tt, w', []) /\ contains (peers w') id = false.
Proof.
  intros He Hr E Hin Hbad.
  assert (connection (peers w) id = Some (connection_of e)) as Hk by (unfold connection; by rewrite He).
  destruct (peers_frame_error _ bad Hin Hbad) as (err & Hframe & Ht).
  assert (handle_get_peers id [] w = (Throw err, w, [])) as Hget.
  { unfold handle_get_peers. rewrite run_reading. cbn [parse_get_peers_payload].
    unfold with_connection, asking. rewrite Hk, run_reading. unfold info. rewrite He. cbv zeta.
    by rewrite run_reading, Hframe. }
  assert (reader_loop (1 + fuel) 0 env id evs w = (Ok tt, w, [])) as Hloop.
  { apply (reader_stops fuel 0 env id evs evs' _ w w [] Hr E). unfold reader_turn, catching.
    rewrite run_reading. unfold mbind, op_bind, handle_frame. cbn [frame_type payload]. rewrite Hget. cbn.
    by rewrite Ht. }
  eexists. split; [apply (reader_thread_run _ _ _ _ _ _ _ _ Hk Hloop)|]. rewrite Hr. 
  apply bool_decide_eq_false. unfold remove_peer. cbn. rewrite lookup_delete_eq. by intros [? ?].
Qed.
End ReaderClaims.

(** ** Witnesses *)

Definition calm (_ : nat) : Faults * (Z * Z * Z * Z) := (no_faults, (1, 2, 3, 4)).

(** A ping, a pause, half a frame and the end of the connection. *)
Definition rough_script : list RecvEvent := cut_frames ++ [Again; Eintr; Data Byte.x08 [Byte.x00]].

Lemma reader_terminates_witness :
  exists w' out,
    reader_thread (ssl := Toy.ssl) (iter := listed) (order := in_order) (inet := lan_inet)
      (S (script_size rough_script)) calm 1 rough_script sample_relay = (Ok tt, w', out) /\
    (relay_running_ w' = true -> contains (peers w') 1 = false).
Proof.
  destruct (reader_terminates (ssl := Toy.ssl) (iter := listed) (order := in_order) (inet := lan_inet)
    (S (script_size rough_script)) calm 1 rough_script sample_relay) as (w' & out & H & _ & Hc);
    [reflexivity|lia|].
  exists w', out. split; [|exact Hc]. rewrite <- (H 0%nat), Nat.add_0_r. reflexivity.
Defined.

Lemma partial_timeout_drops_peer_witness :
  exists w', reader_thread (ssl := Toy.ssl) (iter := listed) (order := in_order) (inet := lan_inet)
      2 calm 1 [Data Byte.x08 []; Again;
        Data Byte.x00 [Byte.x00; Byte.x00; Byte.x02; Byte.x07; Byte.x00; Byte.x00; Byte.x00; Byte.x00;
          Byte.x00; Byte.x00; Byte.x00]] sample_relay = (Ok tt, w', []) /\
    contains (peers w') 1 = false.
Proof.
  destruct (partial_timeout_drops_peer (ssl := Toy.ssl) (iter := listed) (order := in_order) (inet := lan_inet)
    0 calm 1 sample_relay Byte.x08
    [Data Byte.x00 [Byte.x00; Byte.x00; Byte.x02; Byte.x07; Byte.x00; Byte.x00; Byte.x00; Byte.x00;
          Byte.x00; Byte.x00; Byte.x00]]
    (mkFrame P2PMessageType.Ping (P2PPing.serialize_binary (P2PPing.mk 7))) [])
    as (_ & w' & H & _ & Hc); [reflexivity|reflexivity|decide_vm|vm_compute; reflexivity|].
  exists w'. exact (conj H Hc).
Defined.

(** A network where the second peer connected from loopback. *)
Definition home_inet : Inet := {| inet_pton s :=
  if bool_decide (s = str "127.0.0.1") then Some 0x7F000001 else Some 0x0A000001 |}.
Definition home_relay : P2PRelay :=
  set_manager (peer_ops (order := in_order) (inet := home_inet)
    [(0, OpAdd 5 (str "10.0.0.1") 18444); (1, OpAdd 6 (str "127.0.0.1") 40000)] new_manager) sample_relay.

Lemma private_peer_breaks_discovery_witness :
  exists w', reader_thread (ssl := Toy.ssl) (iter := listed) (order := in_order) (inet := home_inet)
      1 calm 1 [Data Byte.x00 [Byte.x00; Byte.x00; Byte.x00; Byte.x0e]] home_relay = (Ok tt, w', []) /\
    contains (peers w') 1 = false.
Proof.
  destruct (peers_ (peers home_relay) !! 1) as [e|] eqn:He; [|vm_compute in He; discriminate].
  apply (private_peer_breaks_discovery (ssl := Toy.ssl) (iter := listed) (order := in_order)
    (inet := home_inet) 0 calm 1 home_relay [Data Byte.x00 [Byte.x00; Byte.x00; Byte.x00; Byte.x0e]] [] e
    (mkEndpoint (str "127.0.0.1") 40000)); [exact He|reflexivity|vm_compute; reflexivity| |discriminate].
  vm_compute in He. injection He as <-. decide_vm.
Defined.
