(* ===== verification/Text.v ===== *)
(** The C++ text library as the HTTP server uses it: searching a
    [std::string], reading and printing integers, splitting a line, the order
    of a [std::map<std::string, V>], and the field extraction the request
    handlers share. A position that is not found ([npos]) is [None]. *)

From S2P Require Import Prelude Crypto Transaction Ownership.
From stdpp Require Import sorting pretty options.
Local Open Scope Z_scope.

(** ** Searching *)

Definition starts_with (p s : bytes) : bool := bool_decide (take (length p) s = p).

(** [s.find(p)]. *)
Fixpoint find_str (p s : bytes) : option nat :=
  if starts_with p s then Some 0%nat
  else match s with [] => None | _ :: s => S <$> find_str p s end.

(** [s.find_first_of(set)], the set as a predicate. *)
Fixpoint find_first (P : byte -> bool) (s : bytes) : option nat :=
  match s with
  | [] => None
  | c :: s => if P c then Some 0%nat else S <$> find_first P s
  end.

(** The same searches from a position. *)
Definition find_str_from (p s : bytes) (pos : nat) : option nat :=
  (fun i => pos + i)%nat <$> find_str p (drop pos s).
Definition find_first_from (P : byte -> bool) (s : bytes) (pos : nat) : option nat :=
  (fun i => pos + i)%nat <$> find_first P (drop pos s).

Definition substr (s : bytes) (pos len : nat) : bytes := take len (drop pos s).

(** ** Integers *)

Definition is_digit (c : byte) : bool := (48 <=? byteZ c) && (byteZ c <=? 57).
Definition is_space (c : byte) : bool :=
  (byteZ c =? 32) || ((9 <=? byteZ c) && (byteZ c <=? 13)).

(** [std::isalnum]. *)
Definition is_alnum (c : byte) : bool :=
  is_digit c || ((65 <=? byteZ c) && (byteZ c <=? 90)) || ((97 <=? byteZ c) && (byteZ c <=? 122)).

Fixpoint take_while (P : byte -> bool) (s : bytes) : bytes :=
  match s with c :: s => if P c then c :: take_while P s else [] | [] => [] end.
Fixpoint drop_while (P : byte -> bool) (s : bytes) : bytes :=
  match s with c :: t => if P c then drop_while P t else s | [] => [] end.

Definition dec_value (ds : bytes) : Z := foldl (fun v c => v * 10 + (byteZ c - 48)) 0 ds.

(** The optional sign of a number. *)
Definition strip_sign (s : bytes) : bool * bytes :=
  match s with
  | c :: t => if byteZ c =? 45 then (true, t) else if byteZ c =? 43 then (false, t) else (false, s)
  | [] => (false, [])
  end.

(** [std::stoull], and [std::stoul] where [unsigned long] has 64 bits. What
    follows the digits is ignored, and a minus sign negates modulo 2^64. *)
Definition stoull (s : bytes) : result Z :=
  let '(negative, s) := strip_sign (drop_while is_space s) in
  let ds := take_while is_digit s in
  if bool_decide (ds = []) then Throw "stoull"
  else
    let v := dec_value ds in
    if UINT64_MAX <? v then Throw "stoull" else Ok (if negative then u64 (- v) else v).
Definition stoul (s : bytes) : result Z := stoull s.
(** [std::stoi]. *)
Definition stoi (s : bytes) : result Z :=
  let '(negative, s) := strip_sign (drop_while is_space s) in
  let ds := take_while is_digit s in
  let v := if negative then - dec_value ds else dec_value ds in
  if bool_decide (ds = []) || (v <? - 2 ^ 31) || (2 ^ 31 - 1 <? v) then Throw "stoi" else Ok v.

(** ** Splitting *)

(** The lambda [split] of [pool_load_state_unlocked]; [cur] is the part read so far. *)
Fixpoint split_loop (s : bytes) (d : byte) (cur : bytes) : list bytes :=
  match s with
  | [] => [cur]
  | ch :: s => if bool_decide (ch = d) then cur :: split_loop s d [] else split_loop s d (cur ++ [ch])
  end.
Definition split (s : bytes) (d : byte) : list bytes := split_loop s d [].

(** ** std::map<std::string, V> *)

(** [operator<] of strings compares bytes as unsigned characters. *)
Fixpoint bytes_leb (a b : bytes) : bool :=
  match a, b with
  | [], _ => true
  | _, [] => false
  | x :: a, y :: b => if byteZ x =? byteZ y then bytes_leb a b else byteZ x <? byteZ y
  end.
Definition bytes_le (a b : bytes) : Prop := bytes_leb a b = true.
#[global] Instance bytes_le_dec : RelDecision bytes_le.
Proof. intros a b. unfold bytes_le. apply _. Defined.
Definition key_le {V} (a b : bytes * V) : Prop := bytes_le a.1 b.1.
#[global] Instance key_le_dec {V} : RelDecision (@key_le V).
Proof. intros a b. unfold key_le. apply _. Defined.

(** [for (const auto& kv : m)]. *)
Definition in_order {V} (m : gmap bytes V) : list (bytes * V) := 
  merge_sort key_le (map_to_list m).
(** [for (const auto& u : set)]. *)
Definition set_in_order (s : gset bytes) : list bytes :=
  merge_sort bytes_le (elements s).

(** ** JSON by hand *)

(** A literal written with single quotes for the double quotes it holds. *)
Definition quote : byte := u8 34.
Definition json (s : string) : bytes := (fun c => if byteZ c =? 39 then quote else c) <$> str s.

(** The lambdas [gf], [gs] and [get_string] of the handlers. *)
Definition json_string (body : bytes) (key : string) : bytes :=
  default []
    (pos ← find_str ([quote] ++ str key ++ [quote]) body;
     colon ← find_str_from (str ":") body pos;
     start ← find_str_from [quote] body colon;
     stop ← find_str_from [quote] body (start + 1);
     Some (substr body (start + 1) (stop - start - 1))).

(** The lambdas [gu] and [get_u64]: any failure gives 0. *)
Definition json_u64 (body : bytes) (key : string) : Z :=
  default 0
    (pos ← find_str ([quote] ++ str key ++ [quote]) body;
     colon ← find_str_from (str ":") body pos;
     start ← find_first_from is_digit body colon;
     let stop := default (length body) (find_first_from (fun c => negb (is_digit c)) body start) in
     match stoull (substr body start (stop - start)) with Ok v => Some v | Throw _ => Some 0 end).

(** The end of a line of a message. *)
Definition crlf : bytes := [u8 13; u8 10].

(** ** Files *)

(** What a [std::ofstream] that nobody checks does with a file: it does not
    open, or it keeps only a prefix of what is written, or all of it. *)
Inductive SaveIO := SaveRefused | SaveCut (n : nat) | SaveDone.
Definition written (io : SaveIO) (text : bytes) (old : option bytes) : option bytes :=
  match io with
  | SaveRefused => old
  | SaveCut n => Some (take n text)
  | SaveDone => Some text
  end.

(** ** Lemmas *)

Lemma in_order_perm {V} (m : gmap bytes V) : in_order m ≡ₚ map_to_list m.
Proof. apply merge_sort_Permutation. Qed.
Lemma set_in_order_perm s : set_in_order s ≡ₚ elements s.
Proof. apply merge_sort_Permutation. Qed.
Lemma in_order_NoDup {V} (m : gmap bytes V) : NoDup (in_order m).*1.
Proof. rewrite in_order_perm. apply NoDup_fst_map_to_list. Qed.
Lemma elem_of_in_order {V} (m : gmap bytes V) k v : (k, v) ∈ in_order m <-> m !! k = Some v.
Proof. rewrite in_order_perm. apply elem_of_map_to_list. Qed.

(** A part without the separator is split off whole. *)
Lemma split_loop_app s d cur tl :
  d ∉ s -> split_loop (s ++ d :: tl) d cur = (cur ++ s) :: split tl d.
Proof.
  revert cur. induction s as [|c s IH]; intros cur; cbn [app split_loop].
  - intros _. rewrite bool_decide_true by done. by rewrite app_nil_r.
  - rewrite not_elem_of_cons. intros [Hc Hs]. rewrite bool_decide_false by done.
    rewrite IH by done. by rewrite <- app_assoc.
Qed.
Lemma split_loop_last s d cur : d ∉ s -> split_loop s d cur = [cur ++ s].
Proof.
  revert cur. induction s as [|c s IH]; intros cur; cbn [split_loop]; [by rewrite app_nil_r|].
  rewrite not_elem_of_cons. intros [Hc Hs]. rewrite bool_decide_false by done.
  rewrite IH by done. by rewrite <- app_assoc.
Qed.
Lemma split_cons s d tl : d ∉ s -> split (s ++ d :: tl) d = s :: split tl d.
Proof. apply split_loop_app. Qed.
Lemma split_one s d : d ∉ s -> split s d = [s].
Proof. apply split_loop_last. Qed.

Lemma take_while_all P s tl :
  forallb P s = true -> (forall c t, tl = c :: t -> P c = false) -> take_while P (s ++ tl) = s.
Proof.
  intros Hs Htl. induction s as [|c s IH]; simpl in *.
  - destruct tl as [|c t]; [done|]. simpl. by rewrite (Htl c t eq_refl).
  - apply andb_true_iff in Hs as [-> Hs]. by rewrite IH.
Qed.

(** ** Printed numbers are read back *)

Lemma pretty_digit x : (x < 10)%N ->
  exists b, str (String (pretty_N_char x) EmptyString) = [b] /\ is_digit b = true /\ byteZ b - 48 = Z.of_N x.
Proof.
  intros H. assert (x = 0 \/ x = 1 \/ x = 2 \/ x = 3 \/ x = 4 \/ x = 5 \/ x = 6 \/ x = 7 \/ x = 8 \/ x = 9)%N
    as Hx by lia.
  destruct_or! Hx; subst; eexists; vm_compute; done.
Qed.

Lemma str_cons c s : str (String c s) = str (String c EmptyString) ++ str s.
Proof. reflexivity. Qed.

Lemma pretty_go_digits x s :
  forallb is_digit (str s) = true ->
  exists ds, str (pretty_N_go x s) = ds ++ str s /\ forallb is_digit ds = true /\
    dec_value ds = Z.of_N x /\ ((0 < x)%N -> ds <> []).
Proof.
  revert s. induction (N.lt_wf_0 x) as [x _ IH]. intros s Hs.
  destruct (decide (x = 0)%N) as [->|Hx]; [exists []; done|].
  rewrite pretty_N_go_step by lia.
  destruct (pretty_digit (x mod 10)) as (b & Hb & Hd & Hv); [by apply N.mod_lt|].
  destruct (IH (x / 10)%N) with (s := String (pretty_N_char (x mod 10)) s) as (ds & E & Hds & Hval & _).
  - apply N.div_lt; lia.
  - rewrite str_cons, Hb. simpl. by rewrite Hd, Hs.
  - exists (ds ++ [b]). rewrite E, str_cons, Hb, <- app_assoc. split_and!; [done| | |].
    + rewrite forallb_app, Hds. simpl. by rewrite Hd.
    + unfold dec_value in *. rewrite foldl_app, Hval. cbn [foldl]. rewrite Hv.
      pose proof (N.div_mod x 10 ltac:(lia)). lia.
    + intros _ ?%(f_equal length). rewrite length_app in *. simpl in *. lia.
Qed.

Lemma dec_str_digits z : 0 <= z ->
  forallb is_digit (dec_str z) = true /\ dec_value (dec_str z) = z /\ dec_str z <> [].
Proof.
  intros Hz. unfold dec_str. destruct z as [|p|p]; [done| |lia].
  change (pretty (Z.pos p)) with (pretty (N.pos p)).
  unfold pretty, pretty_N. rewrite decide_False by lia.
  destruct (pretty_go_digits (N.pos p) EmptyString eq_refl) as (ds & -> & Hd & Hv & Hn).
  change (str EmptyString) with (@nil byte). rewrite app_nil_r. split_and!; [done|done|].
  apply Hn. lia.
Qed.
Lemma dec_str_plain z b : 0 <= z -> is_digit b = false -> b ∉ dec_str z.
Proof.
  intros Hz Hb Hin. destruct (dec_str_digits z Hz) as [Hd _].
  rewrite forallb_forall in Hd. apply list_elem_of_In in Hin. by rewrite (Hd b Hin) in Hb.
Qed.

Lemma digit_not_sign c : is_digit c = true -> is_space c = false /\ byteZ c <> 45 /\ byteZ c <> 43.
Proof.
  unfold is_digit, is_space. intros [H1 H2]%andb_true_iff. zbool.
  rewrite orb_false_iff, andb_false_iff. split_and!; try lia; zbool; lia.
Qed.

(** Reading back what [std::to_string] or [<<] wrote. *)
Lemma dec_str_scanned z : 0 <= z ->
  drop_while is_space (dec_str z) = dec_str z /\ strip_sign (dec_str z) = (false, dec_str z) /\
  take_while is_digit (dec_str z) = dec_str z.
Proof.
  intros Hz. destruct (dec_str_digits z Hz) as (Hd & _ & Hn).
  pose proof (take_while_all is_digit (dec_str z) [] Hd ltac:(done)) as E. rewrite app_nil_r in E. rewrite E.
  destruct (dec_str z) as [|c s]; [done|]. simpl in Hd. apply andb_true_iff in Hd as [Hc _].
  apply digit_not_sign in Hc as (Hc & H1 & H2). simpl. rewrite Hc. apply Z.eqb_neq in H1, H2. by rewrite H1, H2.
Qed.
Lemma stoull_dec_str z : is_u64 z -> stoull (dec_str z) = Ok z.
Proof.
  intros Hz. destruct (dec_str_digits z) as (_ & Hv & Hn); [ints|]. destruct (dec_str_scanned z) as (E1 & E2 & E3); [ints|].
  unfold stoull. rewrite E1, E2. cbv zeta. rewrite E3, bool_decide_false, Hv by done.
  destruct (UINT64_MAX <? z) eqn:E; zbool; [ints|done].
Qed.
Lemma stoi_dec_str z : 0 <= z < 2 ^ 31 -> stoi (dec_str z) = Ok z.
Proof.
  intros Hz. destruct (dec_str_digits z) as (_ & Hv & Hn); [lia|]. destruct (dec_str_scanned z) as (E1 & E2 & E3); [lia|].
  unfold stoi. rewrite E1, E2. cbv zeta. rewrite E3, bool_decide_false, Hv by done.
  by rewrite (proj2 (Z.ltb_ge z (- 2 ^ 31))), (proj2 (Z.ltb_ge (2 ^ 31 - 1) z)) by lia.
Qed.

(** ** Where a search ends *)

Lemma find_char c m r : c ∉ m -> find_str [c] (m ++ c :: r) = Some (length m).
Proof.
  induction m as [|d m IH]; intros Hc; cbn [app find_str]; unfold starts_with; cbn [length take].
  - by rewrite bool_decide_true.
  - apply not_elem_of_cons in Hc as [Hd Hc]. rewrite bool_decide_false by congruence. by rewrite IH.
Qed.
Lemma find_here p s : find_str p (p ++ s) = Some 0%nat.
Proof.
  assert (starts_with p (p ++ s) = true) as H by (unfold starts_with; by rewrite take_app_length, bool_decide_true).
  destruct (p ++ s); cbn [find_str]; by rewrite H.
Qed.

(** No [a] in [l] has a [b] after it. *)
Fixpoint pair_free (a b : byte) (l : bytes) : bool :=
  match l with
  | [] => true
  | x :: l => negb (Byte.eqb x a && match l with y :: _ => Byte.eqb y b | [] => false end) && pair_free a b l
  end.
Lemma pair_free_app a b m l : a ∉ m -> pair_free a b (m ++ l) = pair_free a b l.
Proof.
  induction m as [|x m IH]; intros H; [done|]. apply not_elem_of_cons in H as [Hx H]. cbn [app pair_free].
  rewrite IH by done. destruct (Byte.eqb x a) eqn:E; [|done]. by apply Byte.byte_dec_bl in E.
Qed.
Lemma pair_free_none a b m : a ∉ m -> pair_free a b m = true.
Proof. intros H. rewrite <- (app_nil_r m). by rewrite pair_free_app. Qed.
Lemma pair_free_join a b l m :
  pair_free a b l = true -> pair_free a b m = true -> (last l <> Some a \/ head m <> Some b) ->
  pair_free a b (l ++ m) = true.
Proof.
  induction l as [|x l IH]; intros Hl Hm Hj; [done|]. cbn [app pair_free] in *. apply andb_true_iff in Hl as [Hx Hl].
  destruct l as [|y l]; [|rewrite IH by (done || by rewrite last_cons_cons in Hj); by rewrite andb_true_r].
  rewrite (IH eq_refl Hm), andb_true_r by (left; done). destruct (Byte.eqb x a) eqn:E; [|done].
  apply Byte.byte_dec_bl in E as ->. cbn [app]. destruct m as [|y m]; [done|].
  destruct (Byte.eqb y b) eqn:E; [|done]. apply Byte.byte_dec_bl in E as ->. by destruct Hj.
Qed.
Lemma find_pair a b p m s :
  pair_free a b (m ++ [a]) = true -> find_str (a :: b :: p) (m ++ a :: b :: p ++ s) = Some (length m).
Proof.
  induction m as [|x m IH]; intros H; [apply (find_here (a :: b :: p))|]. cbn [app pair_free] in H.
  apply andb_true_iff in H as [Hx H]. cbn [app find_str]. rewrite (IH H). unfold starts_with.
  rewrite bool_decide_false; [done|]. intros E. destruct m as [|y m]; cbn [length app take] in E, Hx.
  - injection E as -> E. assert (a = b) as <- by congruence. by rewrite Byte.byte_dec_lb in Hx.
  - injection E as -> -> _. by rewrite !Byte.byte_dec_lb in Hx.
Qed.

Lemma find_first_skip P m c r :
  Forall (fun x => P x = false) m -> P c = true -> find_first P (m ++ c :: r) = Some (length m).
Proof. induction 1 as [|x m Hx _ IH]; intros Hc; cbn [app find_first]; rewrite ?Hc, ?Hx; [done|]. by rewrite IH. Qed.

(** A number that was read is not negative. *)
Lemma dec_value_nonneg s : 0 <= dec_value (take_while is_digit s).
Proof.
  unfold dec_value. assert (forall v, 0 <= v -> 0 <= foldl (fun v c => v * 10 + (byteZ c - 48)) v (take_while is_digit s)) as H.
  { induction s as [|c s IH]; intros v Hv; [done|]. cbn [take_while]. destruct (is_digit c) eqn:E; [|done].
    cbn [foldl]. apply IH. unfold is_digit in E. zbool. lia. }
  by apply H.
Qed.
Lemma stoull_nonneg s v : stoull s = Ok v -> 0 <= v.
Proof.
  unfold stoull. destruct (strip_sign _) as [negative s']. case_bool_decide; [done|].
  pose proof (dec_value_nonneg s'). destruct (_ <? _); [done|]. intros [= <-].
  destruct negative; [apply u64_range|done].
Qed.
Lemma json_u64_nonneg body key : 0 <= json_u64 body key.
Proof.
  unfold json_u64. destruct (find_str _ _) as [p|]; [|done]. cbn [mbind option_bind].
  destruct (find_str_from _ _ _) as [c|]; [|done]. cbn [mbind option_bind].
  destruct (find_first_from is_digit _ _) as [st|]; [|done]. cbn [mbind option_bind].
  destruct (stoull _) as [v|] eqn:E; [|done]. by apply stoull_nonneg in E.
Qed.

(** A quoted field and a number, read where the key stands. *)
Lemma json_colon body key m t :
  body = m ++ [quote] ++ str key ++ [quote] ++ str ":" ++ t -> u8 58 ∉ str key ->
  exists n, find_str_from (str ":") body (length m) = Some n /\ forall x, drop (n + x) body = drop x (u8 58 :: t).
Proof.
  intros -> Hk. unfold find_str_from. rewrite drop_app_length. set (k := [quote] ++ str key ++ [quote]).
  assert (u8 58 ∉ k) as Hk'.
  { unfold k. rewrite !elem_of_app, !list_elem_of_singleton. by intros [H|[H|H]]; [apply (f_equal byteZ) in H| |apply (f_equal byteZ) in H]. }
  replace ([quote] ++ str key ++ [quote] ++ str ":" ++ t) with (k ++ u8 58 :: t) by (unfold k; by rewrite <- !app_assoc).
  change (str ":") with [u8 58]. rewrite (find_char _ _ _ Hk'). exists (length m + length k)%nat. split; [done|]. intros x.
  by rewrite <- Nat.add_assoc, <- (drop_drop _ (length k + x) (length m)), drop_app_length, <- (drop_drop _ x (length k)), drop_app_length.
Qed.
Lemma json_string_at body key m v r :
  body = m ++ [quote] ++ str key ++ [quote] ++ str ":" ++ [quote] ++ v ++ [quote] ++ r ->
  find_str ([quote] ++ str key ++ [quote]) body = Some (length m) ->
  u8 58 ∉ str key -> quote ∉ v -> json_string body key = v.
Proof.
  intros Hb Hf Hk Hv. destruct (json_colon body key m _ Hb Hk) as (n & Hn & Hd). clear Hb.
  unfold json_string. rewrite Hf. cbn [mbind option_bind default]. rewrite Hn. cbn [mbind option_bind].
  unfold find_str_from, substr. rewrite <- (Nat.add_0_r n), Hd at 1.
  change (find_str [quote] (drop 0 (u8 58 :: [quote] ++ v ++ [quote] ++ r))) with (Some 1%nat).
  cbn [mbind option_bind fmap option_fmap option_map]. replace (n + 1 + 1)%nat with (n + 2)%nat by lia.
  rewrite Hd. change (drop 2 (u8 58 :: [quote] ++ v ++ [quote] ++ r)) with (v ++ quote :: r).
  rewrite (find_char _ _ _ Hv). cbn [mbind option_bind fmap option_fmap option_map default].
  replace (n + 2 + length v - (n + 1) - 1)%nat with (length v) by lia. by rewrite take_app_length.
Qed.
Lemma json_u64_at body key m z c r :
  body = m ++ [quote] ++ str key ++ [quote] ++ str ":" ++ dec_str z ++ c :: r ->
  find_str ([quote] ++ str key ++ [quote]) body = Some (length m) ->
  u8 58 ∉ str key -> is_u64 z -> is_digit c = false -> json_u64 body key = z.
Proof.
  intros Hb Hf Hk Hz Hc. destruct (json_colon body key m _ Hb Hk) as (n & Hn & Hd). clear Hb.
  destruct (dec_str_digits z ltac:(ints)) as (Hdig & _ & Hne).
  unfold json_u64. rewrite Hf. cbn [mbind option_bind default]. rewrite Hn. cbn [mbind option_bind].
  unfold find_first_from, substr. rewrite <- (Nat.add_0_r n), Hd at 1.
  assert (find_first is_digit (drop 0 (u8 58 :: dec_str z ++ c :: r)) = Some 1%nat) as ->.
  { destruct (dec_str z) as [|d ds]; [done|]. cbn in Hdig. apply andb_true_iff in Hdig as [Hdd _]. cbn. by rewrite Hdd. }
  cbn [mbind option_bind fmap option_fmap option_map]. rewrite Hd.
  change (drop 1 (u8 58 :: dec_str z ++ c :: r)) with (dec_str z ++ c :: r).
  rewrite find_first_skip; [|apply Forall_forall; intros x Hx; by rewrite (proj1 (forallb_forall _ _) Hdig x (proj1 (list_elem_of_In _ _) Hx))
    |by rewrite Hc].
  cbn [mbind option_bind fmap option_fmap option_map default].
  unfold id. replace (n + 1 + length (dec_str z) - (n + 1))%nat with (length (dec_str z)) by lia.
  by rewrite (take_app_length (dec_str z)), stoull_dec_str.
Qed.
