(* ===== verification/Cli.v ===== *)
(** The executables main.cpp and web.cpp: their command lines, and the run of
    the node that main.cpp makes of its options. The data directories are a
    map of disks; what a peer and other threads do between two calls of the
    node is a function of the environment. *)

From S2P Require Import Prelude Serialization Crypto Transaction UTXO Ownership Coinbase.
From S2P Require Import Consensus Block NetworkParams ChainValidator Mempool BlockBuilder Storage Node Text.
From stdpp Require Import options.
Local Open Scope Z_scope.

(** ** main.cpp *)

Record CliOptions := mkCli {
  opt_mine : bool;
  opt_testnet : bool;
  opt_port : option Z; (* has_port and port *)
  opt_data : option bytes; (* has_data and data_dir *)
  opt_peer : option (bytes * Z) (* has_peer, peer_host and peer_port *)
}.
Definition default_cli : CliOptions := mkCli false false None None None.

Definition MAINNET_PORT : Z := 18444.
Definition TESTNET_PORT : Z := 18445.
Definition MAINNET_DATA_DIR : bytes := str "data".
Definition TESTNET_DATA_DIR : bytes := str "data-testnet".

(** [std::stoi] of a port, with the range that is accepted. *)
Definition cli_port (invalid : Z -> bytes) (unreadable : bytes) (s : bytes) : bytes + Z :=
  match stoi s with
  | Throw _ => inl unreadable
  | Ok v => if (v <=? 0) || (65535 <? v) then inl (invalid v) else inr v
  end.
Definition cli_peer (pv : bytes) : bytes + bytes * Z :=
  match find_str (str ":") pv with
  | None => inl (str "Peer format must be host:port")
  | Some colon =>
      if (colon =? 0)%nat || (length pv <=? colon + 1)%nat then inl (str "Peer format must be host:port")
      else
        match cli_port (fun _ => str "Invalid peer port") (str "Invalid peer port value") (drop (colon + 1) pv) with
        | inl e => inl e
        | inr p => inr (take colon pv, p)
        end
  end.
(** [inl] is where it returns false, with the first line it prints (the usage
    then names the program); [argv] is without the program's name. *)
Fixpoint parse_cli (argv : list bytes) (o : CliOptions) : bytes + CliOptions :=
  match argv with
  | [] => inr o
  | arg :: rest =>
      if bool_decide (arg = str "--mine") then
        parse_cli rest (mkCli true (opt_testnet o) (opt_port o) (opt_data o) (opt_peer o))
      else if bool_decide (arg = str "--testnet") then
        parse_cli rest (mkCli (opt_mine o) true (opt_port o) (opt_data o) (opt_peer o))
      else if bool_decide (arg = str "--port") then
        match rest with
        | [] => inl (str "Missing value after --port")
        | v :: rest =>
            match cli_port (fun v => str "Invalid port: " ++ dec_str v) (str "Invalid port value") v with
            | inl e => inl e
            | inr p => parse_cli rest (mkCli (opt_mine o) (opt_testnet o) (Some p) (opt_data o) (opt_peer o))
            end
        end
      else if bool_decide (arg = str "--data") then
        match rest with
        | [] => inl (str "Missing value after --data")
        | v :: rest => parse_cli rest (mkCli (opt_mine o) (opt_testnet o) (opt_port o) (Some v) (opt_peer o))
        end
      else if bool_decide (arg = str "--peer") then
        match rest with
        | [] => inl (str "Missing value after --peer")
        | v :: rest =>
            match cli_peer v with
            | inl e => inl e
            | inr hp => parse_cli rest (mkCli (opt_mine o) (opt_testnet o) (opt_port o) (opt_data o) (Some hp))
            end
        end
      else if bool_decide (arg = str "--help") || bool_decide (arg = str "-h") then inl (str "Usage: ")
      else inl (str "Unknown argument: " ++ arg)
  end.

Definition cli_network (o : CliOptions) : Z := if opt_testnet o then NETWORK_TESTNET else NETWORK_MAINNET.
Definition listen_port (o : CliOptions) : Z := default (if opt_testnet o then TESTNET_PORT else MAINNET_PORT) (opt_port o).
Definition data_dir (o : CliOptions) : bytes :=
  default (if opt_testnet o then TESTNET_DATA_DIR else MAINNET_DATA_DIR) (opt_data o).

(** How a run ends; without --mine it lasts as long as the node runs. *)
Inductive RunOutcome := Exited (code : Z) | Serving.

Definition MINER : bytes := str "CAESAR_MINER_CZR1".

Section Main.
Context {ssl : OpenSSL} {iter : UnorderedMap}.

(** What a run meets: the outcomes of the start, of the try-locks of
    [height()] and of the mining call, and what others do in between, the
    connection to the peer and what it brings included. *)
Record MainEnv := mkMainEnv {
  main_faults : Faults;
  server_starts : bool;
  relay_starts : bool;
  main_started : CaesarNode -> CaesarNode;
  main_lock : bool;
  main_mining : CaesarNode -> CaesarNode;
  mine_faults : Faults;
  main_relay : bool;
  main_now : Z;
  main_mined : CaesarNode -> CaesarNode;
  main_lock' : bool
}.

Definition main_node (e : MainEnv) (o : CliOptions) : node_op RunOutcome :=
  _ ← start (main_faults e) (server_starts e) (relay_starts e);
  _ ← update (main_started e);
  _ ← node_height (main_lock e);
  if opt_mine o then
    _ ← update (main_mining e);
    _ ← mine_one_block (mine_faults e) (main_relay e) MINER (main_now e) 1000000;
    _ ← update (main_mined e);
    _ ← node_height (main_lock' e);
    _ ← stop;
    mret (Exited 0)
  else mret Serving.

(** [main]: the files of the data directories before and after. *)
Definition main (e : MainEnv) (argv : list bytes) (disks : bytes -> Disk) : RunOutcome * (bytes -> Disk) * list Event :=
  match parse_cli argv default_cli with
  | inl _ => (Exited 2, disks, [])
  | inr o =>
      let '(r, n, ev) := main_node e o (new_node (cli_network o) (disks (data_dir o))) in
      (match r with Ok out => out | Throw _ => Exited 1 end,
       fun dir => if bool_decide (dir = data_dir o) then storage_ n else disks dir, ev)
  end.
End Main.

(** ** web.cpp *)

Record WebOptions := mkWeb { p2p_port : Z; rpc_port : Z; web_data_dir : bytes; peer_addr : bytes }.
Definition default_web : WebOptions := mkWeb 18555 8443 (str "data-web") [].
(** [None] is --help; [stoul] throws to the catch of [main]. *)
Fixpoint parse_web (argv : list bytes) (o : WebOptions) : result (option WebOptions) :=
  match argv with
  | [] => Ok (Some o)
  | arg :: rest =>
      if bool_decide (arg = str "--help") then Ok None
      else if bool_decide (arg = str "--port") then
        match rest with
        | [] => Throw "--port requires value"
        | v :: rest => p ← stoul v; parse_web rest (mkWeb (u16 p) (rpc_port o) (web_data_dir o) (peer_addr o))
        end
      else if bool_decide (arg = str "--rpc-port") then
        match rest with
        | [] => Throw "--rpc-port requires value"
        | v :: rest => p ← stoul v; parse_web rest (mkWeb (p2p_port o) (u16 p) (web_data_dir o) (peer_addr o))
        end
      else if bool_decide (arg = str "--data") then
        match rest with
        | [] => Throw "--data requires value"
        | v :: rest => parse_web rest (mkWeb (p2p_port o) (rpc_port o) v (peer_addr o))
        end
      else if bool_decide (arg = str "--peer") then
        match rest with
        | [] => Throw "--peer requires host:port"
        | v :: rest => parse_web rest (mkWeb (p2p_port o) (rpc_port o) (web_data_dir o) v)
        end
      else Throw "unknown argument"
  end.
(** The peer a thread keeps connecting to. *)
Definition web_peer (peer : bytes) : option (bytes * Z) :=
  match find_str (str ":") peer with
  | None => None
  | Some colon =>
      match stoi (drop (colon + 1) peer) with
      | Throw _ => None
      | Ok n => if u16 n =? 0 then None else Some (take colon peer, u16 n)
      end
  end.

(** ** Command lines *)

Definition is_port (p : Z) : Prop := 1 <= p <= 65535.
Definition cli_wf (o : CliOptions) : Prop :=
  (forall p, opt_port o = Some p -> is_port p) /\
  (forall h p, opt_peer o = Some (h, p) -> is_port p /\ h <> [] /\ u8 58 ∉ h).
(** A command line for given options. *)
Definition cli_args (o : CliOptions) : list bytes :=
  (if opt_mine o then [str "--mine"] else []) ++ (if opt_testnet o then [str "--testnet"] else [])
  ++ match opt_port o with Some p => [str "--port"; dec_str p] | None => [] end
  ++ match opt_data o with Some d => [str "--data"; d] | None => [] end
  ++ match opt_peer o with Some (h, p) => [str "--peer"; h ++ str ":" ++ dec_str p] | None => [] end.

Lemma cli_port_spec inv unr s p : cli_port inv unr s = inr p -> is_port p.
Proof. unfold cli_port, is_port. destruct (stoi s); [|done]. destruct (_ || _) eqn:E; [done|]. intros [= ->]. zbool. lia. Qed.
Lemma cli_port_text inv unr p : is_port p -> cli_port inv unr (dec_str p) = inr p.
Proof.
  unfold is_port. intros Hp. unfold cli_port. rewrite stoi_dec_str by lia.
  by rewrite (proj2 (Z.leb_gt p 0)), (proj2 (Z.ltb_ge 65535 p)) by lia.
Qed.
Lemma find_char_free c s n : find_str [c] s = Some n -> c ∉ take n s.
Proof.
  revert n. induction s as [|x s IH]; intros n; cbn [find_str]; unfold starts_with; cbn [length take].
  - rewrite bool_decide_false by done. done.
  - case_bool_decide as E; [intros [= <-]; apply not_elem_of_nil|]. destruct (find_str [c] s) as [k|]; [|done].
    intros [= <-]. cbn [take]. apply not_elem_of_cons. split; [by intros ->; apply E|by apply IH].
Qed.
Lemma cli_peer_spec pv h p : cli_peer pv = inr (h, p) -> is_port p /\ h <> [] /\ u8 58 ∉ h.
Proof.
  unfold cli_peer. change (str ":") with [u8 58]. destruct (find_str [u8 58] pv) as [k|] eqn:E; [|done].
  destruct (_ || _) eqn:Ek; [done|]. apply orb_false_iff in Ek as [Ek%Nat.eqb_neq El%Nat.leb_gt].
  destruct (cli_port _ _ _) as [|q] eqn:Ep; [done|]. intros [= <- <-]. split; [by eapply cli_port_spec|].
  split; [|by apply find_char_free]. intros H%(f_equal length). rewrite length_take in H. cbn in H. lia.
Qed.
Lemma cli_peer_text h p : is_port p -> h <> [] -> u8 58 ∉ h -> cli_peer (h ++ str ":" ++ dec_str p) = inr (h, p).
Proof.
  intros Hp Hh Hc. unfold cli_peer. change (str ":" ++ dec_str p) with (u8 58 :: dec_str p). change (str ":") with [u8 58].
  rewrite find_char by done. destruct (dec_str_digits p) as (_ & _ & Hne); [unfold is_port in Hp; lia|].
  rewrite length_app. cbn [length]. rewrite (proj2 (Nat.eqb_neq _ 0)), (proj2 (Nat.leb_gt _ _)); [|destruct (dec_str p); [done|cbn; lia]|by destruct h].
  cbn [orb]. rewrite <- (drop_drop _ 1 (length h)), drop_app_length. cbn [drop]. rewrite drop_0, cli_port_text by done.
  by rewrite take_app_length.
Qed.

Lemma parse_cli_wf argv o o' : cli_wf o -> parse_cli argv o = inr o' -> cli_wf o'.
Proof.
  revert o. induction argv as [argv IH] using (induction_ltof1 _ (@length bytes)). unfold ltof in IH. intros o Ho.
  destruct argv as [|arg rest]; cbn [parse_cli]; [by intros [= <-]|].
  repeat case_bool_decide; try (by apply IH; [cbn; lia|]); try done.
  - destruct rest as [|v rest]; [done|]. destruct (cli_port _ _ _) as [|p] eqn:Ep; [done|]. apply IH; [cbn; lia|].
    destruct Ho as [_ Ho]. split; [|done]. cbn. intros q [= <-]. by eapply cli_port_spec.
  - destruct rest as [|v rest]; [done|]. apply IH; [cbn; lia|]. done.
  - destruct rest as [|v rest]; [done|]. destruct (cli_peer v) as [|[h p]] eqn:Ep; [done|]. apply IH; [cbn; lia|].
    destruct Ho as [Ho _]. split; [done|]. cbn. intros h' p' [= <- <-]. by eapply cli_peer_spec.
Qed.
(** The steps of the parser. *)
Lemma parse_cli_port v rest o :
  parse_cli (str "--port" :: v :: rest) o
  = match cli_port (fun v => str "Invalid port: " ++ dec_str v) (str "Invalid port value") v with
    | inl e => inl e
    | inr p => parse_cli rest (mkCli (opt_mine o) (opt_testnet o) (Some p) (opt_data o) (opt_peer o))
    end.
Proof. reflexivity. Qed.
Lemma parse_cli_peer v rest o :
  parse_cli (str "--peer" :: v :: rest) o
  = match cli_peer v with
    | inl e => inl e
    | inr hp => parse_cli rest (mkCli (opt_mine o) (opt_testnet o) (opt_port o) (opt_data o) (Some hp))
    end.
Proof. reflexivity. Qed.
Lemma parse_cli_args o : cli_wf o -> parse_cli (cli_args o) default_cli = inr o.
Proof.
  intros [Hp Hq]. destruct o as [m t p d q]. unfold cli_args. cbn [opt_mine opt_testnet opt_port opt_data opt_peer] in *.
  assert (forall o, parse_cli match q with Some (h, p) => [str "--peer"; h ++ str ":" ++ dec_str p] | None => [] end o
    = inr (match q with None => o | Some _ => mkCli (opt_mine o) (opt_testnet o) (opt_port o) (opt_data o) q end)) as Eq.
  { intros o. destruct q as [[h k]|]; [|done]. destruct (Hq h k eq_refl) as (H1 & H2 & H3).
    by rewrite parse_cli_peer, cli_peer_text. }
  assert (forall o, parse_cli (match d with Some d => [str "--data"; d] | None => [] end
      ++ match q with Some (h, p) => [str "--peer"; h ++ str ":" ++ dec_str p] | None => [] end) o
    = parse_cli match q with Some (h, p) => [str "--peer"; h ++ str ":" ++ dec_str p] | None => [] end
        (match d with None => o | Some _ => mkCli (opt_mine o) (opt_testnet o) (opt_port o) d (opt_peer o) end)) as Ed
    by (intros o; by destruct d).
  set (tl := match d with Some d => [str "--data"; d] | None => [] end ++ _) in *.
  assert (forall o, parse_cli (match p with Some p => [str "--port"; dec_str p] | None => [] end ++ tl) o
    = parse_cli tl (match p with None => o | Some _ => mkCli (opt_mine o) (opt_testnet o) p (opt_data o) (opt_peer o) end)) as Ep.
  { intros o. destruct p as [p|]; [|done]. cbn [app]. by rewrite parse_cli_port, cli_port_text by (by apply Hp). }
  destruct m, t; cbn [app];
    [change (parse_cli (str "--mine" :: str "--testnet" :: ?r) ?o) with (parse_cli r (mkCli true true None None None))
    |change (parse_cli (str "--mine" :: ?r) ?o) with (parse_cli r (mkCli true false None None None))
    |change (parse_cli (str "--testnet" :: ?r) ?o) with (parse_cli r (mkCli false true None None None))|];
    rewrite Ep, Ed, Eq; by destruct p, d, q.
Qed.

(** ** Claims *)

Section Claims.
Context {ssl : OpenSSL} {iter : UnorderedMap}.

(** Nothing fails and nobody interferes. *)
Definition calm_run (now : Z) : MainEnv := mkMainEnv no_faults true true id true id no_faults true now id true.

Lemma new_node_inv network d c r : load d = Ok c -> valid_chain c r -> node_inv (new_node network d) c r.
Proof. intros Hl Hv. split; cbn; [done|done|done|apply pool_inv_empty|apply map_Forall_empty]. Qed.
Lemma miner_is_no_address pk : address_from_public_key pk <> MINER.
Proof.
  intros E%(f_equal length). unfold address_from_public_key, address_checksum in E.
  rewrite !length_app, length_take, !hash_to_hex_length in E. cbn in E. lia.
Qed.

(** The command line is read right. Whatever arguments are accepted, ports
    are those of TCP and a peer has a name; and all such options can be given:
    the text of any of them is read back as these options. *)
Theorem command_line_roundtrip o :
  (forall argv, parse_cli argv default_cli = inr o -> cli_wf o) /\
  (cli_wf o -> parse_cli (cli_args o) default_cli = inr o).
Proof. split; [intros argv; by apply parse_cli_wf|apply parse_cli_args]. Qed.

(** C13: a run with --mine adds a block: where the data directory of the
    options holds a valid chain of that network, of fewer than ten million
    blocks with fields within their types, and the search finds a nonce within
    its 1,000,000 attempts (otherwise the program ends with 1), the program
    announces the block, ends with 0 and leaves the chain with that block in
    the directory, and no other directory is touched. No system call fails, the
    relay can be started and sends, no other thread or peer changes the node
    meanwhile, the block can be built and is within the 16 MiB of the file
    format, and the id of the new coinbase and the id of zeroes are those of no
    unspent output. The reward goes to a name that is no address, so no
    transaction that spends it is ever authorized. *)
Theorem main_mines_one_block argv o disks c r g prev now b b' cbid :
  parse_cli argv default_cli = inr o -> opt_mine o = true ->
  load (disks (data_dir o)) = Ok c -> valid_chain c r -> Forall block_typed c -> sizeZ c < MAX_BLOCKS ->
  head c = Some g -> validate_genesis_network_identity g (genesis_hash_for_network (cli_network o)) = true ->
  last c = Some prev -> utxo r !! mkOutPoint zero_hash UINT32_MAX = None ->
  build prev new_mempool MINER (block_time now prev) (expected_next_difficulty c) 0 (Some (utxo r)) = Ok b ->
  (cb ← make_coinbase_transaction (sizeZ c) MINER (sizeZ c); txid cb) = Ok cbid ->
  (forall q, is_Some (utxo r !! q) -> op_txid q <> cbid) ->
  mine b 0 1000000 = Ok (true, b') -> storable_block b' ->
  exists disks' r', main (calm_run now) argv disks = (Exited 0, disks', [AnnounceBlock b']) /\
    load (disks' (data_dir o)) = Ok (c ++ [b']) /\ valid_chain (c ++ [b']) r' /\
    (forall dir, dir <> data_dir o -> disks' dir = disks dir) /\
    forall tx u i input out, inputs tx !! i = Some input -> u !! point input = Some out -> recipient out = MINER ->
      ~ input_authorized tx u i.
Proof.
  intros Hp Hm Hl Hv Hty Hsz Hg Hid Hlast Hu0 Hb Hcb Hfr Hmine Hsb.
  pose proof (new_node_inv (cli_network o) _ c r Hl Hv) as H0.
  destruct (start_loaded no_faults _ c r g H0 eq_refl Hg Hid) as (n1 & E1 & H1 & R1 & M1 & _).
  destruct (node_height_spec n1 c r H1) as (n2 & E2 & H2 & R2 & M2).
  destruct (mine_one_block_run true n2 c r prev MINER now 1000000 b b' cbid) as (n3 & r' & E3 & H3 & _);
    try done; [congruence|by rewrite M2, M1..|].
  destruct (node_height_spec n3 _ _ H3) as (n4 & E4 & H4 & _).
  assert (main_node (calm_run now) o (new_node (cli_network o) (disks (data_dir o))) = (Ok (Exited 0), set_running false n4, [AnnounceBlock b'])) as E.
  { unfold main_node, mbind, op_bind. cbn [main_faults server_starts relay_starts calm_run]. rewrite E1.
    unfold update at 1. cbn [main_started main_lock calm_run id]. rewrite E2, Hm. unfold update at 1.
    cbn [main_mining mine_faults main_relay main_now calm_run id]. rewrite E3. unfold update at 1.
    cbn [main_mined main_lock' calm_run id]. by rewrite E4. }
  unfold main. rewrite Hp, E. eexists _, r'. split; [reflexivity|]. cbv beta. rewrite bool_decide_true by done. split_and!.
  - apply H4.
  - apply H4.
  - intros dir Hd. by rewrite bool_decide_false.
  - intros tx u i input out Hin Hout Hr (input' & w & o' & key & m & Hin' & _ & Ho' & Hrec & _). simplify_eq.
    apply (miner_is_no_address (public_key w)). congruence.
Qed.
End Claims.

(** ** Witnesses *)

#[local] Existing Instance pinned_ssl.
#[local] Existing Instance listed.
#[local] Transparent calculate_pow_hash.

Definition first_block : Block := Eval vm_compute in
  match build pinned_genesis new_mempool MINER (block_time 1800000000 pinned_genesis) 12 0 (Some ∅) with
  | Ok b => b | Throw _ => pinned_genesis end.
Definition first_coinbase : Hash256 := Eval vm_compute in
  match (cb ← make_coinbase_transaction 1 MINER 1; txid cb) with Ok h => h | Throw _ => zero_hash end.
Definition genesis_disk : Disk := mkDisk (Some (enc_storage [pinned_genesis])) None.

Lemma command_line_roundtrip_witness :
  parse_cli [str "--mine"; str "--port"; str "18555"; str "--peer"; str "node:18444"] default_cli
  = inr (mkCli true false (Some 18555) None (Some (str "node", 18444))).
Proof.
  apply (proj2 (command_line_roundtrip (mkCli true false (Some 18555) None (Some (str "node", 18444))))).
  split; [intros p [= <-]; by vm_compute|]. intros h p [= <- <-]. split; [by vm_compute|]. split; [done|decide_vm].
Defined.
Lemma first_block_mined : mine first_block 0 1000000 = Ok (true, first_block).
Proof.
  rewrite mine_spec by decide_vm. change (difficulty (header first_block)) with 12.
  rewrite (proj2 (mine_pow_spec (pow_header first_block) 12 0 1000000 0 (calculate_pow_hash (pow_header first_block) 0)
    ltac:(lia) ltac:(ints) ltac:(ints))); [reflexivity|].
  split; [lia|]. split; [ints|]. split; [reflexivity|]. split; [|lia].
  apply pow_meets_difficulty_spec; [lia|]. lazy. reflexivity.
Qed.
Lemma genesis_loaded : load genesis_disk = Ok [pinned_genesis] /\ valid_chain [pinned_genesis] (mkValidation ∅ 0).
Proof.
  destruct (genesis_chain_storable GENESIS_BURN_RECIPIENT pinned_genesis) as (Hs & Hv & Hvc); [done|by vm_compute|decide_vm|].
  split; [|exact Hvc]. apply load_spec. split; [reflexivity|]. split; [exact Hs|exact Hv].
Qed.

Lemma main_mines_one_block_witness :
  exists disks', main (calm_run 1800000000) [str "--mine"] (fun _ => genesis_disk) = (Exited 0, disks', [AnnounceBlock first_block]) /\
    load (disks' (str "data")) = Ok [pinned_genesis; first_block].
Proof.
  destruct (main_mines_one_block [str "--mine"] (mkCli true false None None None) (fun _ => genesis_disk) [pinned_genesis]
    (mkValidation ∅ 0) pinned_genesis pinned_genesis 1800000000 first_block first_block first_coinbase) as (disks' & r' & E & L & _).
  - reflexivity.
  - reflexivity.
  - apply genesis_loaded.
  - apply genesis_loaded.
  - decide_vm.
  - decide_vm.
  - reflexivity.
  - decide_vm.
  - reflexivity.
  - reflexivity.
  - decide_vm.
  - decide_vm.
  - intros q [o Ho]. cbn [utxo] in Ho. by apply lookup_empty_Some in Ho.
  - apply first_block_mined.
  - decide_vm.
  - exists disks'. split; [exact E|exact L].
Defined.
