(* ===== verification/Bip39.v ===== *)
(** bip39.hpp: the words a wallet is recovered from. [entropy_to_mnemonic]
    spells entropy and its checksum as words of [WORDLIST], eleven bits a
    word; [validate_mnemonic] reads them back. *)

From S2P Require Import Prelude Crypto Text Wordlist.
From stdpp Require Import options.
Local Open Scope Z_scope.

Definition wordlist : list bytes := str <$> WORDLIST.

(** [(data[pos / 8] >> (7 - pos % 8)) & 1]. *)
Definition bit_at (data : bytes) (pos : nat) : Z :=
  Z.land (Z.shiftr (byteZ (nth (pos / 8) data Byte.x00)) (Z.of_nat (7 - pos mod 8))) 1.

Definition space : byte := u8 32.
Definition is_blank (c : byte) : bool :=
  (byteZ c =? 32) || (byteZ c =? 9) || (byteZ c =? 10) || (byteZ c =? 13).
(** The loop of [split_words]; [cur] is the word read so far. *)
Fixpoint split_words_loop (s cur : bytes) : list bytes :=
  match s with
  | [] => if bool_decide (cur = []) then [] else [cur]
  | c :: s =>
      if is_blank c then
        if bool_decide (cur = []) then split_words_loop s [] else cur :: split_words_loop s []
      else split_words_loop s (cur ++ [c])
  end.
Definition split_words (s : bytes) : list bytes := split_words_loop s [].

(** [if (i > 0) mnemonic += ' '; mnemonic += word]. *)
Definition spaced (ws : list bytes) : bytes :=
  match ws with [] => [] | w :: ws => foldl (fun m w => (m ++ [space]) ++ w) w ws end.

(** The bits of an index from bit [n - 1] down to bit 0. *)
Fixpoint index_bits (n : nat) (idx : Z) : list Z :=
  match n with O => [] | S n => Z.land (Z.shiftr idx (Z.of_nat n)) 1 :: index_bits n idx end.

(** [for (i = 0; i < entropy_bits; ++i) if (bits[i]) entropy[i / 8] |= 1u << (7 - i % 8)]. *)
Definition set_bit (bits : list Z) (entropy : bytes) (i : nat) : bytes :=
  if nth i bits 0 =? 0 then entropy
  else alter (fun b => u8 (Z.lor (byteZ b) (Z.shiftl 1 (Z.of_nat (7 - i mod 8))))) (i / 8)%nat entropy.
Definition packed (bits : list Z) (entropy_bits : nat) : bytes :=
  foldl (set_bit bits) (replicate (entropy_bits / 8) Byte.x00) (seq 0 entropy_bits).

Section Bip39.
Context {ssl : OpenSSL}.

Definition sha256_bytes (data : bytes) : bytes := hash_bytes (EVP_sha256 data).

(** The bit at [pos] of the entropy followed by its checksum. *)
Definition mnemonic_bit (entropy : bytes) (pos : nat) : Z :=
  let entropy_bits := (length entropy * 8)%nat in
  if bool_decide (pos < entropy_bits)%nat then bit_at entropy pos
  else bit_at (sha256_bytes entropy) (pos - entropy_bits).
Definition word_index (entropy : bytes) (i : nat) : Z :=
  foldl (fun index j => u16 (Z.lor (Z.shiftl index 1) (mnemonic_bit entropy (i * 11 + j)))) 0 (seq 0 11).
Definition word_count (entropy : bytes) : nat :=
  let entropy_bits := (length entropy * 8)%nat in ((entropy_bits + entropy_bits / 32) / 11)%nat.
Definition entropy_words (entropy : bytes) : list bytes :=
  (fun i => nth (Z.to_nat (word_index entropy i)) wordlist []) <$> seq 0 (word_count entropy).

Definition entropy_to_mnemonic (entropy : bytes) : result bytes :=
  throw_if (negb (bool_decide (length entropy ∈ [16; 20; 24; 28; 32]%nat))) "bip39: invalid entropy size" ;;
  Ok (spaced (entropy_words entropy)).

(** The index of each word, or nothing when one is not in the list. *)
Fixpoint word_bits (ws : list bytes) : option (list Z) :=
  match ws with
  | [] => Some []
  | w :: ws =>
      match list_find (fun x => x = w) wordlist with
      | None => None
      | Some (i, _) => bits ← word_bits ws; Some (index_bits 11 (u16 (Z.of_nat i)) ++ bits)
      end
  end.

Definition validate_mnemonic (mnemonic : bytes) : bool :=
  let ws := split_words mnemonic in
  if negb (bool_decide (length ws ∈ [12; 15; 18; 21; 24]%nat)) then false
  else
    let total_bits := (length ws * 11)%nat in
    let checksum_bits := (total_bits / 33)%nat in
    let entropy_bits := (total_bits - checksum_bits)%nat in
    match word_bits ws with
    | None => false
    | Some bits =>
        let hash := sha256_bytes (packed bits entropy_bits) in
        forallb (fun i => nth (entropy_bits + i) bits 0 =? bit_at hash i) (seq 0 checksum_bits)
    end.
End Bip39.

(** ** Bits *)

Definition is_bit (b : Z) : Prop := b = 0 \/ b = 1.

Lemma bit_testbit x i : 0 <= x -> 0 <= i -> Z.land (Z.shiftr x i) 1 = Z.b2z (Z.testbit x i).
Proof. intros Hx Hi. by rewrite Z.testbit_spec', Z.shiftr_div_pow2, (Z.land_ones _ 1). Qed.
Lemma bit_at_testbit data pos :
  bit_at data pos = Z.b2z (Z.testbit (byteZ (nth (pos / 8) data Byte.x00)) (Z.of_nat (7 - pos mod 8))).
Proof. unfold bit_at. apply bit_testbit; [apply byteZ_bound|lia]. Qed.
Lemma bit_at_bit data pos : is_bit (bit_at data pos).
Proof. rewrite bit_at_testbit. destruct (Z.testbit _ _); [by right|by left]. Qed.

Lemma byte_bits_inj b b' :
  (forall i, 0 <= i < 8 -> Z.testbit (byteZ b) i = Z.testbit (byteZ b') i) -> b = b'.
Proof.
  intros H. apply byteZ_inj, Z.bits_inj'. intros i Hi.
  destruct (decide (i < 8)) as [Hlt|Hge]; [by apply H|].
  assert (forall c, Z.testbit (byteZ c) i = false) as Hz.
  { intros c. pose proof (byteZ_bound c). rewrite <- (Z.mod_small (byteZ c) (2 ^ 8)) by lia.
    apply Z.mod_pow2_bits_high. lia. }
  by rewrite !Hz.
Qed.

(** Byte strings of one length with the same bits are equal. *)
Lemma bit_at_inj l l' :
  length l = length l' -> (forall pos, (pos < length l * 8)%nat -> bit_at l pos = bit_at l' pos) -> l = l'.
Proof.
  intros Hl H. apply nth_ext with Byte.x00 Byte.x00; [done|]. intros n Hn. apply byte_bits_inj. intros i Hi.
  specialize (H (n * 8 + (7 - Z.to_nat i))%nat ltac:(lia)). rewrite !bit_at_testbit in H.
  replace ((n * 8 + (7 - Z.to_nat i)) / 8)%nat with n in H by (rewrite Nat.div_add_l, Nat.div_small by lia; lia).
  replace ((n * 8 + (7 - Z.to_nat i)) mod 8)%nat with (7 - Z.to_nat i)%nat in H
    by (rewrite Nat.add_comm, Nat.Div0.mod_add, Nat.mod_small by lia; lia).
  replace (Z.of_nat (7 - (7 - Z.to_nat i))) with i in H by lia. by apply Z.b2z_inj.
Qed.

Definition bits_value (bits : list Z) (acc : Z) : Z := foldl (fun v b => 2 * v + b) acc bits.

Lemma bits_value_acc bits acc : bits_value bits acc = acc * 2 ^ Z.of_nat (length bits) + bits_value bits 0.
Proof.
  revert acc. unfold bits_value. induction bits as [|b bits IH]; intros acc; cbn [foldl length]; [lia|].
  rewrite IH, (IH (2 * 0 + b)). rewrite Nat2Z.inj_succ, Z.pow_succ_r by lia. lia.
Qed.
Lemma bits_value_bound bits : Forall is_bit bits -> 0 <= bits_value bits 0 < 2 ^ Z.of_nat (length bits).
Proof.
  induction 1 as [|b bits Hb _ IH]; [cbn; lia|].
  change (bits_value (b :: bits) 0) with (bits_value bits (2 * 0 + b)). rewrite bits_value_acc. cbn [length].
  rewrite Nat2Z.inj_succ, Z.pow_succ_r by lia. destruct Hb as [-> | ->]; lia.
Qed.
Lemma index_bits_bit n v : 0 <= v -> Forall is_bit (index_bits n v).
Proof.
  intros Hv. induction n as [|n IH]; constructor; [|done]. rewrite bit_testbit by lia.
  destruct (Z.testbit _ _); [by right|by left].
Qed.
Lemma index_bits_length n v : length (index_bits n v) = n.
Proof. induction n as [|n IH]; cbn; [done|by rewrite IH]. Qed.
Lemma index_bits_value n v : 0 <= v < 2 ^ Z.of_nat n -> bits_value (index_bits n v) 0 = v.
Proof.
  intros Hv. assert (forall m acc, bits_value (index_bits m v) acc = acc * 2 ^ Z.of_nat m + v mod 2 ^ Z.of_nat m) as H.
  { induction m as [|m IH]; intros acc; [cbn; rewrite Z.mod_1_r; lia|].
    cbn [index_bits]. change (bits_value (?b :: ?l) acc) with (bits_value l (2 * acc + b)).
    rewrite IH, Z.shiftr_div_pow2, (Z.land_ones _ 1) by lia. rewrite Nat2Z.inj_succ, (Z.pow_succ_r 2) by lia.
    rewrite (Z.mul_comm 2 (2 ^ Z.of_nat m)), Z.rem_mul_r by lia. change (2 ^ 1) with 2. ring. }
  rewrite H, Z.mod_small by done. lia.
Qed.
Lemma index_bits_high n v k : 0 <= v -> index_bits n (v + k * 2 ^ Z.of_nat n) = index_bits n v.
Proof.
  intros Hv. assert (forall m, (m <= n)%nat -> index_bits m (v + k * 2 ^ Z.of_nat n) = index_bits m v) as H; [|by apply H].
  induction m as [|m IH]; intros Hm; [done|]. cbn [index_bits]. f_equal; [|apply IH; lia].
  rewrite !Z.shiftr_div_pow2, !(Z.land_ones _ 1) by lia. change (2 ^ 1) with 2.
  replace (Z.of_nat n) with (Z.of_nat m + 1 + Z.of_nat (n - S m)) by lia.
  rewrite !Z.pow_add_r by lia. change (2 ^ 1) with 2.
  replace (v + k * (2 ^ Z.of_nat m * 2 * 2 ^ Z.of_nat (n - S m)))
    with (v + (k * 2 ^ Z.of_nat (n - S m)) * 2 * 2 ^ Z.of_nat m) by ring.
  rewrite Z.div_add, Z.mod_add by lia. done.
Qed.
Lemma value_index_bits bits : Forall is_bit bits -> index_bits (length bits) (bits_value bits 0) = bits.
Proof.
  induction 1 as [|b bits Hb Hbs IH]; [done|]. change (bits_value (b :: bits) 0) with (bits_value bits (2 * 0 + b)).
  rewrite bits_value_acc. cbn [index_bits length]. pose proof (bits_value_bound bits Hbs) as Hv.
  rewrite (Z.add_comm _ (bits_value bits 0)), index_bits_high, IH by lia. f_equal.
  rewrite Z.shiftr_div_pow2, Z.div_add, Z.div_small, (Z.land_ones _ 1) by lia.
  by destruct Hb as [-> | ->].
Qed.

(** ** Packing bits into bytes *)

Lemma bit_at_alter e i pos :
  (i / 8 < length e)%nat ->
  bit_at (alter (fun b => u8 (Z.lor (byteZ b) (Z.shiftl 1 (Z.of_nat (7 - i mod 8))))) (i / 8)%nat e) pos
  = if bool_decide (pos = i) then 1 else bit_at e pos.
Proof.
  intros Hi. rewrite !bit_at_testbit, !nth_lookup. pose proof (Nat.mod_upper_bound i 8 ltac:(lia)).
  pose proof (Nat.mod_upper_bound pos 8 ltac:(lia)).
  destruct (decide (pos / 8 = i / 8)%nat) as [E|E].
  - rewrite E, list_lookup_alter_eq. destruct (lookup_lt_is_Some_2 e (i / 8)%nat Hi) as [b ->].
    change (default Byte.x00 (?f <$> Some b)) with (f b). change (default Byte.x00 (Some b)) with b. cbv beta.
    rewrite byteZ_u8.
    change 256 with (2 ^ 8). rewrite Z.mod_pow2_bits_low, Z.lor_spec, Z.shiftl_1_l, Z.pow2_bits_eqb by lia.
    pose proof (Nat.div_mod_eq pos 8). pose proof (Nat.div_mod_eq i 8).
    destruct (Z.eqb_spec (Z.of_nat (7 - i mod 8)) (Z.of_nat (7 - pos mod 8))) as [Em|Em].
    + rewrite orb_true_r, bool_decide_true by lia. done.
    + rewrite orb_false_r, bool_decide_false by (intros ->; lia). done.
  - rewrite list_lookup_alter_ne by done. rewrite bool_decide_false by congruence. done.
Qed.

Lemma set_bit_length bits e i : length (set_bit bits e i) = length e.
Proof. unfold set_bit. destruct (_ =? _); [done|apply length_alter]. Qed.

Lemma zero_bit n pos : bit_at (replicate n Byte.x00) pos = 0.
Proof.
  rewrite bit_at_testbit, nth_lookup. destruct (replicate n Byte.x00 !! (pos / 8)%nat) as [b|] eqn:E.
  - apply lookup_replicate in E as [-> _]. cbn. by rewrite Z.testbit_0_l.
  - cbn. by rewrite Z.testbit_0_l.
Qed.

Lemma packed_prefix bits m k :
  Forall is_bit bits -> (k <= m * 8)%nat ->
  let e := foldl (set_bit bits) (replicate m Byte.x00) (seq 0 k) in
  length e = m /\ forall pos, bit_at e pos = if bool_decide (pos < k)%nat then nth pos bits 0 else 0.
Proof.
  intros Hb. induction k as [|k IH]; intros Hk; cbv zeta.
  { split; [apply length_replicate|]. intros pos. rewrite bool_decide_false by lia. apply zero_bit. }
  rewrite seq_S, foldl_app. cbn [foldl]. destruct (IH ltac:(lia)) as [Hl He].
  set (e := foldl _ _ _) in *. split; [by rewrite set_bit_length|]. intros pos.
  unfold set_bit. cbn [Nat.add].
  assert (is_bit (nth k bits 0)) as Hbit.
  { rewrite nth_lookup. destruct (bits !! k) as [b|] eqn:E; [|by left]. by eapply (Forall_lookup_1 _ _ _ _ Hb). }
  destruct (Z.eqb_spec (nth k bits 0) 0) as [E0|E0].
  - rewrite He. repeat case_bool_decide; try lia; try done. by replace pos with k by lia.
  - rewrite bit_at_alter, He; [|rewrite Hl; apply Nat.Div0.div_lt_upper_bound; lia].
    destruct Hbit as [?|E1]; [done|]. repeat case_bool_decide; try lia; congruence.
Qed.

Lemma packed_spec bits m :
  Forall is_bit bits ->
  length (packed bits (m * 8)) = m /\ forall pos, (pos < m * 8)%nat -> bit_at (packed bits (m * 8)) pos = nth pos bits 0.
Proof.
  intros Hb. unfold packed. rewrite Nat.div_mul by lia.
  destruct (packed_prefix bits m (m * 8) Hb ltac:(lia)) as [Hl He]. split; [done|].
  intros pos Hp. by rewrite He, bool_decide_true.
Qed.

(** ** Words *)

Fixpoint strictly_sorted (l : list bytes) : bool :=
  match l with
  | a :: ((b :: _) as l) => bytes_leb a b && negb (bool_decide (a = b)) && strictly_sorted l
  | _ => true
  end.
Lemma bytes_leb_trans a b c : bytes_leb a b = true -> bytes_leb b c = true -> bytes_leb a c = true.
Proof.
  revert b c. induction a as [|x a IH]; intros [|y b] [|z c]; cbn; try done.
  destruct (Z.eqb_spec (byteZ x) (byteZ y)) as [E1|E1]; destruct (Z.eqb_spec (byteZ y) (byteZ z)) as [E2|E2];
    destruct (Z.eqb_spec (byteZ x) (byteZ z)) as [E3|E3]; rewrite ?Z.ltb_lt; try lia; intros; try lia; eauto.
Qed.
Lemma bytes_leb_antisym a b : bytes_leb a b = true -> bytes_leb b a = true -> a = b.
Proof.
  revert b. induction a as [|x a IH]; intros [|y b]; cbn; try done.
  destruct (Z.eqb_spec (byteZ x) (byteZ y)) as [E1|E1]; destruct (Z.eqb_spec (byteZ y) (byteZ x)) as [E2|E2];
    rewrite ?Z.ltb_lt; try lia; intros. apply byteZ_inj in E1 as ->. f_equal. auto.
Qed.
Lemma strictly_sorted_NoDup l : strictly_sorted l = true -> NoDup l.
Proof.
  assert (forall a l, strictly_sorted (a :: l) = true ->
    strictly_sorted l = true /\ Forall (fun b => bytes_leb a b = true /\ a <> b) l) as H.
  { clear. intros a l. revert a. induction l as [|b l IH]; intros a; [done|]. intros Hs. cbn [strictly_sorted] in Hs.
    apply andb_true_iff in Hs as [[Hab Hne]%andb_true_iff Hs]. apply negb_true_iff, bool_decide_eq_false in Hne.
    split; [done|]. destruct (IH b Hs) as [_ Hb]. constructor; [done|]. eapply Forall_impl; [exact Hb|].
    intros c [Hbc Hnc]. split; [by eapply bytes_leb_trans|]. intros ->. apply Hne. by apply bytes_leb_antisym. }
  induction l as [|a l IH]; intros Hs; constructor; [|by apply IH, (H a l Hs)].
  destruct (H a l Hs) as [_ Ha]. intros Hin. by apply (proj1 (Forall_forall _ _) Ha) in Hin as [_ ?].
Qed.

Lemma wordlist_length : length wordlist = 2048%nat.
Proof. vm_compute. reflexivity. Qed.
Lemma wordlist_NoDup : NoDup wordlist.
Proof. apply strictly_sorted_NoDup. vm_compute. reflexivity. Qed.
(** No word is empty or holds a blank. *)
Lemma wordlist_plain : Forall (fun w => w <> [] /\ Forall (fun c => is_blank c = false) w) wordlist.
Proof.
  assert (forallb (fun w => negb (bool_decide (w = [])) && forallb (fun c => negb (is_blank c)) w) wordlist = true) as H
    by (vm_compute; reflexivity).
  rewrite forallb_forall in H. apply Forall_forall. intros w Hw%list_elem_of_In. apply H in Hw.
  apply andb_true_iff in Hw as [H1 H2]. apply negb_true_iff, bool_decide_eq_false in H1. split; [done|].
  rewrite forallb_forall in H2. apply Forall_forall. intros c Hc%list_elem_of_In. by apply H2, negb_true_iff in Hc.
Qed.
Lemma find_at (l : list bytes) i w :
  NoDup l -> l !! i = Some w -> list_find (fun x => x = w) l = Some (i, w).
Proof.
  intros Hl Hw. apply list_find_Some. split_and!; [done|done|].
  intros j x Hj Hx ->. pose proof (NoDup_lookup _ _ _ _ Hl Hj Hw). lia.
Qed.
Lemma find_word i : (i < 2048)%nat -> list_find (fun x => x = nth i wordlist []) wordlist = Some (i, nth i wordlist []).
Proof.
  intros Hi. rewrite <- wordlist_length in Hi. apply find_at; [apply wordlist_NoDup|].
  rewrite nth_lookup. by destruct (lookup_lt_is_Some_2 wordlist i Hi) as [w ->].
Qed.
#[global] Opaque wordlist.

Lemma split_words_word w s cur :
  Forall (fun c => is_blank c = false) w -> split_words_loop (w ++ s) cur = split_words_loop s (cur ++ w).
Proof.
  intros Hw. revert cur. induction Hw as [|c w Hc _ IH]; intros cur; [by rewrite app_nil_r|].
  cbn [app split_words_loop]. rewrite Hc, IH. by rewrite <- app_assoc.
Qed.
Lemma spaced_cons w v ws : spaced (w :: v :: ws) = w ++ space :: spaced (v :: ws).
Proof.
  cbn [spaced foldl]. assert (forall m k, foldl (fun m w => (m ++ [space]) ++ w) (k ++ m) ws =
    k ++ foldl (fun m w => (m ++ [space]) ++ w) m ws) as H.
  { induction ws as [|x ws IH]; intros m k; [done|]. cbn [foldl]. rewrite <- IH. by rewrite <- !app_assoc. }
  by rewrite H, <- app_assoc.
Qed.
Lemma split_spaced ws :
  Forall (fun w => w <> [] /\ Forall (fun c => is_blank c = false) w) ws -> split_words (spaced ws) = ws.
Proof.
  unfold split_words. induction 1 as [|w ws [Hw Hb] Hws IH]; [done|]. destruct ws as [|v ws].
  - cbn [spaced foldl]. rewrite <- (app_nil_r w) at 1. rewrite split_words_word by done. cbn.
    by rewrite bool_decide_false.
  - rewrite spaced_cons, split_words_word by done. cbn [split_words_loop app].
    change (is_blank space) with true. cbv iota. rewrite bool_decide_false by done. by rewrite IH.
Qed.
Lemma split_words_plain s cur :
  Forall (fun c => is_blank c = false) cur ->
  Forall (fun w => w <> [] /\ Forall (fun c => is_blank c = false) w) (split_words_loop s cur).
Proof.
  revert cur. induction s as [|c s IH]; intros cur Hc; cbn [split_words_loop].
  - case_bool_decide; [constructor|by repeat constructor].
  - destruct (is_blank c) eqn:E.
    + case_bool_decide; [by apply IH|]. constructor; [done|]. by apply IH.
    + apply IH, Forall_app_2; [done|by repeat constructor].
Qed.

(** ** Encoding and decoding *)

Section Codec.
Context {ssl : OpenSSL}.

(** Entropy of [4 c] bytes has [3 c] words and [c] checksum bits. *)
Definition strength (e : bytes) (c : nat) : Prop := length e = (4 * c)%nat /\ (4 <= c <= 8)%nat.
Definition all_bits (e : bytes) : list Z := mnemonic_bit e <$> seq 0 (word_count e * 11).

Lemma size_strength e : length e ∈ [16; 20; 24; 28; 32]%nat <-> exists c, strength e c.
Proof.
  unfold strength. rewrite !elem_of_cons, elem_of_nil. split.
  - intros [->|[->|[->|[->|[->|[]]]]]]; [exists 4%nat|exists 5%nat|exists 6%nat|exists 7%nat|exists 8%nat]; lia.
  - intros (c & -> & Hc). lia.
Qed.
Lemma strength_words e c : strength e c -> word_count e = (3 * c)%nat.
Proof.
  intros [Hl Hc]. unfold word_count. rewrite Hl. replace (4 * c * 8)%nat with (c * 32)%nat by lia.
  rewrite Nat.div_mul by lia. replace (c * 32 + c)%nat with (3 * c * 11)%nat by lia. by apply Nat.div_mul.
Qed.

Lemma mnemonic_bit_bit e pos : is_bit (mnemonic_bit e pos).
Proof. unfold mnemonic_bit. case_bool_decide; apply bit_at_bit. Qed.
Lemma bits_bit e l : Forall is_bit (mnemonic_bit e <$> l).
Proof. apply Forall_fmap, Forall_true. intros. apply mnemonic_bit_bit. Qed.

Lemma index_step v b : 0 <= v < 2 ^ 15 -> is_bit b -> u16 (Z.lor (Z.shiftl v 1) b) = 2 * v + b.
Proof.
  intros Hv Hb. assert (Z.lor (Z.shiftl v 1) b = 2 * v + b) as ->.
  { rewrite Z.shiftl_mul_pow2 by lia. destruct Hb as [-> | ->]; [rewrite Z.lor_0_r; lia|].
    rewrite <- Z.lxor_lor; [rewrite <- Z.add_nocarry_lxor; [lia|]|]; change (v * 2 ^ 1) with (v * 2);
      apply Z.bits_inj'; intros i Hi; rewrite Z.land_spec, Z.bits_0;
      (destruct (Z.eq_dec i 0) as [->|]; [by rewrite Z.mul_comm, Z.testbit_even_0|];
       rewrite (Z.bits_above_log2 1) by (cbn; lia); apply andb_false_r). }
  apply Z.mod_small. destruct Hb as [-> | ->]; lia.
Qed.
Lemma index_fold e l v :
  (length l <= 15)%nat -> 0 <= v < 2 ^ (15 - Z.of_nat (length l)) ->
  foldl (fun index j => u16 (Z.lor (Z.shiftl index 1) (mnemonic_bit e j))) v l = bits_value (mnemonic_bit e <$> l) v.
Proof.
  revert v. induction l as [|j l IH]; intros v Hl Hv; [done|]. cbn [foldl length] in *.
  pose proof (mnemonic_bit_bit e j) as Hb. replace (15 - Z.of_nat (S (length l))) with (14 - Z.of_nat (length l)) in Hv by lia.
  assert (2 ^ (15 - Z.of_nat (length l)) = 2 * 2 ^ (14 - Z.of_nat (length l))) as Ep.
  { rewrite <- Z.pow_succ_r by lia. f_equal. lia. }
  assert (2 ^ (15 - Z.of_nat (length l)) <= 2 ^ 15) by (apply Z.pow_le_mono_r; lia).
  rewrite index_step by (lia || done). rewrite IH; [done|lia|]. destruct Hb as [-> | ->]; lia.
Qed.
Lemma word_index_value e i : word_index e i = bits_value (mnemonic_bit e <$> seq (i * 11) 11) 0.
Proof.
  unfold word_index. rewrite <- (index_fold e (seq (i * 11) 11) 0) by (rewrite ?length_seq; lia).
  replace (seq (i * 11) 11) with (Nat.add (i * 11) <$> seq 0 11) by (rewrite fmap_add_seq; f_equal; lia).
  by rewrite foldl_fmap.
Qed.
Lemma word_index_bound e i : 0 <= word_index e i < 2048.
Proof.
  rewrite word_index_value. pose proof (bits_value_bound _ (bits_bit e (seq (i * 11) 11))) as H.
  rewrite length_fmap, length_seq in H. exact H.
Qed.

Lemma word_bits_words e s n :
  word_bits ((fun i => nth (Z.to_nat (word_index e i)) wordlist []) <$> seq s n)
  = Some (mnemonic_bit e <$> seq (s * 11) (n * 11)).
Proof.
  revert s. induction n as [|n IH]; intros s; [done|].
  change (seq s (S n)) with (s :: seq (S s) n). cbn [fmap list_fmap word_bits].
  pose proof (word_index_bound e s) as Hb. rewrite find_word by lia. rewrite IH.
  change (mbind ?f (Some ?x)) with (f x). cbv beta. f_equal.
  replace (S n * 11)%nat with (11 + n * 11)%nat by lia. rewrite seq_app, fmap_app.
  replace (s * 11 + 11)%nat with (S s * 11)%nat by lia. f_equal.
  rewrite Z2Nat.id by lia. unfold u16. rewrite Z.mod_small by lia. rewrite word_index_value.
  pose proof (value_index_bits _ (bits_bit e (seq (s * 11) 11))) as H.
  by rewrite length_fmap, length_seq in H.
Qed.
Lemma word_bits_entropy e : word_bits (entropy_words e) = Some (all_bits e).
Proof. apply (word_bits_words e 0). Qed.

Lemma word_bits_some ws bits : word_bits ws = Some bits -> length bits = (length ws * 11)%nat /\ Forall is_bit bits.
Proof.
  revert bits. induction ws as [|w ws IH]; intros bits; cbn [word_bits]; [by intros [= <-]|].
  destruct (list_find _ _) as [[i x]|] eqn:E; [|done]. destruct (word_bits ws) as [bs|]; [|done].
  change (Some (index_bits 11 (u16 (Z.of_nat i)) ++ bs) = Some bits -> length bits = (S (length ws) * 11)%nat /\ Forall is_bit bits).
  intros <-%(inj Some). destruct (IH bs eq_refl) as [Hl Hb]. split.
  - rewrite length_app, index_bits_length, Hl. lia.
  - apply Forall_app. split; [|done]. apply index_bits_bit. unfold u16. apply Z.mod_pos_bound. lia.
Qed.
Lemma word_bits_inj ws ws' bits : word_bits ws = Some bits -> word_bits ws' = Some bits -> ws = ws'.
Proof.
  revert ws' bits. induction ws as [|w ws IH]; intros ws' bits H H'.
  { pose proof (proj1 (word_bits_some _ _ H)) as Hl. rewrite (proj1 (word_bits_some _ _ H')) in Hl. destruct ws'; [done|].
    cbn in Hl. lia. }
  destruct ws' as [|w' ws'].
  { pose proof (proj1 (word_bits_some _ _ H)) as Hl. rewrite (proj1 (word_bits_some _ _ H')) in Hl. cbn in Hl. lia. }
  cbn [word_bits] in H, H'. destruct (list_find (fun x => x = w) _) as [[i x]|] eqn:E; [|done].
  destruct (list_find (fun x => x = w') _) as [[i' x']|] eqn:E'; [|done].
  destruct (word_bits ws) as [bs|] eqn:Eb; [|done]. destruct (word_bits ws') as [bs'|] eqn:Eb'; [|done].
  change (Some (index_bits 11 (u16 (Z.of_nat i)) ++ bs) = Some bits) in H.
  change (Some (index_bits 11 (u16 (Z.of_nat i')) ++ bs') = Some bits) in H'.
  apply (inj Some) in H as <-. apply (inj Some) in H' as Hbits.
  apply (app_inj_1 (index_bits 11 (u16 (Z.of_nat i')))) in Hbits as [Hi ->]; [|by rewrite !index_bits_length].
  apply list_find_Some in E as (Hw & -> & _). apply list_find_Some in E' as (Hw' & -> & _).
  pose proof (lookup_lt_Some _ _ _ Hw) as Hlt. pose proof (lookup_lt_Some _ _ _ Hw') as Hlt'. rewrite wordlist_length in *.
  assert (i' = i) as ->.
  { apply (f_equal (fun l => bits_value l 0)) in Hi. unfold u16 in Hi.
    rewrite !index_bits_value in Hi by (rewrite Z.mod_small by lia; cbn; lia). rewrite !Z.mod_small in Hi by lia. lia. }
  f_equal; [congruence|]. by eapply IH.
Qed.

Lemma entropy_plain e : Forall (fun w => w <> [] /\ Forall (fun c => is_blank c = false) w) (entropy_words e).
Proof.
  apply Forall_fmap, Forall_true. intros i. unfold compose. pose proof (word_index_bound e i) as Hb. rewrite nth_lookup.
  destruct (lookup_lt_is_Some_2 wordlist (Z.to_nat (word_index e i))) as [w Hw]; [rewrite wordlist_length; lia|].
  rewrite Hw. by apply (Forall_lookup_1 _ _ _ _ wordlist_plain Hw).
Qed.
Lemma entropy_words_length e c : strength e c -> length (entropy_words e) = (3 * c)%nat.
Proof. intros H. unfold entropy_words. by rewrite length_fmap, length_seq, (strength_words e c). Qed.
Lemma all_bits_nth e c pos : strength e c -> (pos < 33 * c)%nat -> nth pos (all_bits e) 0 = mnemonic_bit e pos.
Proof.
  intros H Hp. unfold all_bits. rewrite (strength_words e c H), nth_lookup, list_lookup_fmap, lookup_seq_lt by lia. done.
Qed.

(** What validation computes on [3 c] words. *)
Definition checksum_ok (bits : list Z) (c : nat) : bool :=
  forallb (fun i => nth (4 * c * 8 + i) bits 0 =? bit_at (sha256_bytes (packed bits (4 * c * 8))) i) (seq 0 c).
Lemma validate_words m c :
  length (split_words m) = (3 * c)%nat -> (4 <= c <= 8)%nat ->
  validate_mnemonic m = match word_bits (split_words m) with None => false | Some bits => checksum_ok bits c end.
Proof.
  intros Hl Hc. unfold validate_mnemonic. rewrite Hl. rewrite bool_decide_true by (rewrite !elem_of_cons; lia). cbn [negb].
  replace (3 * c * 11)%nat with (c * 33)%nat by lia. rewrite Nat.div_mul by lia.
  by replace (c * 33 - c)%nat with (4 * c * 8)%nat by lia.
Qed.
Lemma validate_size m :
  validate_mnemonic m = true -> exists c, length (split_words m) = (3 * c)%nat /\ (4 <= c <= 8)%nat.
Proof.
  unfold validate_mnemonic. case_bool_decide as H; [|done]. intros _. rewrite !elem_of_cons, elem_of_nil in H.
  destruct H as [->|[->|[->|[->|[->|[]]]]]]; [exists 4%nat|exists 5%nat|exists 6%nat|exists 7%nat|exists 8%nat]; lia.
Qed.

Lemma packed_all_bits e c : strength e c -> packed (all_bits e) (4 * c * 8) = e.
Proof.
  intros H. pose proof H as [Hl Hc]. destruct (packed_spec (all_bits e) (4 * c) (bits_bit e _)) as [Hpl Hp].
  apply bit_at_inj; [lia|]. rewrite Hpl. intros pos Hpos. rewrite Hp, (all_bits_nth e c) by (done || lia).
  unfold mnemonic_bit. by rewrite bool_decide_true by lia.
Qed.
Lemma checksum_all_bits e c : strength e c -> checksum_ok (all_bits e) c = true.
Proof.
  intros H. pose proof H as [Hl Hc]. unfold checksum_ok. rewrite (packed_all_bits e c H). apply forallb_forall.
  intros i Hi%in_seq. apply Z.eqb_eq. rewrite (all_bits_nth e c) by (done || lia). unfold mnemonic_bit.
  rewrite bool_decide_false by lia. f_equal. lia.
Qed.

(** Bits that pass the checksum are those of the entropy they hold. *)
Lemma checksum_bits bits c :
  (4 <= c <= 8)%nat -> length bits = (33 * c)%nat -> Forall is_bit bits -> checksum_ok bits c = true ->
  strength (packed bits (4 * c * 8)) c /\ all_bits (packed bits (4 * c * 8)) = bits.
Proof.
  intros Hc Hl Hb Hok. destruct (packed_spec bits (4 * c) Hb) as [Hpl Hp].
  set (e := packed bits (4 * c * 8)) in *. assert (strength e c) as H by done. split; [done|].
  apply nth_ext with 0 0.
  { unfold all_bits. rewrite length_fmap, length_seq, (strength_words e c H). lia. }
  intros pos Hpos. unfold all_bits in Hpos. rewrite length_fmap, length_seq, (strength_words e c H) in Hpos.
  rewrite (all_bits_nth e c) by (done || lia). unfold mnemonic_bit. rewrite Hpl. case_bool_decide as Hlt; [by apply Hp|].
  unfold checksum_ok in Hok. rewrite forallb_forall in Hok.
  specialize (Hok (pos - 4 * c * 8)%nat ltac:(apply in_seq; lia)). apply Z.eqb_eq in Hok. fold e in Hok.
  rewrite <- Hok. f_equal. lia.
Qed.

Lemma entropy_to_mnemonic_ok e m :
  entropy_to_mnemonic e = Ok m <-> (exists c, strength e c) /\ m = spaced (entropy_words e).
Proof.
  unfold entropy_to_mnemonic, throw_if. rewrite <- size_strength. case_bool_decide as H; cbn.
  - split; [by intros [= <-]|]. by intros [_ ->].
  - split; [done|]. by intros [? _].
Qed.
End Codec.

(** C31: the words of a wallet are a code. A text is accepted exactly when its
    words are the mnemonic of some entropy, whatever blanks separate them, and
    that entropy is the only one with these words: every mnemonic the code
    hands out is accepted back, and no two of them are the same. *)
Theorem mnemonic_codec {ssl : OpenSSL} m :
  (validate_mnemonic m = true <-> exists e, entropy_to_mnemonic e = Ok (spaced (split_words m))) /\
  (forall e e' w, entropy_to_mnemonic e = Ok w -> entropy_to_mnemonic e' = Ok w -> e = e').
Proof.
  split; [split|].
  - intros Hv. destruct (validate_size m Hv) as (c & Hl & Hc). rewrite (validate_words m c Hl Hc) in Hv.
    destruct (word_bits (split_words m)) as [bits|] eqn:Eb; [|done]. destruct (word_bits_some _ _ Eb) as [Hbl Hb].
    destruct (checksum_bits bits c Hc ltac:(lia) Hb Hv) as [Hs Ha]. set (e := packed bits (4 * c * 8)) in *.
    exists e. apply entropy_to_mnemonic_ok. split; [by exists c|]. f_equal. apply (word_bits_inj _ _ bits Eb).
    by rewrite word_bits_entropy, Ha.
  - intros (e & [[c Hs] E]%entropy_to_mnemonic_ok).
    assert (split_words m = entropy_words e) as Ew.
    { apply (f_equal split_words) in E. by rewrite !split_spaced in E by (apply entropy_plain || by apply split_words_plain). }
    rewrite (validate_words m c), Ew, word_bits_entropy; [by apply checksum_all_bits| |apply Hs].
    rewrite Ew. by apply entropy_words_length.
  - intros e e' w [[c Hs] ->]%entropy_to_mnemonic_ok [[c' Hs'] E]%entropy_to_mnemonic_ok.
    apply (f_equal split_words) in E. rewrite !split_spaced in E by apply entropy_plain.
    assert (c' = c) as ->.
    { pose proof (entropy_words_length e c Hs) as H1. rewrite E, (entropy_words_length e' c' Hs') in H1. lia. }
    pose proof (word_bits_entropy e) as H. rewrite E, word_bits_entropy in H. injection H as H.
    rewrite <- (packed_all_bits e c Hs), <- H. by apply packed_all_bits.
Qed.

(** Sixteen zero bytes spell the word of index 0 eleven times and one that
    carries the checksum. *)
Lemma mnemonic_codec_witness :
  entropy_words (ssl := Toy.ssl) (replicate 16 Byte.x00) !! 0%nat = Some (str "abandon") /\
  forall e', entropy_to_mnemonic (ssl := Toy.ssl) e' = entropy_to_mnemonic (ssl := Toy.ssl) (replicate 16 Byte.x00) ->
    e' = replicate 16 Byte.x00.
Proof.
  split; [vm_compute; reflexivity|]. intros e' E.
  refine (proj2 (mnemonic_codec (ssl := Toy.ssl) []) e' (replicate 16 Byte.x00) _ _ eq_refl).
  rewrite E. reflexivity.
Defined.
