(* ===== verification/Double.v ===== *)
(** [double]: IEEE binary64 arithmetic as the Standard Library specifies it,
    the conversions from and to 64-bit integers, [operator<<] with the default
    precision of six digits and [std::stod]. The pool keeps its fee and its
    hash rates in doubles. *)

From S2P Require Import Prelude Transaction Ownership Text.
From Stdlib Require Import Floats.SpecFloat.
From stdpp Require Import options.
Local Open Scope Z_scope.

Abbreviation double := spec_float.
Definition PREC : Z := 53.
Definition EMAX : Z := 1024.

#[global] Instance double_eq_dec : EqDecision double.
Proof. solve_decision. Defined.

(** [static_cast<double>] of an integer, rounded to nearest. *)
Definition double_of_u64 (z : Z) : double := binary_normalize PREC EMAX z 0 false.
Definition double_mul (x y : double) : double := SFmul PREC EMAX x y.
Definition double_div (x y : double) : double := SFdiv PREC EMAX x y.

(** The value of [m * 2^e], rounded towards zero. *)
Definition truncate (m e : Z) : Z := if 0 <=? e then m * 2 ^ e else m / 2 ^ (- e).

(** [static_cast<std::uint64_t>]; [None] where the language leaves the result
    undefined: a value that does not fit, an infinity or a NaN. *)
Definition u64_of_double (x : double) : option Z :=
  match x with
  | S754_zero _ => Some 0
  | S754_finite s m e =>
      let v := truncate (Zpos m) e in
      if s then (if v =? 0 then Some 0 else None)
      else if v <=? UINT64_MAX then Some v else None
  | _ => None
  end.

(** ** Printing *)

(** The decimal exponent of [n / d]: the least [x], from [x0] on, with [n / d < 10^(x + 1)]. *)
Fixpoint dec_exponent (fuel : nat) (n d x : Z) : Z :=
  match fuel with
  | O => x
  | S fuel =>
      let below := if 0 <=? x + 1 then n <? d * 10 ^ (x + 1) else n * 10 ^ (- (x + 1)) <? d in
      if below then x else dec_exponent fuel n d (x + 1)
  end.

(** [n / d] to the nearest integer, ties to even. *)
Definition div_even (n d : Z) : Z :=
  let q := n / d in
  let r := n mod d in
  if 2 * r <? d then q else if d <? 2 * r then q + 1 else if Z.even q then q else q + 1.

(** Trailing zeros of a fraction go. *)
Definition strip_zeros (ds : bytes) : bytes :=
  reverse (drop_while (fun c => byteZ c =? 48) (reverse ds)).
Definition with_point (whole frac : bytes) : bytes :=
  let frac := strip_zeros frac in
  if bool_decide (frac = []) then whole else whole ++ str "." ++ frac.
(** Digits padded with zeros on the left. *)
Definition padded (width : nat) (z : Z) : bytes :=
  let ds := dec_str z in replicate (width - length ds) (u8 48) ++ ds.

(** [n / d > 0] with six significant digits, as [%g] prints it. *)
Definition print_positive (n d : Z) : bytes :=
  let x := dec_exponent 700 n d (-330) in
  let scaled := if x <=? 5 then div_even (n * 10 ^ (5 - x)) d else div_even n (d * 10 ^ (x - 5)) in
  let '(ds, x) := if scaled =? 1000000 then (100000, x + 1) else (scaled, x) in
  let digits := dec_str ds in
  if (x <? -4) || (6 <=? x) then
    with_point (take 1 digits) (drop 1 digits) ++ str "e"
      ++ (if x <? 0 then str "-" else str "+") ++ padded 2 (Z.abs x)
  else if 0 <=? x then with_point (take (Z.to_nat (x + 1)) digits) (drop (Z.to_nat (x + 1)) digits)
  else with_point (str "0") (replicate (Z.to_nat (- x - 1)) (u8 48) ++ digits).

(** [out << x]. *)
Definition print_double (x : double) : bytes :=
  match x with
  | S754_zero s => if s then str "-0" else str "0"
  | S754_infinity s => if s then str "-inf" else str "inf"
  | S754_nan => str "nan"
  | S754_finite s m e =>
      (if s then str "-" else [])
      ++ (if 0 <=? e then print_positive (Zpos m * 2 ^ e) 1 else print_positive (Zpos m) (2 ^ (- e)))
  end.

(** ** Reading *)

Definition lower (c : byte) : byte :=
  if (65 <=? byteZ c) && (byteZ c <=? 90) then u8 (byteZ c + 32) else c.

(** The double nearest to [n / d], with the range errors of [strtod]: a value
    that overflows, or one below the normal range that is not exact. *)
Definition round_ratio (negative : bool) (n d : Z) : result double :=
  if n =? 0 then Ok (S754_zero negative)
  else
    match double_div (S754_finite negative (Z.to_pos n) 0) (S754_finite false (Z.to_pos d) 0) with
    | S754_finite s m e =>
        let exact := if 0 <=? e then Zpos m * 2 ^ e * d =? n else Zpos m * d =? n * 2 ^ (- e) in
        if (Zpos (digits2_pos m) <? PREC) && negb exact then Throw "stod" else Ok (S754_finite s m e)
    | _ => Throw "stod"
    end.
Definition round_scaled (negative : bool) (n base p : Z) : result double :=
  if 0 <=? p then round_ratio negative (n * base ^ p) 1 else round_ratio negative n (base ^ (- p)).

(** The optional exponent after [mark]. *)
Definition read_exponent (mark : Z) (s : bytes) : Z :=
  match s with
  | c :: t =>
      if byteZ (lower c) =? mark then
        let '(negative, t) := strip_sign t in
        let v := dec_value (take_while is_digit t) in
        if negative then - v else v
      else 0
  | [] => 0
  end.

(** Digits, an optional fraction: the digits, how many of them follow the
    point, and what comes next. *)
Definition read_mantissa (P : byte -> bool) (s : bytes) : bytes * nat * bytes :=
  let whole := take_while P s in
  match drop_while P s with
  | c :: t =>
      if byteZ c =? 46 then
        let frac := take_while P t in (whole ++ frac, length frac, drop_while P t)
      else (whole, 0%nat, c :: t)
  | [] => (whole, 0%nat, [])
  end.

Definition is_hex_digit (c : byte) : bool := match hex_value c with Ok _ => true | Throw _ => false end.
Definition hex_number (ds : bytes) : Z :=
  foldl (fun v c => v * 16 + match hex_value c with Ok x => x | Throw _ => 0 end) 0 ds.

Definition read_decimal (negative : bool) (s : bytes) : result double :=
  let '(ds, k, s) := read_mantissa is_digit s in
  if bool_decide (ds = []) then Throw "stod"
  else round_scaled negative (dec_value ds) 10 (read_exponent 101 s - Z.of_nat k).
Definition read_hex (negative : bool) (s : bytes) : result double :=
  let '(ds, k, s) := read_mantissa is_hex_digit s in
  if bool_decide (ds = []) then Ok (S754_zero negative)
  else round_scaled negative (hex_number ds) 2 (read_exponent 112 s - 4 * Z.of_nat k).

(** [std::stod]. *)
Definition stod (s : bytes) : result double :=
  let '(negative, s) := strip_sign (drop_while is_space s) in
  let word := lower <$> take 3 s in
  if bool_decide (word = str "inf") then Ok (S754_infinity negative)
  else if bool_decide (word = str "nan") then Ok S754_nan
  else if bool_decide ((lower <$> take 2 s) = str "0x") then read_hex negative (drop 2 s)
  else read_decimal negative s.

(** ** Rounding *)

Lemma digits2_log2 p : Zpos (digits2_pos p) = Z.log2 (Zpos p) + 1.
Proof.
  induction p as [p IH|p IH|]; cbn [digits2_pos]; [| |done]; rewrite Pos2Z.inj_succ, IH.
  - replace (Zpos p~1) with (2 * Zpos p + 1) by lia. rewrite Z.log2_succ_double; lia.
  - replace (Zpos p~0) with (2 * Zpos p) by lia. rewrite Z.log2_double; lia.
Qed.

Lemma shr_1_spec mrs : 0 <= shr_m mrs -> shr_m (shr_1 mrs) = shr_m mrs / 2.
Proof.
  destruct mrs as [[|[p|p|]|p] r s]; intros H; cbn [shr_1 shr_m] in *; try done; try lia.
  - replace (Zpos p~1) with (1 + Zpos p * 2) by lia. by rewrite Z.div_add by lia.
  - replace (Zpos p~0) with (Zpos p * 2) by lia. by rewrite Z.div_mul by lia.
Qed.

Lemma iter_shr_spec p mrs : 0 <= shr_m mrs ->
  shr_m (iter_pos shr_1 p mrs) = shr_m mrs / 2 ^ Zpos p.
Proof.
  revert mrs. induction p as [p IH|p IH|]; intros mrs H; cbn [iter_pos].
  - assert (0 <= shr_m (shr_1 mrs)) by (rewrite shr_1_spec by done; apply Z.div_pos; lia).
    assert (0 < 2 ^ Zpos p) by lia.
    rewrite (IH (iter_pos _ _ _)), IH, shr_1_spec; rewrite ?IH; try done; try (apply Z.div_pos; lia).
    rewrite !Z.div_div by lia. f_equal. replace (Zpos p~1) with (2 * Zpos p + 1) by lia.
    rewrite Z.pow_add_r, Z.pow_mul_r, Z.pow_1_r by lia. replace (2 ^ 2) with (2 * 2) by lia.
    rewrite Z.pow_mul_l. lia.
  - assert (0 < 2 ^ Zpos p) by lia.
    rewrite (IH (iter_pos _ _ _)), IH; rewrite ?IH; try done; try (apply Z.div_pos; lia).
    rewrite Z.div_div by lia. f_equal. replace (Zpos p~0) with (2 * Zpos p) by lia.
    rewrite Z.pow_mul_r by lia. replace (2 ^ 2) with (2 * 2) by lia. by rewrite Z.pow_mul_l.
  - by rewrite shr_1_spec.
Qed.

(** Rounding to the nearest integer moves to one of the two neighbours. *)
Lemma round_nearest_neighbour m l :
  round_nearest_even m l = m \/ round_nearest_even m l = m + 1.
Proof. destruct l as [|[]]; simpl; auto. destruct (Z.even m); auto. Qed.

(** The shift of a mantissa of [53] digits in the normal range is none. *)
Lemma shr_fexp_normal m e l :
  Z.log2 (Zpos m) = 52 -> -1074 <= e -> shr_fexp PREC EMAX (Zpos m) e l = (shr_record_of_loc (Zpos m) l, e).
Proof.
  intros Hm He. unfold shr_fexp, Zdigits2. rewrite digits2_log2, Hm.
  unfold fexp, emin, PREC, EMAX. replace (Z.max _ _ - e) with 0 by lia. done.
Qed.

Lemma round_carry e : -1074 <= e ->
  exists mrs, shr_fexp PREC EMAX (2 ^ 53) e loc_Exact = (mrs, e + 1) /\ shr_m mrs = 2 ^ 52.
Proof.
  intros He. unfold shr_fexp. change (Zdigits2 (2 ^ 53)) with 54.
  unfold fexp, emin, PREC, EMAX. replace (Z.max _ _ - e) with 1 by lia. by eexists.
Qed.

(** A product rounded in the normal range: the relative error is at most 2^-52. *)
Lemma round_close m e :
  -1074 <= Z.log2 (Zpos m) - 52 + e <= 900 -> -1074 <= e <= 900 ->
  exists M E, binary_round_aux PREC EMAX false (Zpos m) e loc_Exact = S754_finite false M E /\
    e <= E /\ 2 ^ 52 * Z.abs (Zpos M * 2 ^ (E - e) - Zpos m) <= Zpos m.
Proof.
  intros Hn He. unfold binary_round_aux.
  destruct (Z.le_gt_cases (Z.log2 (Zpos m)) 52) as [Hk|Hk].
  - assert (shr_fexp PREC EMAX (Zpos m) e loc_Exact = (Build_shr_record (Zpos m) false false, e)) as E.
    { unfold shr_fexp, Zdigits2. rewrite digits2_log2. unfold fexp, emin, PREC, EMAX.
      destruct (Z.max _ _ - e) eqn:?; [done|lia|done]. }
    rewrite E. cbn -[shr_fexp Z.pow Z.mul]. rewrite E. cbn -[Z.pow Z.mul].
    rewrite (proj2 (Z.leb_le _ _)) by (unfold EMAX, PREC; lia).
    exists m, e. split; [done|]. rewrite Z.sub_diag, Z.pow_0_r. split; lia.
  - set (k := Z.log2 (Zpos m) - 52). pose proof (Z.log2_spec (Zpos m) ltac:(lia)) as [Hlo Hhi].
    replace (Z.log2 (Zpos m)) with (52 + k) in Hlo by lia.
    replace (Z.succ (Z.log2 (Zpos m))) with (53 + k) in Hhi by lia.
    rewrite Z.pow_add_r in Hlo, Hhi by lia. assert (0 < 2 ^ k) by (apply Z.pow_pos_nonneg; lia).
    assert (2 ^ 52 <= Zpos m / 2 ^ k < 2 ^ 53) as Hq.
    { split; [apply Z.div_le_lower_bound|apply Z.div_lt_upper_bound]; lia. }
    assert (exists mrs, shr_fexp PREC EMAX (Zpos m) e loc_Exact = (mrs, e + k) /\
      shr_m mrs = Zpos m / 2 ^ k) as (mrs & -> & Hmrs).
    { unfold shr_fexp, Zdigits2. rewrite digits2_log2. unfold fexp, emin, PREC, EMAX.
      replace (Z.max _ _ - e) with k by lia. destruct k as [|p|] eqn:Ek; [lia| |lia].
      eexists. split; [done|]. by rewrite iter_shr_spec. }
    pose proof (Z.div_mod (Zpos m) (2 ^ k) ltac:(lia)). pose proof (Z.mod_pos_bound (Zpos m) (2 ^ k) ltac:(lia)).
    rewrite Hmrs. set (r := round_nearest_even _ _).
    assert (Z.abs (r * 2 ^ k - Zpos m) <= 2 ^ k) as Hr.
    { destruct (round_nearest_neighbour (Zpos m / 2 ^ k) (loc_of_shr_record mrs)) as [E|E];
        fold r in E; rewrite E; nia. }
    assert (2 ^ 52 <= r <= 2 ^ 53) as Hrr.
    { destruct (round_nearest_neighbour (Zpos m / 2 ^ k) (loc_of_shr_record mrs)) as [E|E];
        fold r in E; lia. }
    destruct (decide (r = 2 ^ 53)) as [Hc|Hc].
    + rewrite Hc. destruct (round_carry (e + k) ltac:(lia)) as (mrs2 & -> & ->).
      change (2 ^ 52) with (Zpos 4503599627370496) at 1. cbv iota.
      rewrite (proj2 (Z.leb_le _ _)) by (unfold EMAX, PREC; lia).
      eexists _, _. split; [done|]. split; [lia|]. replace (e + k + 1 - e) with (1 + k) by lia.
      rewrite Z.pow_add_r by lia. change (2 ^ 1) with 2.
      rewrite Hc in Hr. change (2 ^ 53) with (4503599627370496 * 2) in Hr. nia.
    + destruct r as [|rp|] eqn:Er; [lia| |lia].
      rewrite shr_fexp_normal by (try (apply Z.log2_unique; lia); lia). cbn [shr_record_of_loc shr_m].
      rewrite (proj2 (Z.leb_le _ _)) by (unfold EMAX, PREC; lia).
      eexists _, _. split; [done|]. split; [lia|]. replace (e + k - e) with k by lia. nia.
Qed.

(** Integers below 2^53 convert exactly. *)
Lemma double_of_u64_exact d : 0 < d < 2 ^ 53 ->
  let s := 52 - Z.log2 d in
  exists m, double_of_u64 d = S754_finite false m (- s) /\ Zpos m = d * 2 ^ s /\ 0 <= s <= 52.
Proof.
  intros Hd s. assert (0 <= Z.log2 d < 53) as Hl.
  { split; [apply Z.log2_nonneg|]. apply Z.log2_lt_pow2; lia. }
  assert (0 <= s <= 52) by lia. destruct d as [|p|]; [lia| |lia].
  unfold double_of_u64, binary_normalize, binary_round. rewrite digits2_log2.
  unfold shl_align, fexp, emin, PREC, EMAX.
  replace (Z.max _ _ - 0) with (- s) by lia.
  assert (exists mz, (match - s with Z.neg d => (Pos.iter xO p d, Z.max (Z.log2 (Z.pos p) + 1 + 0 - 53) (3 - 1024 - 53))
                      | _ => (p, 0) end) = (mz, - s) /\ Zpos mz = Zpos p * 2 ^ s) as (mz & E & Hmz).
  { destruct s as [|q|] eqn:Es; [| |lia].
    - exists p. simpl Z.opp. split; [done|]. lia.
    - exists (Pos.iter xO p q). simpl Z.opp. split; [f_equal; lia|].
      clear. induction q as [|q IH] using Pos.peano_ind; [simpl; lia|].
      rewrite Pos.iter_succ, Pos2Z.inj_succ, Z.pow_succ_r by lia. cbn [Pos.iter] in *. lia. }
  rewrite E. exists mz. split; [|done].
  assert (Z.log2 (Zpos mz) = 52) as Hz by (rewrite Hmz, Z.log2_mul_pow2; lia).
  unfold binary_round_aux. fold PREC EMAX.
  rewrite shr_fexp_normal by lia. cbn [shr_record_of_loc shr_m loc_of_shr_record round_nearest_even].
  rewrite shr_fexp_normal by lia. cbn [shr_record_of_loc shr_m].
  rewrite (proj2 (Z.leb_le _ _)) by (unfold EMAX, PREC; lia). done.
Qed.

Lemma truncate_shift M E e : e <= E -> e <= 0 -> 0 <= M -> truncate M E = M * 2 ^ (E - e) / 2 ^ (- e).
Proof.
  intros He He0 HM. unfold truncate. destruct (0 <=? E) eqn:H; zbool.
  - replace (E - e) with (E + - e) by lia. rewrite Z.pow_add_r, Z.mul_assoc by lia.
    by rewrite Z.div_mul by lia.
  - replace (- e) with (- E + (E - e)) by lia. rewrite Z.pow_add_r by lia.
    rewrite Z.div_mul_cancel_r; [done|lia|]. apply Z.pow_nonzero; lia.
Qed.
