(* ===== verification/PoolState.v ===== *)
(** The state of the mining pool in http_rpc.hpp: its records, its global
    variables as one record, and the text file [pool_state.txt] it is saved to
    and loaded from. A string that is printed into the file is the bytes
    between its separators, so what the file means depends on which bytes
    names and addresses may hold. *)

From S2P Require Import Prelude Serialization Crypto Transaction Ownership Block Text Double.
From Stdlib Require Import Floats.SpecFloat.
From stdpp Require Import options.
Local Open Scope Z_scope.

Record PoolWorkerInfo := mkWorker {
  worker_address : bytes;
  worker_name : bytes;
  shares : Z;
  shares_pending : Z;
  last_seen : Z;
  hashes_reported : Z;
  hashrate_tick_ms : Z;
  hashrate : double
}.
Definition new_worker : PoolWorkerInfo := mkWorker [] [] 0 0 0 0 0 (S754_zero false).

Record PoolPayoutRecord := mkPayout {
  payout_timestamp : Z;
  payout_height : Z;
  payout_txid : bytes;
  total_amount : Z;
  fee_amount : Z;
  recipient_count : Z
}.

Record PoolJobState := mkJob {
  active : bool;
  job_id : Z;
  header_hex : bytes;
  share_difficulty : Z;
  block_difficulty : Z;
  job_height : Z;
  candidate : Block;
  miner_address : bytes
}.

Record PoolUserRecord := mkUser {
  user_address : bytes;
  username : bytes;
  parent : bytes;
  children : list bytes;
  joined_at : Z;
  user_number : Z;
  is_founder : bool
}.

(** The result of a payout: [ok = false] with an error, or what was paid. *)
Inductive PoolPayoutResult :=
  | PayoutError (error : string)
  | PayoutOk (payout_tx : bytes) (distributed fee : Z) (recipients : Z).

#[global] Instance worker_eq_dec : EqDecision PoolWorkerInfo.
Proof. solve_decision. Defined.
#[global] Instance payout_eq_dec : EqDecision PoolPayoutRecord.
Proof. solve_decision. Defined.
#[global] Instance user_eq_dec : EqDecision PoolUserRecord.
Proof. solve_decision. Defined.

(** The variables of the pool, the static set of the duplicate check, and the
    file: [None] when it does not exist. *)
Record PoolState := mkPool {
  g_pool_workers : gmap bytes PoolWorkerInfo;
  g_pool_current_job : PoolJobState;
  g_pool_total_shares : Z;
  g_pool_total_blocks : Z;
  g_pool_job_counter : Z;
  g_pool_fee_percent : double;
  g_pool_owner_share_accum : Z;
  g_pool_payouts : list PoolPayoutRecord;
  g_pool_users : gmap bytes PoolUserRecord;
  g_pool_next_user_number : Z;
  g_pool_total_registered : Z;
  g_pool_all_users : gset bytes;
  g_pool_first_seen_unix : Z;
  g_pool_auto_enabled : bool;
  g_pool_auto_blocks : Z;
  g_pool_last_payout_height : Z;
  g_pool_state_loaded : bool;
  dup_seen_job : Z;
  dup_seen : gset bytes;
  pool_state_txt : option bytes
}.

Definition set_workers (v : gmap bytes PoolWorkerInfo) (st : PoolState) : PoolState :=
  let 'mkPool _ b c d e f g h i j k l m n o p q r s t := st in
  mkPool v b c d e f g h i j k l m n o p q r s t.
Definition set_current_job (v : PoolJobState) (st : PoolState) : PoolState :=
  let 'mkPool a _ c d e f g h i j k l m n o p q r s t := st in
  mkPool a v c d e f g h i j k l m n o p q r s t.
Definition set_total_shares (v : Z) (st : PoolState) : PoolState :=
  let 'mkPool a b _ d e f g h i j k l m n o p q r s t := st in
  mkPool a b v d e f g h i j k l m n o p q r s t.
Definition set_total_blocks (v : Z) (st : PoolState) : PoolState :=
  let 'mkPool a b c _ e f g h i j k l m n o p q r s t := st in
  mkPool a b c v e f g h i j k l m n o p q r s t.
Definition set_job_counter (v : Z) (st : PoolState) : PoolState :=
  let 'mkPool a b c d _ f g h i j k l m n o p q r s t := st in
  mkPool a b c d v f g h i j k l m n o p q r s t.
Definition set_fee_percent (v : double) (st : PoolState) : PoolState :=
  let 'mkPool a b c d e _ g h i j k l m n o p q r s t := st in
  mkPool a b c d e v g h i j k l m n o p q r s t.
Definition set_owner_share_accum (v : Z) (st : PoolState) : PoolState :=
  let 'mkPool a b c d e f _ h i j k l m n o p q r s t := st in
  mkPool a b c d e f v h i j k l m n o p q r s t.
Definition set_payouts (v : list PoolPayoutRecord) (st : PoolState) : PoolState :=
  let 'mkPool a b c d e f g _ i j k l m n o p q r s t := st in
  mkPool a b c d e f g v i j k l m n o p q r s t.
Definition set_users (v : gmap bytes PoolUserRecord) (st : PoolState) : PoolState :=
  let 'mkPool a b c d e f g h _ j k l m n o p q r s t := st in
  mkPool a b c d e f g h v j k l m n o p q r s t.
Definition set_next_user_number (v : Z) (st : PoolState) : PoolState :=
  let 'mkPool a b c d e f g h i _ k l m n o p q r s t := st in
  mkPool a b c d e f g h i v k l m n o p q r s t.
Definition set_total_registered (v : Z) (st : PoolState) : PoolState :=
  let 'mkPool a b c d e f g h i j _ l m n o p q r s t := st in
  mkPool a b c d e f g h i j v l m n o p q r s t.
Definition set_all_users (v : gset bytes) (st : PoolState) : PoolState :=
  let 'mkPool a b c d e f g h i j k _ m n o p q r s t := st in
  mkPool a b c d e f g h i j k v m n o p q r s t.
Definition set_first_seen_unix (v : Z) (st : PoolState) : PoolState :=
  let 'mkPool a b c d e f g h i j k l _ n o p q r s t := st in
  mkPool a b c d e f g h i j k l v n o p q r s t.
Definition set_auto_enabled (v : bool) (st : PoolState) : PoolState :=
  let 'mkPool a b c d e f g h i j k l m _ o p q r s t := st in
  mkPool a b c d e f g h i j k l m v o p q r s t.
Definition set_auto_blocks (v : Z) (st : PoolState) : PoolState :=
  let 'mkPool a b c d e f g h i j k l m n _ p q r s t := st in
  mkPool a b c d e f g h i j k l m n v p q r s t.
Definition set_last_payout_height (v : Z) (st : PoolState) : PoolState :=
  let 'mkPool a b c d e f g h i j k l m n o _ q r s t := st in
  mkPool a b c d e f g h i j k l m n o v q r s t.
Definition set_state_loaded (v : bool) (st : PoolState) : PoolState :=
  let 'mkPool a b c d e f g h i j k l m n o p _ r s t := st in
  mkPool a b c d e f g h i j k l m n o p v r s t.
Definition set_dup_seen_job (v : Z) (st : PoolState) : PoolState :=
  let 'mkPool a b c d e f g h i j k l m n o p q _ s t := st in
  mkPool a b c d e f g h i j k l m n o p q v s t.
Definition set_dup_seen (v : gset bytes) (st : PoolState) : PoolState :=
  let 'mkPool a b c d e f g h i j k l m n o p q r _ t := st in
  mkPool a b c d e f g h i j k l m n o p q r v t.
Definition set_pool_state_txt (v : option bytes) (st : PoolState) : PoolState :=
  let 'mkPool a b c d e f g h i j k l m n o p q r s _ := st in
  mkPool a b c d e f g h i j k l m n o p q r s v.

(** The variables before anything runs; [file] is what an earlier process left. *)
Definition initial_block : Block := mkBlock (mkHeader 1 0 zero_hash zero_hash zero_hash 0 0 0) [].
Definition new_pool (file : option bytes) : PoolState :=
  mkPool ∅ (mkJob false 0 [] 0 0 0 initial_block []) 0 0 0 (double_of_u64 35) 0 [] ∅ 1 0 ∅ 0
    false 10 0 false 0 ∅ file.

(** ** Hexadecimal *)

Definition pool_bytes_to_hex (data : bytes) : bytes :=
  mjoin ((fun b => [hex_digit (Z.land (Z.shiftr (byteZ b) 4) 15); hex_digit (Z.land (byteZ b) 15)]) <$> data).

(** The lambda [val]. *)
Definition pool_hex_val (c : byte) : Z :=
  if (chr "0" <=? byteZ c) && (byteZ c <=? chr "9") then byteZ c - chr "0"
  else if (chr "a" <=? byteZ c) && (byteZ c <=? chr "f") then byteZ c - chr "a" + 10
  else if (chr "A" <=? byteZ c) && (byteZ c <=? chr "F") then byteZ c - chr "A" + 10
  else -1.
(** The loop stops at the first pair that is not hexadecimal. *)
Fixpoint pool_hex_to_bytes (h : bytes) : bytes :=
  match h with
  | a :: b :: h =>
      let hi := pool_hex_val a in
      let lo := pool_hex_val b in
      if (hi <? 0) || (lo <? 0) then [] else u8 (Z.lor (Z.shiftl hi 4) lo) :: pool_hex_to_bytes h
  | _ => []
  end.

(** ** Saving *)

Definition newline : byte := u8 10.
Definition bar : byte := u8 124.
Definition comma : byte := u8 44.

(** [f << key << "=" << value << "\n"]. *)
Definition entry (key : string) (value : bytes) : bytes := str key ++ str "=" ++ value ++ [newline].
(** [a << "|" << b << "|" << ...]. *)
Fixpoint barred (parts : list bytes) : bytes :=
  match parts with
  | [] => []
  | [p] => p
  | p :: parts => p ++ bar :: barred parts
  end.
Definition flag (b : bool) : bytes := if b then str "1" else str "0".
Fixpoint comma_separated (parts : list bytes) : bytes :=
  match parts with
  | [] => []
  | [p] => p
  | p :: parts => p ++ comma :: comma_separated parts
  end.

Definition user_text (u : PoolUserRecord) : bytes :=
  barred [user_address u; parent u; dec_str (user_number u); dec_str (joined_at u); flag (is_founder u);
          username u; comma_separated (children u)].
Definition worker_text (w : PoolWorkerInfo) : bytes :=
  barred [worker_address w; worker_name w; dec_str (shares w); dec_str (shares_pending w); dec_str (last_seen w)].
Definition payout_text (r : PoolPayoutRecord) : bytes :=
  barred [dec_str (payout_timestamp r); dec_str (payout_height r); payout_txid r; dec_str (total_amount r);
          dec_str (fee_amount r); dec_str (recipient_count r)].

Definition pool_state_text (st : PoolState) : bytes :=
  entry "total_shares" (dec_str (g_pool_total_shares st))
  ++ entry "total_blocks" (dec_str (g_pool_total_blocks st))
  ++ entry "job_counter" (dec_str (g_pool_job_counter st))
  ++ entry "fee_percent" (print_double (g_pool_fee_percent st))
  ++ entry "auto_enabled" (flag (g_pool_auto_enabled st))
  ++ entry "auto_blocks" (dec_str (g_pool_auto_blocks st))
  ++ entry "last_payout_height" (dec_str (g_pool_last_payout_height st))
  ++ entry "first_seen_unix" (dec_str (g_pool_first_seen_unix st))
  ++ mjoin (entry "user" <$> set_in_order (g_pool_all_users st))
  ++ entry "user_counter" (dec_str (g_pool_next_user_number st))
  ++ entry "total_registered" (dec_str (g_pool_total_registered st))
  ++ mjoin ((fun kv => entry "reguser" (user_text kv.2)) <$> in_order (g_pool_users st))
  ++ mjoin ((fun kv => entry "worker" (worker_text kv.2)) <$> in_order (g_pool_workers st))
  ++ mjoin ((fun r => entry "payout" (payout_text r)) <$> g_pool_payouts st).

Definition pool_save_state_unlocked (io : SaveIO) (st : PoolState) : PoolState :=
  match io with
  | SaveRefused => st
  | SaveCut n => set_pool_state_txt (Some (take n (pool_state_text st))) st
  | SaveDone => set_pool_state_txt (Some (pool_state_text st)) st
  end.

(** ** Loading *)

Definition load_worker (val : bytes) (st : PoolState) : result PoolState :=
  match split val bar with
  | address :: name :: q2 :: q3 :: q4 :: _ =>
      sh ← stoull q2; pending ← stoull q3; seen ← stoull q4;
      Ok (set_workers (<[address := mkWorker address name sh pending seen 0 0 (S754_zero false)]> (g_pool_workers st)) st)
  | _ => Ok st
  end.

Definition load_payout (val : bytes) (st : PoolState) : result PoolState :=
  match split val bar with
  | q0 :: q1 :: id :: q3 :: q4 :: q5 :: _ =>
      t ← stoull q0; h ← stoull q1; total ← stoull q3; fee ← stoull q4; n ← stoull q5;
      Ok (set_payouts (g_pool_payouts st ++ [mkPayout t h id total fee n]) st)
  | _ => Ok st
  end.

(** [q[5]] is read twice: as the user name and as the list of children. *)
Definition load_reguser (val : bytes) (st : PoolState) : result PoolState :=
  match split val bar with
  | address :: par :: q2 :: q3 :: q4 :: tl =>
      number ← stoul q2; joined ← stoull q3;
      let name := match tl with q5 :: _ => q5 | [] => [] end in
      let kids := if bool_decide (name = []) then []
                  else List.filter (fun x => negb (bool_decide (x = []))) (split name comma) in
      Ok (set_users (<[address := mkUser address name par kids joined (u32 number) (bool_decide (q4 = str "1"))]>
                       (g_pool_users st)) st)
  | _ => Ok st
  end.

Definition load_entry (key val : bytes) (st : PoolState) : result PoolState :=
  if bool_decide (key = str "total_shares") then v ← stoull val; Ok (set_total_shares v st)
  else if bool_decide (key = str "total_blocks") then v ← stoull val; Ok (set_total_blocks v st)
  else if bool_decide (key = str "job_counter") then v ← stoull val; Ok (set_job_counter v st)
  else if bool_decide (key = str "fee_percent") then v ← stod val; Ok (set_fee_percent v st)
  else if bool_decide (key = str "worker") then load_worker val st
  else if bool_decide (key = str "payout") then load_payout val st
  else if bool_decide (key = str "auto_enabled") then Ok (set_auto_enabled (bool_decide (val = str "1")) st)
  else if bool_decide (key = str "auto_blocks") then v ← stoul val; Ok (set_auto_blocks (u32 v) st)
  else if bool_decide (key = str "last_payout_height") then v ← stoull val; Ok (set_last_payout_height v st)
  else if bool_decide (key = str "first_seen_unix") then v ← stoull val; Ok (set_first_seen_unix v st)
  else if bool_decide (key = str "user") then Ok (set_all_users ({[val]} ∪ g_pool_all_users st) st)
  else if bool_decide (key = str "user_counter") then v ← stoull val; Ok (set_next_user_number v st)
  else if bool_decide (key = str "total_registered") then v ← stoull val; Ok (set_total_registered v st)
  else if bool_decide (key = str "reguser") then load_reguser val st
  else Ok st.

(** One line: a line that throws leaves nothing behind. *)
Definition load_line (st : PoolState) (line : bytes) : PoolState :=
  match line with
  | [] => st
  | c :: _ =>
      if byteZ c =? 35 then st
      else match find_first (fun c => byteZ c =? 61) line with
           | None => st
           | Some eq =>
               match load_entry (take eq line) (drop (S eq) line) st with Ok st => st | Throw _ => st end
           end
  end.

(** The empty piece after the last newline is skipped like an empty line. *)
Definition load_text (text : bytes) (st : PoolState) : PoolState :=
  foldl load_line st (split text newline).

Definition pool_load_state_unlocked (st : PoolState) : PoolState :=
  match pool_state_txt st with
  | None => st
  | Some text =>
      load_text text
        (set_total_registered 0 (set_next_user_number 1 (set_all_users ∅ (set_users ∅ (set_payouts [] (set_workers ∅ st))))))
  end.

(** [if (!g_pool_state_loaded.exchange(true)) pool_load_state_unlocked(...)]. *)
Definition load_once (st : PoolState) : PoolState :=
  let loaded := g_pool_state_loaded st in
  let st := set_state_loaded true st in
  if loaded then st else pool_load_state_unlocked st.

(** ** What a file says *)

(** A text that can stand between separators. *)
Definition plain (s : bytes) : Prop := bar ∉ s /\ newline ∉ s.

Record worker_wf (key : bytes) (w : PoolWorkerInfo) : Prop := {
  wf_worker_key : key = worker_address w;
  wf_worker_address : plain (worker_address w);
  wf_worker_name : plain (worker_name w);
  wf_shares : is_u64 (shares w);
  wf_pending : is_u64 (shares_pending w);
  wf_seen : is_u64 (last_seen w)
}.
Record user_wf (key : bytes) (u : PoolUserRecord) : Prop := {
  wf_user_key : key = user_address u;
  wf_user_address : plain (user_address u);
  wf_user_name : plain (username u);
  wf_user_parent : plain (parent u);
  wf_user_children : Forall plain (children u);
  wf_number : is_u32 (user_number u);
  wf_joined : is_u64 (joined_at u)
}.
Record payout_wf (r : PoolPayoutRecord) : Prop := {
  wf_time : is_u64 (payout_timestamp r);
  wf_height : is_u64 (payout_height r);
  wf_txid : plain (payout_txid r);
  wf_total : is_u64 (total_amount r);
  wf_fee : is_u64 (fee_amount r);
  wf_count : is_u64 (recipient_count r)
}.
(** The states whose file reads back: counters at their width, separators
    absent from names, a fee that six digits print exactly. *)
Record saveable (st : PoolState) : Prop := {
  sv_workers : map_Forall worker_wf (g_pool_workers st);
  sv_users : map_Forall user_wf (g_pool_users st);
  sv_payouts : Forall payout_wf (g_pool_payouts st);
  sv_names : set_Forall (fun u => newline ∉ u) (g_pool_all_users st);
  sv_shares : is_u64 (g_pool_total_shares st);
  sv_blocks : is_u64 (g_pool_total_blocks st);
  sv_jobs : is_u64 (g_pool_job_counter st);
  sv_fee : stod (print_double (g_pool_fee_percent st)) = Ok (g_pool_fee_percent st) /\
           newline ∉ print_double (g_pool_fee_percent st);
  sv_auto : is_u32 (g_pool_auto_blocks st);
  sv_last : is_u64 (g_pool_last_payout_height st);
  sv_first : is_u64 (g_pool_first_seen_unix st);
  sv_next : is_u64 (g_pool_next_user_number st);
  sv_registered : is_u64 (g_pool_total_registered st)
}.

(** What comes back of a worker and of a user. *)
Definition saved_worker (w : PoolWorkerInfo) : PoolWorkerInfo :=
  mkWorker (worker_address w) (worker_name w) (shares w) (shares_pending w) (last_seen w) 0 0 (S754_zero false).
Definition saved_children (name : bytes) : list bytes :=
  if bool_decide (name = []) then []
  else List.filter (fun x => negb (bool_decide (x = []))) (split name comma).
Definition saved_user (u : PoolUserRecord) : PoolUserRecord :=
  mkUser (user_address u) (username u) (parent u) (saved_children (username u)) (joined_at u) (user_number u)
    (is_founder u).

(** ** Reading line by line *)

Definition key_ok (key : string) : bool :=
  match str key with
  | [] => false
  | c :: _ => negb (byteZ c =? 35)
      && forallb (fun c => negb (byteZ c =? 61) && negb (bool_decide (c = newline))) (str key)
  end.

Lemma find_first_app P s c tl :
  forallb (fun c => negb (P c)) s = true -> P c = true -> find_first P (s ++ c :: tl) = Some (length s).
Proof.
  intros Hs Hc. induction s as [|d s IH]; simpl in *; [by rewrite Hc|].
  apply andb_true_iff in Hs as [Hd Hs]. apply negb_true_iff in Hd. rewrite Hd, IH by done. done.
Qed.

Lemma load_text_entry key v rest st st' :
  key_ok key = true -> newline ∉ v -> load_entry (str key) v st = Ok st' ->
  load_text (entry key v ++ rest) st = load_text rest st'.
Proof.
  intros Hk Hv Hl. unfold load_text, entry, key_ok in *.
  destruct (str key) as [|c k] eqn:Ek; [done|]. apply andb_true_iff in Hk as [Hc Hk].
  assert (newline ∉ (c :: k) ++ str "=" ++ v) as Hn.
  { rewrite !not_elem_of_app. split_and!; [|by apply (bool_decide_unpack _); vm_compute|done].
    intros Hin%list_elem_of_In. rewrite forallb_forall in Hk. apply Hk in Hin.
    apply andb_true_iff in Hin as [_ Hin]. by rewrite bool_decide_true in Hin. }
  replace (((c :: k) ++ str "=" ++ v ++ [newline]) ++ rest)
    with (((c :: k) ++ str "=" ++ v) ++ newline :: rest) by (by rewrite <- !app_assoc).
  rewrite split_cons by done. cbn [foldl]. f_equal.
  unfold load_line. cbn [app]. apply negb_true_iff in Hc. rewrite Hc.
  change (str "=") with [u8 61].
  pose proof (find_first_app (fun c => byteZ c =? 61) (c :: k) (u8 61) v) as Hf.
  cbn [app] in Hf |- *. rewrite Hf; [|apply forallb_forall; rewrite forallb_forall in Hk;
    intros x Hx; apply Hk in Hx; by apply andb_true_iff in Hx as [Hx _]|done].
  change (c :: k ++ u8 61 :: v) with ((c :: k) ++ u8 61 :: v).
  rewrite take_app_length, (drop_app_ge _ _ (S (length (c :: k)))) by lia.
  replace (S (length (c :: k)) - length (c :: k))%nat with 1%nat by lia. cbn [drop]. rewrite drop_0.
  by rewrite Hl.
Qed.

Lemma load_text_entries {A} key (f : A -> bytes) (g : PoolState -> A -> PoolState) l rest st :
  key_ok key = true ->
  Forall (fun a => newline ∉ f a /\ forall st, load_entry (str key) (f a) st = Ok (g st a)) l ->
  load_text (mjoin ((fun a => entry key (f a)) <$> l) ++ rest) st = load_text rest (foldl g st l).
Proof.
  intros Hk Hl. revert st. induction Hl as [|a l [Hn Ha] _ IH]; intros st; [done|].
  cbn [fmap list_fmap mjoin list_join]. rewrite <- app_assoc.
  rewrite (load_text_entry key (f a) _ st (g st a)) by done. apply IH.
Qed.

(** A loop that only writes one variable. *)
Lemma foldl_field {A V} (get : PoolState -> V) (set : V -> PoolState -> PoolState) (h : V -> A -> V) l st :
  (forall v st, get (set v st) = v) -> (forall v w st, set v (set w st) = set v st) ->
  (forall st, set (get st) st = st) ->
  foldl (fun st a => set (h (get st) a) st) st l = set (foldl h (get st) l) st.
Proof.
  intros H1 H2 H3. revert st. induction l as [|a l IH]; intros st; simpl; [by rewrite H3|].
  by rewrite IH, H1, H2.
Qed.

Lemma foldl_insert_perm {V W} (f : V -> W) (k : V -> bytes) (l : list (bytes * V)) (m : gmap bytes W) :
  NoDup l.*1 -> Forall (fun kv => kv.1 = k kv.2) l ->
  foldl (fun m (kv : bytes * V) => <[k kv.2 := f kv.2]> m) m l = (f <$> list_to_map l) ∪ m.
Proof.
  intros Hd Hk. revert m. induction l as [|[key v] l IH]; intros m.
  - cbn [foldl]. rewrite list_to_map_nil, fmap_empty. by rewrite (left_id_L ∅ (∪)).
  - cbn [foldl]. rewrite list_to_map_cons. cbn in Hd. apply NoDup_cons in Hd as [Hn Hd]. apply Forall_cons in Hk as [Hk1 Hk]. cbn in Hk1. subst key.
    rewrite IH by done. cbn [fst snd]. rewrite fmap_insert, <- insert_union_r, insert_union_l; [done|].
    rewrite lookup_fmap, (not_elem_of_list_to_map_1 _ _ Hn). done.
Qed.
Lemma foldl_insert_in_order {V W} (f : V -> W) (k : V -> bytes) (m : gmap bytes V) :
  map_Forall (fun key v => key = k v) m ->
  foldl (fun m (kv : bytes * V) => <[k kv.2 := f kv.2]> m) ∅ (in_order m) = f <$> m.
Proof.
  intros Hk. rewrite foldl_insert_perm.
  - rewrite (right_id_L ∅ (∪)). f_equal.
    rewrite (list_to_map_proper _ _ (in_order_NoDup m) (in_order_perm m)). apply list_to_map_to_list.
  - apply in_order_NoDup.
  - apply Forall_forall. intros [key v] H%elem_of_in_order. by apply (Hk key v).
Qed.
Lemma foldl_insert_set (l : list bytes) (s : gset bytes) :
  foldl (fun s u => {[u]} ∪ s) s l = list_to_set l ∪ s.
Proof. revert s. induction l as [|u l IH]; intros s; simpl; [|rewrite IH]; set_solver. Qed.

Lemma split_barred p parts : Forall (fun s => bar ∉ s) (p :: parts) -> split (barred (p :: parts)) bar = p :: parts.
Proof.
  revert p. induction parts as [|q parts IH]; intros p H; apply Forall_cons in H as [Hp H].
  - by apply split_one.
  - change (barred (p :: q :: parts)) with (p ++ bar :: barred (q :: parts)).
    rewrite split_cons by done. f_equal. by apply IH.
Qed.
Lemma barred_plain parts : Forall (fun s => newline ∉ s) parts -> newline ∉ barred parts.
Proof.
  induction 1 as [|p parts Hp H IH]; [apply not_elem_of_nil|].
  destruct parts; [done|]. change (newline ∉ p ++ bar :: barred (l :: parts)).
  rewrite not_elem_of_app, not_elem_of_cons. split_and!; [done|by vm_compute|done].
Qed.
Lemma comma_plain parts : Forall plain parts -> plain (comma_separated parts).
Proof.
  induction 1 as [|p parts [Hp1 Hp2] H [IH1 IH2]]; [split; apply not_elem_of_nil|].
  destruct parts; [done|]. unfold plain. change (comma_separated (p :: l :: parts)) with (p ++ comma :: comma_separated (l :: parts)).
  rewrite !not_elem_of_app, !not_elem_of_cons. split_and!; done || by vm_compute.
Qed.
Lemma flag_plain b : plain (flag b).
Proof. destruct b; split; apply (bool_decide_unpack _); vm_compute; exact I. Qed.
Lemma dec_plain z : 0 <= z -> plain (dec_str z).
Proof. intros H. split; by apply dec_str_plain. Qed.

Ltac plain_list :=
  repeat apply Forall_cons_2; try apply Forall_nil_2; try done;
  solve [apply flag_plain | by apply comma_plain | apply dec_plain; ints].
Lemma plain_bars parts : Forall plain parts -> Forall (fun s => bar ∉ s) parts.
Proof. intros H. eapply Forall_impl; [exact H|]. by intros ? []. Qed.
Lemma plain_lines parts : Forall plain parts -> newline ∉ barred parts.
Proof. intros H. apply barred_plain. eapply Forall_impl; [exact H|]. by intros ? []. Qed.

(** The three kinds of line that carry a record. *)
Lemma load_worker_text k w : worker_wf k w ->
  newline ∉ worker_text w /\
  forall st, load_entry (str "worker") (worker_text w) st =
    Ok (set_workers (<[worker_address w := saved_worker w]> (g_pool_workers st)) st).
Proof.
  intros [-> Ha Hn Hs Hp Hl].
  assert (Forall plain [worker_address w; worker_name w; dec_str (shares w); dec_str (shares_pending w);
    dec_str (last_seen w)]) as H by plain_list.
  split; [by apply plain_lines|]. intros st.
  change (load_entry (str "worker") (worker_text w) st) with (load_worker (worker_text w) st).
  unfold load_worker, worker_text. rewrite split_barred by (by apply plain_bars).
  rewrite !stoull_dec_str by done. done.
Qed.

Lemma load_payout_text r : payout_wf r ->
  newline ∉ payout_text r /\
  forall st, load_entry (str "payout") (payout_text r) st = Ok (set_payouts (g_pool_payouts st ++ [r]) st).
Proof.
  intros [Ht Hh Hi Ha Hf Hc].
  assert (Forall plain [dec_str (payout_timestamp r); dec_str (payout_height r); payout_txid r;
    dec_str (total_amount r); dec_str (fee_amount r); dec_str (recipient_count r)]) as H by plain_list.
  split; [by apply plain_lines|]. intros st.
  change (load_entry (str "payout") (payout_text r) st) with (load_payout (payout_text r) st).
  unfold load_payout, payout_text. rewrite split_barred by (by apply plain_bars).
  rewrite !stoull_dec_str by done. by destruct r.
Qed.

Lemma flag_read b : bool_decide (flag b = str "1") = b.
Proof. by destruct b. Qed.

Lemma load_user_text k u : user_wf k u ->
  newline ∉ user_text u /\
  forall st, load_entry (str "reguser") (user_text u) st =
    Ok (set_users (<[user_address u := saved_user u]> (g_pool_users st)) st).
Proof.
  intros [-> Ha Hn Hp Hc Hb Hj].
  assert (Forall plain [user_address u; parent u; dec_str (user_number u); dec_str (joined_at u);
    flag (is_founder u); username u; comma_separated (children u)]) as H by plain_list.
  split; [by apply plain_lines|]. intros st.
  change (load_entry (str "reguser") (user_text u) st) with (load_reguser (user_text u) st).
  unfold load_reguser, user_text, stoul. rewrite split_barred by (by apply plain_bars).
  rewrite !stoull_dec_str by ints. cbn [mbind result_bind]. rewrite u32_small by done.
  by rewrite flag_read.
Qed.

(** A line that carries a counter. *)
Lemma load_number key (set : Z -> PoolState -> PoolState) z rest st :
  key_ok key = true -> (forall v st, load_entry (str key) v st = (n ← stoull v; Ok (set n st))) ->
  is_u64 z -> load_text (entry key (dec_str z) ++ rest) st = load_text rest (set z st).
Proof.
  intros Hk He Hz. apply load_text_entry; [done|apply dec_plain; ints|].
  by rewrite He, stoull_dec_str.
Qed.

Lemma map_Forall_entries {V} (P : bytes -> V -> Prop) (m : gmap bytes V) :
  map_Forall P m -> Forall (fun kv => P kv.1 kv.2) (in_order m).
Proof. intros H. apply Forall_forall. intros [k v] Hin%elem_of_in_order. by apply H. Qed.

Lemma load_workers m rest st :
  map_Forall worker_wf m -> g_pool_workers st = ∅ ->
  load_text (mjoin ((fun kv => entry "worker" (worker_text kv.2)) <$> in_order m) ++ rest) st
  = load_text rest (set_workers (saved_worker <$> m) st).
Proof.
  intros Hm Hst. rewrite (load_text_entries "worker" (fun kv : bytes * _ => worker_text kv.2)
    (fun st kv => set_workers (<[worker_address kv.2 := saved_worker kv.2]> (g_pool_workers st)) st)); [|done|].
  2:{ eapply Forall_impl; [by apply map_Forall_entries|]. intros [k w] Hw. apply (load_worker_text k w Hw). }
  rewrite (foldl_field g_pool_workers set_workers
    (fun m (kv : bytes * PoolWorkerInfo) => <[worker_address kv.2 := saved_worker kv.2]> m))
    by (by intros; destruct st0).
  rewrite Hst, foldl_insert_in_order; [done|]. intros k w Hw. by apply Hm in Hw as [].
Qed.

Lemma load_users m rest st :
  map_Forall user_wf m -> g_pool_users st = ∅ ->
  load_text (mjoin ((fun kv => entry "reguser" (user_text kv.2)) <$> in_order m) ++ rest) st
  = load_text rest (set_users (saved_user <$> m) st).
Proof.
  intros Hm Hst. rewrite (load_text_entries "reguser" (fun kv : bytes * _ => user_text kv.2)
    (fun st kv => set_users (<[user_address kv.2 := saved_user kv.2]> (g_pool_users st)) st)); [|done|].
  2:{ eapply Forall_impl; [by apply map_Forall_entries|]. intros [k w] Hw. apply (load_user_text k w Hw). }
  rewrite (foldl_field g_pool_users set_users
    (fun m (kv : bytes * PoolUserRecord) => <[user_address kv.2 := saved_user kv.2]> m))
    by (by intros; destruct st0).
  rewrite Hst, foldl_insert_in_order; [done|]. intros k w Hw. by apply Hm in Hw as [].
Qed.

Lemma load_payouts l st :
  Forall payout_wf l -> g_pool_payouts st = [] ->
  load_text (mjoin ((fun r => entry "payout" (payout_text r)) <$> l)) st = set_payouts l st.
Proof.
  intros Hl Hst. rewrite <- (app_nil_r (mjoin _)).
  rewrite (load_text_entries "payout" payout_text (fun st r => set_payouts (g_pool_payouts st ++ [r]) st)); [|done|].
  2:{ eapply Forall_impl; [exact Hl|]. intros r Hr. apply (load_payout_text r Hr). }
  rewrite (foldl_field g_pool_payouts set_payouts (fun l r => l ++ [r])) by (by intros; destruct st0).
  assert (forall k, foldl (fun l (r : PoolPayoutRecord) => l ++ [r]) k l = k ++ l) as E.
  { clear. induction l as [|r l IH]; intros k; simpl; [by rewrite app_nil_r|]. by rewrite IH, <- app_assoc. }
  rewrite Hst, E. done.
Qed.

Lemma load_names s rest st :
  set_Forall (fun u => newline ∉ u) s -> g_pool_all_users st = ∅ ->
  load_text (mjoin (entry "user" <$> set_in_order s) ++ rest) st = load_text rest (set_all_users s st).
Proof.
  intros Hs Hst. rewrite (load_text_entries "user" id (fun st u => set_all_users ({[u]} ∪ g_pool_all_users st) st)); [|done|].
  2:{ apply Forall_forall. intros u Hu. rewrite set_in_order_perm, elem_of_elements in Hu.
      split; [by apply Hs|done]. }
  rewrite (foldl_field g_pool_all_users set_all_users (fun s u => {[u]} ∪ s)) by (by intros; destruct st0).
  rewrite foldl_insert_set, Hst, (right_id_L ∅ (∪)). f_equal. f_equal.
  apply set_eq. intros u. by rewrite elem_of_list_to_set, set_in_order_perm, elem_of_elements.
Qed.

(** The state a saved file describes, over the variables that are not saved. *)
Definition reloaded (st st0 : PoolState) : PoolState :=
  mkPool (saved_worker <$> g_pool_workers st) (g_pool_current_job st0) (g_pool_total_shares st)
    (g_pool_total_blocks st) (g_pool_job_counter st) (g_pool_fee_percent st) (g_pool_owner_share_accum st0)
    (g_pool_payouts st) (saved_user <$> g_pool_users st) (g_pool_next_user_number st)
    (g_pool_total_registered st) (g_pool_all_users st) (g_pool_first_seen_unix st) (g_pool_auto_enabled st)
    (g_pool_auto_blocks st) (g_pool_last_payout_height st) (g_pool_state_loaded st0) (dup_seen_job st0)
    (dup_seen st0) (pool_state_txt st0).

Lemma load_save_state st st0 :
  saveable st -> pool_state_txt st0 = Some (pool_state_text st) ->
  pool_load_state_unlocked st0 = reloaded st st0.
Proof.
  intros H Hf. destruct H as [Hw Hu Hp Hn Hs Hb Hj [Hfee Hfn] Ha Hl Hfs Hnx Hr].
  unfold pool_load_state_unlocked. rewrite Hf. unfold pool_state_text.
  destruct st0 as [w0 j0 s0 b0 c0 f0 o0 p0 u0 n0 r0 a0 fs0 ae0 ab0 l0 sl0 dj0 ds0 t0]. clear Hf.
  rewrite (load_number "total_shares" set_total_shares) by done.
  rewrite (load_number "total_blocks" set_total_blocks) by done.
  rewrite (load_number "job_counter" set_job_counter) by done.
  erewrite (load_text_entry "fee_percent"); [|done|done|].
  2:{ change (load_entry (str "fee_percent") ?v ?s) with (x ← stod v; Ok (set_fee_percent x s)).
      by rewrite Hfee. }
  erewrite (load_text_entry "auto_enabled"); [|done|apply flag_plain|reflexivity].
  rewrite (load_number "auto_blocks" (fun v => set_auto_blocks (u32 v))) by (done || ints).
  rewrite (load_number "last_payout_height" set_last_payout_height) by done.
  rewrite (load_number "first_seen_unix" set_first_seen_unix) by done.
  rewrite load_names by done.
  rewrite (load_number "user_counter" set_next_user_number) by done.
  rewrite (load_number "total_registered" set_total_registered) by done.
  rewrite load_users by done. rewrite load_workers by done. rewrite load_payouts by done.
  rewrite flag_read, u32_small by done. reflexivity.
Qed.

(** C32: the state file round-trips for the states it can express. From a state
    whose counters are at their width, whose addresses and names hold no line
    break and none of the file's separators, and whose fee six digits print
    exactly, a completed save followed by the start of another process restores
    every saved variable: counters, workers with their shares, payouts, user
    names. Two things do not come back: the telemetry of the workers, which is
    not saved, and the children of a registered user, in whose place the loader
    puts the user's own name split at its commas. Nothing is escaped, so a
    state with a separator in an address, which a registration without
    authentication can bring about, reads back as another one. *)
Theorem pool_state_roundtrip st :
  saveable st ->
  let st' := pool_load_state_unlocked (new_pool (pool_state_txt (pool_save_state_unlocked SaveDone st))) in
  st' = reloaded st (new_pool (Some (pool_state_text st))) /\
  (forall k u, g_pool_users st !! k = Some u -> exists u', g_pool_users st' !! k = Some u' /\
     username u' = username u /\ parent u' = parent u /\ children u' = saved_children (username u)).
Proof.
  intros H. assert (pool_state_txt (pool_save_state_unlocked SaveDone st) = Some (pool_state_text st)) as ->
    by (by destruct st).
  rewrite (load_save_state st) by done. split; [done|].
  intros k u Hk. exists (saved_user u). cbn. by rewrite lookup_fmap, Hk.
Qed.

(** A pool with a worker, a payout and a user who has a child. *)
Definition saved_sample : PoolState :=
  mkPool {[str "CZann" := mkWorker (str "CZann") (str "rig") 9 4 1700000000 77 5 (S754_zero false)]}
    (mkJob false 0 [] 0 0 0 initial_block []) 9 1 3 (double_of_u64 35) 2
    [mkPayout 1700000001 12 (str "ab") 500 20 1]
    {[str "CZann" := mkUser (str "CZann") [] [] [str "CZbob"] 1700000002 1 true]} 2 1 {[str "CZann"]} 1699999999
    true 10 12 true 3 ∅ None.
Lemma pool_state_roundtrip_witness :
  pool_load_state_unlocked (new_pool (Some (pool_state_text saved_sample)))
  = reloaded saved_sample (new_pool (Some (pool_state_text saved_sample))).
Proof.
  refine (proj1 (pool_state_roundtrip saved_sample _)).
  split; try decide_vm; try (vm_compute; intuition discriminate).
  - apply map_Forall_singleton. split; try decide_vm; vm_compute; intuition discriminate.
  - apply map_Forall_singleton. split; try decide_vm; vm_compute; intuition discriminate.
  - apply Forall_singleton. split; try decide_vm; vm_compute; intuition discriminate.
Defined.
