(* ===== verification/Wallet.v ===== *)
(** wallet.hpp, and the accessors of persistent_wallet.hpp: the key pair a node
    signs with. OpenSSL's key object is one value with a public half that can
    be read; making one and storing it on disk are not modelled here. *)

From S2P Require Import Prelude Crypto Ownership.
From stdpp Require Import options.
Local Open Scope Z_scope.

Section Wallet.
Context {ssl : OpenSSL}.

(** [KeyPair]: two references, each of which may be null. *)
Record KeyPair := mkKeyPair {
  pair_private : option EVP_PKEY;
  pair_public : option EVP_PKEY
}.

(** [explicit KeyPair(EVP_PKEY* key)]: both references to the one key. *)
Definition key_pair (key : option EVP_PKEY) : result KeyPair :=
  match key with
  | None => Throw "null key"
  | Some _ => Ok (mkKeyPair key key)
  end.

(** [Wallet] is its [keys_]. *)
Definition wallet_public_key (keys : KeyPair) : result bytes :=
  match pair_public keys with
  | None => Throw "wallet public key unavailable"
  | Some key => Ok (bytes_to_hex (EVP_PKEY_get_raw_public_key key))
  end.
Definition wallet_address (keys : KeyPair) : result bytes :=
  pk ← wallet_public_key keys; Ok (address_from_public_key pk).
Definition wallet_valid (keys : KeyPair) : result bool :=
  match pair_private keys, pair_public keys with
  | Some _, Some _ =>
      key ← wallet_public_key keys;
      if sizeZ key =? 64 then address ← wallet_address keys; Ok (is_valid_address address) else Ok false
  | _, _ => Ok false
  end.

(** [PersistentWallet]: [None] until the wallet is loaded. *)
Definition PersistentWallet : Type := option KeyPair.
Definition loaded (w : PersistentWallet) : result KeyPair :=
  match w with None => Throw "wallet not loaded" | Some keys => Ok keys end.
Definition persistent_public_key (w : PersistentWallet) : result bytes := keys ← loaded w; wallet_public_key keys.
Definition persistent_address (w : PersistentWallet) : result bytes := keys ← loaded w; wallet_address keys.
Definition persistent_private_key (w : PersistentWallet) : result (option EVP_PKEY) :=
  keys ← loaded w; Ok (pair_private keys).

(** The wallet of a key OpenSSL holds. *)
Lemma key_pair_wallet key keys :
  key_pair (Some key) = Ok keys ->
  wallet_public_key keys = Ok (bytes_to_hex (EVP_PKEY_get_raw_public_key key)) /\
  wallet_address keys = Ok (address_from_public_key (bytes_to_hex (EVP_PKEY_get_raw_public_key key))).
Proof. by intros [= <-]. Qed.
End Wallet.
