(* ===== verification/Derivation.v ===== *)
(** slip10.hpp, wallet_hd.hpp and the seed of bip39.hpp: from the words of a
    wallet to its key. OpenSSL's key derivation, ciphers and key files are the
    class [WalletSSL]. *)

From S2P Require Import Prelude Serialization Crypto Transaction Ownership Text Bip39 Wallet.
From stdpp Require Import options.
Local Open Scope Z_scope.

Inductive Digest := SHA256 | SHA512.
(** The outcome of an authenticated cipher: a call before the last fails, the
    last one fails, or it is done. *)
Inductive Gcm (A : Type) := GcmInit | GcmFinal | GcmDone (a : A).
Arguments GcmInit {A}.
Arguments GcmFinal {A}.
Arguments GcmDone {A} a.

(** What the wallet takes from OpenSSL beside [OpenSSL]. A call that can
    return an error gives an option. *)
Class WalletSSL {ssl : OpenSSL} := {
  (** PKCS5_PBKDF2_HMAC: digest, password, salt, iterations, length. *)
  PKCS5_PBKDF2_HMAC : Digest -> bytes -> bytes -> Z -> nat -> option bytes;
  (** HMAC with EVP_sha512: key, data. *)
  HMAC_sha512 : bytes -> bytes -> option bytes;
  (** EVP_PKEY_new_raw_private_key(EVP_PKEY_ED25519, ...). *)
  EVP_PKEY_new_raw_private_key : bytes -> option EVP_PKEY;
  (** EVP_aes_256_gcm, key, iv and plaintext to ciphertext and tag. *)
  EVP_Encrypt_gcm : bytes -> bytes -> bytes -> Gcm (bytes * bytes);
  (** Key, iv, tag and ciphertext to the plaintext that the tag vouches for. *)
  EVP_Decrypt_gcm : bytes -> bytes -> bytes -> bytes -> Gcm bytes;
  PEM_write_PrivateKey : EVP_PKEY -> option bytes;
  PEM_read_PrivateKey : bytes -> option EVP_PKEY;
  (** [EVP_PKEY_base_id(key) == EVP_PKEY_ED25519]. *)
  is_ed25519 : EVP_PKEY -> bool
}.

(** ** Paths *)

Definition HARDENED : Z := 0x80000000.

(** The digits of one index: its value, whether there was a digit, whether it
    is marked as hardened, and what follows. *)
Fixpoint read_index (s : bytes) (idx : Z) (has_digit : bool) : result (Z * bool * bool * bytes) :=
  match s with
  | [] => Ok (idx, has_digit, false, [])
  | c :: s' =>
      if byteZ c =? chr "/" then Ok (idx, has_digit, false, s)
      else if (byteZ c =? 39) || (byteZ c =? chr "h") || (byteZ c =? chr "H") then Ok (idx, has_digit, true, s')
      else if negb (is_digit c) then Throw "slip10: invalid char in path"
      else
        let idx := u32 (u32 (idx * 10) + (byteZ c - chr "0")) in
        if HARDENED <=? idx then Throw "slip10: index overflow" else read_index s' idx true
  end.

(** The loop over the indices; each takes at least its slash. *)
Fixpoint parse_indices (fuel : nat) (s : bytes) : result (list Z) :=
  match fuel, s with
  | _, [] => Ok []
  | O, _ => Throw "out of fuel"
  | S fuel, c :: s =>
      throw_if (negb (byteZ c =? chr "/")) "slip10: expected '/'" ;;
      r ← read_index s 0 false;
      let '(idx, has_digit, has_hardened, s) := (r : Z * bool * bool * bytes) in
      throw_if (negb has_digit) "slip10: missing index" ;;
      indices ← parse_indices fuel s;
      Ok ((if (has_hardened : bool) then Z.lor idx HARDENED else idx) :: indices)
  end.
Definition parse_path (path : bytes) : result (list Z) :=
  match path with
  | c :: s => if byteZ c =? chr "m" then parse_indices (length s) s else Throw "slip10: path must start with 'm'"
  | [] => Throw "slip10: path must start with 'm'"
  end.
Definition DEFAULT_PATH : bytes := str "m/44'/7999'/0'/0'/0'".

Record ExtendedKey := mkExtended { ek_key : bytes; ek_chain_code : bytes }.

Section Derivation.
Context {ssl : OpenSSL} {wssl : WalletSSL}.

(** The 64 bytes of an HMAC, halved. *)
Definition halves (mac : option bytes) (error : string) : result ExtendedKey :=
  match mac with
  | Some d => if bool_decide (length d = 64%nat) then Ok (mkExtended (take 32 d) (drop 32 d)) else Throw error
  | None => Throw error
  end.
Definition master_key_from_seed (seed : bytes) : result ExtendedKey :=
  halves (HMAC_sha512 (str "ed25519 seed") seed) "slip10: master HMAC-SHA512 failed".
Definition derive_hardened_child (parent : ExtendedKey) (index : Z) : result ExtendedKey :=
  throw_if (Z.land index HARDENED =? 0) "slip10: ed25519 requires hardened index (>= 0x80000000)" ;;
  let data := [Byte.x00] ++ ek_key parent
    ++ ((fun k => u8 (Z.land (Z.shiftr index k) 255)) <$> [24; 16; 8; 0]) in
  halves (HMAC_sha512 (ek_chain_code parent) data) "slip10: child HMAC-SHA512 failed".
Definition derive_path (seed path : bytes) : result ExtendedKey :=
  ek ← master_key_from_seed seed;
  indices ← parse_path path;
  foldM_r (fun ek idx =>
    throw_if (Z.land idx HARDENED =? 0) "slip10: ed25519 only supports hardened derivation" ;;
    derive_hardened_child ek idx) ek indices.

Definition mnemonic_to_seed (mnemonic passphrase : bytes) : result bytes :=
  match PKCS5_PBKDF2_HMAC SHA512 mnemonic (str "mnemonic" ++ passphrase) 2048 64 with
  | Some seed => Ok seed
  | None => Throw "bip39: PBKDF2-HMAC-SHA512 failed"
  end.

Definition keypair_from_ed25519_seed32 (private_seed : bytes) : result KeyPair :=
  match EVP_PKEY_new_raw_private_key private_seed with
  | None => Throw "wallet_hd: failed to create Ed25519 EVP_PKEY from seed"
  | Some pkey => key_pair (Some pkey)
  end.
Definition wallet_from_mnemonic (mnemonic : bytes) : result KeyPair :=
  throw_if (negb (validate_mnemonic mnemonic)) "wallet_hd: invalid BIP39 mnemonic" ;;
  seed64 ← mnemonic_to_seed mnemonic [];
  ext ← derive_path seed64 DEFAULT_PATH;
  keypair_from_ed25519_seed32 (ek_key ext).
End Derivation.

(** ** Facts about paths *)

(** The path every wallet is derived along. *)
Lemma default_path : parse_path DEFAULT_PATH = Ok [HARDENED + 44; HARDENED + 7999; HARDENED; HARDENED; HARDENED].
Proof. vm_compute. reflexivity. Qed.

(** Digits read one after the other, modulo 2^32. *)
Lemma read_digits ds s idx b :
  Forall (fun c => is_digit c = true) ds -> 0 <= idx ->
  (forall k, (0 < k <= length ds)%nat -> u32 (foldl (fun v c => v * 10 + (byteZ c - 48)) idx (take k ds)) < HARDENED) ->
  read_index (ds ++ s) (u32 idx) b =
  read_index s (u32 (foldl (fun v c => v * 10 + (byteZ c - 48)) idx ds)) (bool_decide (ds <> []) || b).
Proof.
  intros Hd. revert idx b. induction Hd as [|c ds Hc _ IH]; intros idx b Hi Hk; [done|].
  cbn [app read_index foldl]. pose proof Hc as Hc'. unfold is_digit in Hc'. apply andb_true_iff in Hc' as [H1%Z.leb_le H2%Z.leb_le].
  assert ((byteZ c =? chr "/") = false /\ (byteZ c =? 39) = false /\ (byteZ c =? chr "h") = false /\ (byteZ c =? chr "H") = false)
    as (-> & -> & -> & ->) by (split_and!; apply Z.eqb_neq; change (chr "/") with 47; change (chr "h") with 104;
      change (chr "H") with 72; lia).
  rewrite Hc. cbn [orb negb]. change (chr "0") with 48.
  assert (u32 (u32 (u32 idx * 10) + (byteZ c - 48)) = u32 (idx * 10 + (byteZ c - 48))) as ->.
  { unfold u32. rewrite Zplus_mod_idemp_l, <- Zplus_mod_idemp_l, Zmult_mod_idemp_l, Zplus_mod_idemp_l. done. }
  pose proof (Hk 1%nat ltac:(cbn; lia)) as H. cbn [take] in H. rewrite take_0 in H. cbn [foldl] in H. rewrite (proj2 (Z.leb_gt _ _) H).
  rewrite IH; [|lia|].
  - by rewrite orb_true_r, (bool_decide_true (_ :: _ <> [])).
  - intros k Hk'. apply (Hk (S k)). cbn. lia.
Qed.

(** The prefixes of a decimal are the number divided by powers of ten. *)
Lemma dec_prefix ds k : Forall (fun c => is_digit c = true) ds -> (k <= length ds)%nat ->
  dec_value (take k ds) = dec_value ds / 10 ^ Z.of_nat (length ds - k).
Proof.
  intros Hd Hk. rewrite <- (take_drop k ds) at 2. unfold dec_value. rewrite foldl_app.
  assert (forall l v, Forall (fun c => is_digit c = true) l ->
    exists r, 0 <= r < 10 ^ Z.of_nat (length l) /\
    foldl (fun v c => v * 10 + (byteZ c - 48)) v l = v * 10 ^ Z.of_nat (length l) + r) as H.
  { clear. intros l. induction l as [|c l IH]; intros v Hl; [exists 0; cbn; lia|].
    apply Forall_cons in Hl as [Hc Hl]. cbn [foldl length]. destruct (IH (v * 10 + (byteZ c - 48)) Hl) as (r & Hr & ->).
    unfold is_digit in Hc. apply andb_true_iff in Hc as [H1%Z.leb_le H2%Z.leb_le].
    exists ((byteZ c - 48) * 10 ^ Z.of_nat (length l) + r). rewrite Nat2Z.inj_succ, Z.pow_succ_r by lia.
    split; [|ring]. assert (0 < 10 ^ Z.of_nat (length l)) by lia. nia. }
  destruct (H (drop k ds) (foldl (fun v c => v * 10 + (byteZ c - 48)) 0 (take k ds)) (Forall_drop _ _ _ Hd)) as (r & Hr & ->).
  rewrite length_drop in *. rewrite Z.div_add_l, (Z.div_small r) by lia. lia.
Qed.

Definition path_text (l : list Z) : bytes := str "m" ++ mjoin ((fun n => str "/" ++ dec_str n ++ str "'") <$> l).
(** A number whose digits pass the overflow test one after the other. *)
Definition readable_index (n : Z) : Prop := 0 <= n /\ n / 10 < HARDENED /\ u32 n < HARDENED.

Lemma read_dec_index n s : readable_index n -> read_index (dec_str n ++ str "'" ++ s) 0 false = Ok (u32 n, true, true, s).
Proof.
  intros (Hn & H10 & H32). destruct (dec_str_digits n Hn) as (Hd & Hv & Hne).
  assert (Forall (fun c => is_digit c = true) (dec_str n)) as HF.
  { apply Forall_forall. intros c Hc%list_elem_of_In. rewrite forallb_forall in Hd. by apply Hd. }
  change 0 with (u32 0) at 1. rewrite read_digits; [|done|lia|].
  - change (foldl _ 0 (dec_str n)) with (dec_value (dec_str n)). rewrite Hv, bool_decide_true by done. reflexivity.
  - intros k Hk. change (foldl _ 0 (take k (dec_str n))) with (dec_value (take k (dec_str n))).
    rewrite dec_prefix, Hv by (done || lia). destruct (decide (k = length (dec_str n))) as [->|Hlt].
    + by rewrite Nat.sub_diag, Z.div_1_r.
    + assert (n / 10 ^ Z.of_nat (length (dec_str n) - k) <= n / 10) as Hle.
      { apply Z.div_le_compat_l; [lia|]. split; [lia|]. change 10 with (10 ^ 1) at 1. apply Z.pow_le_mono_r; lia. }
      pose proof (Z.div_pos n (10 ^ Z.of_nat (length (dec_str n) - k)) ltac:(lia) ltac:(lia)).
      unfold HARDENED in *. rewrite u32_small by ints. lia.
Qed.

Lemma parse_indices_text l fuel :
  Forall readable_index l -> (length (mjoin ((fun n => str "/" ++ dec_str n ++ str "'") <$> l)) <= fuel)%nat ->
  parse_indices fuel (mjoin ((fun n => str "/" ++ dec_str n ++ str "'") <$> l)) = Ok ((fun n => Z.lor (u32 n) HARDENED) <$> l).
Proof.
  intros Hl. revert fuel. induction Hl as [|n l Hn _ IH]; intros fuel Hf; [by destruct fuel|].
  rewrite fmap_cons in *. set (tl := (fun n => str "/" ++ dec_str n ++ str "'") <$> l) in *.
  change (mjoin (?x :: tl)) with (x ++ mjoin tl) in *. rewrite <- !app_assoc in *.
  change (str "/" ++ ?x) with (u8 47 :: x) in *.
  destruct fuel as [|fuel]; [cbn in Hf; lia|]. cbn [parse_indices].
  change (byteZ (u8 47) =? chr "/") with true. cbn [negb throw_if]. rewrite (read_dec_index n _ Hn).
  rewrite length_cons, !length_app in Hf. unfold mbind, result_bind. cbn [negb throw_if].
  rewrite IH by lia. reflexivity.
Qed.

(** Reading a derivation path. The text of any list of hardened indices
    below 2^31 is read back as these indices. The test for overflow compares
    after the 32-bit product has wrapped, so a number past 2^32 whose leading
    digits stay below 2^31 is not refused: it is read modulo 2^32. *)
Theorem path_indices_read l :
  Forall readable_index l -> parse_path (path_text l) = Ok ((fun n => Z.lor (u32 n) HARDENED) <$> l).
Proof.
  intros Hl. unfold path_text. change (str "m" ++ ?x) with (u8 109 :: x). cbn [parse_path].
  change (byteZ (u8 109) =? chr "m") with true. by apply parse_indices_text.
Qed.

(** The second index is 2^32 + 7. *)
Lemma path_indices_read_witness :
  parse_path (str "m/44'/4294967303'") = Ok [HARDENED + 44; HARDENED + 7].
Proof.
  refine (path_indices_read [44; 4294967303] _). repeat constructor; vm_compute; done.
Defined.
