(* ===== verification/SecureWallet.v ===== *)
(** secure_wallet.hpp and wallet_auth.hpp: the encrypted envelope a key is
    kept in, and the file with the hash of the PIN. Nothing checks the stream
    the envelope is written through, so a short write is a value here. *)

From S2P Require Import Prelude Crypto Transaction Ownership Text Derivation.
From stdpp Require Import options.
Local Open Scope Z_scope.

Definition SALT_LEN : nat := 16.
Definition IV_LEN : nat := 12.
Definition TAG_LEN : nat := 16.
Definition PBKDF2_ITER : Z := 600000.
Definition INT_MAX : Z := 2 ^ 31 - 1.

(** What [RAND_bytes] gives for the salt and for the iv, and whether a cipher
    context can be allocated. *)
Record EncryptIO := mkEncryptIO {
  rand_salt : option bytes;
  rand_iv : option bytes;
  enc_ctx : bool;
  enc_stream : SaveIO
}.
(** What goes wrong when a file is read. *)
Inductive ReadFault := ReadFine | OpenFails | HeaderFails | BodyFails | ContextFails.
#[global] Instance ReadFault_eq_dec : EqDecision ReadFault.
Proof. solve_decision. Defined.

Section Envelope.
Context {ssl : OpenSSL} {wssl : WalletSSL}.

Definition derive_key (pin salt : bytes) : result bytes :=
  match PKCS5_PBKDF2_HMAC SHA256 pin salt PBKDF2_ITER 32 with
  | Some key => Ok key
  | None => Throw "PBKDF2 failed"
  end.

(** The bytes [encrypt] writes. *)
Definition envelope (io : EncryptIO) (pin plaintext : bytes) : result bytes :=
  match rand_salt io, rand_iv io with
  | None, _ => Throw "RAND salt"
  | Some _, None => Throw "RAND iv"
  | Some salt, Some iv =>
      key ← derive_key pin salt;
      throw_if (negb (enc_ctx io)) "ctx" ;;
      match EVP_Encrypt_gcm key iv plaintext with
      | GcmInit => Throw "encrypt init"
      | GcmFinal => Throw "encrypt final"
      | GcmDone (ciphertext, tag) => Ok (salt ++ iv ++ tag ++ ciphertext)
      end
  end.
(** [encrypt]: what becomes of the file at the path. *)
Definition encrypt (io : EncryptIO) (pin plaintext : bytes) (old : option bytes) : result (option bytes) :=
  data ← envelope io pin plaintext; Ok (written (enc_stream io) data old).

Definition decrypt (fault : ReadFault) (file : option bytes) (pin : bytes) : result bytes :=
  match file with
  | None => Throw "cannot open wallet file"
  | Some data =>
      throw_if (bool_decide (fault = OpenFails)) "cannot open wallet file" ;;
      throw_if (bool_decide (fault = HeaderFails) || bool_decide (length data < SALT_LEN + IV_LEN + TAG_LEN)%nat)
        "invalid encrypted wallet header" ;;
      let salt := take SALT_LEN data in
      let iv := take IV_LEN (drop SALT_LEN data) in
      let tag := take TAG_LEN (drop (SALT_LEN + IV_LEN) data) in
      let ciphertext := drop (SALT_LEN + IV_LEN + TAG_LEN) data in
      throw_if (bool_decide (fault = BodyFails)) "failed reading encrypted wallet file" ;;
      throw_if (bool_decide (ciphertext = [])) "empty wallet file" ;;
      throw_if (INT_MAX <? sizeZ ciphertext) "encrypted wallet file is too large" ;;
      key ← derive_key pin salt;
      throw_if (bool_decide (fault = ContextFails)) "ctx" ;;
      match EVP_Decrypt_gcm key iv tag ciphertext with
      | GcmInit => Throw "decrypt init"
      | GcmFinal => Throw "wrong PIN or tampered file"
      | GcmDone plaintext => Ok plaintext
      end
  end.

(** ** The PIN *)

Definition hash_pin (pin salt : bytes) : result bytes :=
  match PKCS5_PBKDF2_HMAC SHA256 pin salt 100000 32 with
  | Some out => Ok (bytes_to_hex out)
  | None => Throw "PBKDF2 failed"
  end.

(** [salt] is what [secure_random] gives; the stream is checked only for
    having opened. *)
Definition save_pin (salt : option bytes) (io : SaveIO) (chmod_ok : bool) (pin : bytes) (old : option bytes)
    : result unit * option bytes :=
  match salt with
  | None => (Throw "RAND_bytes failed", old)
  | Some salt =>
      match hash_pin pin salt with
      | Throw e => (Throw e, old)
      | Ok hash =>
          match io with
          | SaveRefused => (Throw "cannot open pin.hash for writing", old)
          | _ =>
              (if chmod_ok then Ok tt else Throw "failed to restrict pin.hash permissions",
               written io (salt ++ hash) old)
          end
      end
  end.

Definition verify_pin (readable : bool) (file : option bytes) (pin : bytes) : result bool :=
  match file with
  | None => Ok false
  | Some data =>
      if negb readable || negb (bool_decide (length data = 80%nat)) then Ok false
      else
        expected ← hash_pin pin (take 16 data);
        Ok (bool_decide (length expected = 64%nat) && bool_decide (expected = drop 16 data))
  end.

(** ** Laws *)

(** What OpenSSL documents of these calls. *)
Class WalletLaws := {
  (** A derived key has the length asked for. *)
  pbkdf2_length d pw salt it n key : PKCS5_PBKDF2_HMAC d pw salt it n = Some key -> length key = n;
  (** Decryption inverts encryption; GCM does not pad, and its tag has 16 bytes. *)
  gcm_roundtrip key iv pt ct tag :
    EVP_Encrypt_gcm key iv pt = GcmDone (ct, tag) -> EVP_Decrypt_gcm key iv tag ct = GcmDone pt;
  gcm_sizes key iv pt ct tag :
    EVP_Encrypt_gcm key iv pt = GcmDone (ct, tag) -> length ct = length pt /\ length tag = TAG_LEN;
  (** A PEM file of a key reads back as that key, and starts with a dash. *)
  pem_roundtrip key pem : PEM_write_PrivateKey key = Some pem -> PEM_read_PrivateKey pem = Some key;
  pem_dash key pem : PEM_write_PrivateKey key = Some pem -> exists s, pem = u8 45 :: s
}.
Context {laws : WalletLaws}.

(** The salt and the iv have their lengths. *)
Definition sized_io (io : EncryptIO) : Prop :=
  (forall s, rand_salt io = Some s -> length s = SALT_LEN) /\ (forall v, rand_iv io = Some v -> length v = IV_LEN).

Lemma envelope_shape io pin pt data :
  sized_io io -> envelope io pin pt = Ok data ->
  exists salt iv key tag ct, data = salt ++ iv ++ tag ++ ct /\ length salt = SALT_LEN /\ length iv = IV_LEN /\
    length tag = TAG_LEN /\ length ct = length pt /\ derive_key pin salt = Ok key /\
    EVP_Encrypt_gcm key iv pt = GcmDone (ct, tag).
Proof using All.
  intros [Hs Hv]. unfold envelope. destruct (rand_salt io) as [salt|]; [|done]. destruct (rand_iv io) as [iv|]; [|done].
  destruct (derive_key pin salt) as [key|] eqn:Ek; [|done]. cbn. destruct (enc_ctx io); [|done]. cbn.
  destruct (EVP_Encrypt_gcm key iv pt) as [| |[ct tag]] eqn:E; [done|done|]. intros [= <-].
  destruct (gcm_sizes _ _ _ _ _ E) as [Hc Ht]. exists salt, iv, key, tag, ct. split_and!; auto.
Qed.

(** What was sealed with a PIN is opened with that PIN. *)
Lemma decrypt_envelope io pin pt data :
  sized_io io -> envelope io pin pt = Ok data -> pt <> [] -> sizeZ pt <= INT_MAX ->
  decrypt ReadFine (Some data) pin = Ok pt.
Proof using All.
  intros Hio He Hne Hsz. destruct (envelope_shape io pin pt data Hio He)
    as (salt & iv & key & tag & ct & -> & Hs & Hv & Ht & Hc & Hk & Hg).
  unfold decrypt. cbn [orb]. rewrite !(bool_decide_false (ReadFine = _)) by done. cbn [orb throw_if].
  rewrite (bool_decide_false (length _ < _)%nat) by (rewrite !length_app; lia).
  assert (take SALT_LEN (salt ++ iv ++ tag ++ ct) = salt) as -> by (by rewrite take_app_length').
  assert (drop SALT_LEN (salt ++ iv ++ tag ++ ct) = iv ++ tag ++ ct) as -> by (by rewrite drop_app_length').
  assert (take IV_LEN (iv ++ tag ++ ct) = iv) as -> by (by rewrite take_app_length').
  assert (drop (SALT_LEN + IV_LEN) (salt ++ iv ++ tag ++ ct) = tag ++ ct) as ->.
  { rewrite app_assoc. apply drop_app_length'. rewrite length_app. lia. }
  assert (drop (SALT_LEN + IV_LEN + TAG_LEN) (salt ++ iv ++ tag ++ ct) = ct) as ->.
  { rewrite !app_assoc. apply drop_app_length'. rewrite !length_app. lia. }
  assert (take TAG_LEN (tag ++ ct) = tag) as -> by (by rewrite take_app_length').
  rewrite bool_decide_false by (intros ->; by destruct pt). unfold sizeZ in *.
  rewrite (proj2 (Z.ltb_ge INT_MAX _)) by lia. rewrite Hk. cbn. by rewrite (gcm_roundtrip _ _ _ _ _ Hg).
Qed.

(** An envelope is at least as long as its header and its content. *)
Lemma envelope_length io pin pt data :
  sized_io io -> envelope io pin pt = Ok data -> length data = (44 + length pt)%nat.
Proof using All.
  intros Hio He. destruct (envelope_shape io pin pt data Hio He) as (? & ? & ? & ? & ? & -> & Hs & Hv & Ht & Hc & _).
  rewrite !length_app, Hs, Hv, Ht, Hc. done.
Qed.

(** A PIN that was saved is the one that is accepted. *)
Lemma verify_saved_pin salt pin old file :
  length salt = 16%nat -> save_pin (Some salt) SaveDone true pin old = (Ok tt, file) -> verify_pin true file pin = Ok true.
Proof using All.
  intros Hs. unfold save_pin. destruct (hash_pin pin salt) as [hash|] eqn:E; [|done]. cbn. intros [= <-].
  assert (length hash = 64%nat) as Hh.
  { unfold hash_pin in E. destruct (PKCS5_PBKDF2_HMAC _ _ _ _ _) as [out|] eqn:Eo; [|done]. injection E as <-.
    rewrite bytes_to_hex_length, (pbkdf2_length _ _ _ _ _ _ Eo). done. }
  unfold verify_pin. rewrite bool_decide_true by (rewrite length_app; lia). cbn [negb orb].
  rewrite take_app_length', drop_app_length', E by done. cbn. by rewrite !bool_decide_true.
Qed.
End Envelope.

(** ** A toy instance

    A cipher that copies its input and tags it with the key, so a wrong PIN is
    refused; a PEM text is a dash and the key. *)
Module ToyWallet.
Definition fill (n : nat) (s : bytes) : bytes := take n (s ++ replicate n Byte.x00).
#[local] Existing Instance Toy.ssl.
Definition wssl : WalletSSL (ssl := Toy.ssl) := {|
  PKCS5_PBKDF2_HMAC _ pw salt _ n := Some (fill n (pw ++ salt));
  HMAC_sha512 key data := Some (fill 64 (key ++ data));
  EVP_PKEY_new_raw_private_key raw := Some raw;
  EVP_Encrypt_gcm key iv pt := GcmDone (pt, fill 16 key);
  EVP_Decrypt_gcm key iv tag ct := if bool_decide (tag = fill 16 key) then GcmDone ct else GcmFinal;
  PEM_write_PrivateKey key := Some (u8 45 :: key);
  PEM_read_PrivateKey data := match data with c :: key => if byteZ c =? 45 then Some key else None | [] => None end;
  is_ed25519 _ := true
|}.
Lemma fill_length n s : length (fill n s) = n.
Proof. unfold fill. rewrite length_take, length_app, length_replicate. lia. Qed.
Definition laws : WalletLaws (wssl := wssl).
Proof.
  split.
  - intros d pw salt it n key [= <-]. apply fill_length.
  - intros key iv pt ct tag [= <- <-]. cbn. by rewrite bool_decide_true.
  - intros key iv pt ct tag [= <- <-]. split; [done|apply fill_length].
  - by intros key pem [= <-].
  - intros key pem [= <-]. by eexists.
Defined.
End ToyWallet.
