(* ===== verification/KeyStore.v ===== *)
(** persistent_wallet.hpp: the wallet and the file of its key. Every system
    call can fail, as [WalletFaults] and [LoadIO] say; what was changed before
    a failure stays changed. *)

From S2P Require Import Prelude Crypto Transaction Ownership Text Bip39 Wallet Derivation SecureWallet.
From stdpp Require Import options.
Local Open Scope Z_scope.

(** Which calls of one save fail. A failed write leaves [tmp_left] in the
    temporary file. *)
Record WalletFaults := mkWalletFaults {
  dir_fails : bool;
  remove_fails : bool;
  tmp_open_fails : bool;
  tmp_write_fails : bool;
  tmp_left : bytes;
  bio_fails : bool;
  chmod_fails : bool;
  tmp_fsync_fails : bool;
  key_rename_fails : bool;
  key_dir_fsync_fails : bool
}.
Definition no_wallet_faults : WalletFaults := mkWalletFaults false false false false [] false false false false false.

(** What the start meets. *)
Record LoadIO := mkLoadIO {
  exists_fails : bool;
  is_regular : bool;
  key_open_fails : bool;
  key_close_fails : bool;
  size_fails : bool
}.
Definition load_fine : LoadIO := mkLoadIO false true false false false.

Section KeyStore.
Context {ssl : OpenSSL} {wssl : WalletSSL} {Ev : Type}.

(** [generate_keypair]: how far the generation got. *)
Inductive Keygen := KeygenContext | KeygenInit | KeygenFails | KeygenKey (key : EVP_PKEY).
Definition generate_keypair (k : Keygen) : result KeyPair :=
  match k with
  | KeygenContext => Throw "failed to create key context"
  | KeygenInit => Throw "failed to initialize key generation"
  | KeygenFails => Throw "failed to generate keypair"
  | KeygenKey key => key_pair (Some key)
  end.

Record WalletStore := mkStore {
  stored_wallet : PersistentWallet; (* wallet_ *)
  key_file : option bytes; (* key_path_ *)
  key_tmp : option bytes; (* key_path_ + ".tmp" *)
  key_in_dir : bool (* key_path_ has a parent *)
}.
Abbreviation store_op := (op WalletStore Ev).

Definition set_stored_wallet (w : PersistentWallet) (s : WalletStore) : WalletStore :=
  mkStore w (key_file s) (key_tmp s) (key_in_dir s).
Definition set_key_tmp (t : option bytes) (s : WalletStore) : WalletStore :=
  mkStore (stored_wallet s) (key_file s) t (key_in_dir s).
(** [std::filesystem::remove(temp_path, cleanup_ec)]. *)
Definition drop_tmp (f : WalletFaults) (s : WalletStore) : WalletStore :=
  if remove_fails f then s else set_key_tmp None s.
Definition rename_tmp (s : WalletStore) : WalletStore := mkStore (stored_wallet s) (key_tmp s) None (key_in_dir s).

(** Restrict the temporary file, force it to disk and rename it; a file that
    is not there cannot be restricted. *)
Definition commit_tmp (f : WalletFaults) (chmod_error rename_error : string) : store_op unit :=
  asking (fun s =>
    if chmod_fails f || bool_decide (key_tmp s = None) then _ ← update (drop_tmp f); throw chmod_error
    else if tmp_fsync_fails f then _ ← update (drop_tmp f); throw "fsync failed"
    else if key_rename_fails f then _ ← update (drop_tmp f); throw rename_error
    else
      _ ← update rename_tmp;
      if key_dir_fsync_fails f then throw "fsync dir failed" else mret tt).

(** [if (!wallet_ || !wallet_->valid()) throw], and the directory. *)
Definition save_guard (f : WalletFaults) : store_op unit :=
  asking (fun s =>
    ok ← reading (fun _ => match stored_wallet s with None => Ok false | Some w => wallet_valid w end);
    _ ← require_op ok "cannot save invalid wallet";
    require_op (negb (key_in_dir s && dir_fails f)) "cannot create wallet directory").
(** The PEM text of the key. *)
Definition wallet_pem (s : WalletStore) : option bytes :=
  w ← stored_wallet s; key ← pair_private w; PEM_write_PrivateKey key.

Definition wallet_save (f : WalletFaults) : store_op unit :=
  _ ← save_guard f;
  _ ← update (drop_tmp f);
  _ ← require_op (negb (tmp_open_fails f)) "cannot open temporary wallet key for writing";
  asking (fun s =>
    match wallet_pem s with
    | Some pem =>
        if tmp_write_fails f then
          _ ← update (set_key_tmp (Some (tmp_left f))); _ ← update (drop_tmp f); throw "failed to write temporary PEM key"
        else
          _ ← update (set_key_tmp (Some pem));
          commit_tmp f "failed to secure temporary wallet key" "failed to atomically replace wallet key: "
    | None =>
        _ ← update (set_key_tmp (Some (tmp_left f))); _ ← update (drop_tmp f); throw "failed to write temporary PEM key"
    end).

Definition save_encrypted (f : WalletFaults) (io : EncryptIO) (pin : bytes) : store_op unit :=
  _ ← save_guard f;
  _ ← require_op (negb (bio_fails f)) "failed to allocate BIO";
  asking (fun s =>
    match wallet_pem s with
    | None => throw "failed to serialize private key"
    | Some pem =>
        _ ← require_op (negb (bool_decide (pem = []))) "empty PEM buffer";
        _ ← update (drop_tmp f);
        tmp ← reading (fun s => encrypt io pin pem (key_tmp s));
        _ ← update (set_key_tmp tmp);
        commit_tmp f "failed to secure encrypted wallet file" "failed to atomically replace encrypted wallet: "
    end).

Definition replace_with_mnemonic (f : WalletFaults) (mnemonic : bytes) : store_op unit :=
  _ ← require_op (validate_mnemonic mnemonic) "invalid BIP39 mnemonic";
  fresh ← reading (fun _ => wallet_from_mnemonic mnemonic);
  _ ← update (set_stored_wallet (Some fresh));
  wallet_save f.

(** [entropy] is what [RAND_bytes] gives. *)
Definition create_new_hd_wallet (f : WalletFaults) (entropy : option bytes) : store_op bytes :=
  match entropy with
  | None => throw "RAND_bytes failed"
  | Some entropy =>
      mnemonic ← reading (fun _ => entropy_to_mnemonic entropy);
      w ← reading (fun _ => wallet_from_mnemonic mnemonic);
      _ ← update (set_stored_wallet (Some w));
      _ ← wallet_save f;
      mret mnemonic
  end.

Definition MIN_ENCRYPTED_SIZE : nat := 45.
Definition is_loaded (s : WalletStore) : bool := bool_decide (stored_wallet s <> None).
(** [readable]: none of the calls on the file fails. *)
Definition is_file_encrypted (readable : bool) (s : WalletStore) : bool :=
  match key_file s with
  | Some (c :: rest) =>
      readable && negb (bool_decide (length (c :: rest) < MIN_ENCRYPTED_SIZE)%nat) && negb (byteZ c =? 45)
  | _ => false
  end.

(** The key read from a PEM text, as a wallet. *)
Definition loaded_wallet (key : EVP_PKEY) (wrong_kind invalid : string) : result KeyPair :=
  throw_if (negb (is_ed25519 key)) wrong_kind ;;
  keys ← key_pair (Some key);
  ok ← wallet_valid keys;
  throw_if (negb ok) invalid ;;
  Ok keys.

Definition unlock_with_pin (fault : ReadFault) (bio : bool) (pin : bytes) : store_op unit :=
  plaintext ← reading (fun s => decrypt fault (key_file s) pin);
  _ ← require_op bio "unlock_with_pin: BIO alloc";
  match PEM_read_PrivateKey plaintext with
  | None => throw "unlock_with_pin: PEM parse"
  | Some key =>
      keys ← reading (fun _ => loaded_wallet key "unlock_with_pin: not Ed25519" "unlock_with_pin: invalid");
      update (set_stored_wallet (Some keys))
  end.

Definition try_load_plaintext_pem (io : LoadIO) (data : bytes) : store_op bool :=
  _ ← require_op (negb (key_open_fails io)) "existing wallet key cannot be opened; refusing replacement";
  match PEM_read_PrivateKey data with
  | None => mret false
  | Some key =>
      _ ← require_op (negb (key_close_fails io)) "failed to close existing wallet key file";
      keys ← reading (fun _ => loaded_wallet key "existing wallet key is not Ed25519; refusing replacement"
                                 "existing wallet key failed validation");
      _ ← update (set_stored_wallet (Some keys));
      mret true
  end.

(** The constructor runs it on a store without a wallet. *)
Definition load_or_defer (io : LoadIO) (f : WalletFaults) (k : Keygen) : store_op unit :=
  _ ← require_op (negb (exists_fails io)) "cannot inspect wallet key path";
  asking (fun s =>
    match key_file s with
    | None =>
        keys ← reading (fun _ => generate_keypair k);
        _ ← update (set_stored_wallet (Some keys));
        wallet_save f
    | Some data =>
        _ ← require_op (is_regular io) "existing wallet path is not a regular file";
        parsed ← try_load_plaintext_pem io data;
        if (parsed : bool) then mret tt
        else
          _ ← require_op (negb (size_fails io)) "cannot stat existing wallet key file";
          _ ← require_op (negb (bool_decide (length data < MIN_ENCRYPTED_SIZE)%nat))
                "existing wallet key is invalid; refusing replacement";
          update (set_stored_wallet None)
    end).

(** ** Saving *)

Ltac run_step := rewrite ?run_update, ?run_reading, ?run_require, ?run_ret.

(** What a commit leaves: the old file and an error, or the temporary one. *)
Lemma commit_spec f ce re s r s' ev :
  commit_tmp f ce re s = (r, s', ev) ->
  ev = [] /\ stored_wallet s' = stored_wallet s /\ key_in_dir s' = key_in_dir s /\
  (key_file s' = key_file s /\ (exists e, r = Throw e) \/
   key_tmp s <> None /\ key_file s' = key_tmp s /\ key_tmp s' = None /\ (r = Ok tt \/ r = Throw "fsync dir failed")).
Proof.
  unfold commit_tmp, asking. assert (forall e, (_ ← update (drop_tmp f); throw e) s = (r, s', ev) ->
    ev = [] /\ stored_wallet s' = stored_wallet s /\ key_in_dir s' = key_in_dir s /\ key_file s' = key_file s /\ r = Throw e) as Hd.
  { intros e. run_step. unfold throw, drop_tmp. intros [= <- <- <-]. by destruct (remove_fails f). }
  destruct (chmod_fails f || _) eqn:Ec.
  { intros (-> & -> & -> & -> & ->)%Hd. eauto 10. }
  apply orb_false_iff in Ec as [_ Ht%bool_decide_eq_false].
  destruct (tmp_fsync_fails f). { intros (-> & -> & -> & -> & ->)%Hd. eauto 10. }
  destruct (key_rename_fails f). { intros (-> & -> & -> & -> & ->)%Hd. eauto 10. }
  run_step. destruct (key_dir_fsync_fails f); intros [= <- <- <-]; split_and!; auto 10.
Qed.

Lemma guard_spec f s r s' ev :
  save_guard f s = (r, s', ev) -> s' = s /\ ev = [] /\
  (r = Ok tt -> exists w key, stored_wallet s = Some w /\ wallet_valid w = Ok true /\ pair_private w = Some key).
Proof.
  unfold save_guard, asking. run_step. destruct (stored_wallet s) as [w|]; [|by intros [= <- <- <-]].
  destruct (wallet_valid w) as [ok|] eqn:E; [|by intros [= <- <- <-]]. run_step. destruct ok; [|by intros [= <- <- <-]].
  unfold require_op. intros [= <- <- <-]. split_and!; [done|done|]. intros _.
  destruct (pair_private w) as [key|] eqn:Ek; [by exists w, key|]. unfold wallet_valid in E. by rewrite Ek in E.
Qed.

(** Whatever fails, the file holds the old content or the complete key. *)
Lemma wallet_save_spec f s r s' ev :
  wallet_save f s = (r, s', ev) ->
  ev = [] /\ stored_wallet s' = stored_wallet s /\ key_in_dir s' = key_in_dir s /\
  (key_file s' = key_file s /\ (exists e, r = Throw e) \/
   (exists w, stored_wallet s = Some w /\ wallet_valid w = Ok true) /\
   exists pem, wallet_pem s = Some pem /\ key_file s' = Some pem /\ key_tmp s' = None /\
     (r = Ok tt \/ r = Throw "fsync dir failed")).
Proof.
  unfold wallet_save. destruct (save_guard f s) as [[rg sg] evg] eqn:Eg.
  destruct (guard_spec _ _ _ _ _ Eg) as (-> & -> & Hg). unfold mbind at 1, op_bind at 1. rewrite Eg.
  destruct rg as [[]|e]; [|intros [= <- <- <-]; eauto 10]. cbv beta.
  set (rest := _ ← update (drop_tmp f); _) at 1.
  assert (forall r s' ev, rest s = (r, s', ev) ->
    ev = [] /\ stored_wallet s' = stored_wallet s /\ key_in_dir s' = key_in_dir s /\
    (key_file s' = key_file s /\ (exists e, r = Throw e) \/
     exists pem, wallet_pem s = Some pem /\ key_file s' = Some pem /\ key_tmp s' = None /\
       (r = Ok tt \/ r = Throw "fsync dir failed"))) as H.
  { clear. intros r s' ev. unfold rest. run_step.
    assert (stored_wallet (drop_tmp f s) = stored_wallet s /\ key_in_dir (drop_tmp f s) = key_in_dir s /\
      key_file (drop_tmp f s) = key_file s) as (E1 & E2 & E3) by (unfold drop_tmp; by destruct (remove_fails f)).
    destruct (negb (tmp_open_fails f)); [|intros [= <- <- <-]; eauto 10].
    unfold asking. assert (wallet_pem (drop_tmp f s) = wallet_pem s) as -> by (unfold wallet_pem; by rewrite E1).
    assert (forall r s' ev, (_ ← update (set_key_tmp (Some (tmp_left f))); _ ← update (drop_tmp f);
        throw "failed to write temporary PEM key" : store_op unit) (drop_tmp f s) = (r, s', ev) ->
      ev = [] /\ stored_wallet s' = stored_wallet s /\ key_in_dir s' = key_in_dir s /\ key_file s' = key_file s /\
      exists e, r = Throw e) as Hf.
    { intros r0 s0 ev0. run_step. unfold throw. intros [= <- <- <-]. unfold drop_tmp in *. destruct (remove_fails f); cbn; eauto 10. }
    destruct (wallet_pem s) as [pem|] eqn:Ep.
    - destruct (tmp_write_fails f). { intros (-> & -> & -> & -> & He)%Hf. eauto 10. }
      run_step. intros (-> & -> & -> & Hc)%commit_spec. cbn [set_key_tmp stored_wallet key_in_dir key_file key_tmp] in *.
      rewrite E1, E2, E3 in *. split_and!; [done..|]. destruct Hc as [[-> He]|(_ & -> & -> & Hr)]; eauto 10.
    - intros (-> & -> & -> & -> & He)%Hf. eauto 10. }
  destruct (rest s) as [[r1 s1] ev1] eqn:Er. intros [= <- <- <-].
  destruct (H _ _ _ eq_refl) as (-> & H1 & H2 & [H3|H3]); [by eauto 10|]. split_and!; [done..|]. right. split; [|done].
  destruct (Hg eq_refl) as (w & ? & ? & ? & _). eauto.
Qed.

(** ** Loading *)

(** Whatever the start meets, a file that exists is left as it is. *)
Lemma load_existing io f k s data r s' ev :
  key_file s = Some data -> load_or_defer io f k s = (r, s', ev) ->
  ev = [] /\ key_file s' = Some data /\ key_tmp s' = key_tmp s /\ key_in_dir s' = key_in_dir s.
Proof.
  intros Hk. unfold load_or_defer, asking. run_step. destruct (negb (exists_fails io)); [|by intros [= <- <- <-]].
  rewrite Hk. run_step. destruct (is_regular io); [|by intros [= <- <- <-]].
  unfold try_load_plaintext_pem. unfold mbind at 1, op_bind at 1. run_step.
  destruct (negb (key_open_fails io)); [|by intros [= <- <- <-]].
  destruct (PEM_read_PrivateKey data) as [key|].
  - run_step. destruct (negb (key_close_fails io)); [|by intros [= <- <- <-]].
    destruct (loaded_wallet _ _ _); [|by intros [= <- <- <-]]. run_step. cbn. by intros [= <- <- <-].
  - cbn. run_step. destruct (negb (size_fails io)); [|by intros [= <- <- <-]].
    destruct (negb _); [|by intros [= <- <- <-]]. by intros [= <- <- <-].
Qed.

Lemma loaded_wallet_ok key e1 e2 :
  is_ed25519 key = true -> wallet_valid (mkKeyPair (Some key) (Some key)) = Ok true ->
  loaded_wallet key e1 e2 = Ok (mkKeyPair (Some key) (Some key)).
Proof. intros H1 H2. unfold loaded_wallet, throw_if, key_pair, mbind, result_bind. rewrite H1. cbn [negb]. by rewrite H2. Qed.

(** A start that finds the PEM text of a valid key loads it. *)
Lemma load_pem f k d data key :
  PEM_read_PrivateKey data = Some key -> is_ed25519 key = true ->
  wallet_valid (mkKeyPair (Some key) (Some key)) = Ok true ->
  load_or_defer load_fine f k (mkStore None (Some data) None d)
  = (Ok tt, mkStore (Some (mkKeyPair (Some key) (Some key))) (Some data) None d, []).
Proof.
  intros Hp He Hv. unfold load_or_defer, asking. run_step. cbn [negb exists_fails load_fine key_file is_regular]. run_step.
  unfold try_load_plaintext_pem. unfold mbind at 1, op_bind at 1. run_step. cbn [negb key_open_fails load_fine].
  rewrite Hp. run_step. cbn [negb key_close_fails load_fine]. rewrite loaded_wallet_ok by done. run_step. reflexivity.
Qed.
(** One that finds bytes long enough to be an envelope waits for the PIN. *)
Lemma load_deferred f k d data :
  PEM_read_PrivateKey data = None -> (45 <= length data)%nat ->
  load_or_defer load_fine f k (mkStore None (Some data) None d) = (Ok tt, mkStore None (Some data) None d, []).
Proof.
  intros Hp Hl. unfold load_or_defer, asking. run_step. cbn [negb exists_fails load_fine key_file is_regular]. run_step.
  unfold try_load_plaintext_pem. unfold mbind at 1, op_bind at 1. run_step. cbn [negb key_open_fails load_fine].
  rewrite Hp. cbn. run_step. rewrite bool_decide_false by (unfold MIN_ENCRYPTED_SIZE; lia). reflexivity.
Qed.

Context {laws : WalletLaws}.

Lemma wallet_pem_key s key : stored_wallet s = Some (mkKeyPair (Some key) (Some key)) -> wallet_pem s = PEM_write_PrivateKey key.
Proof. unfold wallet_pem. by intros ->. Qed.

(** Saving where nothing fails. *)
Lemma wallet_save_run s key pem :
  stored_wallet s = Some (mkKeyPair (Some key) (Some key)) ->
  wallet_valid (mkKeyPair (Some key) (Some key)) = Ok true -> PEM_write_PrivateKey key = Some pem ->
  wallet_save no_wallet_faults s = (Ok tt, mkStore (stored_wallet s) (Some pem) None (key_in_dir s), []).
Proof.
  intros Hw Hv Hp. unfold wallet_save, save_guard, asking. unfold mbind at 1, op_bind at 1. run_step. rewrite Hw, Hv.
  run_step. cbn [dir_fails no_wallet_faults]. rewrite andb_false_r. cbn [negb require_op]. run_step.
  cbn [tmp_open_fails no_wallet_faults negb]. change (drop_tmp no_wallet_faults s) with (set_key_tmp None s).
  rewrite (wallet_pem_key (set_key_tmp None s) key Hw), Hp. cbn [tmp_write_fails no_wallet_faults]. run_step.
  unfold commit_tmp, asking. cbn [chmod_fails no_wallet_faults orb key_tmp set_key_tmp].
  rewrite bool_decide_false by done. cbn [tmp_fsync_fails key_rename_fails no_wallet_faults]. run_step.
  unfold rename_tmp. cbn. by rewrite Hw.
Qed.

(** Saving encrypted where only the stream can fail. *)
Lemma save_encrypted_run io pin s key pem data :
  stored_wallet s = Some (mkKeyPair (Some key) (Some key)) ->
  wallet_valid (mkKeyPair (Some key) (Some key)) = Ok true ->
  PEM_write_PrivateKey key = Some pem -> envelope io pin pem = Ok data -> enc_stream io <> SaveRefused ->
  save_encrypted no_wallet_faults io pin s
  = (Ok tt, mkStore (stored_wallet s) (written (enc_stream io) data None) None (key_in_dir s), []).
Proof using All.
  intros Hw Hv Hp He Hr. unfold save_encrypted, save_guard, asking. unfold mbind at 1, op_bind at 1. run_step. rewrite Hw, Hv.
  run_step. cbn [dir_fails no_wallet_faults]. rewrite andb_false_r. cbn [negb require_op]. run_step. cbn [bio_fails no_wallet_faults negb].
  rewrite (wallet_pem_key s key Hw), Hp. destruct (pem_dash key pem Hp) as [tl Etl]. run_step.
  rewrite bool_decide_false by (by rewrite Etl). cbn [negb]. run_step.
  unfold encrypt. cbn [key_tmp drop_tmp no_wallet_faults remove_fails set_key_tmp]. rewrite He.
  change (x ← Ok data; Ok (written (enc_stream io) x None)) with (Ok (written (enc_stream io) data None)). cbv iota beta.
  run_step. unfold commit_tmp, asking. cbn [chmod_fails no_wallet_faults orb key_tmp set_key_tmp].
  rewrite bool_decide_false by (by destruct (enc_stream io)).
  cbn [tmp_fsync_fails key_rename_fails no_wallet_faults]. run_step. cbn [key_dir_fsync_fails no_wallet_faults].
  unfold mret, op_ret, rename_tmp. cbn. by rewrite Hw.
Qed.

(** Opening the envelope gives the key back. *)
Lemma unlock_envelope io pin key pem data s :
  sized_io io -> PEM_write_PrivateKey key = Some pem -> sizeZ pem <= INT_MAX -> envelope io pin pem = Ok data ->
  is_ed25519 key = true -> wallet_valid (mkKeyPair (Some key) (Some key)) = Ok true -> key_file s = Some data ->
  unlock_with_pin ReadFine true pin s = (Ok tt, set_stored_wallet (Some (mkKeyPair (Some key) (Some key))) s, []).
Proof using All.
  intros Hio Hp Hs He Hed Hv Hk. unfold unlock_with_pin. run_step. rewrite Hk.
  destruct (pem_dash key pem Hp) as [tl Etl].
  rewrite (decrypt_envelope io pin pem data) by (done || by rewrite Etl). run_step.
  rewrite (pem_roundtrip key pem Hp). run_step. by rewrite loaded_wallet_ok.
Qed.

(** Bytes too short for an envelope cannot be opened. *)
Lemma short_locked fault bio pin data s :
  (length data <= 44)%nat -> key_file s = Some data -> exists e, unlock_with_pin fault bio pin s = (Throw e, s, []).
Proof.
  intros Hl Hk. unfold unlock_with_pin. run_step. rewrite Hk.
  assert (exists e, decrypt fault (Some data) pin = Throw e) as [e ->]; [|by exists e].
  unfold decrypt, throw_if, mbind, result_bind. destruct (bool_decide (fault = OpenFails)); [by eexists|].
  destruct (bool_decide (fault = HeaderFails) || _); [by eexists|]. destruct (bool_decide (fault = BodyFails)); [by eexists|].
  rewrite (bool_decide_true (drop _ data = [])); [by eexists|]. apply drop_ge. unfold SALT_LEN, IV_LEN, TAG_LEN. lia.
Qed.
End KeyStore.
#[global] Arguments mkStore {ssl}.

(** ** Claims *)

(** C29: saving the key is atomic. Whichever of its system calls fail, the file
    afterwards is the old one, and the save threw; or it is complete, nothing
    is left of the temporary file, and a later start loads from it the wallet
    that was saved. The wallet in memory stays as it was. *)
Theorem wallet_save_atomic {ssl : OpenSSL} {wssl : WalletSSL} {laws : WalletLaws} {Ev : Type} f s key r s' (ev : list Ev) :
  stored_wallet s = Some (mkKeyPair (Some key) (Some key)) -> is_ed25519 key = true ->
  wallet_save f s = (r, s', ev) ->
  stored_wallet s' = stored_wallet s /\
  (key_file s' = key_file s /\ (exists e, r = Throw e) \/
   (r = Ok tt \/ r = Throw "fsync dir failed") /\ key_tmp s' = None /\
   forall f' k, load_or_defer load_fine f' k (mkStore None (key_file s') None (key_in_dir s'))
     = (Ok tt, mkStore (stored_wallet s) (key_file s') None (key_in_dir s'), ([] : list Ev))).
Proof.
  intros Hw He H. pose proof (wallet_save_spec _ _ _ _ _ H) as (_ & Hst & _ & Hc). split; [done|].
  destruct Hc as [Hc|((w & Hw' & Hv) & pem & Hp & Hk & Ht & Hr)]; [by left|]. right. split_and!; [done|done|].
  rewrite Hw in Hw'. injection Hw' as <-.
  intros f' k. rewrite Hk, Hw. rewrite (wallet_pem_key s key Hw) in Hp.
  by rewrite (load_pem f' k _ pem key (pem_roundtrip key pem Hp) He Hv).
Qed.

(** C30: an encrypted wallet survives a restart. After a save under a PIN that
    ran to its end, a start finds the file, leaves it as it is and waits for a
    PIN; unlocking with that PIN restores the wallet. The stream keeps all it
    is given, the envelope is not by accident a readable PEM file, and OpenSSL
    does what its documentation says. *)
Theorem encrypted_wallet_roundtrip {ssl : OpenSSL} {wssl : WalletSSL} {laws : WalletLaws} {Ev : Type}
    io pin s key pem data f k :
  stored_wallet s = Some (mkKeyPair (Some key) (Some key)) ->
  wallet_valid (mkKeyPair (Some key) (Some key)) = Ok true -> is_ed25519 key = true ->
  PEM_write_PrivateKey key = Some pem -> sizeZ pem <= INT_MAX ->
  sized_io io -> envelope io pin pem = Ok data -> enc_stream io = SaveDone -> PEM_read_PrivateKey data = None ->
  exists s1, save_encrypted no_wallet_faults io pin s = (Ok tt, s1, ([] : list Ev)) /\ key_file s1 = Some data /\
    let s2 := mkStore None (Some data) None (key_in_dir s1) in
    load_or_defer load_fine f k s2 = (Ok tt, s2, ([] : list Ev)) /\
    unlock_with_pin ReadFine true pin s2 = (Ok tt, set_stored_wallet (stored_wallet s) s2, ([] : list Ev)).
Proof.
  intros Hw Hv Hed Hp Hs Hio He Hd Hn. eexists. split.
  { apply (save_encrypted_run io pin s key pem data); try done. by rewrite Hd. }
  rewrite Hd. split; [done|]. cbv zeta. destruct (pem_dash key pem Hp) as [tl Etl]. split.
  - apply load_deferred; [done|]. rewrite (envelope_length io pin pem data Hio He), Etl. cbn. lia.
  - rewrite Hw. by apply (unlock_envelope io pin key pem data).
Qed.

(** An encrypted save can lose the key. Nothing checks the stream the
    envelope is written through: where the disk keeps at most its 44 bytes of
    header, the save still returns normally, the file that held the key is
    gone, and no PIN opens what replaced it. *)
Theorem encrypted_save_loses_key {ssl : OpenSSL} {wssl : WalletSSL} {laws : WalletLaws} {Ev : Type}
    io pin s key pem data n :
  stored_wallet s = Some (mkKeyPair (Some key) (Some key)) ->
  wallet_valid (mkKeyPair (Some key) (Some key)) = Ok true ->
  PEM_write_PrivateKey key = Some pem -> envelope io pin pem = Ok data -> enc_stream io = SaveCut n -> (n <= 44)%nat ->
  exists s1, save_encrypted no_wallet_faults io pin s = (Ok tt, s1, ([] : list Ev)) /\
    key_file s1 = Some (take n data) /\ key_tmp s1 = None /\
    forall fault bio pin', exists e, unlock_with_pin fault bio pin' s1 = (Throw e, s1, ([] : list Ev)).
Proof.
  intros Hw Hv Hp He Hc Hn. eexists. split.
  { apply (save_encrypted_run io pin s key pem data); try done. by rewrite Hc. }
  rewrite Hc. split_and!; [done|done|]. intros. eapply short_locked; [|reflexivity]. rewrite length_take. lia.
Qed.

(** A start never replaces a wallet. Whatever it meets, and whatever the
    file holds, a key file that exists is the same afterwards, and so is the
    temporary file. *)
Theorem existing_wallet_kept {ssl : OpenSSL} {wssl : WalletSSL} {Ev : Type} io f k s data r s' (ev : list Ev) :
  key_file s = Some data -> load_or_defer io f k s = (r, s', ev) ->
  key_file s' = Some data /\ key_tmp s' = key_tmp s.
Proof. intros Hk H. by apply (load_existing io f k s data) in H as (_ & ? & ? & _). Qed.

(** The test of [is_file_encrypted] looks at one byte of the salt: an envelope
    whose salt starts with a dash is taken for a plaintext key. *)
Lemma encrypted_taken_for_plaintext {ssl : OpenSSL} w rest t d :
  is_file_encrypted true (mkStore w (Some (u8 45 :: rest)) t d) = false.
Proof. unfold is_file_encrypted. cbn [key_file]. by rewrite andb_false_r. Qed.

(** ** Witnesses *)

Definition toy_key : bytes := hash_bytes (sample_hash 9).
Definition toy_store : WalletStore (ssl := Toy.ssl) :=
  mkStore (Some (mkKeyPair (ssl := Toy.ssl) (Some toy_key) (Some toy_key))) (Some (str "old")) None true.
Definition toy_encrypt (io : SaveIO) : EncryptIO := mkEncryptIO (Some (replicate 16 Byte.x07)) (Some (replicate 12 Byte.x00)) true io.
Lemma toy_valid : wallet_valid (ssl := Toy.ssl) (mkKeyPair (ssl := Toy.ssl) (Some toy_key) (Some toy_key)) = Ok true.
Proof. vm_compute. reflexivity. Qed.
Definition toy_envelope : bytes := Eval vm_compute in
  match envelope (wssl := ToyWallet.wssl) (toy_encrypt SaveDone) (str "1234") (u8 45 :: toy_key) with Ok d => d | Throw _ => [] end.
Lemma toy_sized io : sized_io (toy_encrypt io).
Proof. by split; intros ? [= <-]. Qed.

(** A save that reaches its end and one whose rename fails. *)
Lemma wallet_save_atomic_witness :
  let f := mkWalletFaults false false false false [] false false false true false in
  key_file (wallet_save (ssl := Toy.ssl) (wssl := ToyWallet.wssl) (Ev := unit) f toy_store).1.2 = Some (str "old").
Proof.
  cbv zeta. set (f := mkWalletFaults _ _ _ _ _ _ _ _ _ _).
  assert ((wallet_save (ssl := Toy.ssl) (wssl := ToyWallet.wssl) (Ev := unit) f toy_store).1.1
    = Throw "failed to atomically replace wallet key: ") as Hf by (vm_compute; reflexivity).
  destruct (wallet_save (ssl := Toy.ssl) (wssl := ToyWallet.wssl) (Ev := unit) f toy_store) as [[r s'] ev] eqn:E.
  destruct (wallet_save_atomic (laws := ToyWallet.laws) f toy_store toy_key r s' ev eq_refl eq_refl E) as [_ [[H _]|[Hr _]]].
  - exact H.
  - cbn in Hf. subst r. destruct Hr as [Hr|Hr]; discriminate Hr.
Defined.

Lemma encrypted_wallet_roundtrip_witness :
  exists s1, save_encrypted (ssl := Toy.ssl) (wssl := ToyWallet.wssl) (Ev := unit) no_wallet_faults (toy_encrypt SaveDone)
      (str "1234") toy_store = (Ok tt, s1, []) /\ key_file s1 = Some toy_envelope.
Proof.
  destruct (encrypted_wallet_roundtrip (wssl := ToyWallet.wssl) (laws := ToyWallet.laws) (Ev := unit) (toy_encrypt SaveDone)
    (str "1234") toy_store toy_key (u8 45 :: toy_key) toy_envelope no_wallet_faults KeygenFails) as (s1 & E & H & _).
  - reflexivity.
  - exact toy_valid.
  - reflexivity.
  - reflexivity.
  - vm_compute. discriminate.
  - apply toy_sized.
  - vm_compute. reflexivity.
  - reflexivity.
  - vm_compute. reflexivity.
  - exists s1. split; [exact E|exact H].
Defined.

Lemma encrypted_save_loses_key_witness :
  exists s1, save_encrypted (ssl := Toy.ssl) (wssl := ToyWallet.wssl) (Ev := unit) no_wallet_faults (toy_encrypt (SaveCut 0))
      (str "1234") toy_store = (Ok tt, s1, []) /\ key_file s1 = Some [].
Proof.
  destruct (encrypted_save_loses_key (wssl := ToyWallet.wssl) (laws := ToyWallet.laws) (Ev := unit) (toy_encrypt (SaveCut 0))
    (str "1234") toy_store toy_key (u8 45 :: toy_key) toy_envelope 0) as (s1 & E & H & _).
  - reflexivity.
  - exact toy_valid.
  - reflexivity.
  - vm_compute. reflexivity.
  - reflexivity.
  - lia.
  - exists s1. split; [exact E|exact H].
Defined.

Lemma existing_wallet_kept_witness :
  let s := mkStore None (Some (str "garbage")) None true in
  key_file (load_or_defer (ssl := Toy.ssl) (wssl := ToyWallet.wssl) (Ev := unit) load_fine no_wallet_faults KeygenFails s).1.2
  = Some (str "garbage").
Proof.
  cbv zeta. set (s := mkStore _ _ _ _).
  destruct (load_or_defer (ssl := Toy.ssl) (wssl := ToyWallet.wssl) (Ev := unit) load_fine no_wallet_faults KeygenFails s)
    as [[r s'] ev] eqn:E.
  exact (proj1 (existing_wallet_kept _ _ _ s (str "garbage") r s' ev eq_refl E)).
Defined.
