(* ===== verification/Pool.v ===== *)
(** The pool of http_rpc.hpp: the handlers that register workers, hand out
    jobs, credit shares and pay. A handler takes and releases [g_pool_mutex]
    several times; what other threads do between two locked sections is a
    function of the environment, so a statement about a handler holds for any
    interleaving of it. *)

From S2P Require Import Prelude Serialization Crypto Transaction UTXO Ownership Coinbase.
From S2P Require Import Consensus Block Mempool BlockBuilder Storage Node Text Double PoolState Wallet.
From Stdlib Require Import Floats.SpecFloat.
From stdpp Require Import options.
Local Open Scope Z_scope.

(** An HTTP answer. *)
Record Response := mkResponse { status : Z; body : bytes }.
Definition ok_response (text : bytes) : Response := mkResponse 200 text.

(** [WalletUtxo], and the order in which the map of them is visited. *)
Record WalletUtxo := mkWalletUtxo {
  utxo_txid : Hash256;
  utxo_index : Z;
  utxo_amount : Z
}.
Class UtxoOrder := {
  utxo_iteration : gmap OutPoint WalletUtxo -> list (OutPoint * WalletUtxo);
  utxo_iteration_perm m : utxo_iteration m ≡ₚ map_to_list m
}.

Section Pool.
Context {ssl : OpenSSL} {iter : UnorderedMap} {order : UtxoOrder}.

(** The server's state that the pool uses. *)
Record HttpRpcServer := mkServer {
  server_node : CaesarNode;
  server_pool : PoolState;
  server_wallet : option PersistentWallet;
  unlocked_ : bool;
  session_token_ : bytes
}.
Abbreviation http_op := (op HttpRpcServer Event).

Definition set_server_node (n : CaesarNode) (s : HttpRpcServer) : HttpRpcServer :=
  mkServer n (server_pool s) (server_wallet s) (unlocked_ s) (session_token_ s).
Definition set_pool (p : PoolState) (s : HttpRpcServer) : HttpRpcServer :=
  mkServer (server_node s) p (server_wallet s) (unlocked_ s) (session_token_ s).

(** A call into the node. *)
Definition on_node {A} (m : node_op A) : http_op A := fun s =>
  let '(r, n, ev) := m (server_node s) in (r, set_server_node n s, ev).
(** A section under [g_pool_mutex]. *)
Definition on_pool (f : PoolState -> PoolState) : http_op unit :=
  update (fun s => set_pool (f (server_pool s)) s).
Definition locked {A} (f : PoolState -> A * PoolState) : http_op A := fun s =>
  let '(a, p) := f (server_pool s) in (Ok a, set_pool p s, []).

(** ** Workers *)

Definition set_worker_name (name : bytes) (w : PoolWorkerInfo) : PoolWorkerInfo :=
  mkWorker (worker_address w) name (shares w) (shares_pending w) (last_seen w) (hashes_reported w)
    (hashrate_tick_ms w) (hashrate w).
Definition set_worker_address (a : bytes) (w : PoolWorkerInfo) : PoolWorkerInfo :=
  mkWorker a (worker_name w) (shares w) (shares_pending w) (last_seen w) (hashes_reported w)
    (hashrate_tick_ms w) (hashrate w).
Definition set_last_seen (t : Z) (w : PoolWorkerInfo) : PoolWorkerInfo :=
  mkWorker (worker_address w) (worker_name w) (shares w) (shares_pending w) t (hashes_reported w)
    (hashrate_tick_ms w) (hashrate w).
Definition set_pending (n : Z) (w : PoolWorkerInfo) : PoolWorkerInfo :=
  mkWorker (worker_address w) (worker_name w) (shares w) n (last_seen w) (hashes_reported w)
    (hashrate_tick_ms w) (hashrate w).
(** [shares++; shares_pending++; last_seen = now]. *)
Definition add_share (now : Z) (w : PoolWorkerInfo) : PoolWorkerInfo :=
  mkWorker (worker_address w) (worker_name w) (u64 (shares w + 1)) (u64 (shares_pending w + 1)) (u64 now)
    (hashes_reported w) (hashrate_tick_ms w) (hashrate w).

(** [auto& w = g_pool_workers[addr]; w = f(w)]: the index makes a worker. *)
Definition at_worker (addr : bytes) (f : PoolWorkerInfo -> PoolWorkerInfo) (p : PoolState) : PoolState :=
  set_workers (<[addr := f (default new_worker (g_pool_workers p !! addr))]> (g_pool_workers p)) p.

(** POST /api/pool/register; the clock is read twice. *)
Definition register_worker (now now' : Z) (io : SaveIO) (addr name : bytes) (p : PoolState) : PoolState :=
  let p := load_once p in
  let p := if g_pool_first_seen_unix p =? 0 then set_first_seen_unix (u64 now) p else p in
  let p := set_all_users ({[addr]} ∪ g_pool_all_users p) p in
  let p := at_worker addr (fun w =>
             let w := set_worker_address addr w in
             let w := if bool_decide (name = []) then w else set_worker_name name w in
             set_last_seen (u64 now') w) p in
  pool_save_state_unlocked io p.
Definition pool_register (now now' : Z) (io : SaveIO) (req : bytes) : http_op Response :=
  let addr := json_string req "address" in
  let name := json_string req "worker" in
  if bool_decide (addr = []) then
    mret (mkResponse 400 (json "{'ok':false,'error':'address required'}"))
  else
    _ ← on_pool (register_worker now now' io addr name);
    mret (ok_response (json "{'ok':true,'address':'" ++ addr ++ json "'}")).

(** The telemetry a worker sends. *)
Definition measured (hashes now_ms now : Z) (w : PoolWorkerInfo) : PoolWorkerInfo :=
  let rate :=
    if negb (hashrate_tick_ms w =? 0) && (hashrate_tick_ms w <? now_ms) && (hashes_reported w <=? hashes) then
      double_div (double_mul (double_of_u64 (hashes - hashes_reported w)) (double_of_u64 1000))
        (double_of_u64 (now_ms - hashrate_tick_ms w))
    else S754_zero false in
  mkWorker (worker_address w) (worker_name w) (shares w) (shares_pending w) (u64 now) hashes now_ms rate.
(** POST /api/pool/telemetry. *)
Definition pool_telemetry (now_ms now : Z) (req : bytes) : http_op Response :=
  let addr := json_string req "address" in
  match find_str ([quote] ++ str "hashes" ++ [quote]) req with
  | None => mret (mkResponse 400 (json "{'ok':false,'error':'address and hashes required'}"))
  | Some hp =>
      if bool_decide (addr = []) then
        mret (mkResponse 400 (json "{'ok':false,'error':'address and hashes required'}"))
      else
        let invalid := mkResponse 400 (json "{'ok':false,'error':'invalid hashes'}") in
        match (colon ← find_str_from (str ":") req hp; find_first_from is_digit req colon) with
        | None => mret invalid
        | Some first =>
            match stoull (take_while is_digit (drop first req)) with
            | Throw _ => mret invalid
            | Ok hashes =>
                locked (fun p =>
                  match g_pool_workers p !! addr with
                  | None => (mkResponse 404 (json "{'ok':false,'error':'worker not registered'}"), p)
                  | Some w =>
                      (ok_response (json "{'ok':true}"),
                       set_workers (<[addr := measured hashes now_ms now w]> (g_pool_workers p)) p)
                  end)
            end
        end
  end.

(** ** Jobs *)

(** The first worker of that address is seen. *)
Definition heartbeat (now : Z) (addr : bytes) (p : PoolState) : PoolState :=
  match list_find (fun kv => worker_address kv.2 = addr) (in_order (g_pool_workers p)) with
  | Some (_, (k, w)) => set_workers (<[k := set_last_seen (u64 now) w]> (g_pool_workers p)) p
  | None => p
  end.

Definition emit_current_job (job : PoolJobState) : Response :=
  ok_response
    (json "{'ok':true,'job_id':" ++ dec_str (job_id job) ++ json ",'header_hex':'" ++ header_hex job
     ++ json "','share_difficulty':" ++ dec_str (share_difficulty job)
     ++ json ",'block_difficulty':" ++ dec_str (block_difficulty job)
     ++ json ",'height':" ++ dec_str (job_height job) ++ json "}").

(** A job for the block after [h]. *)
Definition job_current (h : Z) (job : PoolJobState) : bool := active job && (job_height job =? u64 (h + 1)).

Definition my_address (w : option PersistentWallet) : bytes :=
  match w with
  | None => []
  | Some w => match persistent_address w with Ok a => a | Throw _ => [] end
  end.

Definition pool_share_difficulty (d : Z) : Z := if 8 <? d then d - 8 else 1.

(** [++g_pool_job_counter] and the fields of the new job. *)
Definition publish_job (c : Block) (to : bytes) (p : PoolState) : PoolState :=
  let p := set_job_counter (u64 (g_pool_job_counter p + 1)) p in
  set_current_job
    (mkJob true (g_pool_job_counter p) (pool_bytes_to_hex (pow_header c))
       (pool_share_difficulty (difficulty (header c))) (difficulty (header c)) (height (header c)) c to) p.

(** What one attempt at a job meets: the outcomes of the try-locks of
    [height()], the clock, and the other threads between the sections. *)
Record JobAttempt := mkAttempt {
  at_first_lock : bool;
  at_checked : HttpRpcServer -> HttpRpcServer;
  at_chain_read : HttpRpcServer -> HttpRpcServer;
  at_time : Z;
  at_built : HttpRpcServer -> HttpRpcServer;
  at_second_lock : bool;
  at_publishing : HttpRpcServer -> HttpRpcServer
}.

(** [node_.build_pool_candidate], with the section between its two locks. *)
Definition pool_candidate (a : JobAttempt) (to : bytes) : http_op Block :=
  chain ← on_node (pool_chain_snapshot to);
  _ ← update (at_chain_read a);
  on_node (pool_candidate_on to (at_time a) chain).

Definition published (latest build : Z) (c : Block) (to : bytes) (p : PoolState)
    : option Response * PoolState :=
  if job_current latest (g_pool_current_job p) then (Some (emit_current_job (g_pool_current_job p)), p)
  else if negb (latest =? build) then (None, p)
  else
    let p := publish_job c to p in
    (Some (emit_current_job (g_pool_current_job p)), p).

(** The loop of attempts; the last one answers instead of trying again. *)
Fixpoint job_attempts (attempts : list JobAttempt) : http_op Response :=
  match attempts with
  | [] => mret (mkResponse 409 (json "{'ok':false,'error':'unable to publish stable pool job'}"))
  | a :: attempts =>
      let again refusal := if bool_decide (attempts = []) then mret (mkResponse 409 refusal) else job_attempts attempts in
      build_height ← on_node (node_height (at_first_lock a));
      asking (fun s =>
        if job_current build_height (g_pool_current_job (server_pool s)) then
          mret (emit_current_job (g_pool_current_job (server_pool s)))
        else
          _ ← update (at_checked a);
          asking (fun s =>
            let to := my_address (server_wallet s) in
            let to := if bool_decide (to = []) then str "CAESAR_POOL_COINBASE" else to in
            c ← catching (b ← pool_candidate a to; mret (inr b)) (fun e => mret (inl e));
            match c with
            | inl e => mret (mkResponse 500 (json "{'error':'" ++ str e ++ json "'}"))
            | inr c =>
                _ ← update (at_built a);
                latest_height ← on_node (node_height (at_second_lock a));
                if negb (height (header c) =? u64 (latest_height + 1)) then
                  again (json "{'ok':false,'error':'chain advanced while building job'}")
                else
                  _ ← update (at_publishing a);
                  r ← locked (published latest_height build_height c to);
                  match r with
                  | Some r => mret r
                  | None => again (json "{'ok':false,'error':'chain changed before job publish'}")
                  end
            end))
  end.

(** GET /api/pool/job: [max_attempts] is 2. *)
Definition pool_job (now : Z) (lock0 : bool) (meanwhile : HttpRpcServer -> HttpRpcServer)
    (first second : JobAttempt) (addr : bytes) : http_op Response :=
  _ ← (if bool_decide (addr = []) then mret tt else on_pool (heartbeat now addr));
  initial_height ← on_node (node_height lock0);
  asking (fun s =>
    if job_current initial_height (g_pool_current_job (server_pool s)) then
      mret (emit_current_job (g_pool_current_job (server_pool s)))
    else
      _ ← update meanwhile;
      job_attempts [first; second]).

(** ** Shares *)

Inductive Credit := Stale | Duplicate | Credited.
#[global] Instance Credit_eq_dec : EqDecision Credit.
Proof. solve_decision. Defined.

(** The static set of the shares seen on the current job. *)
Definition dup_key (addr : bytes) (nonce : Z) : bytes := addr ++ str ":" ++ dec_str nonce.
Definition dup_reset (id : Z) (p : PoolState) : PoolState :=
  if negb (dup_seen_job p =? id) then set_dup_seen_job id (set_dup_seen ∅ p) else p.

(** One share in four is also counted for the owner of the pool. *)
Definition owner_share (owner addr : bytes) (now : Z) (p : PoolState) : PoolState :=
  if bool_decide (owner = []) || bool_decide (addr = owner) then p
  else
    let p := set_owner_share_accum (u64 (g_pool_owner_share_accum p + 1)) p in
    if 4 <=? g_pool_owner_share_accum p then
      let p := at_worker owner (fun w =>
                 let w := set_worker_address owner w in
                 let w := if bool_decide (worker_name w = []) then set_worker_name (str "pool-owner") w else w in
                 add_share now w) p in
      set_owner_share_accum 0 p
    else p.

(** The share itself. *)
Definition worker_share (addr : bytes) (now : Z) (p : PoolState) : PoolState :=
  let p := at_worker addr (fun w =>
             let w := if bool_decide (worker_address w = []) then set_worker_address addr w else w in
             let w := if bool_decide (worker_name w = []) then set_worker_name (str "worker") w else w in
             add_share now w) p in
  set_total_shares (u64 (g_pool_total_shares p + 1)) p.

(** The locked section that credits a share of job [id]. *)
Definition credit_share (owner addr : bytes) (id nonce now now' : Z) (p : PoolState) : Credit * PoolState :=
  if negb (active (g_pool_current_job p)) || negb (job_id (g_pool_current_job p) =? id) then (Stale, p)
  else
    let p := dup_reset id p in
    if bool_decide (dup_key addr nonce ∈ dup_seen p) then (Duplicate, p)
    else
      let p := set_dup_seen ({[dup_key addr nonce]} ∪ dup_seen p) p in
      (Credited, owner_share owner addr now' (worker_share addr now p)).

(** [if (g_pool_current_job.job_id == current_job_id)] after the node took the block. *)
Definition count_block (id : Z) (p : PoolState) : bool * PoolState :=
  let job := g_pool_current_job p in
  if job_id job =? id then
    (true,
     set_current_job
       (mkJob false (job_id job) (header_hex job) (share_difficulty job) (block_difficulty job) (job_height job)
          (candidate job) (miner_address job))
       (set_total_blocks (u64 (g_pool_total_blocks p + 1)) p))
  else (false, p).

(** What a submission meets. *)
Record Submission := mkSubmission {
  sub_hashing : HttpRpcServer -> HttpRpcServer; (* while the hash is computed *)
  sub_now : Z;
  sub_now' : Z;
  sub_credited : HttpRpcServer -> HttpRpcServer;
  sub_faults : Faults;
  sub_relay : bool;
  sub_submitted : HttpRpcServer -> HttpRpcServer;
  sub_finished : HttpRpcServer -> HttpRpcServer;
  sub_save : SaveIO
}.

Definition stale_response : Response := ok_response (json "{'ok':false,'stale':true}").
Definition flag_text (b : bool) : bytes := if b then str "true" else str "false".
Definition submit_response (credited is_block block_added : bool) : Response :=
  ok_response (json "{'ok':true,'credited':" ++ flag_text credited ++ json ",'is_block':" ++ flag_text is_block
               ++ json ",'block_added':" ++ flag_text block_added ++ json "}").

(** The block given to the node; whatever it throws is only logged. *)
Definition submit_block (e : Submission) (id : Z) (solved : Block) : http_op bool :=
  catching
    (ok ← on_node (submit_pool_solution (sub_faults e) (sub_relay e) solved);
     if (ok : bool) then _ ← update (sub_submitted e); locked (count_block id) else mret false)
    (fun _ => mret false).

(** What follows the share: the block, the file, the answer. *)
Definition submit_finish (e : Submission) (id : Z) (solved : Block) (credited is_block : bool) : http_op Response :=
  block_added ← (if is_block then _ ← update (sub_credited e); submit_block e id solved else mret false);
  _ ← update (sub_finished e);
  _ ← (if credited || block_added then on_pool (pool_save_state_unlocked (sub_save e)) else mret tt);
  mret (submit_response credited is_block block_added).

(** POST /api/pool/submit. *)
Definition pool_submit (e : Submission) (req : bytes) : http_op Response :=
  let addr := json_string req "address" in
  let id := json_u64 req "job_id" in
  let nonce := json_u64 req "nonce" in
  if bool_decide (addr = []) then mret (mkResponse 400 (json "{'ok':false,'error':'address required'}"))
  else if negb (starts_with (str "CZ") addr) then
    mret (mkResponse 400 (json "{'ok':false,'error':'valid address required'}"))
  else
    asking (fun s =>
      let job := g_pool_current_job (server_pool s) in
      if negb (active job) || negb (job_id job =? id) then mret stale_response
      else if bool_decide (header_hex job = []) then
        mret (ok_response (json "{'ok':false,'error':'empty job header'}"))
      else if block_difficulty job =? 0 then
        mret (ok_response (json "{'ok':false,'error':'invalid block difficulty'}"))
      else
        let solved := with_nonce (candidate job) nonce in
        let h := calculate_pow_hash (pool_hex_to_bytes (header_hex job)) nonce in
        let is_block := pow_meets_difficulty h (block_difficulty job) in
        _ ← update (sub_hashing e);
        if pow_meets_difficulty h (share_difficulty job) then
          asking (fun s =>
            c ← locked (credit_share (my_address (server_wallet s)) addr (job_id job) nonce (sub_now e) (sub_now' e));
            match c with
            | Stale => mret stale_response
            | Duplicate => mret (ok_response (json "{'ok':true,'credited':false,'duplicate':true}"))
            | Credited => submit_finish e (job_id job) solved true is_block
            end)
        else submit_finish e (job_id job) solved false is_block).

(** ** Payouts *)

(** [process] of [collect_my_utxos], on the two containers it fills. *)
Definition mine_outputs (addr : bytes) (id : Hash256) (outs : list TransactionOutput)
    (unspent : gmap OutPoint WalletUtxo) : gmap OutPoint WalletUtxo :=
  foldl (fun m '(i, o) =>
           if bool_decide (recipient o = addr) then
             let index := u32 (Z.of_nat i) in
             <[mkOutPoint id index := mkWalletUtxo id index (amount o)]> m
           else m)
    unspent (imap (fun i o => (i, o)) outs).
Definition process_tx (addr : bytes) (acc : gset OutPoint * gmap OutPoint WalletUtxo) (tx : Transaction)
    : result (gset OutPoint * gmap OutPoint WalletUtxo) :=
  let '(spent, unspent) := acc in
  let spent := foldl (fun s i => {[point i]} ∪ s) spent (inputs tx) in
  id ← txid tx;
  Ok (spent, mine_outputs addr id (outputs tx) unspent).

Definition my_utxos (addr : bytes) (txs : list Transaction) : result (list WalletUtxo) :=
  '(spent, unspent) ← foldM_r (process_tx addr) (∅, ∅) txs;
  Ok (List.filter (fun e => negb (bool_decide (e.1 ∈ spent))) (utxo_iteration unspent)).*2.

(** The chain and the pool of the node are read one after the other. *)
Definition collect_my_utxos (meanwhile : HttpRpcServer -> HttpRpcServer) : http_op (list WalletUtxo) :=
  asking (fun s =>
    let addr := my_address (server_wallet s) in
    if bool_decide (addr = []) then mret []
    else
      chain ← on_node get_chain;
      _ ← update meanwhile;
      pending ← on_node mempool_transactions;
      reading (fun _ => my_utxos addr (mjoin (transactions <$> chain) ++ pending))).

(** The workers with something pending, in the order of the map. *)
Definition payout_snapshot (p : PoolState) : list (bytes * Z) :=
  List.filter (fun s => 0 <? s.2) ((fun kv => (kv.1, shares_pending kv.2)) <$> in_order (g_pool_workers p)).
(** [total += x] over a vector. *)
Definition sum_u64 (l : list Z) : Z := foldl (fun t x => u64 (t + x)) 0 l.

Definition pool_fee (wild : Z) (fee_percent : double) (distributable : Z) : Z :=
  let fee_frac := double_div fee_percent (double_of_u64 100) in
  default wild (u64_of_double (double_mul (double_of_u64 distributable) fee_frac)).

(** The outputs of the workers, and what they add up to. *)
Definition payout_amount (worker_pool total_pending share : Z) : Z := u64 (worker_pool * share) / total_pending.
Fixpoint payout_outputs (worker_pool total_pending : Z) (snap : list (bytes * Z)) : list TransactionOutput :=
  match snap with
  | [] => []
  | (addr, share) :: snap =>
      let a := payout_amount worker_pool total_pending share in
      if a =? 0 then payout_outputs worker_pool total_pending snap
      else mkOutput a addr :: payout_outputs worker_pool total_pending snap
  end.

(** The inputs: until they cover the outputs and 5000 more. *)
Fixpoint gather (assigned : Z) (utxos : list WalletUtxo) (gathered : Z) : list TransactionInput * Z :=
  match utxos with
  | [] => ([], gathered)
  | u :: utxos =>
      let input := mkInput (utxo_txid u) (utxo_index u) in
      let gathered := u64 (gathered + utxo_amount u) in
      if u64 (assigned + 5000) <=? gathered then ([input], gathered)
      else let '(ins, g) := gather assigned utxos gathered in (input :: ins, g)
  end.

(** The loop that signs input [i] of [n] and appends its witness. *)
Fixpoint sign_inputs (w : PersistentWallet) (pk : bytes) (n i : nat) (tx : Transaction) : result Transaction :=
  match n with
  | O => Ok tx
  | S n =>
      key ← persistent_private_key w;
      sig ← sign_transaction_input tx i key;
      sign_inputs w pk n (S i)
        (mkTx (tx_version tx) (coinbase_data tx) (inputs tx) (outputs tx)
           (mkWitnessSet (witness_inputs (witness tx) ++ [mkWitness pk sig])))
  end.

Definition payout_settle (snap : list (bytes * Z)) (p : PoolState) : PoolState :=
  foldl (fun p item =>
    match g_pool_workers p !! item.1 with
    | None => p
    | Some w =>
        if item.2 <=? shares_pending w then
          set_workers (<[item.1 := set_pending (shares_pending w - item.2) w]> (g_pool_workers p)) p
        else p
    end) p snap.

(** What a payout meets; [pay_wild] is the result of a cast the language
    leaves undefined. *)
Record PayoutEnv := mkPayoutEnv {
  pay_snapped : HttpRpcServer -> HttpRpcServer;
  pay_chain_read : HttpRpcServer -> HttpRpcServer;
  pay_collected : HttpRpcServer -> HttpRpcServer;
  pay_wild : Z;
  pay_relay : bool;
  pay_submitted : HttpRpcServer -> HttpRpcServer;
  pay_lock : bool;
  pay_settling : HttpRpcServer -> HttpRpcServer;
  pay_time : Z;
  pay_save : SaveIO
}.

(** The transaction a payout makes, up to its signatures. *)
Definition payout_tx (outs : list TransactionOutput) (ins : list TransactionInput) (gathered assigned : Z)
    (pool_addr : bytes) : Transaction :=
  mkTx 1 [] ins (if assigned <? gathered then outs ++ [mkOutput (u64 (gathered - assigned)) pool_addr] else outs)
    (mkWitnessSet []).

Definition record_payout (e : PayoutEnv) (h : Z) (id : bytes) (assigned fee : Z) (n : Z) (snap : list (bytes * Z))
    (p : PoolState) : PoolState :=
  let p := set_payouts (g_pool_payouts p ++ [mkPayout (u64 (pay_time e)) h id assigned fee n]) p in
  pool_save_state_unlocked (pay_save e) (payout_settle snap p).

(** The body of the [try] block. *)
Definition payout_body (e : PayoutEnv) (snap : list (bytes * Z)) (total_pending : Z) : http_op PoolPayoutResult :=
  asking (fun s =>
    match server_wallet s with
    | None => mret (PayoutError "wallet unavailable")
    | Some w =>
        pool_addr ← reading (fun _ => persistent_address w);
        if bool_decide (pool_addr = []) then mret (PayoutError "pool address unavailable")
        else
          utxos ← collect_my_utxos (pay_chain_read e);
          let total_utxo := sum_u64 (utxo_amount <$> utxos) in
          if total_utxo <? 10000 then mret (PayoutError "pool balance too small")
          else
            _ ← update (pay_collected e);
            asking (fun s =>
              let distributable := total_utxo - 1000 in
              let fee := pool_fee (pay_wild e) (g_pool_fee_percent (server_pool s)) distributable in
              let worker_pool := u64 (distributable - fee) in
              let outs := payout_outputs worker_pool total_pending snap in
              let assigned := sum_u64 (amount <$> outs) in
              if bool_decide (outs = []) then mret (PayoutError "no outputs above dust")
              else
                let '(ins, gathered) := gather assigned utxos 0 in
                if gathered <? assigned then mret (PayoutError "insufficient utxos")
                else
                  pk ← reading (fun _ => persistent_public_key w);
                  tx ← reading (fun _ =>
                         sign_inputs w pk (length ins) 0 (payout_tx outs ins gathered assigned pool_addr));
                  ok ← on_node (submit_transaction (pay_relay e) tx);
                  if negb ok then mret (PayoutError "mempool rejected")
                  else
                    id ← reading (fun _ => hash_to_hex <$> txid tx);
                    _ ← update (pay_submitted e);
                    h ← on_node (node_height (pay_lock e));
                    _ ← update (pay_settling e);
                    _ ← on_pool (record_payout e h id assigned fee (sizeZ outs) snap);
                    mret (PayoutOk id assigned fee (sizeZ outs)))
    end).

(** Under [payout_execution_mutex_]: one payout at a time. *)
Definition pool_execute_payout (e : PayoutEnv) : http_op PoolPayoutResult :=
  asking (fun s =>
    let snap := payout_snapshot (server_pool s) in
    let total_pending := sum_u64 snap.*2 in
    if total_pending =? 0 then mret (PayoutError "no pending shares")
    else
      _ ← update (pay_snapped e);
      catching (payout_body e snap total_pending) (fun err => mret (PayoutError err))).

Definition pool_maybe_auto_payout (lock0 : bool) (e : PayoutEnv) (before after : HttpRpcServer -> HttpRpcServer)
    (io : SaveIO) : http_op unit :=
  asking (fun s =>
    if negb (g_pool_auto_enabled (server_pool s)) then mret tt
    else
      h ← catching (h ← on_node (node_height lock0); mret (Some h)) (fun _ => mret None);
      match h with
      | None => mret tt
      | Some h =>
          asking (fun s =>
            let p := server_pool s in
            if g_pool_auto_blocks p =? 0 then mret tt
            else if h <? u64 (g_pool_last_payout_height p + g_pool_auto_blocks p) then mret tt
            else if sum_u64 ((fun kv => shares_pending kv.2) <$> in_order (g_pool_workers p)) =? 0 then mret tt
            else
              _ ← update before;
              r ← pool_execute_payout e;
              match r with
              | PayoutError _ => mret tt
              | PayoutOk _ _ _ _ =>
                  _ ← update after;
                  on_pool (fun p => pool_save_state_unlocked io (set_last_payout_height h p))
              end)
      end).
End Pool.
