(* ===== verification/PoolFacts.v ===== *)
(** What the pool guarantees: the ledger of shares under any interleaving of
    its handlers, the jobs it hands out, the shares that requests to the submit
    handler earn, the arithmetic of a payout, and the file it is restored from. *)

From S2P Require Import Prelude Serialization Crypto Transaction UTXO Ownership Coinbase.
From S2P Require Import Consensus Block ChainValidator Mempool BlockBuilder Storage Node Text Double PoolState.
From S2P Require Import Wallet Pool.
From Stdlib Require Import Floats.SpecFloat.
From stdpp Require Import options.
Local Open Scope Z_scope.

(** ** Workers *)

Definition worker_of (p : PoolState) (a : bytes) : PoolWorkerInfo := default new_worker (g_pool_workers p !! a).

Lemma at_worker_of addr f p a :
  worker_of (at_worker addr f p) a = if bool_decide (a = addr) then f (worker_of p a) else worker_of p a.
Proof.
  unfold worker_of, at_worker. destruct p; simpl. case_bool_decide as E.
  - subst. by rewrite lookup_insert_eq.
  - by rewrite lookup_insert_ne.
Qed.

(** ** The steps of the pool *)

Definition snapshot : Type := list (bytes * Z).

(** What a step did to the ledger. *)
Inductive Entry :=
  | Quiet
  | Share (addr : bytes)
  | Paid (snap : snapshot).

(** No counter of shares is past [b]; one step adds at most 2. *)
Definition counted (b : Z) (p : PoolState) : Prop :=
  g_pool_total_shares p <= b /\ forall a, shares (worker_of p a) <= b.
Definition room (p : PoolState) : Prop := exists b, b + 2 <= UINT64_MAX /\ counted b p.

(** ** Hexadecimal *)

Lemma pool_hex_byte b :
  let hi := pool_hex_val (hex_digit (Z.land (Z.shiftr (byteZ b) 4) 15)) in
  let lo := pool_hex_val (hex_digit (Z.land (byteZ b) 15)) in
  (hi <? 0) || (lo <? 0) = false /\ u8 (Z.lor (Z.shiftl hi 4) lo) = b.
Proof. by destruct b. Qed.

Lemma pool_hex_roundtrip bs : pool_hex_to_bytes (pool_bytes_to_hex bs) = bs.
Proof.
  induction bs as [|b bs IH]; [done|].
  change (pool_bytes_to_hex (b :: bs)) with (hex_digit (Z.land (Z.shiftr (byteZ b) 4) 15)
    :: hex_digit (Z.land (byteZ b) 15) :: pool_bytes_to_hex bs).
  cbn [pool_hex_to_bytes]. destruct (pool_hex_byte b) as [-> ->]. by rewrite IH.
Qed.

Section Ledger.
Context {ssl : OpenSSL} {iter : UnorderedMap} {order : UtxoOrder}.
Variable owner : bytes.

(** One locked section of any handler, once the state file has been read. The
    second component is the snapshot of the payout in progress, which
    [payout_execution_mutex_] makes the only one. *)
Inductive pool_step : PoolState * option snapshot -> Entry -> PoolState * option snapshot -> Prop :=
  | step_register now now' io addr name p o :
      g_pool_state_loaded p = true -> pool_step (p, o) Quiet (register_worker now now' io addr name p, o)
  | step_heartbeat now addr p o : pool_step (p, o) Quiet (heartbeat now addr p, o)
  | step_telemetry addr hashes now_ms now w p o :
      g_pool_workers p !! addr = Some w ->
      pool_step (p, o) Quiet (set_workers (<[addr := measured hashes now_ms now w]> (g_pool_workers p)) p, o)
  | step_job latest build c to p o : pool_step (p, o) Quiet ((published latest build c to p).2, o)
  | step_credit addr id nonce now now' p p' o :
      addr <> [] -> credit_share owner addr id nonce now now' p = (Credited, p') ->
      pool_step (p, o) (Share addr) (p', o)
  | step_refused addr id nonce now now' p c p' o :
      c <> Credited -> credit_share owner addr id nonce now now' p = (c, p') -> pool_step (p, o) Quiet (p', o)
  | step_block id p o : pool_step (p, o) Quiet ((count_block id p).2, o)
  | step_save io p o : pool_step (p, o) Quiet (pool_save_state_unlocked io p, o)
  | step_snapshot p : pool_step (p, None) Quiet (p, Some (payout_snapshot p))
  | step_abandon p snap : pool_step (p, Some snap) Quiet (p, None)
  | step_settle e h id assigned fee n p snap :
      pool_step (p, Some snap) (Paid snap) (record_payout e h id assigned fee n snap p, None).

Inductive pool_run : PoolState * option snapshot -> list Entry -> PoolState * option snapshot -> Prop :=
  | run_done s : pool_run s [] s
  | run_step s1 e s2 es s3 : pool_step s1 e s2 -> pool_run s2 es s3 -> pool_run s1 (e :: es) s3.

(** The job's fields belong to its candidate. *)
Definition job_wf (job : PoolJobState) : Prop :=
  active job = true ->
  pool_hex_to_bytes (header_hex job) = pow_header (candidate job) /\
  block_difficulty job = difficulty (header (candidate job)) /\
  share_difficulty job = pool_share_difficulty (block_difficulty job) /\
  job_height job = height (header (candidate job)).

Record pool_good (s : PoolState * option snapshot) : Prop := {
  pg_keys : map_Forall (fun k w => worker_address w = k) (g_pool_workers s.1);
  pg_counts : forall a, 0 <= shares_pending (worker_of s.1 a) <= shares (worker_of s.1 a);
  pg_total : 0 <= g_pool_total_shares s.1;
  pg_accum : 0 <= g_pool_owner_share_accum s.1 < 4;
  pg_job : job_wf (g_pool_current_job s.1);
  pg_snap : forall snap, s.2 = Some snap ->
    NoDup snap.*1 /\ Forall (fun '(a, n) => 0 < n <= shares_pending (worker_of s.1 a)) snap
}.

(** ** What an entry means *)

Definition is_share (addr : bytes) (e : Entry) : Z :=
  match e with Share a => if bool_decide (a = addr) then 1 else 0 | _ => 0 end.
Definition is_credit (e : Entry) : Z := match e with Share _ => 1 | _ => 0 end.
Definition settled_of (addr : bytes) (e : Entry) : Z :=
  match e with Paid snap => sumZ (fun s => if bool_decide (s.1 = addr) then s.2 else 0) snap | _ => 0 end.

(** The owner's bonus is a quarter of a share for each share of another. *)
Definition quarter_gain (e : Entry) : Z := is_credit e - is_share owner e.

Record ledger_step (p : PoolState) (e : Entry) (p' : PoolState) : Prop := {
  ls_total : g_pool_total_shares p' = g_pool_total_shares p + is_credit e;
  ls_shares : forall a, a <> owner -> shares (worker_of p' a) = shares (worker_of p a) + is_share a e;
  ls_pending : forall a, a <> owner ->
    shares_pending (worker_of p' a) = shares_pending (worker_of p a) + is_share a e - settled_of a e;
  ls_owner : 4 * shares (worker_of p' owner) + g_pool_owner_share_accum p' =
    4 * (shares (worker_of p owner) + is_share owner e) + g_pool_owner_share_accum p + quarter_gain e;
  ls_owner_pending : 4 * shares_pending (worker_of p' owner) + g_pool_owner_share_accum p' =
    4 * (shares_pending (worker_of p owner) + is_share owner e - settled_of owner e)
    + g_pool_owner_share_accum p + quarter_gain e
}.

(** ** Steps that leave the counts alone *)

Record untouched (p p' : PoolState) : Prop := {
  un_total : g_pool_total_shares p' = g_pool_total_shares p;
  un_accum : g_pool_owner_share_accum p' = g_pool_owner_share_accum p;
  un_shares : forall a, shares (worker_of p' a) = shares (worker_of p a);
  un_pending : forall a, shares_pending (worker_of p' a) = shares_pending (worker_of p a);
  un_keys : map_Forall (fun k w => worker_address w = k) (g_pool_workers p) ->
    map_Forall (fun k w => worker_address w = k) (g_pool_workers p');
  un_job : job_wf (g_pool_current_job p) -> job_wf (g_pool_current_job p')
}.

Lemma untouched_trans p1 p2 p3 : untouched p1 p2 -> untouched p2 p3 -> untouched p1 p3.
Proof. intros [? ? H1 H2 ? ?] [? ? H3 H4 ? ?]. split; [congruence..| | |auto|auto]; intros a; by rewrite ?H3, ?H4. Qed.

(** The same workers, counters and job. *)
Lemma untouched_same p p' :
  g_pool_workers p' = g_pool_workers p -> g_pool_total_shares p' = g_pool_total_shares p ->
  g_pool_owner_share_accum p' = g_pool_owner_share_accum p ->
  (job_wf (g_pool_current_job p) -> job_wf (g_pool_current_job p')) -> untouched p p'.
Proof. intros Hw Ht Ha Hj. split; try done; [intros a; unfold worker_of; by rewrite Hw..|by rewrite Hw]. Qed.

(** A change of one worker that keeps its counts and its address. *)
Lemma untouched_worker p a w :
  shares w = shares (worker_of p a) -> shares_pending w = shares_pending (worker_of p a) ->
  worker_address w = a \/ (exists w0, g_pool_workers p !! a = Some w0 /\ worker_address w = worker_address w0) ->
  untouched p (set_workers (<[a := w]> (g_pool_workers p)) p).
Proof.
  intros Hs Hp Ha. destruct p; cbn in *. split; cbn; try done; unfold worker_of in *; cbn in *.
  - intros b. destruct (decide (b = a)) as [->|]; [by rewrite lookup_insert_eq|by rewrite lookup_insert_ne].
  - intros b. destruct (decide (b = a)) as [->|]; [by rewrite lookup_insert_eq|by rewrite lookup_insert_ne].
  - intros Hk. apply map_Forall_insert_2; [|done]. destruct Ha as [Ha|(w0 & Hw0 & Ha)]; [done|].
    rewrite Ha. by apply (Hk a w0).
Qed.

Lemma untouched_good p p' o : untouched p p' -> pool_good (p, o) -> pool_good (p', o).
Proof.
  intros [Ht Ha Hs Hp Hk Hj] [Gk Gc Gt Ga Gj Gs]. split; simpl in *; rewrite ?Ht, ?Ha; auto.
  - intros a. rewrite Hs, Hp. apply Gc.
  - intros snap E. destruct (Gs snap E) as [Hn Hf]. split; [done|].
    eapply Forall_impl; [exact Hf|]. intros [a n]. by rewrite Hp.
Qed.
Lemma untouched_ledger p p' : untouched p p' -> ledger_step p Quiet p'.
Proof. intros [Ht Ha Hs Hp _ _]. split; intros; unfold quarter_gain, is_share, is_credit, settled_of; rewrite ?Ht, ?Ha, ?Hs, ?Hp; lia. Qed.

Lemma save_untouched io p : untouched p (pool_save_state_unlocked io p).
Proof. destruct io; [apply untouched_same|destruct p; apply untouched_same..]; done. Qed.

Lemma register_untouched now now' io addr name p :
  g_pool_state_loaded p = true -> untouched p (register_worker now now' io addr name p).
Proof.
  intros Hl. unfold register_worker. eapply untouched_trans; [|apply save_untouched].
  assert (load_once p = p) as -> by (unfold load_once; rewrite Hl; destruct p; cbn in *; by subst).
  set (p1 := if g_pool_first_seen_unix p =? 0 then _ else p). set (p2 := set_all_users _ p1).
  apply (untouched_trans _ p2); [unfold p2, p1; destruct p; case_match; by apply untouched_same|].
  apply untouched_worker; [by case_bool_decide..|]. left. by case_bool_decide.
Qed.

Lemma heartbeat_untouched now addr p : untouched p (heartbeat now addr p).
Proof.
  unfold heartbeat. destruct (list_find _ _) as [[i [k w]]|] eqn:E; [|by apply untouched_same].
  apply list_find_Some in E as (E & _ & _). apply list_elem_of_lookup_2, elem_of_in_order in E.
  apply untouched_worker; [by unfold worker_of; rewrite E..|]. right. eauto.
Qed.

Lemma telemetry_untouched addr hashes now_ms now w p :
  g_pool_workers p !! addr = Some w ->
  untouched p (set_workers (<[addr := measured hashes now_ms now w]> (g_pool_workers p)) p).
Proof. intros E. apply untouched_worker; [by unfold worker_of; rewrite E..|]. right. eauto. Qed.

Lemma published_untouched latest build c to p : untouched p (published latest build c to p).2.
Proof.
  unfold published. destruct (job_current _ _); [by apply untouched_same|].
  destruct (negb _); [by apply untouched_same|]. destruct p. cbn. apply untouched_same; [done..|].
  intros _ _. cbn. split_and!; [apply pool_hex_roundtrip|done..].
Qed.

Lemma count_block_untouched id p : untouched p (count_block id p).2.
Proof. unfold count_block. destruct (_ =? _); destruct p; by apply untouched_same. Qed.

(** ** Credits *)

Lemma room_worker p a : room p -> shares (worker_of p a) + 2 <= UINT64_MAX.
Proof. intros (b & Hb & _ & H). specialize (H a). lia. Qed.

Lemma add_share_counts now w :
  0 <= shares_pending w <= shares w -> shares w < UINT64_MAX ->
  shares (add_share now w) = shares w + 1 /\ shares_pending (add_share now w) = shares_pending w + 1.
Proof. intros. unfold add_share. cbn. rewrite !u64_small by ints. done. Qed.

(** A worker who gains one share. *)
Lemma at_worker_share addr f p :
  (forall w, shares (f w) = shares w + 1 /\ shares_pending (f w) = shares_pending w + 1 \/ w <> worker_of p addr) ->
  let p' := at_worker addr f p in
  g_pool_total_shares p' = g_pool_total_shares p /\ g_pool_owner_share_accum p' = g_pool_owner_share_accum p /\
  g_pool_current_job p' = g_pool_current_job p /\
  forall a, shares (worker_of p' a) = shares (worker_of p a) + (if bool_decide (addr = a) then 1 else 0) /\
    shares_pending (worker_of p' a) = shares_pending (worker_of p a) + (if bool_decide (addr = a) then 1 else 0).
Proof.
  intros Hf p'. split_and!; [by destruct p..|]. intros a. unfold p'. rewrite at_worker_of.
  destruct (decide (a = addr)) as [->|Hn].
  - rewrite !bool_decide_true by done. by destruct (Hf (worker_of p addr)).
  - rewrite !bool_decide_false by congruence. lia.
Qed.

(** The functions the code applies keep the address of a worker. *)
Lemma at_worker_keys addr f p :
  map_Forall (fun k w => worker_address w = k) (g_pool_workers p) ->
  worker_address (f (worker_of p addr)) = addr ->
  map_Forall (fun k w => worker_address w = k) (g_pool_workers (at_worker addr f p)).
Proof. intros Hk Ha. unfold at_worker. destruct p. cbn. by apply map_Forall_insert_2. Qed.

Lemma worker_share_spec addr now p o :
  pool_good (p, o) -> room p -> addr <> [] ->
  let p' := worker_share addr now p in
  g_pool_total_shares p' = g_pool_total_shares p + 1 /\ g_pool_owner_share_accum p' = g_pool_owner_share_accum p /\
  g_pool_current_job p' = g_pool_current_job p /\
  map_Forall (fun k w => worker_address w = k) (g_pool_workers p') /\
  forall a, shares (worker_of p' a) = shares (worker_of p a) + (if bool_decide (addr = a) then 1 else 0) /\
    shares_pending (worker_of p' a) = shares_pending (worker_of p a) + (if bool_decide (addr = a) then 1 else 0).
Proof.
  intros G Hr Hne p'. unfold p', worker_share. pose proof (room_worker p addr Hr). pose proof (pg_counts _ G addr) as Hc.
  set (f := fun w : PoolWorkerInfo => _). cbn in Hc.
  assert (forall w, shares (f w) = shares (add_share now w) /\ shares_pending (f w) = shares_pending (add_share now w)) as Hf.
  { intros w. unfold f. by do 2 case_bool_decide. }
  destruct (at_worker_share addr f p) as (Ht & Ha & Hj & Hw).
  { intros w. destruct (decide (w = worker_of p addr)) as [->|]; [left|by right].
    destruct (Hf (worker_of p addr)) as [-> ->]. apply add_share_counts; lia. }
  assert (map_Forall (fun k w => worker_address w = k) (g_pool_workers (at_worker addr f p))) as Hk.
  { apply at_worker_keys; [apply G|]. unfold f. pose proof (pg_keys _ G addr) as Hk. cbn in Hk.
    unfold worker_of. destruct (g_pool_workers p !! addr) as [w|] eqn:E; simpl.
    - specialize (Hk w eq_refl). rewrite (bool_decide_false (worker_address w = [])) by congruence. by case_bool_decide.
    - done. }
  destruct (at_worker addr f p) as [] eqn:Ep. cbn in *. rewrite u64_small by (destruct Hr as (b & Hb & Hc0 & _), G; cbn in *; ints).
  split_and!; try done. lia.
Qed.

Lemma owner_share_spec addr now p :
  owner <> [] -> addr <> [] -> map_Forall (fun k w => worker_address w = k) (g_pool_workers p) ->
  0 <= g_pool_owner_share_accum p < 4 ->
  0 <= shares_pending (worker_of p owner) <= shares (worker_of p owner) -> shares (worker_of p owner) < UINT64_MAX ->
  let p' := owner_share owner addr now p in
  g_pool_total_shares p' = g_pool_total_shares p /\ 0 <= g_pool_owner_share_accum p' < 4 /\
  g_pool_current_job p' = g_pool_current_job p /\
  map_Forall (fun k w => worker_address w = k) (g_pool_workers p') /\
  exists bonus, 0 <= bonus /\
    4 * bonus + g_pool_owner_share_accum p' = g_pool_owner_share_accum p + (if bool_decide (addr = owner) then 0 else 1) /\
    forall a, shares (worker_of p' a) = shares (worker_of p a) + (if bool_decide (owner = a) then bonus else 0) /\
      shares_pending (worker_of p' a) = shares_pending (worker_of p a) + (if bool_decide (owner = a) then bonus else 0).
Proof.
  intros Ho Hne Hk Hac Hc Hr p'. unfold p', owner_share. rewrite (bool_decide_false (owner = [])) by done. cbn [orb].
  destruct (bool_decide (addr = owner)).
  { split_and!; try done; try lia. exists 0. split_and!; try lia. intros a. destruct (bool_decide (owner = a)); lia. }
  set (q := set_owner_share_accum _ p).
  assert (g_pool_owner_share_accum q = g_pool_owner_share_accum p + 1) as Hq
    by (unfold q; destruct p; cbn in *; apply u64_small; ints).
  assert (worker_of q owner = worker_of p owner) as Hwo by (unfold q; by destruct p).
  assert (forall a, worker_of q a = worker_of p a) as Hwa by (intros; unfold q; by destruct p).
  destruct (4 <=? g_pool_owner_share_accum q) eqn:E4; zbool.
  - set (f := fun w : PoolWorkerInfo => _).
    assert (forall w, shares (f w) = shares (add_share now w) /\ shares_pending (f w) = shares_pending (add_share now w) /\
      worker_address (f w) = owner) as Hf by (intros w; unfold f; by case_bool_decide).
    destruct (at_worker_share owner f q) as (Ht & Ha & Hj & Hw).
    { intros w. destruct (decide (w = worker_of q owner)) as [->|]; [left|by right].
      destruct (Hf (worker_of q owner)) as (-> & -> & _). rewrite Hwo. apply add_share_counts; lia. }
    assert (map_Forall (fun k w => worker_address w = k) (g_pool_workers (at_worker owner f q))) as Hk'.
    { apply at_worker_keys; [unfold q; by destruct p|]. apply Hf. }
    split_and!.
    + transitivity (g_pool_total_shares (at_worker owner f q)); [by destruct (at_worker owner f q)|].
      rewrite Ht. unfold q. by destruct p.
    + destruct (at_worker owner f q). cbn. lia.
    + destruct (at_worker owner f q). cbn. lia.
    + transitivity (g_pool_current_job (at_worker owner f q)); [by destruct (at_worker owner f q)|].
      rewrite Hj. unfold q. by destruct p.
    + by destruct (at_worker owner f q).
    + exists 1. split; [lia|]. split; [destruct (at_worker owner f q); cbn; lia|].
      intros a. rewrite <- Hwa. specialize (Hw a). by destruct (at_worker owner f q).
  - split_and!; [unfold q; by destruct p|lia|lia|unfold q; by destruct p|unfold q; by destruct p|].
    exists 0. split_and!; try lia. intros a. rewrite Hwa. destruct (bool_decide (owner = a)); lia.
Qed.

Lemma dup_untouched id key p : untouched p (set_dup_seen ({[key]} ∪ dup_seen (dup_reset id p)) (dup_reset id p)).
Proof. unfold dup_reset. destruct (negb _); destruct p; by apply untouched_same. Qed.

Lemma credit_spec addr id nonce now now' p p' o :
  owner <> [] -> pool_good (p, o) -> room p -> addr <> [] ->
  credit_share owner addr id nonce now now' p = (Credited, p') ->
  pool_good (p', o) /\ ledger_step p (Share addr) p'.
Proof.
  intros Ho G Hr Hne. unfold credit_share. destruct (_ || _); [done|].
  destruct (bool_decide _); [done|]. intros [= <-].
  set (q := set_dup_seen _ _). assert (untouched p q) as Hq by apply dup_untouched.
  assert (room q) as Hrq.
  { destruct Hr as (b & Hb & H1 & H2), Hq as [Ht _ Hs _ _ _]. exists b. split; [done|].
    split; [by rewrite Ht|]. intros a. by rewrite Hs. }
  pose proof (untouched_good _ _ _ Hq G) as Gq. destruct Hq as [Ht Ha Hs Hp _ _].
  destruct (worker_share_spec addr now q o Gq Hrq Hne) as (Ht1 & Ha1 & Hj1 & Hk1 & Hw1).
  set (q1 := worker_share addr now q) in *.
  pose proof (room_worker q owner Hrq). pose proof (pg_counts _ Gq owner) as Hc. cbn in Hc.
  destruct (Hw1 owner) as [Hso Hpo].
  destruct (owner_share_spec addr now' q1) as (Ht2 & Ha2 & Hj2 & Hk2 & bonus & Hb & Hbe & Hw2); try done.
  { rewrite Ha1. apply Gq. }
  { rewrite Hso, Hpo. case_bool_decide; lia. }
  { rewrite Hso. case_bool_decide; lia. }
  set (q2 := owner_share owner addr now' q1) in *. split.
  - split; cbn; [done| | |done| |].
    + intros a. destruct (Hw1 a) as [E1 E2], (Hw2 a) as [E3 E4]. rewrite E3, E4, E1, E2.
      pose proof (pg_counts _ Gq a). cbn in *. do 2 case_bool_decide; lia.
    + rewrite Ht2, Ht1. pose proof (pg_total _ Gq). cbn in *. lia.
    + rewrite Hj2, Hj1. apply Gq.
    + intros snap E. destruct (pg_snap _ Gq snap E) as [Hn Hf]. split; [done|]. cbn in Hf.
      eapply Forall_impl; [exact Hf|]. intros [a n]. destruct (Hw1 a) as [_ E1], (Hw2 a) as [_ E2].
      rewrite E2, E1. do 2 case_bool_decide; lia.
  - split; unfold quarter_gain, is_share, is_credit, settled_of.
    + lia.
    + intros a Hna. destruct (Hw1 a) as [E1 _], (Hw2 a) as [E2 _]. rewrite E2, E1, Hs.
      rewrite (bool_decide_false (owner = a)) by congruence. lia.
    + intros a Hna. destruct (Hw1 a) as [_ E1], (Hw2 a) as [_ E2]. rewrite E2, E1, Hp.
      rewrite (bool_decide_false (owner = a)) by congruence. lia.
    + destruct (Hw2 owner) as [E2 _]. rewrite E2, Hso, Hs. rewrite (bool_decide_true (owner = owner)) by done.
      rewrite Ha1, Ha in Hbe. destruct (bool_decide (addr = owner)); lia.
    + destruct (Hw2 owner) as [_ E2]. rewrite E2, Hpo, Hp. rewrite (bool_decide_true (owner = owner)) by done.
      rewrite Ha1, Ha in Hbe. destruct (bool_decide (addr = owner)); lia.
Qed.

Lemma refused_untouched addr id nonce now now' p c p' :
  c <> Credited -> credit_share owner addr id nonce now now' p = (c, p') -> untouched p p'.
Proof.
  intros Hc. unfold credit_share. destruct (_ || _); [intros [= <- <-]; by apply untouched_same|].
  destruct (bool_decide _); intros [= <- <-]; [|done].
  unfold dup_reset. destruct (negb _); destruct p; by apply untouched_same.
Qed.

(** ** Settlements *)

Lemma snapshot_good p :
  (forall a, 0 <= shares_pending (worker_of p a)) ->
  NoDup (payout_snapshot p).*1 /\ Forall (fun '(a, n) => 0 < n <= shares_pending (worker_of p a)) (payout_snapshot p).
Proof.
  intros Hp. unfold payout_snapshot. split.
  - pose proof (in_order_NoDup (g_pool_workers p)) as Hn.
    induction (in_order (g_pool_workers p)) as [|[k w] l IH]; [constructor|]. cbn in Hn |- *.
    apply NoDup_cons in Hn as [Hk Hn]. destruct (0 <? shares_pending w); [|by apply IH].
    cbn. apply NoDup_cons. split; [|by apply IH]. contradict Hk. clear IH Hn. induction l as [|[k' w'] l IH]; [done|].
    cbn in Hk |- *. destruct (0 <? _); cbn in Hk; set_solver.
  - apply Forall_forall. intros [a n] Hin. apply list_elem_of_In, filter_In in Hin as [Hin Hn].
    apply list_elem_of_In, list_elem_of_fmap in Hin as ([k w] & [= -> ->] & Hin).
    apply elem_of_in_order in Hin. cbn in Hn. zbool. unfold worker_of. rewrite Hin. cbn. lia.
Qed.

Lemma settle_spec snap p :
  NoDup snap.*1 -> Forall (fun '(a, n) => 0 < n <= shares_pending (worker_of p a)) snap ->
  let p' := payout_settle snap p in
  g_pool_total_shares p' = g_pool_total_shares p /\ g_pool_owner_share_accum p' = g_pool_owner_share_accum p /\
  g_pool_current_job p' = g_pool_current_job p /\
  (map_Forall (fun k w => worker_address w = k) (g_pool_workers p) ->
   map_Forall (fun k w => worker_address w = k) (g_pool_workers p')) /\
  forall a, shares (worker_of p' a) = shares (worker_of p a) /\
    shares_pending (worker_of p' a) = shares_pending (worker_of p a) - settled_of a (Paid snap).
Proof.
  unfold payout_settle, settled_of. revert p. induction snap as [|[b n] snap IH]; intros p Hn Hf; cbn zeta.
  { split_and!; try done. intros a. cbn. lia. }
  cbn in Hn. apply NoDup_cons in Hn as [Hb Hn]. apply Forall_cons in Hf as [[H0 Hle] Hf].
  destruct (g_pool_workers p !! b) as [w|] eqn:E; [|unfold worker_of in Hle; rewrite E in Hle; cbn in Hle; lia].
  assert (worker_of p b = w) as Hw by (unfold worker_of; by rewrite E).
  cbn [foldl fst snd]. rewrite E. rewrite Hw in Hle. rewrite (proj2 (Z.leb_le _ _)) by lia.
  set (q := set_workers _ p).
  assert (forall a, worker_of q a = if bool_decide (a = b) then set_pending (shares_pending w - n) w else worker_of p a) as Hq.
  { intros a. unfold q, worker_of. destruct p. cbn in *. case_bool_decide as Ea.
    - subst. by rewrite lookup_insert_eq.
    - by rewrite lookup_insert_ne. }
  destruct (IH q Hn) as (Ht & Ha & Hj & Hk & Hall).
  { apply Forall_forall. intros [a m] Hin. rewrite Hq, bool_decide_false.
    - by apply (proj1 (Forall_forall _ _) Hf (a, m)).
    - intros ->. apply Hb. apply list_elem_of_fmap. by exists (b, m). }
  rewrite Ht, Ha, Hj. split_and!; [unfold q; by destruct p..| |].
  - intros Hkeys. apply Hk. unfold q. destruct p. cbn in *. apply map_Forall_insert_2; [by apply (Hkeys b w)|done].
  - intros a. destruct (Hall a) as [Es Ep]. rewrite Es, Ep, !Hq. unfold sumZ. cbn [foldr fst snd].
    destruct (decide (a = b)) as [->|Hne].
    + rewrite !bool_decide_true by done. cbn. rewrite Hw. split; [done|]. lia.
    + rewrite !bool_decide_false by congruence. split; [done|]. lia.
Qed.

(** One worker of a snapshot is settled by at most what it has pending. *)
Lemma settled_bound p snap a :
  NoDup snap.*1 -> Forall (fun '(a, n) => 0 < n <= shares_pending (worker_of p a)) snap ->
  0 <= shares_pending (worker_of p a) -> 0 <= settled_of a (Paid snap) <= shares_pending (worker_of p a).
Proof.
  intros Hn Hf H0. cbn. induction snap as [|[b n] snap IH]; [cbn; lia|]. cbn in Hn.
  apply NoDup_cons in Hn as [Hb Hn]. apply Forall_cons in Hf as [Hbn Hf]. unfold sumZ. cbn [foldr fst snd].
  fold (sumZ (fun s : bytes * Z => if bool_decide (s.1 = a) then s.2 else 0) snap). specialize (IH Hn Hf).
  destruct (decide (b = a)) as [->|Hne].
  - rewrite bool_decide_true by done.
    assert (sumZ (fun s : bytes * Z => if bool_decide (s.1 = a) then s.2 else 0) snap = 0) as ->; [|lia].
    rewrite (sumZ_ext _ (fun _ => 0)), sumZ_const; [lia|]. apply Forall_forall. intros [c m] Hin. cbn.
    rewrite bool_decide_false; [done|]. intros ->. apply Hb, list_elem_of_fmap. by exists (a, m).
  - rewrite bool_decide_false by done. lia.
Qed.

Lemma settle_step e h id assigned fee n p snap :
  pool_good (p, Some snap) ->
  pool_good (record_payout e h id assigned fee n snap p, None) /\
  ledger_step p (Paid snap) (record_payout e h id assigned fee n snap p).
Proof.
  intros G. destruct (pg_snap _ G snap eq_refl) as [Hn Hf]. cbn in Hf. unfold record_payout.
  set (q := set_payouts _ p). assert (untouched p q) as Hq by (unfold q; destruct p; by apply untouched_same).
  assert (Forall (fun '(a, n) => 0 < n <= shares_pending (worker_of q a)) snap) as Hfq by (unfold q; by destruct p).
  destruct (settle_spec snap q Hn Hfq) as (Ht & Ha & Hj & Hk & Hall).
  pose proof (save_untouched (pay_save e) (payout_settle snap q)) as [Ut Ua Us Up Uk Uj].
  pose proof (untouched_good _ _ _ Hq G) as Gq. destruct Hq as [Qt Qa Qs Qp _ _].
  destruct Gq as [Gk Gc Gt Gac Gj Gs]. cbn [fst snd] in *. split.
  - split; cbn; rewrite ?Ut, ?Ua, ?Ht, ?Ha; auto; try done.
    + intros a. rewrite Us, Up. destruct (Hall a) as [-> ->]. pose proof (Gc a) as Gca.
      pose proof (settled_bound q snap a Hn Hfq (proj1 Gca)). cbn [settled_of] in *. lia.
    + apply Uj. by rewrite Hj.
  - split; unfold quarter_gain, is_share, is_credit; rewrite ?Ut, ?Ua, ?Ht, ?Ha, ?Qt, ?Qa; [lia|..].
    + intros a _. rewrite Us. destruct (Hall a) as [-> _]. rewrite Qs. lia.
    + intros a _. rewrite Up. destruct (Hall a) as [_ ->]. rewrite Qp. lia.
    + rewrite Us. destruct (Hall owner) as [-> _]. rewrite Qs. lia.
    + rewrite Up. destruct (Hall owner) as [_ ->]. rewrite Qp. lia.
Qed.

Lemma pool_step_spec s e s' :
  owner <> [] -> room s.1 -> pool_step s e s' -> pool_good s -> pool_good s' /\ ledger_step s.1 e s'.1.
Proof.
  intros Ho Hr H G. destruct H; cbn [fst];
    try match goal with
    | |- pool_good (?q, _) /\ ledger_step ?p Quiet ?q =>
        assert (untouched p q) as U by (eauto using register_untouched, heartbeat_untouched, telemetry_untouched,
          published_untouched, count_block_untouched, save_untouched);
        split; [by eapply untouched_good|by apply untouched_ledger]
    end.
  - by eapply credit_spec.
  - assert (untouched p p') as U by (by eapply refused_untouched).
    split; [by eapply untouched_good|by apply untouched_ledger].
  - split; [|by apply untouched_ledger, untouched_same]. destruct G as [Gk Gc Gt Ga Gj _].
    split; try done. intros snap [= <-]. apply snapshot_good. intros a. apply Gc.
  - split; [|by apply untouched_ledger, untouched_same]. by destruct G.
  - by apply settle_step.
Qed.

(** The counters grow slowly. *)
Lemma step_counted b p e p' :
  counted b p -> ledger_step p e p' -> 0 <= g_pool_owner_share_accum p < 4 -> 0 <= g_pool_owner_share_accum p' ->
  counted (b + 2) p'.
Proof.
  intros [Ht Hs] [L1 L2 _ L4 _] Ha Ha'.
  assert (forall a, 0 <= is_share a e <= is_credit e /\ is_credit e <= 1) as He.
  { intros a. destruct e; cbn; try lia. case_bool_decide; lia. }
  pose proof (He owner). split; [lia|]. intros a. specialize (He a). pose proof (Hs a) as Hsa.
  destruct (decide (a = owner)) as [->|Hne]; [unfold quarter_gain in L4; lia|]. rewrite L2 by done. lia.
Qed.

(** ** Runs *)

Record ledger_run (p : PoolState) (es : list Entry) (p' : PoolState) : Prop := {
  lr_total : g_pool_total_shares p' = g_pool_total_shares p + sumZ is_credit es;
  lr_shares : forall a, a <> owner -> shares (worker_of p' a) = shares (worker_of p a) + sumZ (is_share a) es;
  lr_pending : forall a, a <> owner ->
    shares_pending (worker_of p' a) = shares_pending (worker_of p a) + sumZ (is_share a) es - sumZ (settled_of a) es;
  lr_owner : 4 * shares (worker_of p' owner) + g_pool_owner_share_accum p' =
    4 * (shares (worker_of p owner) + sumZ (is_share owner) es) + g_pool_owner_share_accum p
    + sumZ quarter_gain es;
  lr_owner_pending : 4 * shares_pending (worker_of p' owner) + g_pool_owner_share_accum p' =
    4 * (shares_pending (worker_of p owner) + sumZ (is_share owner) es - sumZ (settled_of owner) es)
    + g_pool_owner_share_accum p + sumZ quarter_gain es
}.

Lemma pool_run_spec b s es s' :
  owner <> [] -> counted b s.1 -> b + 2 * sizeZ es <= UINT64_MAX -> pool_run s es s' -> pool_good s ->
  pool_good s' /\ ledger_run s.1 es s'.1.
Proof.
  intros Ho Hb Hle H. revert b Hb Hle. induction H as [s|s1 e s2 es s3 Hs _ IH]; intros b Hb Hle G.
  - split; [done|]. split; intros; cbn; lia.
  - rewrite sizeZ_cons in Hle. pose proof (sizeZ_nonneg es).
    destruct (pool_step_spec _ _ _ Ho ltac:(exists b; split; [lia|done]) Hs G) as [G2 L].
    assert (counted (b + 2) s2.1) as Hb2.
    { apply (step_counted b s1.1 e); [done|done|apply G|apply G2]. }
    destruct (IH (b + 2) Hb2 ltac:(lia) G2) as [G3 [R1 R2 R3 R4 R5]]. split; [done|].
    destruct L as [L1 L2 L3 L4 L5]. split; unfold sumZ in *; cbn [foldr].
    + lia.
    + intros a Ha. rewrite R2, L2 by done. lia.
    + intros a Ha. rewrite R3, L3 by done. lia.
    + lia.
    + lia.
Qed.
End Ledger.

(** ** Duplicates *)

Section Duplicates.

(** The decimal of the nonce holds no colon, so the key names one pair. *)
Lemma dup_key_inj a a' n n' : 0 <= n -> 0 <= n' -> dup_key a n = dup_key a' n' -> a = a' /\ n = n'.
Proof.
  intros Hn Hn' E. unfold dup_key in E. change (str ":") with [u8 58] in E.
  assert (forall (k : list byte) x y l (m : list byte), u8 58 ∉ x -> u8 58 ∉ y ->
    k ++ u8 58 :: x = m ++ l ++ u8 58 :: y -> l = [] -> k = m /\ x = y) as H.
  { intros k x y l m Hx Hy Hkm ->. cbn in Hkm. revert m Hkm. induction k as [|c k IH]; intros [|d m] Hkm; cbn in Hkm.
    - by injection Hkm.
    - injection Hkm as <- ->. exfalso. apply Hx. set_solver.
    - injection Hkm as -> <-. exfalso. apply Hy. set_solver.
    - injection Hkm as <- Hkm. apply IH in Hkm as [-> ->]. done. }
  destruct (H a (dec_str n) (dec_str n') [] a') as [-> Ed]; try done; [by apply dec_str_plain..|].
  split; [done|]. destruct (dec_str_digits n Hn) as (_ & <- & _). destruct (dec_str_digits n' Hn') as (_ & <- & _).
  by rewrite Ed.
Qed.

(** Submissions for job [id], credited one after the other; each comes with
    the clock readings of its section. *)
Fixpoint credit_all (owner : bytes) (id : Z) (l : list (bytes * Z * (Z * Z))) (p : PoolState)
    : list Credit * PoolState :=
  match l with
  | [] => ([], p)
  | (addr, nonce, (now, now')) :: l =>
      let '(c, p) := credit_share owner addr id nonce now now' p in
      let '(cs, p) := credit_all owner id l p in (c :: cs, p)
  end.
Definition credited (cs : list Credit) : Z :=
  sumZ (fun c => match c with Credited => 1 | _ => 0 end) cs.

(** The shares the pool remembers of job [id]. *)
Definition seen_of (id : Z) (p : PoolState) : gset bytes := if dup_seen_job p =? id then dup_seen p else ∅.
Definition job_open (id : Z) (p : PoolState) : Prop :=
  active (g_pool_current_job p) = true /\ job_id (g_pool_current_job p) = id.

Lemma dup_reset_seen id p : dup_seen_job (dup_reset id p) = id /\ dup_seen (dup_reset id p) = seen_of id p /\
  g_pool_current_job (dup_reset id p) = g_pool_current_job p.
Proof. unfold dup_reset, seen_of. destruct p. cbn. destruct (_ =? id) eqn:E; zbool; by cbn. Qed.

(** Crediting a worker touches neither the job nor the memory of shares. *)
Lemma share_frame owner addr now now' p :
  let p' := owner_share owner addr now' (worker_share addr now p) in
  g_pool_current_job p' = g_pool_current_job p /\ dup_seen_job p' = dup_seen_job p /\ dup_seen p' = dup_seen p.
Proof. unfold owner_share, worker_share, at_worker. destruct p. cbn. by repeat case_match. Qed.

Lemma credit_share_spec owner addr id nonce now now' p :
  job_open id p ->
  let '(c, p') := credit_share owner addr id nonce now now' p in
  c = (if bool_decide (dup_key addr nonce ∈ seen_of id p) then Duplicate else Credited) /\
  job_open id p' /\ seen_of id p' = {[dup_key addr nonce]} ∪ seen_of id p.
Proof.
  intros [Ha Hi]. unfold credit_share. rewrite Ha, Hi, Z.eqb_refl. cbn [negb orb].
  destruct (dup_reset_seen id p) as (Ej & Es & Ec). rewrite Es. case_bool_decide as H.
  - split; [done|]. split; [by unfold job_open; rewrite Ec|]. unfold seen_of at 1. rewrite Ej, Z.eqb_refl, Es. set_solver.
  - set (q := set_dup_seen _ _). pose proof (share_frame owner addr now now' q) as (E1 & E2 & E3).
    set (p' := owner_share _ _ _ _) in *. split; [done|].
    assert (g_pool_current_job q = g_pool_current_job p /\ dup_seen_job q = id /\
      dup_seen q = {[dup_key addr nonce]} ∪ seen_of id p) as (Q1 & Q2 & Q3).
    { unfold q. destruct (dup_reset id p). cbn in *. subst. done. }
    split; [by unfold job_open; rewrite E1, Q1|]. unfold seen_of at 1. by rewrite E2, Q2, Z.eqb_refl, E3.
Qed.

Definition share_keys (l : list (bytes * Z * (Z * Z))) : gset bytes :=
  list_to_set ((fun s => dup_key s.1.1 s.1.2) <$> l).

Lemma credit_all_spec owner id l p cs p' :
  job_open id p -> credit_all owner id l p = (cs, p') ->
  credited cs = Z.of_nat (size (share_keys l ∖ seen_of id p)) /\ seen_of id p' = share_keys l ∪ seen_of id p.
Proof.
  revert p cs p'. induction l as [|[[addr nonce] [now now']] l IH]; intros p cs p' Ho; cbn [credit_all].
  { intros [= <- <-]. unfold share_keys. cbn. split; [|set_solver].
    replace (∅ ∖ seen_of id p) with (∅ : gset bytes) by set_solver. by rewrite size_empty. }
  pose proof (credit_share_spec owner addr id nonce now now' p Ho) as H.
  destruct (credit_share owner addr id nonce now now' p) as [c q]. destruct H as (-> & Hoq & Hq).
  destruct (credit_all owner id l q) as [cs' q'] eqn:E. intros [= <- <-].
  destruct (IH q cs' q' Hoq E) as [Hc Hs]. unfold credited, sumZ in *. cbn [foldr]. rewrite Hc, Hs, Hq.
  change (share_keys ((addr, nonce, (now, now')) :: l)) with ({[dup_key addr nonce]} ∪ share_keys l).
  split; [|set_solver]. case_bool_decide as Hin.
  - replace (({[dup_key addr nonce]} ∪ share_keys l) ∖ seen_of id p)
      with (share_keys l ∖ ({[dup_key addr nonce]} ∪ seen_of id p)) by set_solver. lia.
  - assert (({[dup_key addr nonce]} ∪ share_keys l) ∖ seen_of id p
      = {[dup_key addr nonce]} ∪ (share_keys l ∖ ({[dup_key addr nonce]} ∪ seen_of id p))) as ->.
    { apply set_eq. intros x. destruct (decide (x = dup_key addr nonce)) as [->|]; set_solver. }
    rewrite (size_union {[dup_key addr nonce]}), size_singleton by set_solver. lia.
Qed.

Lemma share_keys_size l :
  Forall (fun s => 0 <= s.1.2) l ->
  size (share_keys l) = size (list_to_set l.*1 : gset (bytes * Z)).
Proof.
  induction 1 as [|[[a n] t] l Hn Hl IH]; [done|].
  change (share_keys (((a, n), t) :: l)) with ({[dup_key a n]} ∪ share_keys l).
  change (list_to_set (((a, n), t) :: l).*1 : gset (bytes * Z)) with ({[(a, n)]} ∪ list_to_set l.*1 : gset (bytes * Z)).
  assert (dup_key a n ∈ share_keys l <-> (a, n) ∈ (list_to_set l.*1 : gset (bytes * Z))) as Hiff.
  { unfold share_keys. rewrite !elem_of_list_to_set, !list_elem_of_fmap. split.
    - intros ([[a' n'] t'] & E & Hin). pose proof (proj1 (Forall_forall _ _) Hl _ Hin) as Hn'. cbn in *.
      apply dup_key_inj in E as [<- <-]; [|done..]. by exists (a, n, t').
    - intros ([[a' n'] t'] & E & Hin). cbn in E. injection E as <- <-. by exists (a, n, t'). }
  destruct (decide ((a, n) ∈ (list_to_set l.*1 : gset (bytes * Z)))) as [Hin|Hin].
  - replace ({[dup_key a n]} ∪ share_keys l) with (share_keys l) by (apply Hiff in Hin; set_solver).
    by replace ({[(a, n)]} ∪ list_to_set l.*1 : gset (bytes * Z)) with (list_to_set l.*1 : gset (bytes * Z)) by set_solver.
  - rewrite (size_union {[(a, n)]}), size_singleton by set_solver. rewrite <- Hiff in Hin.
    rewrite (size_union {[dup_key a n]}), size_singleton by set_solver. by rewrite IH.
Qed.

Lemma save_frame io p :
  g_pool_current_job (pool_save_state_unlocked io p) = g_pool_current_job p /\
  dup_seen_job (pool_save_state_unlocked io p) = dup_seen_job p /\ dup_seen (pool_save_state_unlocked io p) = dup_seen p /\
  g_pool_workers (pool_save_state_unlocked io p) = g_pool_workers p /\
  g_pool_total_shares (pool_save_state_unlocked io p) = g_pool_total_shares p.
Proof. by destruct p, io. Qed.

Lemma credit_share_total owner addr id nonce now now' p :
  let '(c, p') := credit_share owner addr id nonce now now' p in
  g_pool_current_job p' = g_pool_current_job p /\
  g_pool_total_shares p' = if bool_decide (c = Credited) then u64 (g_pool_total_shares p + 1) else g_pool_total_shares p.
Proof.
  unfold credit_share. destruct (_ || _); [done|].
  destruct (dup_reset_seen id p) as (_ & _ & E). assert (g_pool_total_shares (dup_reset id p) = g_pool_total_shares p) as Et
    by (unfold dup_reset; destruct (negb _); by destruct p).
  case_bool_decide as Hd; [by rewrite bool_decide_false|]. rewrite bool_decide_true by done.
  rewrite <- E, <- Et. destruct (dup_reset id p). unfold owner_share, worker_share, at_worker. cbn.
  by repeat case_match.
Qed.
End Duplicates.

(** ** Submissions to one job *)

Section Submissions.
Context {ssl : OpenSSL}.

(** What a request of the submit handler names. *)
Definition share_of (req : bytes) : bytes * Z := (json_string req "address", json_u64 req "nonce").
Definition share_hash (job : PoolJobState) (nonce : Z) : Hash256 :=
  calculate_pow_hash (pool_hex_to_bytes (header_hex job)) nonce.
(** A usable address, this job, and a nonce of the share difficulty. *)
Definition earns_share (job : PoolJobState) (req : bytes) : bool :=
  starts_with (str "CZ") (share_of req).1 && (json_u64 req "job_id" =? job_id job) &&
  pow_meets_difficulty (share_hash job (share_of req).2) (share_difficulty job).
Definition solves_block (job : PoolJobState) (req : bytes) : bool :=
  pow_meets_difficulty (share_hash job (share_of req).2) (block_difficulty job).

(** Requests handled one after the other. *)
Fixpoint submit_all (l : list (Submission * bytes)) (s : HttpRpcServer) : list (result Response) * HttpRpcServer :=
  match l with
  | [] => ([], s)
  | (e, req) :: l =>
      let '(r, s, _) := pool_submit e req s in
      let '(rs, s) := submit_all l s in (r :: rs, s)
  end.
(** As the worker reads the answer. *)
Definition credited_answer (r : result Response) : bool :=
  match r with
  | Ok r => bool_decide (find_str (json "'credited':true") (body r) <> None)
  | Throw _ => false
  end.

(** What the other threads do meanwhile leaves the job and its shares alone. *)
Definition keeps_shares (h : HttpRpcServer -> HttpRpcServer) : Prop := forall s,
  g_pool_current_job (server_pool (h s)) = g_pool_current_job (server_pool s) /\
  dup_seen_job (server_pool (h s)) = dup_seen_job (server_pool s) /\
  dup_seen (server_pool (h s)) = dup_seen (server_pool s) /\
  g_pool_total_shares (server_pool (h s)) = g_pool_total_shares (server_pool s).
Definition undisturbed (e : Submission) : Prop := keeps_shares (sub_hashing e) /\ keeps_shares (sub_finished e).
Lemma keeps_seen h id s : keeps_shares h -> seen_of id (server_pool (h s)) = seen_of id (server_pool s).
Proof. intros H. unfold seen_of. by destruct (H s) as (_ & -> & -> & _). Qed.

Record job_posted (job : PoolJobState) (s : HttpRpcServer) : Prop := {
  jp_job : g_pool_current_job (server_pool s) = job;
  jp_active : active job = true;
  jp_hex : header_hex job <> [];
  jp_difficulty : block_difficulty job <> 0
}.

Lemma job_posted_keeps job s s' :
  job_posted job s -> g_pool_current_job (server_pool s') = g_pool_current_job (server_pool s) -> job_posted job s'.
Proof. intros [H1 H2 H3 H4] E. split; [by rewrite E|done..]. Qed.

(** The end of a submission that is not a block. *)
Lemma submit_finish_share e id solved cr s :
  keeps_shares (sub_finished e) ->
  exists s', submit_finish e id solved cr false s = (Ok (submit_response cr false false), s', []) /\
    g_pool_current_job (server_pool s') = g_pool_current_job (server_pool s) /\
    (forall id, seen_of id (server_pool s') = seen_of id (server_pool s)) /\
    g_pool_total_shares (server_pool s') = g_pool_total_shares (server_pool s).
Proof.
  intros Hk. unfold submit_finish. rewrite run_ret, run_update. destruct (Hk s) as (K1 & K2 & K3 & K4).
  destruct cr; cbn [orb].
  - unfold on_pool. rewrite run_update. eexists. split; [reflexivity|]. cbn [server_pool set_pool].
    destruct (save_frame (sub_save e) (server_pool (sub_finished e s))) as (E1 & E2 & E3 & _ & E5).
    rewrite E1, E5, K1, K4. split_and!; [done| |done]. intros i. unfold seen_of. by rewrite E2, E3, K2, K3.
  - rewrite run_ret. eexists. split; [reflexivity|]. rewrite K1, K4. split_and!; [done| |done].
    intros i. by apply keeps_seen.
Qed.

(** One request: whether it is credited, and what is remembered. *)
Lemma pool_submit_share job e req s :
  job_posted job s -> undisturbed e -> solves_block job req = false ->
  exists r s' ev, pool_submit e req s = (r, s', ev) /\ job_posted job s' /\
    seen_of (job_id job) (server_pool s') =
      (if earns_share job req then {[uncurry dup_key (share_of req)]} else ∅) ∪ seen_of (job_id job) (server_pool s) /\
    credited_answer r = earns_share job req &&
      negb (bool_decide (uncurry dup_key (share_of req) ∈ seen_of (job_id job) (server_pool s))) /\
    g_pool_total_shares (server_pool s') = (if credited_answer r then u64 (g_pool_total_shares (server_pool s) + 1)
      else g_pool_total_shares (server_pool s)).
Proof.
  intros Hj [Kh Kf]. pose proof Hj as [Ej Ha Hx Hd]. unfold earns_share, solves_block, share_of, uncurry. cbn [fst snd].
  unfold pool_submit. set (addr := json_string req "address"). set (n := json_u64 req "nonce"). intros Hnb.
  case_bool_decide as Hne.
  { rewrite Hne. change (starts_with (str "CZ") []) with false. cbn [andb]. eexists _, s, _.
    split; [reflexivity|]. by rewrite union_empty_l_L. }
  destruct (starts_with (str "CZ") addr) eqn:Hcz; cbn [negb andb].
  2: { eexists _, s, _. split; [reflexivity|]. by rewrite union_empty_l_L. }
  unfold asking at 1. rewrite Ej, Ha. cbn [negb orb]. rewrite (Z.eqb_sym (json_u64 req "job_id")).
  destruct (job_id job =? _) eqn:Ei; cbn [negb andb].
  2: { eexists _, s, _. split; [reflexivity|]. by rewrite union_empty_l_L. }
  rewrite bool_decide_false by done. rewrite (proj2 (Z.eqb_neq _ 0)) by done. cbv zeta. rewrite run_update.
  unfold share_hash in *. rewrite Hnb. destruct (Kh s) as (K1 & _ & _ & K4).
  pose proof (keeps_seen _ (job_id job) s Kh) as K2. set (s1 := sub_hashing e s) in *.
  assert (job_posted job s1) as Hj1 by (eapply job_posted_keeps; [exact Hj|exact K1]).
  destruct (pow_meets_difficulty _ (share_difficulty job)).
  2: { destruct (submit_finish_share e (job_id job) (with_nonce (candidate job) n) false s1 Kf) as (s' & E & F1 & F2 & F3).
       rewrite E. eexists _, s', _. split; [reflexivity|]. split; [eapply job_posted_keeps; [exact Hj1|exact F1]|].
       rewrite F2, F3, K2, K4. by rewrite union_empty_l_L. }
  unfold asking at 1. unfold mbind at 1, op_bind at 1, locked at 1. set (owner := my_address (server_wallet s1)).
  assert (job_open (job_id job) (server_pool s1)) as Ho by (unfold job_open; by rewrite (jp_job _ _ Hj1)).
  pose proof (credit_share_spec owner addr (job_id job) n (sub_now e) (sub_now' e) _ Ho) as Hc.
  pose proof (credit_share_total owner addr (job_id job) n (sub_now e) (sub_now' e) (server_pool s1)) as Ht.
  destruct (credit_share owner addr (job_id job) n _ _ (server_pool s1)) as [c p1]. destruct Hc as (-> & _ & Hs).
  destruct Ht as [Hjob Ht]. rewrite K2 in *.
  destruct (decide (dup_key addr n ∈ seen_of (job_id job) (server_pool s))) as [Hin|Hin];
    [rewrite !(bool_decide_true _ Hin) in Ht |- *|rewrite !(bool_decide_false _ Hin) in Ht |- *].
  - cbn [mret op_ret app]. eexists _, _, _. split; [reflexivity|]. cbn [server_pool set_pool]. split_and!.
    + eapply job_posted_keeps; [exact Hj1|exact Hjob].
    + done.
    + reflexivity.
    + by rewrite Ht, K4.
  - destruct (submit_finish_share e (job_id job) (with_nonce (candidate job) n) true (set_pool p1 s1) Kf)
      as (s' & E & F1 & F2 & F3).
    rewrite E. eexists _, s', _. split; [reflexivity|]. cbn [server_pool set_pool] in *. split_and!.
    + eapply job_posted_keeps; [exact Hj1|]. rewrite F1. exact Hjob.
    + by rewrite F2.
    + reflexivity.
    + by rewrite F3, Ht, K4.
Qed.

Definition earned (job : PoolJobState) (l : list (Submission * bytes)) : list (bytes * Z) :=
  share_of <$> List.filter (earns_share job) l.*2.

Lemma submit_all_spec job l s rs s' :
  job_posted job s -> Forall (fun er => undisturbed er.1 /\ solves_block job er.2 = false) l ->
  is_u64 (g_pool_total_shares (server_pool s)) -> submit_all l s = (rs, s') ->
  let new := size ((list_to_set (uncurry dup_key <$> earned job l) : gset bytes)
                     ∖ seen_of (job_id job) (server_pool s)) in
  length (List.filter credited_answer rs) = new /\
  g_pool_total_shares (server_pool s') = u64 (g_pool_total_shares (server_pool s) + Z.of_nat new).
Proof.
  intros Hj Hl. revert s rs s' Hj. induction Hl as [|[e req] l [He Hn] Hl IH]; intros s rs s' Hj Hu; cbn [submit_all].
  { intros [= <- <-]. unfold earned. cbn.
    replace (∅ ∖ seen_of (job_id job) (server_pool s)) with (∅ : gset bytes) by set_solver.
    rewrite size_empty. split; [done|]. rewrite Z.add_0_r. by rewrite u64_small. }
  destruct (pool_submit_share job e req s Hj He Hn) as (r & s1 & ev & E & Hj1 & Hs1 & Hr & Ht1). rewrite E.
  destruct (submit_all l s1) as [rs1 s2] eqn:E1. intros [= <- <-].
  assert (is_u64 (g_pool_total_shares (server_pool s1))) as Hu1.
  { rewrite Ht1. destruct (credited_answer r); [apply u64_range|done]. }
  destruct (IH s1 rs1 s2 Hj1 Hu1 E1) as [IHc IHt]. cbv zeta in *. rewrite Hs1 in *.
  set (seen := seen_of (job_id job) (server_pool s)) in *. set (k := uncurry dup_key (share_of req)) in *.
  assert (earned job ((e, req) :: l) = (if earns_share job req then [share_of req] else []) ++ earned job l) as Ee.
  { unfold earned. cbn. by destruct (earns_share job req). }
  rewrite Ee. clear Ee. cbn [List.filter]. set (rest := (list_to_set (uncurry dup_key <$> earned job l) : gset bytes)) in *.
  assert (size ((list_to_set (uncurry dup_key <$> ((if earns_share job req then [share_of req] else []) ++ earned job l)) : gset bytes) ∖ seen)
    = ((if credited_answer r then 1 else 0) + size (rest ∖ ((if earns_share job req then {[k]} else ∅) ∪ seen)))%nat) as Hsz.
  { rewrite Hr. destruct (earns_share job req); cbn [app andb fmap list_fmap list_to_set].
    2: { by rewrite union_empty_l_L. }
    fold k. fold rest. case_bool_decide as Hin; cbn [negb].
    - cbn [Nat.add]. f_equal. set_solver.
    - assert (({[k]} ∪ rest) ∖ seen = {[k]} ∪ (rest ∖ ({[k]} ∪ seen))) as ->.
      { apply set_eq. intros x. destruct (decide (x = k)) as [->|]; set_solver. }
      rewrite size_union, size_singleton by set_solver. done. }
  rewrite Hsz, IHt, Ht1. destruct (credited_answer r); cbn [length]; rewrite IHc.
  - split; [done|]. unfold u64. rewrite Zplus_mod_idemp_l. f_equal. lia.
  - split; [done|]. done.
Qed.

(** Distinct pairs have distinct keys. *)
Lemma share_keys_distinct (l : list bytes) :
  size (list_to_set (uncurry dup_key <$> (share_of <$> l)) : gset bytes)
    = size (list_to_set (share_of <$> l) : gset (bytes * Z)).
Proof.
  pose proof (share_keys_size ((fun req => (share_of req, (0, 0))) <$> l)) as H. unfold share_keys in H.
  rewrite <- !list_fmap_compose in *. apply H, Forall_fmap, Forall_true. intros req. apply json_u64_nonneg.
Qed.
End Submissions.

(** ** Claims *)

(** The ledger of shares. Through any interleaving of the locked sections
    of the handlers (with fewer than 2^63 of them) no worker has more shares
    pending than it earned, the job in force stays that of its candidate, and
    the counts are exact: a worker other than the owner has the shares it was
    credited, and pending those that no payout settled; the owner has one more
    share for every four of the others. *)
Theorem pool_ledger {ssl : OpenSSL} owner b s es s' :
  owner <> [] -> counted b s.1 -> b + 2 * sizeZ es <= UINT64_MAX ->
  pool_good s -> pool_run owner s es s' ->
  pool_good s' /\ ledger_run owner s.1 es s'.1.
Proof. intros. by eapply pool_run_spec. Qed.

(** C15: a share is credited once, and only for its work. On a job of which no
    share has been seen, of any list of requests to the submit handler, one
    after the other, none of which solves the block (which would close the
    job): exactly as many are answered as credited as there are different pairs
    of address and nonce among those with a CZ address, this job's id and a
    nonce whose hash meets the share difficulty, and the pool's total of shares
    grows by that number (modulo 2^64). Other threads may run in between as
    long as they leave the job and its shares alone. *)
Theorem shares_credited_once {ssl : OpenSSL} job l s rs s' :
  job_posted job s -> dup_seen_job (server_pool s) <> job_id job ->
  Forall (fun er => undisturbed er.1 /\ solves_block job er.2 = false) l ->
  is_u64 (g_pool_total_shares (server_pool s)) -> submit_all l s = (rs, s') ->
  let new := size (list_to_set (earned job l) : gset (bytes * Z)) in
  length (List.filter credited_answer rs) = new /\
  g_pool_total_shares (server_pool s') = u64 (g_pool_total_shares (server_pool s) + Z.of_nat new).
Proof.
  intros Hj Hd Hl Hu E. pose proof (submit_all_spec job l s rs s' Hj Hl Hu E) as H. cbv zeta in *.
  unfold seen_of in H. rewrite (proj2 (Z.eqb_neq _ _)) in H by done.
  rewrite difference_empty_L in H. unfold earned in *. by rewrite share_keys_distinct in H.
Qed.

(** The work of a share does not belong to an address: one nonce that
    meets the share difficulty, posted under [k] different addresses, is
    credited [k] times. *)
Theorem nonce_credited_per_address owner id nonce addrs p cs p' :
  job_open id p -> dup_seen_job p <> id -> 0 <= nonce -> NoDup addrs ->
  credit_all owner id ((fun a => (a, nonce, (0, 0))) <$> addrs) p = (cs, p') ->
  credited cs = sizeZ addrs.
Proof.
  intros Ho Hd Hn Hnd E. destruct (credit_all_spec owner id _ p cs p' Ho E) as [-> _].
  unfold seen_of. rewrite (proj2 (Z.eqb_neq _ _)) by done.
  rewrite difference_empty_L. unfold sizeZ. f_equal. rewrite share_keys_size by (apply Forall_fmap, Forall_true; done).
  rewrite size_list_to_set; [by rewrite !length_fmap|].
  rewrite <- list_fmap_compose. apply NoDup_fmap_2_strong; [|done]. by intros ? ? _ _ [= ->].
Qed.

(** The state file is not escaped. An address with a line break in it,
    registered without authentication, becomes lines of the file, and the next
    process reads from them a worker with pending shares that nobody mined. *)
Theorem state_file_injection :
  exists req p' w, pool_register (ssl := Toy.ssl) 1 1 SaveDone req (mkServer (ssl := Toy.ssl) (new_node 0 (mkDisk None None))
      (set_state_loaded true (new_pool None)) None false []) = p' /\
    g_pool_workers (pool_load_state_unlocked (new_pool (pool_state_txt (server_pool p'.1.2)))) !! str "CZthief" = Some w /\
    shares_pending w = 999999.
Proof.
  eexists (json "{'address':'x" ++ [newline] ++ str "worker=CZthief|w|0|999999|0" ++ [newline] ++ json "','worker':'w'}"), _, _.
  split; [reflexivity|]. vm_compute. split; reflexivity.
Qed.

(** ** Witnesses *)

(** A loaded pool with its first job open. *)
Definition open_pool : PoolState := publish_job initial_block [] (set_state_loaded true (new_pool None)).
Definition one_share : PoolState := (credit_share (str "CZowner") (str "CZann") 1 7 5 5 open_pool).2.
Definition idle_payout : PayoutEnv (ssl := Toy.ssl) := mkPayoutEnv id id id 0 true id true id 9 SaveRefused.

Lemma open_pool_good : pool_good (open_pool, None) /\ counted 0 open_pool.
Proof.
  split; [split|split]; cbn [fst snd]; try done.
Qed.

(** A share, and a payout that settles it. *)
Lemma pool_ledger_witness :
  exists p', pool_run (ssl := Toy.ssl) (str "CZowner") (open_pool, None)
      [Share (str "CZann"); Quiet; Paid [(str "CZann", 1)]] (p', None) /\
    shares (worker_of p' (str "CZann")) = 1 /\ shares_pending (worker_of p' (str "CZann")) = 0.
Proof.
  set (es := [Share (str "CZann"); Quiet; Paid [(str "CZann", 1)]]).
  set (p' := record_payout idle_payout 1 [] 10 3 1 [(str "CZann", 1)] one_share).
  assert (pool_run (ssl := Toy.ssl) (str "CZowner") (open_pool, None) es (p', None)) as Hr.
  { eapply run_step; [apply (step_credit _ (str "CZann") 1 7 5 5 _ one_share); [discriminate|vm_compute; reflexivity]|].
    eapply run_step; [apply step_snapshot|].
    replace (payout_snapshot one_share) with [(str "CZann", 1)] by (vm_compute; reflexivity).
    eapply run_step; [apply (step_settle _ idle_payout 1 [] 10 3 1)|]. apply run_done. }
  exists p'. split; [exact Hr|]. destruct open_pool_good as [Hg Hc].
  destruct (pool_ledger (ssl := Toy.ssl) (str "CZowner") 0 (open_pool, None) es (p', None)) as [_ L].
  - discriminate.
  - exact Hc.
  - vm_compute. discriminate.
  - exact Hg.
  - exact Hr.
  - rewrite (lr_shares _ _ _ _ L), (lr_pending _ _ _ _ L) by (vm_compute; discriminate). vm_compute. split; reflexivity.
Defined.

(** A job of block difficulty 17, of which every toy hash is a share and none
    a block: a repeated share, one under another address, and requests for no
    address of the pool and for another job. *)
#[local] Transparent calculate_pow_hash.
Definition share_server : HttpRpcServer (ssl := Toy.ssl) :=
  mkServer (new_node 0 empty_disk)
    (publish_job (mkBlock (mkHeader 1 1 zero_hash zero_hash zero_hash 0 0 17) []) [] (set_state_loaded true (new_pool None)))
    None false [].
Definition lone_submission : Submission (ssl := Toy.ssl) := mkSubmission id 5 5 id no_faults true id id SaveDone.
Definition share_requests : list (Submission (ssl := Toy.ssl) * bytes) :=
  (fun s => (lone_submission, json s)) <$>
    ["{'address':'CZann','job_id':1,'nonce':7}"; "{'address':'CZann','job_id':1,'nonce':7}";
     "{'address':'CZbob','job_id':1,'nonce':7}"; "{'address':'eve','job_id':1,'nonce':8}";
     "{'address':'CZann','job_id':2,'nonce':9}"]%string.

Lemma shares_credited_once_witness :
  length (List.filter credited_answer (submit_all (ssl := Toy.ssl) share_requests share_server).1) = 2%nat.
Proof.
  destruct (submit_all (ssl := Toy.ssl) share_requests share_server) as [rs s'] eqn:E. cbn [fst].
  destruct (shares_credited_once (ssl := Toy.ssl) (g_pool_current_job (server_pool share_server))
    share_requests share_server rs s') as [H _].
  - split; [reflexivity|reflexivity|discriminate|discriminate].
  - discriminate.
  - repeat (constructor; [split; [split; intros s; split_and!; reflexivity|lazy; reflexivity]|]). constructor.
  - decide_vm.
  - exact E.
  - rewrite H. assert (earned (ssl := Toy.ssl) (g_pool_current_job (server_pool share_server)) share_requests
      = [(str "CZann", 7); (str "CZann", 7); (str "CZbob", 7)]) as -> by (lazy; reflexivity).
    vm_compute. reflexivity.
Defined.

Lemma nonce_credited_per_address_witness :
  credited (credit_all (str "CZowner") 1 ((fun a => (a, 7, (0, 0))) <$> [str "CZa"; str "CZb"; str "CZc"]) open_pool).1 = 3.
Proof.
  destruct (credit_all (str "CZowner") 1 _ open_pool) as [cs p'] eqn:E. cbn [fst].
  rewrite (nonce_credited_per_address (str "CZowner") 1 7 [str "CZa"; str "CZb"; str "CZc"] open_pool cs p');
    [reflexivity|split; reflexivity|discriminate|lia|decide_vm|exact E].
Defined.
