(* ===== verification/PoolPayout.v ===== *)
(** Payouts of the pool: the fee, the division among the workers, the inputs
    gathered for it and what the settlement leaves in the ledger. *)

From S2P Require Import Prelude Serialization Crypto Transaction UTXO Ownership Coinbase.
From S2P Require Import Consensus Block NetworkParams ChainValidator Mempool BlockBuilder Storage Node Text Double.
From S2P Require Import PoolState Wallet Pool PoolFacts.
From Stdlib Require Import Floats.SpecFloat.
From stdpp Require Import options.
Local Open Scope Z_scope.

(** ** The fee *)

Definition FEE_FRAC : positive := 6305039478318694.
Lemma fee_frac : double_div (double_of_u64 35) (double_of_u64 100) = S754_finite false FEE_FRAC (-54).
Proof. reflexivity. Qed.

(** Up to the whole supply the fee is within a unit of 35 percent. *)
Lemma pool_fee_bounds wild d :
  0 < d <= CZR_MAX_SUPPLY ->
  let fee := pool_fee wild (double_of_u64 35) d in
  35 * d - 200 <= 100 * fee <= 35 * d + 100 /\ 0 <= fee <= d.
Proof.
  intros Hd. unfold pool_fee. rewrite fee_frac.
  assert (d < 2 ^ 53) as Hd53 by (unfold CZR_MAX_SUPPLY, CZR_ATOMIC_UNITS in Hd; lia).
  destruct (double_of_u64_exact d ltac:(lia)) as (m & -> & Hm & Hs).
  set (s := 52 - Z.log2 d) in *. unfold double_mul, SFmul. cbn [xorb].
  assert (Z.log2 (Zpos (m * FEE_FRAC)) = 104 \/ Z.log2 (Zpos (m * FEE_FRAC)) = 105) as Hl.
  { assert (Z.log2 (Zpos m) = 52) as Hl by (rewrite Hm, Z.log2_mul_pow2; lia).
    rewrite Pos2Z.inj_mul. pose proof (Z.log2_spec (Zpos m) ltac:(lia)) as Hmm. rewrite Hl in Hmm.
    destruct (Z.lt_ge_cases (Zpos m * Zpos FEE_FRAC) (2 ^ 105)).
    - left. apply Z.log2_unique; [lia|]. unfold FEE_FRAC in *. lia.
    - right. apply Z.log2_unique; [lia|]. unfold FEE_FRAC in *. lia. }
  destruct (round_close (m * FEE_FRAC) (- s + -54)) as (M & E & Er & He & Hc); [lia..|].
  rewrite Er. cbn [u64_of_double].
  rewrite (truncate_shift _ _ (- s + -54)) by lia.
  set (X := Zpos M * 2 ^ (E - (- s + -54))) in *. rewrite Pos2Z.inj_mul, Hm in Hc.
  replace (- (- s + -54)) with (s + 54) by lia.
  assert (0 < 2 ^ s) by (apply Z.pow_pos_nonneg; lia).
  assert (0 <= X) by (unfold X; apply Z.mul_nonneg_nonneg; [lia|apply Z.pow_nonneg; lia]).
  set (P := 2 ^ s) in *. assert (2 ^ (s + 54) = P * 2 ^ 54) as EP by (rewrite Z.pow_add_r by lia; done).
  rewrite EP. pose proof (Z.div_mod X (P * 2 ^ 54) ltac:(lia)) as Hdm.
  pose proof (Z.mod_pos_bound X (P * 2 ^ 54) ltac:(lia)) as Hmod.
  set (fee := X / (P * 2 ^ 54)) in *.
  assert (2 ^ 52 * X <= d * P * Zpos FEE_FRAC * (2 ^ 52 + 1) /\ d * P * Zpos FEE_FRAC * (2 ^ 52 - 1) <= 2 ^ 52 * X) as [Hup Hlo]
    by (unfold FEE_FRAC in *; lia).
  assert (2 ^ 52 * (2 ^ 54 * fee) <= d * Zpos FEE_FRAC * (2 ^ 52 + 1)) as Hfu.
  { apply (Z.mul_le_mono_pos_l _ _ P); [done|]. nia. }
  assert (d * Zpos FEE_FRAC * (2 ^ 52 - 1) < 2 ^ 52 * (2 ^ 54 * (fee + 1))) as Hfl.
  { apply (Z.mul_lt_mono_pos_l P); [done|]. nia. }
  assert (0 <= fee) by (apply Z.div_pos; lia).
  assert (35 * d - 200 <= 100 * fee <= 35 * d + 100) as Hb.
  { unfold FEE_FRAC, CZR_MAX_SUPPLY, CZR_ATOMIC_UNITS in *. lia. }
  assert (fee <= d) by (unfold FEE_FRAC in *; lia).
  rewrite (proj2 (Z.leb_le _ _)) by (unfold CZR_MAX_SUPPLY, CZR_ATOMIC_UNITS in *; ints). change (default wild (Some fee)) with fee. lia.
Qed.

(** ** Sums *)

Lemma sum_u64_exact l : Forall (fun x => 0 <= x) l -> sumZ id l <= UINT64_MAX -> sum_u64 l = sumZ id l.
Proof.
  intros Hl. unfold sum_u64. assert (forall t, 0 <= t -> t + sumZ id l <= UINT64_MAX ->
    foldl (fun t x => u64 (t + x)) t l = t + sumZ id l) as H; [|intros; by rewrite H by lia].
  induction Hl as [|x l Hx Hl IH]; intros t Ht Hb; cbn [foldl]; unfold sumZ in *; cbn [foldr] in *; [lia|].
  pose proof (sumZ_nonneg id l Hl) as Hn. unfold sumZ in Hn. unfold id in *.
  rewrite u64_small by ints. rewrite IH; lia.
Qed.
Lemma sumZ_fmap {A B} (f : B -> Z) (g : A -> B) l : sumZ f (g <$> l) = sumZ (fun a => f (g a)) l.
Proof. unfold sumZ. induction l; cbn; congruence. Qed.
Lemma sum_u64_map {A} (f : A -> Z) l :
  Forall (fun a => 0 <= f a) l -> sumZ f l <= UINT64_MAX -> sum_u64 (f <$> l) = sumZ f l.
Proof.
  intros Hl Hb. rewrite sum_u64_exact; [by rewrite sumZ_fmap|by apply Forall_fmap|by rewrite sumZ_fmap].
Qed.
Lemma sumZ_le {A} (f g : A -> Z) l : Forall (fun a => f a <= g a) l -> sumZ f l <= sumZ g l.
Proof. unfold sumZ. induction 1; cbn; lia. Qed.
Lemma sumZ_scale {A} k (f : A -> Z) l : sumZ (fun a => k * f a) l = k * sumZ f l.
Proof. unfold sumZ. induction l; cbn; lia. Qed.

(** ** The division *)

Section Division.
Variables (worker_pool total : Z) (snap : snapshot).
Hypothesis Hpool : 0 <= worker_pool.
Hypothesis Hsnap : Forall (fun s => 0 < s.2) snap.
Hypothesis Htotal : total = sumZ snd snap.
Hypothesis Hfits : worker_pool * total <= UINT64_MAX.

Lemma share_le s : s ∈ snap -> 0 < s.2 <= total.
Proof using All.
  intros Hs. split; [by apply (proj1 (Forall_forall _ _) Hsnap)|]. rewrite Htotal.
  apply list_elem_of_split in Hs as (l1 & l2 & E). rewrite E, sumZ_app. rewrite E in Hsnap.
  apply Forall_app in Hsnap as [H1 H2]. apply Forall_cons in H2 as [_ H2].
  assert (0 <= sumZ snd l1) by (apply sumZ_nonneg; eapply Forall_impl; [exact H1|]; cbn; lia).
  assert (0 <= sumZ snd l2) by (apply sumZ_nonneg; eapply Forall_impl; [exact H2|]; cbn; lia).
  unfold sumZ at 2. cbn [foldr]. fold (sumZ snd l2). lia.
Qed.

(** Every product stays below 2^64, so a worker gets its exact part. *)
Lemma payout_amount_exact s : s ∈ snap ->
  payout_amount worker_pool total s.2 = worker_pool * s.2 / total /\
  worker_pool * s.2 - total < total * payout_amount worker_pool total s.2 <= worker_pool * s.2.
Proof using All.
  intros Hs%share_le. unfold payout_amount. rewrite u64_small by (split; [|unfold UINT64_MAX in *]; nia).
  split; [done|]. pose proof (Z.div_mod (worker_pool * s.2) total ltac:(lia)).
  pose proof (Z.mod_pos_bound (worker_pool * s.2) total ltac:(lia)). lia.
Qed.

Lemma payout_sum_bounds :
  let paid := sumZ (fun s => payout_amount worker_pool total s.2) snap in
  0 <= paid <= worker_pool /\ (snap <> [] -> worker_pool < paid + sizeZ snap).
Proof using All.
  intros paid. assert (worker_pool * total = sumZ (fun s => worker_pool * s.2) snap) as Hwt
    by (rewrite sumZ_scale; by rewrite Htotal).
  assert (total * paid <= worker_pool * total) as Hup.
  { unfold paid. rewrite <- (sumZ_scale total), Hwt.
    apply sumZ_le, Forall_forall. intros s Hs. by apply payout_amount_exact. }
  assert (0 <= paid) as H0.
  { apply sumZ_nonneg, Forall_forall. intros s Hs. destruct (payout_amount_exact s Hs) as [-> _].
    apply share_le in Hs. apply Z.div_pos; nia. }
  destruct (decide (snap = [])) as [E|E].
  { unfold paid. rewrite E. cbn. split; [lia|done]. }
  assert (0 < total /\ 0 < sizeZ snap) as [Ht Hsz].
  { assert (exists s0 l, snap = s0 :: l) as (s0 & l & El) by (destruct snap; eauto; done).
    split; [|rewrite El, sizeZ_cons; pose proof (sizeZ_nonneg l); lia].
    assert (s0 ∈ snap) as Hin by (rewrite El; set_solver). apply share_le in Hin. lia. }
  assert (worker_pool * total < total * paid + total * sizeZ snap) as Hlo.
  { unfold paid. rewrite <- (sumZ_scale total), Hwt.
    assert (forall l, (forall s, s ∈ l -> s ∈ snap) ->
      sumZ (fun s : bytes * Z => worker_pool * s.2) l <=
      sumZ (fun s => total * payout_amount worker_pool total s.2) l + (total - 1) * sizeZ l) as Hs.
    { induction l as [|s l' IH]; intros Hl; [cbn; unfold sizeZ; cbn; lia|].
      unfold sumZ in *. cbn [foldr]. rewrite sizeZ_cons.
      destruct (payout_amount_exact s ltac:(set_solver)) as [_ ?]. specialize (IH ltac:(set_solver)). lia. }
    specialize (Hs snap ltac:(done)). unfold sumZ in *. lia. }
  nia.
Qed.
End Division.

(** Workers whose part is zero get no output. *)
Lemma payout_outputs_spec wp total snap :
  payout_outputs wp total snap =
  (fun s => mkOutput (payout_amount wp total s.2) s.1) <$>
    List.filter (fun s => negb (payout_amount wp total s.2 =? 0)) snap.
Proof. induction snap as [|[a n] snap IH]; [done|]. cbn. destruct (_ =? 0); cbn; by rewrite IH. Qed.
Lemma payout_outputs_sum wp total snap :
  sumZ amount (payout_outputs wp total snap) = sumZ (fun s => payout_amount wp total s.2) snap.
Proof.
  unfold sumZ. induction snap as [|[a n] snap IH]; [done|]. cbn. destruct (_ =? 0) eqn:E; zbool; cbn; lia.
Qed.

(** ** The inputs *)

Lemma gather_spec assigned utxos g :
  Forall (fun u => 0 <= utxo_amount u) utxos -> 0 <= g -> 0 <= assigned ->
  g + sumZ utxo_amount utxos <= UINT64_MAX -> assigned + 5000 <= UINT64_MAX ->
  exists used, used `prefix_of` utxos /\
    gather assigned utxos g = ((fun u => mkInput (utxo_txid u) (utxo_index u)) <$> used, g + sumZ utxo_amount used) /\
    (assigned <= g + sumZ utxo_amount used \/ used = utxos).
Proof.
  intros Hu. revert g. induction Hu as [|u utxos Hu Hus IH]; intros g Hg Ha Hb Hc; cbn [gather].
  - exists []. split; [done|]. cbn. split; [f_equal; lia|]. by right.
  - unfold sumZ in Hb. cbn [foldr] in Hb. fold (sumZ utxo_amount utxos) in Hb.
    pose proof (sumZ_nonneg utxo_amount utxos Hus).
    rewrite !u64_small by ints. destruct (_ <=? _) eqn:E; zbool.
    + exists [u]. split; [by exists utxos|]. unfold sumZ. cbn. split; [do 2 f_equal; lia|]. left. lia.
    + destruct (IH (g + utxo_amount u)) as (used & Hp & -> & Hend); [lia..|].
      exists (u :: used). split; [by apply prefix_cons|]. unfold sumZ in *. cbn. split; [f_equal; lia|].
      destruct Hend as [?| ->]; [left; lia|by right].
Qed.

Lemma prefix_sum (used utxos : list WalletUtxo) :
  Forall (fun u => 0 <= utxo_amount u) utxos -> used `prefix_of` utxos ->
  0 <= sumZ utxo_amount used <= sumZ utxo_amount utxos.
Proof.
  intros Hu [k ->]. apply Forall_app in Hu as [H1 H2]. rewrite sumZ_app.
  pose proof (sumZ_nonneg _ _ H1). pose proof (sumZ_nonneg _ _ H2). lia.
Qed.

(** ** A payout whose broadcast fails *)

Section Broadcast.
Context {ssl : OpenSSL} {iter : UnorderedMap} {order : UtxoOrder}.

(** The relay's outcome is reported after the pool of the node took the transaction. *)
Lemma accept_relay tx n n' ev :
  accept_transaction true tx n = (Ok None_, n', ev) ->
  ev = [AnnounceTransaction tx] /\
  accept_transaction false tx n = (Throw "TCP send failed", n', [AnnounceTransaction tx]) /\
  exists id, txid tx = Ok id /\ transactions_ (mempool_ n') !! id = Some tx.
Proof.
  unfold accept_transaction, load_chain. rewrite !run_require. destruct (running_ n); [|done]. rewrite !run_reading.
  destruct (load (storage_ n)) as [c|]; [|done]. rewrite !run_require. destruct (negb _); [|done].
  rewrite !run_reading. destruct (rebuild_utxo_set c) as [u|]; [|done].
  destruct (is_coinbase_transaction tx); [by rewrite !run_ret|].
  unfold mbind, op_bind, reading, update, announce, mret, op_ret.
  destruct (mempool_accept (mempool_ n) tx u) as [[reason mp]|] eqn:E; [|done].
  destruct (accepted reason) eqn:Ea; cbn [app]; intros Hr; injection Hr as Hr Hn Hv; rewrite Hr in E, Ea; [|done]. subst n' ev.
  split_and!; [done|done|].
  apply mempool_accept_inv in E as (id & bs & w & Hid & _ & _ & _ & _ & _ & _ & _ & _ & _ & ->).
  exists id. split; [done|]. apply lookup_insert_eq.
Qed.
Lemma submit_relay tx n n' ev :
  submit_transaction true tx n = (Ok true, n', ev) ->
  ev = [AnnounceTransaction tx] /\
  submit_transaction false tx n = (Throw "TCP send failed", n', [AnnounceTransaction tx]) /\
  exists id, txid tx = Ok id /\ transactions_ (mempool_ n') !! id = Some tx.
Proof.
  unfold submit_transaction. intros (reason & n1 & ev1 & ev2 & E & E2 & ->)%bind_returns.
  injection E2 as Ea -> <-. unfold accepted in Ea. apply bool_decide_eq_true in Ea as ->.
  apply accept_relay in E as (-> & E & Hid). split; [done|]. split; [|done].
  unfold mbind, op_bind. by rewrite E.
Qed.

(** Nothing else runs, and the relay's outcome is [relay]. *)
Definition payout_alone (relay : bool) (wild time : Z) (io : SaveIO) : PayoutEnv :=
  mkPayoutEnv id id id wild relay id true id time io.

(** A call into the node that returned. *)
Lemma node_returns {A B} (m : node_op A) (f : A -> op HttpRpcServer Event B) s b s' ev :
  (on_node m ≫= f) s = (Ok b, s', ev) ->
  exists a n ev1 ev2, m (server_node s) = (Ok a, n, ev1) /\ f a (set_server_node n s) = (Ok b, s', ev2) /\ ev = ev1 ++ ev2.
Proof.
  intros (a & s1 & ev1 & ev2 & E & E2 & ->)%bind_returns. unfold on_node in E.
  destruct (m (server_node s)) as [[r n] ev'] eqn:Em. injection E as -> <- <-. eauto 8.
Qed.
Lemma run_node {A B} (m : node_op A) (f : A -> op HttpRpcServer Event B) s a n ev :
  m (server_node s) = (Ok a, n, ev) ->
  (on_node m ≫= f) s = let '(r, s2, ev2) := f a (set_server_node n s) in (r, s2, ev ++ ev2).
Proof. intros E. unfold mbind, op_bind, on_node. by rewrite E. Qed.
Lemma run_idle {B} (f : unit -> op HttpRpcServer Event B) s : (update id ≫= f) s = f tt s.
Proof. apply run_update. Qed.

Lemma get_chain_quiet n r n' ev : get_chain n = (r, n', ev) -> ev = [] /\ mempool_ n' = mempool_ n.
Proof.
  unfold get_chain. destruct (chain_cache_valid_ n); [by intros [= _ <- <-]|].
  unfold load_chain. rewrite run_reading. destruct (load (storage_ n)); [|by intros [= _ <- <-]].
  rewrite run_update. by intros [= _ <- <-].
Qed.
Lemma collect_quiet s us s' ev :
  collect_my_utxos id s = (Ok us, s', ev) -> ev = [] /\ server_pool s' = server_pool s.
Proof.
  unfold collect_my_utxos, asking. destruct (bool_decide _); [by intros [= _ <- <-]|].
  intros (c & n & ev1 & ev2 & E & E2 & ->)%node_returns. apply get_chain_quiet in E as [-> _]. rewrite run_idle in E2.
  apply node_returns in E2 as (l & n2 & ev3 & ev4 & [= _ <- <-] & E4 & ->).
  unfold reading in E4. injection E4 as _ <- <-. done.
Qed.

Lemma payout_body_relay wild time io snap total s id a f n s1 ev :
  payout_body (payout_alone true wild time io) snap total s = (Ok (PayoutOk id a f n), s1, ev) ->
  exists s2 tx h, payout_body (payout_alone false wild time io) snap total s =
      (Throw "TCP send failed", s2, [AnnounceTransaction tx]) /\
    server_pool s2 = server_pool s /\ txid tx = Ok h /\ id = hash_to_hex h /\
    transactions_ (mempool_ (server_node s2)) !! h = Some tx.
Proof.
  unfold payout_body, asking. destruct (server_wallet s) as [w|]; [|done].
  rewrite !run_reading. destruct (persistent_address w) as [addr|]; [|done]. destruct (bool_decide (addr = [])); [done|].
  cbn [pay_chain_read payout_alone]. intros (us & s' & ev1 & ev2 & Ec & E & ->)%bind_returns.
  pose proof (collect_quiet _ _ _ _ Ec) as [-> Hp]. unfold mbind at 1, op_bind at 1. rewrite Ec, run_nil.
  destruct (_ <? 10000); [done|]. cbn [pay_collected payout_alone] in *. rewrite run_idle in E |- *.
  cbv zeta in E |- *. cbn [pay_wild payout_alone] in *. destruct (bool_decide (payout_outputs _ _ _ = [])); [done|].
  destruct (gather _ _ _) as [ins g]. destruct (g <? _); [done|]. rewrite run_reading in E |- *.
  destruct (persistent_public_key w) as [pk|]; [|done]. rewrite run_reading in E |- *.
  destruct (sign_inputs _ _ _ _ _) as [tx|]; [|done]. cbn [pay_relay payout_alone] in *.
  apply node_returns in E as (ok & n1 & ev3 & ev4 & E1 & E & ->). destruct ok; [|done]. cbn [negb] in E.
  apply submit_relay in E1 as (-> & E1 & h & Hid & Hin). rewrite run_reading, Hid in E. cbn [fmap result_fmap] in E.
  rewrite run_idle in E. apply node_returns in E as (hh & n2 & ev5 & ev6 & _ & E & ->). rewrite run_idle in E.
  unfold on_pool in E. rewrite run_update in E. injection E as <- _ _ _ _ _.
  exists (set_server_node n1 s'), tx, h. unfold mbind, op_bind, on_node. rewrite E1. done.
Qed.

(** The way of a payout that succeeds. *)
Lemma payout_succeeds wild time io s w addr us s1 ins g pk tx n1 ev h n2 hh :
  let snap := payout_snapshot (server_pool s) in
  let total := sum_u64 (utxo_amount <$> us) in
  let fee := pool_fee wild (g_pool_fee_percent (server_pool s)) (total - 1000) in
  let outs := payout_outputs (u64 (total - 1000 - fee)) (sum_u64 snap.*2) snap in
  let assigned := sum_u64 (amount <$> outs) in
  sum_u64 snap.*2 <> 0 -> server_wallet s = Some w -> persistent_address w = Ok addr -> addr <> [] ->
  collect_my_utxos id s = (Ok us, s1, []) -> 10000 <= total -> outs <> [] -> gather assigned us 0 = (ins, g) ->
  assigned <= g -> persistent_public_key w = Ok pk ->
  sign_inputs w pk (length ins) 0 (payout_tx outs ins g assigned addr) = Ok tx ->
  submit_transaction true tx (server_node s1) = (Ok true, n1, ev) -> txid tx = Ok h ->
  node_height true n1 = (Ok hh, n2, []) ->
  exists s2, pool_execute_payout (payout_alone true wild time io) s =
    (Ok (PayoutOk (hash_to_hex h) assigned fee (sizeZ outs)), s2, ev) /\
    server_pool s2 = record_payout (payout_alone true wild time io) hh (hash_to_hex h) assigned fee (sizeZ outs) snap
                       (server_pool s).
Proof.
  intros snap total fee outs assigned Hp Hw Ha Hne Hc Ht Ho Hg Hle Hpk Hs Hsub Hid Hh.
  destruct (collect_quiet _ _ _ _ Hc) as [_ Hpool].
  unfold pool_execute_payout, asking. fold snap. rewrite (proj2 (Z.eqb_neq _ 0)) by done.
  cbn [pay_snapped payout_alone]. rewrite run_idle. unfold catching, payout_body, asking. rewrite Hw, run_reading, Ha.
  rewrite bool_decide_false by done. cbn [pay_chain_read payout_alone]. unfold mbind at 1, op_bind at 1. rewrite Hc, run_nil.
  fold total. rewrite (proj2 (Z.ltb_ge _ _)) by done. cbn [pay_collected payout_alone]. rewrite run_idle.
  cbv zeta. rewrite Hpool. cbn [pay_wild payout_alone]. fold fee. fold outs. fold assigned.
  rewrite bool_decide_false by done. rewrite Hg. rewrite (proj2 (Z.ltb_ge _ _)) by done.
  rewrite run_reading, Hpk, run_reading, Hs. cbn [pay_relay payout_alone].
  rewrite (run_node _ _ _ _ _ _ Hsub). cbn [negb]. rewrite run_reading, Hid. cbn [fmap result_fmap pay_submitted payout_alone].
  rewrite run_idle, (run_node _ _ _ hh n2 []) by exact Hh. cbn [pay_settling payout_alone]. rewrite run_idle.
  unfold on_pool. rewrite run_update. eexists. split; [cbn; by rewrite app_nil_r|]. cbn. by rewrite Hpool.
Qed.

(** ** Claims *)

(** A broken connection makes the pool pay twice: where a payout would
    have succeeded, the same payout with a failing broadcast reports an error
    and leaves every share pending, while its transaction is in the node's
    pool and will be mined. *)
Theorem payout_broadcast_failure wild time io s id a f n s1 ev :
  pool_execute_payout (payout_alone true wild time io) s = (Ok (PayoutOk id a f n), s1, ev) ->
  exists s2 tx h, pool_execute_payout (payout_alone false wild time io) s =
      (Ok (PayoutError "TCP send failed"), s2, [AnnounceTransaction tx]) /\
    payout_snapshot (server_pool s2) = payout_snapshot (server_pool s) /\
    txid tx = Ok h /\ id = hash_to_hex h /\ transactions_ (mempool_ (server_node s2)) !! h = Some tx.
Proof.
  unfold pool_execute_payout, asking. destruct (_ =? 0); [done|]. cbn [pay_snapped payout_alone]. rewrite !run_idle.
  unfold catching. destruct (payout_body (payout_alone true _ _ _) _ _ s) as [[[r|e] s'] ev'] eqn:E; [|done].
  intros [= -> <- <-]. apply payout_body_relay in E as (s2 & tx & h & E & Hp & Hh & Hid & Hin).
  rewrite E. exists s2, tx, h. rewrite Hp. done.
Qed.

End Broadcast.

(** C33: dividing a payout. With products below 2^64, shares pending, and a
    wallet that holds at least the pool of the workers and at most the supply,
    every worker of the snapshot is paid exactly its proportional part rounded
    down, together they get the worker pool up to less than one unit each, the
    inputs are a prefix of the wallet's outputs, and the transaction spends
    exactly what it collects. *)
Theorem payout_division_exact snap worker_pool utxos addr :
  0 < worker_pool -> snap <> [] -> Forall (fun s => 0 < s.2) snap ->
  worker_pool * sumZ snd snap <= UINT64_MAX ->
  Forall (fun u => 0 <= utxo_amount u) utxos ->
  worker_pool <= sumZ utxo_amount utxos <= CZR_MAX_SUPPLY ->
  let total := sum_u64 snap.*2 in
  let outs := payout_outputs worker_pool total snap in
  let assigned := sum_u64 (amount <$> outs) in
  exists used gathered, used `prefix_of` utxos /\
    gather assigned utxos 0 = ((fun u => mkInput (utxo_txid u) (utxo_index u)) <$> used, gathered) /\
    (forall a n, (a, n) ∈ snap -> 0 < worker_pool * n / sumZ snd snap ->
       mkOutput (worker_pool * n / sumZ snd snap) a ∈ outs) /\
    assigned <= worker_pool < assigned + sizeZ snap /\ assigned <= gathered /\
    sumZ amount (outputs (payout_tx outs ((fun u => mkInput (utxo_txid u) (utxo_index u)) <$> used) gathered assigned addr))
      = sumZ utxo_amount used.
Proof.
  intros Hw Hne Hs Hfit Hu Hsum total outs assigned.
  assert (total = sumZ snd snap) as Ht.
  { apply sum_u64_map; [eapply Forall_impl; [exact Hs|]; cbn; lia|]. unfold UINT64_MAX in *. nia. }
  destruct (payout_sum_bounds worker_pool total snap ltac:(lia) Hs Ht ltac:(by rewrite Ht)) as [Hb1 Hb2].
  specialize (Hb2 Hne). rewrite <- (payout_outputs_sum worker_pool total snap) in Hb1, Hb2. fold outs in Hb1, Hb2.
  assert (forall s, s ∈ snap -> payout_amount worker_pool total s.2 = worker_pool * s.2 / total) as Hpa.
  { intros s Hin. by apply (payout_amount_exact worker_pool total snap ltac:(lia) Hs Ht ltac:(by rewrite Ht) s). }
  assert (CZR_MAX_SUPPLY + 5000 <= UINT64_MAX) as Hm by (by vm_compute).
  assert (assigned = sumZ amount outs) as Ha.
  { apply sum_u64_map; [|lia]. unfold outs. rewrite payout_outputs_spec. apply Forall_fmap, Forall_forall.
    intros s Hin. apply list_elem_of_In, filter_In in Hin as [Hin%list_elem_of_In _]. cbn. rewrite Hpa by done.
    pose proof (proj1 (Forall_forall _ _) Hs s Hin) as Hp. cbn in Hp.
    pose proof (share_le worker_pool total snap ltac:(lia) Hs Ht ltac:(by rewrite Ht) s Hin). apply Z.div_pos; nia. }
  destruct (gather_spec assigned utxos 0 Hu ltac:(lia) ltac:(lia) ltac:(lia) ltac:(lia)) as (used & Hpre & Eg & Hend).
  exists used, (sumZ utxo_amount used). split; [done|]. split; [exact Eg|].
  assert (assigned <= sumZ utxo_amount used) as Hle by (destruct Hend as [?| ->]; lia).
  split_and!; try lia.
  - intros a n Hin Hpos. unfold outs. rewrite payout_outputs_spec. apply list_elem_of_fmap. exists (a, n).
    pose proof (Hpa _ Hin) as E. rewrite Ht in E at 2. cbn [snd] in E. rewrite <- E in Hpos |- *. split; [done|].
    apply list_elem_of_In, filter_In. split; [by apply list_elem_of_In|].
    apply negb_true_iff, Z.eqb_neq. cbn [snd]. lia.
  - unfold payout_tx. cbn [outputs]. pose proof (prefix_sum _ _ Hu Hpre).
    destruct (assigned <? sumZ utxo_amount used) eqn:E; zbool; [|lia].
    rewrite sumZ_app. unfold sumZ at 2. cbn [foldr amount]. rewrite u64_small by ints. lia.
Qed.

(** The product of a payout wraps. A single worker holding all the
    pending shares is paid less than the worker pool as soon as the product of
    the two reaches 2^64. *)
Theorem payout_overflow_underpays worker_pool n :
  0 < n -> UINT64_MAX < worker_pool * n -> payout_amount worker_pool n n < worker_pool.
Proof.
  intros Hn Hw. unfold payout_amount. pose proof (u64_range (worker_pool * n)).
  apply Z.div_lt_upper_bound; [done|]. ints.
Qed.

(** The fee of 35 percent, computed in doubles, is within two units of
    the exact value for every balance up to the supply, so the subtraction of
    the fee does not wrap. *)
Theorem pool_fee_exact wild d :
  0 < d <= CZR_MAX_SUPPLY ->
  let fee := pool_fee wild (double_of_u64 35) d in
  35 * d - 200 <= 100 * fee <= 35 * d + 100 /\ u64 (d - fee) = d - fee.
Proof.
  intros Hd fee. destruct (pool_fee_bounds wild d Hd) as [H1 H2]. split; [exact H1|]. apply u64_small. fold fee in H2.
  unfold CZR_MAX_SUPPLY, CZR_ATOMIC_UNITS in Hd. ints.
Qed.

(** ** Witnesses *)

#[local] Transparent calculate_pow_hash.

Definition listed_utxos : UtxoOrder := {| utxo_iteration := map_to_list; utxo_iteration_perm m := reflexivity _ |}.
(** The pool's wallet holds the key of [sample_owner], to which the first
    block was mined. *)
Definition sample_wallet : PersistentWallet (ssl := Toy.ssl) :=
  Some (mkKeyPair (ssl := Toy.ssl) (Some (hash_bytes (sample_hash 9))) (Some (hash_bytes (sample_hash 9)))).
Definition idle_node : CaesarNode :=
  mkNode (sample_disk node_chain) new_mempool node_chain true 1 true false NETWORK_MAINNET.
Definition paying_pool : PoolState :=
  worker_share (str "CZbob") 5 (worker_share (str "CZbob") 5 (worker_share (str "CZann") 5
    (set_state_loaded true (new_pool None)))).
Definition paying_server : HttpRpcServer (ssl := Toy.ssl) := mkServer idle_node paying_pool (Some sample_wallet) true [].
Definition paying_utxos : list WalletUtxo := Eval vm_compute in
  match my_utxos (ssl := Toy.ssl) (order := listed_utxos) sample_owner (mjoin (transactions <$> node_chain)) with
  | Ok us => us | Throw _ => [] end.
Definition paying_outs : list TransactionOutput := Eval vm_compute in
  let total := sum_u64 (utxo_amount <$> paying_utxos) in
  let fee := pool_fee 0 (g_pool_fee_percent paying_pool) (total - 1000) in
  payout_outputs (u64 (total - 1000 - fee)) 3 (payout_snapshot paying_pool).
Definition paying_tx : Transaction := Eval vm_compute in
  let assigned := sum_u64 (amount <$> paying_outs) in
  let '(ins, g) := gather assigned paying_utxos 0 in
  match sign_inputs (ssl := Toy.ssl) sample_wallet sample_key (length ins) 0
          (payout_tx paying_outs ins g assigned sample_owner) with Ok tx => tx | Throw _ => default_tx end.
Definition paid_mempool : Mempool :=
  mkMempool {[toy_txid paying_tx := paying_tx]} {[spent_point]} (tx_size paying_tx).

Lemma paying_submit :
  submit_transaction (ssl := Toy.ssl) true paying_tx idle_node =
    (Ok true, set_mempool paid_mempool idle_node, [AnnounceTransaction paying_tx]).
Proof.
  unfold submit_transaction. unfold mbind at 1, op_bind at 1. unfold accept_transaction, load_chain.
  change (running_ idle_node) with true. rewrite run_require, run_reading.
  change (storage_ idle_node) with (sample_disk node_chain). unfold node_chain. rewrite sample_disk1_load, run_require.
  change (negb _) with true. cbv iota. rewrite run_reading.
  fold node_chain. rewrite (rebuild_loaded (ssl := Toy.ssl) sample_node node_chain sample_result1 sample_node_inv).
  change (is_coinbase_transaction paying_tx) with false. unfold mbind, op_bind, reading.
  change (mempool_ idle_node) with new_mempool.
  assert (mempool_accept (ssl := Toy.ssl) new_mempool paying_tx (utxo sample_result1) = Ok (None_, paid_mempool)) as ->
    by decide_vm.
  reflexivity.
Qed.

Lemma paying_collect :
  collect_my_utxos (ssl := Toy.ssl) (iter := listed) (order := listed_utxos) id paying_server =
    (Ok paying_utxos, paying_server, []).
Proof.
  unfold collect_my_utxos, asking. change (my_address (server_wallet paying_server)) with sample_owner.
  rewrite bool_decide_false by (vm_compute; discriminate).
  rewrite (run_node (ssl := Toy.ssl) get_chain _ _ node_chain idle_node []) by reflexivity. rewrite run_idle.
  rewrite (run_node (ssl := Toy.ssl) mempool_transactions _ _ [] idle_node []) by reflexivity.
  unfold reading.
  assert (my_utxos (ssl := Toy.ssl) (order := listed_utxos) sample_owner (mjoin (transactions <$> node_chain) ++ [])
    = Ok paying_utxos) as -> by (vm_compute; reflexivity).
  reflexivity.
Qed.

Lemma paying_run :
  exists s1, pool_execute_payout (ssl := Toy.ssl) (iter := listed) (order := listed_utxos)
      (payout_alone true 0 77 SaveDone) paying_server =
    (Ok (PayoutOk (hash_to_hex (toy_txid paying_tx)) 3249999349 1749999650 2), s1, [AnnounceTransaction paying_tx]).
Proof.
  destruct (payout_succeeds (ssl := Toy.ssl) (iter := listed) (order := listed_utxos) 0 77 SaveDone paying_server
    sample_wallet sample_owner paying_utxos paying_server [mkInput (op_txid spent_point) 0] 5000000000 sample_key
    paying_tx (set_mempool paid_mempool idle_node) [AnnounceTransaction paying_tx] (toy_txid paying_tx)
    (set_height 1 (set_mempool paid_mempool idle_node)) 1) as (s1 & E & _).
  - vm_compute. discriminate.
  - reflexivity.
  - vm_compute. reflexivity.
  - vm_compute. discriminate.
  - exact paying_collect.
  - vm_compute. discriminate.
  - vm_compute. discriminate.
  - vm_compute. reflexivity.
  - vm_compute. discriminate.
  - vm_compute. reflexivity.
  - vm_compute. reflexivity.
  - exact paying_submit.
  - vm_compute. reflexivity.
  - reflexivity.
  - exists s1. rewrite E. f_equal.
Qed.

Lemma payout_broadcast_failure_witness :
  exists s2 tx h, pool_execute_payout (ssl := Toy.ssl) (iter := listed) (order := listed_utxos)
      (payout_alone false 0 77 SaveDone) paying_server =
      (Ok (PayoutError "TCP send failed"), s2, [AnnounceTransaction tx]) /\
    payout_snapshot (server_pool s2) = [(str "CZann", 1); (str "CZbob", 2)] /\
    transactions_ (mempool_ (server_node s2)) !! h = Some tx.
Proof.
  destruct paying_run as [s1 E].
  destruct (payout_broadcast_failure (ssl := Toy.ssl) (iter := listed) (order := listed_utxos) 0 77 SaveDone
    paying_server _ _ _ _ s1 _ E) as (s2 & tx & h & E2 & Hp & _ & _ & Hin).
  exists s2, tx, h. split; [exact E2|]. split; [rewrite Hp; vm_compute; reflexivity|exact Hin].
Defined.

Lemma payout_division_exact_witness :
  let outs := payout_outputs 100 3 [(str "CZann", 1); (str "CZbob", 2)] in
  outs = [mkOutput 33 (str "CZann"); mkOutput 66 (str "CZbob")] /\
  exists used gathered, used `prefix_of` [mkWalletUtxo zero_hash 0 120] /\ 99 <= gathered /\
    sumZ amount (outputs (payout_tx outs ((fun u => mkInput (utxo_txid u) (utxo_index u)) <$> used) gathered 99 []))
      = sumZ utxo_amount used.
Proof.
  split; [vm_compute; reflexivity|].
  destruct (payout_division_exact [(str "CZann", 1); (str "CZbob", 2)] 100 [mkWalletUtxo zero_hash 0 120] [])
    as (used & g & H1 & _ & _ & _ & H2 & H3).
  - lia.
  - discriminate.
  - decide_vm.
  - vm_compute. discriminate.
  - decide_vm.
  - decide_vm.
  - exists used, g. split; [exact H1|]. split; [exact H2|exact H3].
Defined.

(** Ten million coins after a hundred thousand shares of one worker. *)
Lemma payout_overflow_underpays_witness : payout_amount 1000000000000000 100000 100000 < 1000000000000000.
Proof. apply payout_overflow_underpays; [lia|]. vm_compute. reflexivity. Defined.

Lemma pool_fee_exact_witness :
  pool_fee 0 (double_of_u64 35) 100000 = 35000 /\ u64 (100000 - pool_fee 0 (double_of_u64 35) 100000) = 65000.
Proof.
  destruct (pool_fee_exact 0 100000) as [_ H]; [vm_compute; split; [reflexivity|discriminate]|].
  split; [vm_compute; reflexivity|]. rewrite H. vm_compute. reflexivity.
Defined.
