(* ===== verification/PoolRun.v ===== *)
(** Every handler of the pool is a run of the steps of [PoolFacts], whatever
    the other threads do between its locked sections, as long as they too take
    such steps; so the ledger's theorems hold of the handlers. *)

From S2P Require Import Prelude Serialization Crypto Transaction UTXO Ownership Coinbase.
From S2P Require Import Consensus Block ChainValidator Mempool BlockBuilder Storage Node Text Double PoolState.
From S2P Require Import Wallet Pool PoolFacts PoolPayout.
From Stdlib Require Import Floats.SpecFloat.
From stdpp Require Import options.
Local Open Scope Z_scope.

Section Runs.
Context {ssl : OpenSSL} {iter : UnorderedMap} {order : UtxoOrder}.
Variable owner : bytes.
Abbreviation http_op := (op HttpRpcServer Event).
Abbreviation run := (pool_run owner).

(** The state file was read, and the wallet is the owner's. *)
Definition pool_ready (s : HttpRpcServer) : Prop :=
  g_pool_state_loaded (server_pool s) = true /\ my_address (server_wallet s) = owner.

Definition unpaid (es : list Entry) : Prop := Forall (fun e => match e with Paid _ => False | _ => True end) es.

Lemma run_app s1 es1 s2 es2 s3 : run s1 es1 s2 -> run s2 es2 s3 -> run s1 (es1 ++ es2) s3.
Proof. induction 1; cbn; [done|]. intros. econstructor; eauto. Qed.
Lemma run_single s1 e s2 : pool_step owner s1 e s2 -> run s1 [e] s2.
Proof. intros. econstructor; [done|constructor]. Qed.

(** What the other threads do: any run that leaves a payout in progress alone. *)
Definition respects (f : HttpRpcServer -> HttpRpcServer) : Prop := forall s o,
  pool_ready s -> pool_ready (f s) /\ exists es, run (server_pool s, o) es (server_pool (f s), o) /\ unpaid es.

(** A call that starts with the payout [o] in progress and ends as [Q] says. *)
Definition triple {A} (o : option snapshot) (m : http_op A)
    (Q : result A -> list Entry -> option snapshot -> Prop) : Prop :=
  forall s r s' ev, pool_ready s -> m s = (r, s', ev) ->
    pool_ready s' /\ exists es o', run (server_pool s, o) es (server_pool s', o') /\ Q r es o'.
Definition calm {A} (o : option snapshot) (r : result A) (es : list Entry) (o' : option snapshot) : Prop :=
  o' = o /\ unpaid es.
(** A postcondition that earlier steps without a payment do not disturb. *)
Definition extendable {A} (o : option snapshot) (Q : result A -> list Entry -> option snapshot -> Prop) : Prop :=
  (forall e es, unpaid es -> Q (Throw e) es o) /\ (forall r es es' o', unpaid es -> Q r es' o' -> Q r (es ++ es') o').

Lemma unpaid_app es es' : unpaid es -> unpaid es' -> unpaid (es ++ es').
Proof. apply Forall_app_2. Qed.
Lemma calm_extendable {A} o : extendable o (calm (A := A) o).
Proof. split; [done|]. intros r es es' o' H [-> H']. split; [done|]. by apply unpaid_app. Qed.

Lemma t_bind {A B} o (m : http_op A) (f : A -> http_op B) Q :
  extendable o Q -> triple o m (calm o) -> (forall a, triple o (f a) Q) -> triple o (m ≫= f) Q.
Proof.
  intros [Ht Hx] Hm Hf s r s' ev Hs. unfold mbind, op_bind.
  destruct (m s) as [[[a|e] s1] ev1] eqn:E.
  - destruct (Hm s _ s1 ev1 Hs E) as (Hs1 & es1 & o1 & Hr1 & -> & Hu1).
    destruct (f a s1) as [[r2 s2] ev2] eqn:E2. intros [= <- <- <-].
    destruct (Hf a s1 _ s2 ev2 Hs1 E2) as (Hs2 & es2 & o2 & Hr2 & HQ).
    split; [done|]. exists (es1 ++ es2), o2. split; [by eapply run_app|]. by apply Hx.
  - intros [= <- <- <-]. destruct (Hm s _ s1 ev1 Hs E) as (Hs1 & es1 & o1 & Hr1 & -> & Hu1).
    split; [done|]. exists es1, o. split; [done|]. by apply Ht.
Qed.
Lemma t_pure {A} o (m : http_op A) Q :
  (forall s, (m s).1.2 = s) -> (forall s, Q (m s).1.1 [] o) -> triple o m Q.
Proof.
  intros H1 H2 s r s' ev Hs E. specialize (H1 s). specialize (H2 s). rewrite E in *. cbn in *. subst.
  split; [done|]. exists [], o. split; [constructor|done].
Qed.
Lemma t_ret {A} o (a : A) (Q : _ -> _ -> _ -> Prop) : Q (Ok a) [] o -> triple o (mret a) Q.
Proof. intros H. by apply t_pure. Qed.
Lemma t_reading {A} o (g : HttpRpcServer -> result A) : triple o (reading g) (calm o).
Proof. apply t_pure; [done|]. intros s. split; [done|constructor]. Qed.
Lemma t_asking {A} o (k : HttpRpcServer -> http_op A) Q : (forall s, triple o (k s) Q) -> triple o (asking k) Q.
Proof. intros H s r s' ev Hs E. by apply (H s s r s' ev). Qed.
(** The state that was asked for is ready. *)
Lemma t_asking_ready {A} o (k : HttpRpcServer -> http_op A) Q :
  (forall s, pool_ready s -> triple o (k s) Q) -> triple o (asking k) Q.
Proof. intros H s r s' ev Hs E. by apply (H s Hs s r s' ev). Qed.
Lemma t_if {A} o (b : bool) (m m' : http_op A) Q : triple o m Q -> triple o m' Q -> triple o (if b then m else m') Q.
Proof. by destruct b. Qed.
Lemma t_catching {A} o (m : http_op A) h Q :
  extendable o Q ->
  triple o m (fun r es o' => match r with Ok a => Q (Ok a) es o' | Throw _ => o' = o /\ unpaid es end) ->
  (forall e, triple o (h e) Q) -> triple o (catching m h) Q.
Proof.
  intros [_ Hx] Hm Hh s r s' ev Hs. unfold catching. destruct (m s) as [[[a|e] s1] ev1] eqn:E.
  - intros [= <- <- <-]. by apply (Hm s (Ok a) s1 ev1).
  - destruct (Hm s _ s1 ev1 Hs E) as (Hs1 & es1 & o1 & Hr1 & -> & Hu).
    destruct (h e s1) as [[r2 s2] ev2] eqn:E2. intros [= <- <- <-].
    destruct (Hh e s1 _ s2 ev2 Hs1 E2) as (Hs2 & es2 & o2 & Hr2 & HQ).
    split; [done|]. exists (es1 ++ es2), o2. split; [by eapply run_app|]. by apply Hx.
Qed.
Lemma t_update o f : respects f -> triple o (update f) (calm o).
Proof.
  intros H s r s' ev Hs [= <- <- <-]. destruct (H s o Hs) as (Hr & es & He & Hu). split; [done|].
  exists es, o. done.
Qed.
Lemma t_node {A} o (m : node_op A) : triple o (on_node m) (calm o).
Proof.
  intros s r s' ev Hs. unfold on_node. destruct (m (server_node s)) as [[r1 n] ev1]. intros [= <- <- <-].
  split; [done|]. exists [], o. split; [constructor|]. split; [done|constructor].
Qed.

(** ** Locked sections *)

Lemma save_loaded io p : g_pool_state_loaded (pool_save_state_unlocked io p) = g_pool_state_loaded p.
Proof. destruct io; by destruct p. Qed.
Lemma settle_loaded snap p : g_pool_state_loaded (payout_settle snap p) = g_pool_state_loaded p.
Proof.
  unfold payout_settle. revert p. induction snap as [|[a n] snap IH]; intros p; [done|]. cbn [foldl]. rewrite IH.
  destruct (g_pool_workers p !! _); [|done]. destruct (_ <=? _); by destruct p.
Qed.
Lemma credit_loaded w addr id nonce now now' p :
  g_pool_state_loaded (credit_share w addr id nonce now now' p).2 = g_pool_state_loaded p.
Proof.
  unfold credit_share. destruct (_ || _); [done|]. cbn [snd].
  assert (g_pool_state_loaded (dup_reset id p) = g_pool_state_loaded p) as H
    by (unfold dup_reset; destruct (negb _); by destruct p).
  destruct (bool_decide _); [done|]. rewrite <- H. destruct (dup_reset id p). cbn. unfold owner_share, worker_share, at_worker.
  cbn. by repeat case_match.
Qed.

(** The file is read once: no step unreads it. *)
Lemma step_loaded s e s' :
  pool_step owner s e s' -> g_pool_state_loaded s.1 = true -> g_pool_state_loaded s'.1 = true.
Proof.
  intros H Hl. destruct H; cbn [fst] in *; try done.
  - unfold register_worker. rewrite save_loaded. unfold at_worker, load_once. rewrite Hl. destruct p. cbn. by destruct (_ =? 0).
  - unfold heartbeat. destruct (list_find _ _) as [[? [? ?]]|]; by destruct p.
  - by destruct p.
  - unfold published. destruct (job_current _ _); [done|]. destruct (negb _); by destruct p.
  - pose proof (credit_loaded owner addr id nonce now now' p) as E. rewrite H0 in E. cbn in E. congruence.
  - pose proof (credit_loaded owner addr id nonce now now' p) as E. rewrite H0 in E. cbn in E. congruence.
  - unfold count_block. destruct (_ =? _); by destruct p.
  - by rewrite save_loaded.
  - unfold record_payout. rewrite save_loaded, settle_loaded. by destruct p.
Qed.

Lemma t_locked {A} o (f : PoolState -> A * PoolState) :
  (forall p, g_pool_state_loaded p = true -> exists e, pool_step owner (p, o) e ((f p).2, o) /\ unpaid [e]) ->
  triple o (locked f) (calm o).
Proof.
  intros Hf s r s' ev [Hs1 Hs2]. unfold locked. destruct (Hf _ Hs1) as (e & He & Hu).
  destruct (f (server_pool s)) as [a p] eqn:E. cbn [snd] in He. intros [= <- <- <-].
  split; [split; [by apply (step_loaded _ _ _ He)|done]|]. exists [e], o. split; [by apply run_single|done].
Qed.
Lemma t_on_pool o f :
  (forall p, g_pool_state_loaded p = true -> exists e, pool_step owner (p, o) e (f p, o) /\ unpaid [e]) ->
  triple o (on_pool f) (calm o).
Proof. intros Hf. by apply (t_locked o (fun p => (tt, f p))). Qed.

Lemma calm_ret {A} o (a : A) : triple o (mret a) (calm o).
Proof. apply t_ret. split; [done|constructor]. Qed.
Lemma calm_bind {A B} o (m : http_op A) (f : A -> http_op B) :
  triple o m (calm o) -> (forall a, triple o (f a) (calm o)) -> triple o (m ≫= f) (calm o).
Proof. apply t_bind, calm_extendable. Qed.
Lemma calm_catching {A} o (m : http_op A) h :
  triple o m (calm o) -> (forall e, triple o (h e) (calm o)) -> triple o (catching m h) (calm o).
Proof.
  intros Hm Hh. apply t_catching; [apply calm_extendable| |done].
  intros s r s' ev Hs E. destruct (Hm s r s' ev Hs E) as (H1 & es & o' & H2 & H3). split; [done|].
  exists es, o'. split; [done|]. by destruct r.
Qed.

Lemma quiet_unpaid : unpaid [Quiet].
Proof. by repeat constructor. Qed.
Ltac quiet_step := let p := fresh "p" in intros p ?; exists Quiet; split; [|exact quiet_unpaid].

Lemma save_triple o io : triple o (on_pool (pool_save_state_unlocked io)) (calm o).
Proof. apply t_on_pool. quiet_step. constructor. Qed.

(** Peel a handler: its calls, its sections and what happens between them. *)
Ltac peel_step :=
  match goal with
  | |- forall _, _ => intros
  | |- triple _ (mbind _ _) (calm _) => apply calm_bind
  | |- triple _ (mret _) (calm _) => apply calm_ret
  | |- triple _ (reading _) (calm _) => apply t_reading
  | |- triple _ (on_node _) (calm _) => apply t_node
  | |- triple _ (on_pool (pool_save_state_unlocked _)) _ => apply save_triple
  | |- triple _ (update _) _ => by apply t_update
  | |- triple _ (catching _ _) (calm _) => apply calm_catching
  | |- triple _ (asking _) _ => apply t_asking_ready
  | |- triple _ (if _ then _ else _) _ => apply t_if
  | |- triple _ (match ?x with _ => _ end) _ => destruct x
  | |- triple _ (locked _) _ => apply t_locked; quiet_step
  | |- triple _ (on_pool _) _ => apply t_on_pool; quiet_step
  end.
Ltac peel := repeat (cbv zeta; peel_step).

Lemma register_triple o now now' io req : triple o (pool_register now now' io req) (calm o).
Proof. unfold pool_register. peel. by constructor. Qed.

Lemma telemetry_triple o now_ms now req : triple o (pool_telemetry now_ms now req) (calm o).
Proof.
  unfold pool_telemetry. peel. destruct (g_pool_workers p !! _) as [w|] eqn:E; cbn [snd].
  - by constructor.
  - apply (step_save _ SaveRefused).
Qed.

Definition attempt_respects (a : JobAttempt) : Prop :=
  respects (at_checked a) /\ respects (at_chain_read a) /\ respects (at_built a) /\ respects (at_publishing a).

Lemma attempts_triple o attempts : Forall attempt_respects attempts -> triple o (job_attempts attempts) (calm o).
Proof.
  induction 1 as [|a l (H1 & H2 & H3 & H4) Hl IH]; cbn [job_attempts]; [peel|].
  unfold pool_candidate. peel; try done. constructor.
Qed.

Lemma job_triple o now lock0 f a1 a2 addr :
  respects f -> attempt_respects a1 -> attempt_respects a2 ->
  triple o (pool_job now lock0 f a1 a2 addr) (calm o).
Proof.
  intros Hf H1 H2. unfold pool_job. peel.
  - constructor.
  - apply attempts_triple. by apply Forall_cons_2; [|apply Forall_singleton].
Qed.

Definition submission_respects (e : Submission) : Prop :=
  respects (sub_hashing e) /\ respects (sub_credited e) /\ respects (sub_submitted e) /\ respects (sub_finished e).

Lemma finish_triple o e id solved credited is_block :
  submission_respects e -> triple o (submit_finish e id solved credited is_block) (calm o).
Proof.
  intros (H1 & H2 & H3 & H4). unfold submit_finish, submit_block. peel. constructor.
Qed.

Lemma credit_triple o s addr id nonce now now' :
  pool_ready s -> addr <> [] ->
  triple o (locked (credit_share (my_address (server_wallet s)) addr id nonce now now')) (calm o).
Proof.
  intros [_ ->] Ha. apply t_locked. intros p _.
  destruct (credit_share owner addr id nonce now now' p) as [c p'] eqn:E. cbn [snd].
  destruct (decide (c = Credited)) as [->|Hc].
  - exists (Share addr). split; [by econstructor|by repeat constructor].
  - exists Quiet. split; [by econstructor|by repeat constructor].
Qed.

Lemma submit_triple o e req : submission_respects e -> triple o (pool_submit e req) (calm o).
Proof.
  intros He. pose proof He as (H1 & _). unfold pool_submit. case_bool_decide as Ha; [peel|].
  apply t_if; [peel|]. apply t_asking_ready. intros s Hs. cbv zeta. do 3 (apply t_if; [peel|]).
  apply calm_bind; [by apply t_update|]. intros _. apply t_if; [|by apply finish_triple].
  apply t_asking_ready. intros s' Hs'. apply calm_bind; [by apply credit_triple|].
  intros []; [peel|peel|by apply finish_triple].
Qed.

(** ** Payouts *)

Definition payout_respects (e : PayoutEnv) : Prop :=
  respects (pay_snapped e) /\ respects (pay_chain_read e) /\ respects (pay_collected e) /\
  respects (pay_submitted e) /\ respects (pay_settling e).

(** A payout that reports success settled its snapshot, as its last step;
    otherwise nothing was settled. *)
Definition settles (snap : snapshot) (r : result PoolPayoutResult) (es : list Entry) (o : option snapshot) : Prop :=
  match r with
  | Ok (PayoutOk _ _ _ _) => o = None /\ exists es0, es = es0 ++ [Paid snap] /\ unpaid es0
  | _ => o = Some snap /\ unpaid es
  end.

Lemma settles_extendable snap : extendable (Some snap) (settles snap).
Proof.
  split; [done|]. intros r es es' o' Hu. destruct r as [[|]|]; cbn; intros [-> H].
  - split; [done|]. by apply unpaid_app.
  - split; [done|]. destruct H as (es0 & -> & H). exists (es ++ es0). split; [by rewrite app_assoc|by apply unpaid_app].
  - split; [done|]. by apply unpaid_app.
Qed.
Lemma settles_bind {B} snap (m : http_op B) (f : B -> http_op PoolPayoutResult) :
  triple (Some snap) m (calm (Some snap)) -> (forall a, triple (Some snap) (f a) (settles snap)) ->
  triple (Some snap) (m ≫= f) (settles snap).
Proof. apply t_bind, settles_extendable. Qed.
Lemma settles_error snap err : triple (Some snap) (mret (PayoutError err)) (settles snap).
Proof. apply t_ret. split; [done|constructor]. Qed.

Lemma record_triple snap e h id assigned fee n m :
  triple (Some snap) (_ ← on_pool (record_payout e h id assigned fee n snap); mret (PayoutOk id assigned fee m))
    (settles snap).
Proof.
  intros s r s' ev [Hs1 Hs2]. unfold on_pool. rewrite run_update. intros [= <- <- <-].
  assert (pool_step owner (server_pool s, Some snap) (Paid snap)
    (record_payout e h id assigned fee n snap (server_pool s), None)) as Hst by constructor.
  split; [split; [by apply (step_loaded _ _ _ Hst)|done]|].
  exists [Paid snap], None. split; [by apply run_single|]. split; [done|]. exists []. split; [done|constructor].
Qed.

Lemma collect_triple o f : respects f -> triple o (collect_my_utxos f) (calm o).
Proof. intros Hf. unfold collect_my_utxos. peel. Qed.

Lemma body_triple snap total e :
  payout_respects e -> triple (Some snap) (payout_body e snap total) (settles snap).
Proof.
  intros (H1 & H2 & H3 & H4 & H5). unfold payout_body. apply t_asking. intros s.
  destruct (server_wallet s) as [w|]; [|apply settles_error].
  apply settles_bind; [apply t_reading|]. intros addr. apply t_if; [apply settles_error|].
  apply settles_bind; [by apply collect_triple|]. intros utxos. cbv zeta. apply t_if; [apply settles_error|].
  apply settles_bind; [by apply t_update|]. intros _. apply t_asking. intros s'. cbv zeta.
  apply t_if; [apply settles_error|]. destruct (gather _ _ _) as [ins gathered]. apply t_if; [apply settles_error|].
  do 2 (apply settles_bind; [apply t_reading|]; intros ?). apply settles_bind; [apply t_node|]. intros ok.
  apply t_if; [apply settles_error|]. apply settles_bind; [apply t_reading|]. intros id.
  apply settles_bind; [by apply t_update|]. intros _. apply settles_bind; [apply t_node|]. intros h.
  apply settles_bind; [by apply t_update|]. intros _. apply record_triple.
Qed.

(** The whole call, from no payout in progress to none. *)
Definition payout_run (r : result PoolPayoutResult) (es : list Entry) (snap : snapshot) : Prop :=
  match r with
  | Ok (PayoutOk _ _ _ _) => exists es0, es = es0 ++ [Paid snap] /\ unpaid es0
  | _ => unpaid es
  end.

Lemma payout_triple e s r s' ev :
  payout_respects e -> pool_ready s -> pool_execute_payout e s = (r, s', ev) ->
  pool_ready s' /\ exists es, run (server_pool s, None) es (server_pool s', None) /\
    payout_run r es (payout_snapshot (server_pool s)).
Proof.
  intros He Hs. pose proof He as (H1 & _). unfold pool_execute_payout, asking.
  set (snap := payout_snapshot (server_pool s)). destruct (_ =? 0).
  { intros [= <- <- <-]. split; [done|]. exists []. split; [constructor|constructor]. }
  intros E. assert (triple (Some snap) (_ ← update (pay_snapped e);
    catching (payout_body e snap (sum_u64 snap.*2)) (fun err => mret (PayoutError err))) (settles snap)) as Ht.
  { apply settles_bind; [by apply t_update|]. intros _.
    apply t_catching; [apply settles_extendable| |intros; apply settles_error].
    intros s1 r1 s2 ev1 Hs1 E1. destruct (body_triple snap _ e He s1 r1 s2 ev1 Hs1 E1) as (Hs2 & es & o & Hr & HQ).
    split; [done|]. exists es, o. split; [done|]. by destruct r1 as [[|]|]. }
  destruct (Ht s r s' ev Hs E) as (Hs' & es & o & Hr & HQ). split; [done|].
  assert (pool_step owner (server_pool s, None) Quiet (server_pool s, Some snap)) as Hsn by constructor.
  destruct r as [[err|id a f n]|err]; cbn in HQ.
  - destruct HQ as [-> Hu]. exists (Quiet :: es ++ [Quiet]). split; [|constructor; [done|by apply unpaid_app, quiet_unpaid]].
    econstructor; [exact Hsn|]. eapply run_app; [exact Hr|]. apply run_single. constructor.
  - destruct HQ as [-> (es0 & -> & Hu)]. exists (Quiet :: es0 ++ [Paid snap]). split; [by econstructor|].
    exists (Quiet :: es0). split; [done|by constructor].
  - destruct HQ as [-> Hu]. exists (Quiet :: es ++ [Quiet]). split; [|constructor; [done|by apply unpaid_app, quiet_unpaid]].
    econstructor; [exact Hsn|]. eapply run_app; [exact Hr|]. apply run_single. constructor.
Qed.

(** ** The handlers as one interface *)

(** A request the pool answers, with everything its handler meets. *)
Inductive PoolCall :=
  | CallRegister (now now' : Z) (io : SaveIO) (req : bytes)
  | CallTelemetry (now_ms now : Z) (req : bytes)
  | CallJob (now : Z) (lock0 : bool) (meanwhile : HttpRpcServer -> HttpRpcServer) (first second : JobAttempt) (addr : bytes)
  | CallSubmit (e : Submission) (req : bytes)
  | CallPayout (e : PayoutEnv).

(** The handler, of which only the result of a payout is kept. *)
Definition call (c : PoolCall) : http_op (option PoolPayoutResult) :=
  match c with
  | CallRegister now now' io req => _ ← pool_register now now' io req; mret None
  | CallTelemetry now_ms now req => _ ← pool_telemetry now_ms now req; mret None
  | CallJob now lock0 f a1 a2 addr => _ ← pool_job now lock0 f a1 a2 addr; mret None
  | CallSubmit e req => _ ← pool_submit e req; mret None
  | CallPayout e => r ← pool_execute_payout e; mret (Some r)
  end.
Definition call_respects (c : PoolCall) : Prop :=
  match c with
  | CallRegister _ _ _ _ | CallTelemetry _ _ _ => True
  | CallJob _ _ f a1 a2 _ => respects f /\ attempt_respects a1 /\ attempt_respects a2
  | CallSubmit e _ => submission_respects e
  | CallPayout e => payout_respects e
  end.

(** What a call paid: the snapshot of a payout that reported success. *)
Definition paid_by (s : HttpRpcServer) (r : result (option PoolPayoutResult)) : list snapshot :=
  match r with
  | Ok (Some (PayoutOk _ _ _ _)) => [payout_snapshot (server_pool s)]
  | _ => []
  end.
(** The payments of a run. *)
Definition payments (es : list Entry) : list snapshot :=
  omap (fun e => match e with Paid snap => Some snap | _ => None end) es.

Inductive served : HttpRpcServer -> list snapshot -> HttpRpcServer -> Prop :=
  | served_none s : served s [] s
  | served_call c s r s1 ev l s2 :
      call_respects c -> call c s = (r, s1, ev) -> served s1 l s2 -> served s (paid_by s r ++ l) s2.

Lemma unpaid_payments es : unpaid es -> payments es = [].
Proof. induction 1 as [|e es He _ IH]; [done|]. by destruct e. Qed.
Lemma payments_app es es' : payments (es ++ es') = payments es ++ payments es'.
Proof. apply omap_app. Qed.

(** A handler that pays nothing. *)
Lemma call_quiet {A} (m : http_op A) o s r s1 ev :
  triple o m (calm o) -> pool_ready s ->
  (m ≫= fun _ => mret None : http_op (option PoolPayoutResult)) s = (r, s1, ev) ->
  pool_ready s1 /\ paid_by s r = [] /\
  exists es, run (server_pool s, o) es (server_pool s1, o) /\ unpaid es.
Proof.
  intros Hm Hs. unfold mbind, op_bind. destruct (m s) as [[[a|e] s'] ev'] eqn:E; intros [= <- <- <-];
    destruct (Hm _ _ _ _ Hs E) as (H1 & es & o' & H2 & -> & H3); split_and!; eauto.
Qed.

Lemma call_spec c s r s1 ev :
  call_respects c -> pool_ready s -> call c s = (r, s1, ev) ->
  pool_ready s1 /\ exists es, run (server_pool s, None) es (server_pool s1, None) /\ payments es = paid_by s r.
Proof.
  assert (forall r, (pool_ready s1 /\ paid_by s r = [] /\
    exists es, run (server_pool s, None) es (server_pool s1, None) /\ unpaid es) ->
    pool_ready s1 /\ exists es, run (server_pool s, None) es (server_pool s1, None) /\ payments es = paid_by s r) as Hq.
  { intros r' (H1 & -> & es & H2 & H3). split; [done|]. exists es. split; [done|by apply unpaid_payments]. }
  intros Hc Hs. destruct c; cbn in Hc |- *; intros E.
  - eapply Hq, call_quiet; [apply register_triple|done|exact E].
  - eapply Hq, call_quiet; [apply telemetry_triple|done|exact E].
  - eapply Hq, call_quiet; [|done|exact E]. destruct Hc as (? & ? & ?). by apply job_triple.
  - eapply Hq, call_quiet; [by apply submit_triple|done|exact E].
  - clear Hq. unfold mbind, op_bind in E. destruct (pool_execute_payout e s) as [[r' s'] ev'] eqn:E'.
    destruct (payout_triple e s r' s' ev' Hc Hs E') as (H1 & es & H2 & H3).
    destruct r' as [[err|id a f n]|err]; injection E as <- <- <-; (split; [done|]); exists es; (split; [done|]).
    + by apply unpaid_payments.
    + destruct H3 as (es0 & -> & H3). by rewrite payments_app, unpaid_payments.
    + by apply unpaid_payments.
Qed.

Lemma served_spec s l s' :
  served s l s' -> pool_ready s ->
  pool_ready s' /\ exists es, run (server_pool s, None) es (server_pool s', None) /\ payments es = l.
Proof.
  induction 1 as [s|c s r s1 ev l s2 Hc E _ IH]; intros Hs.
  { split; [done|]. exists []. split; [constructor|done]. }
  destruct (call_spec c s r s1 ev Hc Hs E) as (H1 & es1 & H2 & H3). destruct (IH H1) as (H4 & es2 & H5 & H6).
  split; [done|]. exists (es1 ++ es2). split; [by eapply run_app|]. by rewrite payments_app, H3, H6.
Qed.

(** Handlers of other threads are such interference themselves, so calls may
    overlap a payout and one another. *)
Lemma call_respecting c :
  call_respects c -> match c with CallPayout _ => False | _ => True end -> respects (fun s => (call c s).1.2).
Proof.
  intros Hc Hp s o Hs. destruct (call c s) as [[r s1] ev] eqn:E. cbn [fst snd].
  assert (pool_ready s1 /\ paid_by s r = [] /\ exists es, run (server_pool s, o) es (server_pool s1, o) /\ unpaid es)
    as (H1 & _ & H2); [|by split].
  destruct c; cbn in Hc, E; [..|done].
  - eapply call_quiet; [apply register_triple|done|exact E].
  - eapply call_quiet; [apply telemetry_triple|done|exact E].
  - eapply call_quiet; [|done|exact E]. destruct Hc as (? & ? & ?). by apply job_triple.
  - eapply call_quiet; [by apply submit_triple|done|exact E].
Qed.
End Runs.

(** C4: once the pool has read its state file, with the wallet's address fixed
    and not empty, the request handlers refine the ledger of shares: requests
    to register, report telemetry, fetch a job, submit a share and pay out, in
    any order, with other threads' steps between the locked sections of each,
    amount to a run of the pool's atomic steps whose payments are, in order,
    the snapshots of the payouts that reported success; a payout that reported
    an error paid nothing. If the pool's invariant holds at the start and no
    counter is near its limit, it holds after it and every worker's pending
    shares are those before, plus the ones credited, less the ones paid. Before
    the state was read this does not hold: the constructor loads the file
    without marking it read, and the first request that needs it loads it again
    over what was credited in between. *)
Theorem pool_handlers_refine {ssl : OpenSSL} {iter : UnorderedMap} {order : UtxoOrder} owner b s l s' :
  owner <> [] -> pool_ready owner s -> pool_good (server_pool s, None) -> counted b (server_pool s) ->
  served owner s l s' ->
  pool_ready owner s' /\ exists es, pool_run owner (server_pool s, None) es (server_pool s', None) /\ payments es = l /\
    (b + 2 * sizeZ es <= UINT64_MAX ->
     pool_good (server_pool s', None) /\ ledger_run owner (server_pool s) es (server_pool s')).
Proof.
  intros Ho Hs Hg Hc H. destruct (served_spec owner s l s' H Hs) as (Hs' & es & Hr & Hp).
  split; [done|]. exists es. split_and!; [done|done|]. intros Hb.
  by apply (pool_run_spec owner b (server_pool s, None) es (server_pool s', None)).
Qed.

(** ** Witness *)

Lemma respects_idle {ssl : OpenSSL} {iter : UnorderedMap} {order : UtxoOrder} owner : respects owner id.
Proof. intros s o Hs. split; [exact Hs|]. exists []. split; constructor. Qed.

Lemma paying_pool_good : pool_good (paying_pool, None) /\ counted 3 paying_pool.
Proof.
  assert (forall a, 0 <= shares_pending (worker_of paying_pool a) <= shares (worker_of paying_pool a) /\ shares (worker_of paying_pool a) <= 3) as Hw.
  { intros a. unfold worker_of.
    replace (g_pool_workers paying_pool) with (<[str "CZann" := mkWorker (str "CZann") (str "worker") 1 1 5 0 0 (S754_zero false)]>
      {[str "CZbob" := mkWorker (str "CZbob") (str "worker") 2 2 5 0 0 (S754_zero false)]} : gmap bytes PoolWorkerInfo)
      by decide_vm.
    destruct (decide (a = str "CZann")) as [->|H1]; [vm_compute; intuition discriminate|].
    destruct (decide (a = str "CZbob")) as [->|H2]; [vm_compute; intuition discriminate|].
    rewrite lookup_insert_ne, lookup_singleton_ne by done. cbn. lia. }
  split; [split|split]; cbn [fst snd]; try done.
  - decide_vm.
  - intros a. apply Hw.
  - intros a. apply Hw.
Qed.

(** A payout that goes through is a run with one payment. *)
Lemma pool_handlers_refine_witness :
  exists (s1 : HttpRpcServer (ssl := Toy.ssl)) es,
    pool_run (ssl := Toy.ssl) sample_owner (paying_pool, None) es (server_pool s1, None) /\
    payments es = [[(str "CZann", 1); (str "CZbob", 2)]].
Proof.
  destruct paying_run as [s1 E]. destruct paying_pool_good as [Hg Hc].
  destruct (pool_handlers_refine (ssl := Toy.ssl) (iter := listed) (order := listed_utxos) sample_owner 3
    paying_server [payout_snapshot paying_pool] s1) as (_ & es & Hr & Hp & _).
  - vm_compute. discriminate.
  - split; vm_compute; reflexivity.
  - exact Hg.
  - exact Hc.
  - change [payout_snapshot paying_pool] with (paid_by (ssl := Toy.ssl) paying_server (Ok (Some (PayoutOk
      (hash_to_hex (toy_txid paying_tx)) 3249999349 1749999650 2))) ++ []).
    eapply (served_call (ssl := Toy.ssl) (iter := listed) (order := listed_utxos) sample_owner
      (CallPayout (payout_alone true 0 77 SaveDone))); [split_and!; apply (respects_idle (ssl := Toy.ssl) (iter := listed) (order := listed_utxos))| |apply served_none].
    cbn [call]. unfold mbind, op_bind. rewrite E. reflexivity.
  - exists s1, es. split; [exact Hr|]. rewrite Hp. vm_compute. reflexivity.
Defined.
