(* ===== verification/PoolMining.v ===== *)
(** A block mined by the pool, from the job to the chain: [GET /api/pool/job]
    offers a candidate on the node's tip, and a nonce that solves it, posted to
    [/api/pool/submit], puts the block on the chain. *)

From S2P Require Import Prelude Serialization Crypto Transaction UTXO Ownership Coinbase.
From S2P Require Import Consensus Block ChainValidator Mempool BlockBuilder Storage Node Text Double PoolState.
From S2P Require Import Wallet Pool PoolFacts PoolPayout.
From stdpp Require Import options.
Local Open Scope Z_scope.

Section Mining.
Context {ssl : OpenSSL} {iter : UnorderedMap} {order : UtxoOrder}.

(** ** The node's side *)

Lemma submit_pool_solution_accepts n c r prev b r' :
  node_inv n c r -> running_ n = true -> sizeZ c < MAX_BLOCKS -> last c = Some prev ->
  block_validate_pow b = true -> extends c r b r' -> storable_block b ->
  exists n', submit_pool_solution no_faults true b n = (Ok true, n', [AnnounceBlock b]) /\
    node_inv n' (c ++ [b]) r' /\ transactions_ (mempool_ n') = ∅.
Proof.
  intros H Hrun Hlen Hlast Hpow He Hsb. pose proof He as [_ (p & Hp & Hh & Hph & _) _ _ _]. simplify_eq.
  assert (validate_block_consensus b c (utxo r) = Ok true) as Hcons
    by (apply (validate_block_consensus_spec c r b (ni_valid _ _ _ H)); eauto).
  destruct (append_spec (storage_ n) c r b (ni_load _ _ _ H) (ni_valid _ _ _ H) Hcons Hsb Hlen) as (d' & Ha & Hl).
  unfold submit_pool_solution, load_chain. rewrite run_require, Hrun, run_reading, (ni_load _ _ _ H), Hlast.
  unfold hash_eqb. rewrite Hph, bool_decide_eq_true_2, Hh, Z.eqb_refl, Hpow by done. cbn [negb].
  rewrite run_reading, (rebuild_loaded n c r H), run_reading, Hcons. cbn [negb].
  rewrite run_storing, Ha. eexists. split; [reflexivity|]. split; [|done].
  split; simpl; [done| |done|apply pool_inv_empty|apply map_Forall_empty].
  by eapply valid_extend; [apply H|].
Qed.

(** ** The job *)

(** Nothing else runs. *)
Definition alone (now : Z) : JobAttempt := mkAttempt true id id now id true id.
Definition coinbase_recipient (s : HttpRpcServer) : bytes :=
  let to := my_address (server_wallet s) in if bool_decide (to = []) then str "CAESAR_POOL_COINBASE" else to.

Lemma run_on_node {A B} (m : node_op A) (f : A -> op HttpRpcServer Event B) s a n :
  m (server_node s) = (Ok a, n, []) -> (on_node m ≫= f) s = f a (set_server_node n s).
Proof. intros E. unfold mbind, op_bind, on_node. rewrite E. apply run_nil. Qed.

Lemma pool_job_spec s c r prev now t second b :
  node_inv (server_node s) c r -> running_ (server_node s) = true -> sizeZ c < MAX_BLOCKS -> last c = Some prev ->
  build prev (mempool_ (server_node s)) (coinbase_recipient s) (block_time now prev) (expected_next_difficulty c) 0
    (Some (utxo r)) = Ok b ->
  height (header b) = u64 (height (header prev) + 1) ->
  job_current (height (header prev)) (g_pool_current_job (server_pool s)) = false ->
  exists n, node_inv n c r /\ running_ n = true /\
    let s' := set_pool (publish_job b (coinbase_recipient s) (server_pool s)) (set_server_node n s) in
    pool_job t true id (alone now) second [] s = (Ok (emit_current_job (g_pool_current_job (server_pool s'))), s', []).
Proof.
  intros H Hrun Hlen Hlast Hb Hh Hj. unfold pool_job. rewrite bool_decide_true, run_ret by done.
  assert (tip_height_of c = height (header prev)) as Ht by (unfold tip_height_of; by rewrite Hlast).
  destruct (node_height_spec _ c r H) as (n1 & E1 & H1 & R1 & M1). rewrite (run_on_node _ _ _ _ _ E1).
  unfold asking at 1. cbn [server_pool set_server_node]. rewrite Ht, Hj, run_idle. cbn [job_attempts].
  destruct (node_height_spec _ c r H1) as (n2 & E2 & H2 & R2 & M2).
  rewrite (run_on_node _ _ _ _ n2) by exact E2. unfold asking at 1. cbn [server_pool set_server_node].
  rewrite Ht, Hj. cbn [at_checked alone]. rewrite run_idle. unfold asking at 1. cbn [server_wallet set_server_node].
  set (s2 := set_server_node n2 _).
  change (if bool_decide (my_address (server_wallet s) = []) then str "CAESAR_POOL_COINBASE"
          else my_address (server_wallet s)) with (coinbase_recipient s).
  assert (coinbase_recipient s <> []) as Hto.
  { unfold coinbase_recipient. case_bool_decide; [done|done]. }
  assert (pool_candidate (alone now) (coinbase_recipient s) s2 = (Ok b, s2, [])) as Hc.
  { unfold pool_candidate, s2. rewrite (run_on_node _ _ _ c n2).
    - cbn [at_chain_read alone]. rewrite run_idle. unfold on_node, pool_candidate_on. cbn [server_node set_server_node].
      rewrite Hlast, run_reading, (rebuild_loaded n2 c r H2). unfold reading. rewrite M2, M1. cbn [at_time alone].
      by rewrite Hb.
    - cbn [server_node set_server_node]. unfold pool_chain_snapshot, load_chain. rewrite run_require, R2, R1, Hrun.
      rewrite run_require, bool_decide_false by done. cbn [negb]. unfold reading. by rewrite (ni_load _ _ _ H2). }
  unfold catching. unfold mbind at 1, op_bind at 1. unfold mbind at 1, op_bind at 1. rewrite Hc. cbn [mret op_ret].
  cbn [app]. cbn [at_built alone]. rewrite run_idle.
  destruct (node_height_spec _ c r H2) as (n3 & E3 & H3 & R3 & M3).
  rewrite (run_on_node _ _ _ _ n3) by exact E3. rewrite Ht, Hh, Z.eqb_refl. cbn [negb at_publishing alone].
  rewrite run_idle. exists n3. split; [done|]. split; [congruence|].
  unfold mbind at 1, op_bind at 1, locked. unfold published, s2. cbn [server_pool set_server_node].
  rewrite Hj, Z.eqb_refl. cbn [negb]. reflexivity.
Qed.

(** ** The solution *)

Definition submit_alone (now now' : Z) (io : SaveIO) : Submission :=
  mkSubmission id now now' id no_faults true id id io.

(** A request that names the worker, the job and the nonce. *)
Definition solution_request (req worker : bytes) (job nonce : Z) : Prop :=
  json_string req "address" = worker /\ json_u64 req "job_id" = job /\ json_u64 req "nonce" = nonce.

Lemma share_difficulty_le d : 1 <= d -> pool_share_difficulty d <= d.
Proof. unfold pool_share_difficulty. destruct (8 <? d) eqn:E; zbool; lia. Qed.
Lemma meets_easier h d d' : d' <= d -> pow_meets_difficulty h d = true -> pow_meets_difficulty h d' = true.
Proof.
  unfold pow_meets_difficulty. intros Hd. destruct (256 <? d) eqn:E; [done|].
  destruct (256 <? d') eqn:E'; zbool; lia.
Qed.

Lemma credit_blocks w addr id nonce now now' p :
  g_pool_total_blocks (credit_share w addr id nonce now now' p).2 = g_pool_total_blocks p.
Proof.
  unfold credit_share. destruct (_ || _); [done|]. cbn [snd].
  assert (g_pool_total_blocks (dup_reset id p) = g_pool_total_blocks p) as H
    by (unfold dup_reset; destruct (negb _); by destruct p).
  destruct (bool_decide _); [done|]. rewrite <- H. destruct (dup_reset id p). cbn. unfold owner_share, worker_share, at_worker.
  cbn. by repeat case_match.
Qed.

Lemma pool_submit_spec s c r r' prev job nonce worker req now now' io :
  node_inv (server_node s) c r -> running_ (server_node s) = true -> sizeZ c < MAX_BLOCKS -> last c = Some prev ->
  g_pool_current_job (server_pool s) = job -> active job = true -> job_wf job -> header_hex job <> [] ->
  1 <= block_difficulty job ->
  block_validate_pow (with_nonce (candidate job) nonce) = true ->
  extends c r (with_nonce (candidate job) nonce) r' -> storable_block (with_nonce (candidate job) nonce) ->
  solution_request req worker (job_id job) nonce -> starts_with (str "CZ") worker = true ->
  dup_key worker nonce ∉ seen_of (job_id job) (server_pool s) ->
  exists s', pool_submit (submit_alone now now' io) req s =
      (Ok (submit_response true true true), s', [AnnounceBlock (with_nonce (candidate job) nonce)]) /\
    node_inv (server_node s') (c ++ [with_nonce (candidate job) nonce]) r' /\
    g_pool_total_blocks (server_pool s') = u64 (g_pool_total_blocks (server_pool s) + 1) /\
    active (g_pool_current_job (server_pool s')) = false.
Proof.
  intros H Hrun Hlen Hlast <- Ha Hwf Hhex Hd Hpow He Hsb (Q1 & Q2 & Q3) Hcz Hdup.
  set (job := g_pool_current_job (server_pool s)) in *. destruct (Hwf Ha) as (Wh & Wd & Ws & _).
  unfold pool_submit. rewrite Q1, Q2, Q3, Hcz. rewrite bool_decide_false by (by intros ->). cbn [negb].
  unfold asking at 1. fold job. rewrite Ha, Z.eqb_refl. cbn [negb orb]. rewrite bool_decide_false by done.
  rewrite (proj2 (Z.eqb_neq _ 0)) by lia. rewrite Wh.
  assert (pow_meets_difficulty (calculate_pow_hash (pow_header (candidate job)) nonce) (block_difficulty job) = true) as Hb.
  { rewrite Wd. exact Hpow. }
  assert (pow_meets_difficulty (calculate_pow_hash (pow_header (candidate job)) nonce) (share_difficulty job) = true) as Hsh.
  { rewrite Ws. eapply meets_easier; [by apply share_difficulty_le|done]. }
  cbn [sub_hashing submit_alone]. rewrite run_idle, Hsh, Hb. unfold asking at 1.
  unfold mbind at 1, op_bind at 1, locked at 1.
  pose proof (credit_share_spec (my_address (server_wallet s)) worker (job_id job) nonce now now' (server_pool s)
    (conj Ha eq_refl)) as Hc.
  cbn [sub_now sub_now' submit_alone]. destruct (credit_share _ _ _ _ _ _ _) as [cr p1] eqn:Ec. destruct Hc as (-> & [Ja Ji] & _).
  rewrite bool_decide_false by done.
  assert (g_pool_total_blocks p1 = g_pool_total_blocks (server_pool s)) as Hbl.
  { pose proof (credit_blocks (my_address (server_wallet s)) worker (job_id job) nonce now now' (server_pool s)) as E.
    by rewrite Ec in E. }
  destruct (submit_pool_solution_accepts (server_node s) c r prev _ r' H Hrun Hlen Hlast Hpow He Hsb)
    as (n' & En & Hn & _).
  set (s1 := set_pool p1 s). set (s2 := set_pool (count_block (job_id job) p1).2 (set_server_node n' s1)).
  assert (submit_block (submit_alone now now' io) (job_id job) (with_nonce (candidate job) nonce) s1
    = (Ok true, s2, [AnnounceBlock (with_nonce (candidate job) nonce)])) as Hblk.
  { unfold submit_block, catching, mbind, op_bind, on_node, s1. cbn [server_node set_pool sub_faults sub_relay submit_alone].
    rewrite En. cbn -[count_block]. unfold locked. cbn [server_pool set_server_node set_pool id].
    unfold s2, count_block. rewrite Ji, Z.eqb_refl. reflexivity. }
  unfold submit_finish. unfold mbind at 1, op_bind at 1. cbn [sub_credited submit_alone]. rewrite run_idle, Hblk.
  cbn [sub_finished submit_alone]. rewrite run_idle. cbn [orb]. unfold on_pool. rewrite run_update.
  eexists. split; [reflexivity|]. split; [exact Hn|].
  unfold s2, count_block. rewrite Ji, Z.eqb_refl.
  cbn [server_pool set_pool set_server_node sub_save submit_alone snd]. destruct io, p1; cbn in *; by rewrite Hbl.
Qed.

Lemma pow_header_nonempty b : pool_bytes_to_hex (pow_header b) <> [].
Proof.
  intros E. assert (pow_header b = []) as H by (rewrite <- (pool_hex_roundtrip (pow_header b)), E; done).
  apply (f_equal length) in H. unfold pow_header in H. rewrite header_serialize_encode in H. unfold enc_header in H.
  rewrite !length_app, !le_encode_length in H. simpl in H. lia.
Qed.

(** ** Claim *)

(** C14: a block mined through the pool: from a running node whose chain and
    pool satisfy the invariant, where the pool has no current job for the next
    height and no share recorded under the number it gives the next job, the
    job handler hands out a job whose candidate is the block the node builds on
    its tip, and a worker with a CZ address who posts a nonce that solves that
    block gets it stored on the chain and announced, is credited a share, and
    the job is closed. Nothing else runs meanwhile, no system call fails and
    the relay sends; the block can be built with a difficulty of at least 1 and
    is within the 16 MiB of the file format (a full pool of transactions can
    exceed them); the id of the new coinbase is the id of no unspent output and
    no pooled transaction, and the id of zeroes neither; the chain has fewer
    than ten million blocks with fields within their types. *)
Theorem pool_block_mined s c r prev b cbid now t second nonce worker :
  node_inv (server_node s) c r -> running_ (server_node s) = true -> Forall block_typed c ->
  sizeZ c < MAX_BLOCKS -> last c = Some prev ->
  utxo r !! mkOutPoint zero_hash UINT32_MAX = None ->
  transactions_ (mempool_ (server_node s)) !! zero_hash = None ->
  build prev (mempool_ (server_node s)) (coinbase_recipient s) (block_time now prev) (expected_next_difficulty c) 0
    (Some (utxo r)) = Ok b ->
  (cb ← make_coinbase_transaction (sizeZ c) (coinbase_recipient s) (sizeZ c); txid cb) = Ok cbid ->
  (forall q, is_Some (utxo r !! q) -> op_txid q <> cbid) ->
  transactions_ (mempool_ (server_node s)) !! cbid = None ->
  1 <= expected_next_difficulty c -> block_validate_pow (with_nonce b nonce) = true ->
  storable_block (with_nonce b nonce) ->
  job_current (height (header prev)) (g_pool_current_job (server_pool s)) = false ->
  dup_seen_job (server_pool s) <> u64 (g_pool_job_counter (server_pool s) + 1) ->
  starts_with (str "CZ") worker = true ->
  exists job s1, pool_job t true id (alone now) second [] s = (Ok (emit_current_job job), s1, []) /\
    g_pool_current_job (server_pool s1) = job /\ candidate job = b /\ job_id job = u64 (g_pool_job_counter (server_pool s) + 1) /\
    forall req now' now'' io, solution_request req worker (job_id job) nonce ->
      exists s2 r', pool_submit (submit_alone now' now'' io) req s1 =
          (Ok (submit_response true true true), s2, [AnnounceBlock (with_nonce b nonce)]) /\
        node_inv (server_node s2) (c ++ [with_nonce b nonce]) r' /\
        g_pool_total_blocks (server_pool s2) = u64 (g_pool_total_blocks (server_pool s) + 1) /\
        active (g_pool_current_job (server_pool s2)) = false.
Proof.
  intros H Hrun Hty Hlen Hlast Hu0 Hz Hb Hcb Hfr Hcbp Hd Hpow Hsb Hj Hdup Hcz.
  pose proof (build_inv _ _ _ _ _ _ _ _ Hb) as (_ & _ & _ & _ & _ & _ & _ & _ & Hh & _ & _ & Hbd).
  assert (exists r', extends c r (with_nonce b nonce) r') as [r' He].
  { apply (solved_block_extends c r prev (mempool_ (server_node s)) (coinbase_recipient s) (block_time now prev) b nonce cbid);
      try assumption; [apply H|unfold MAX_BLOCKS in Hlen; ints|apply H|].
    unfold block_time. destruct (_ <? timestamp _) eqn:E; zbool; lia. }
  destruct (pool_job_spec s c r prev now t second b H Hrun Hlen Hlast Hb Hh Hj) as (n & Hn & Hnr & Ej).
  cbv zeta in Ej. set (p1 := publish_job b (coinbase_recipient s) (server_pool s)) in Ej.
  assert (g_pool_current_job p1 = mkJob true (u64 (g_pool_job_counter (server_pool s) + 1))
    (pool_bytes_to_hex (pow_header b)) (pool_share_difficulty (difficulty (header b))) (difficulty (header b))
    (height (header b)) b (coinbase_recipient s)) as Ejob by (unfold p1, publish_job; by destruct (server_pool s)).
  eexists _, _. split; [exact Ej|]. split; [reflexivity|]. cbn [server_pool set_pool]. rewrite Ejob. split; [done|]. split; [done|].
  intros req now' now'' io Hreq.
  destruct (pool_submit_spec (set_pool p1 (set_server_node n s)) c r r' prev (g_pool_current_job p1) nonce worker req
    now' now'' io) as (s2 & E2 & Hs2 & Hbl & Hac); try done; try (by rewrite Ejob).
  - rewrite Ejob. intros _. cbn. split_and!; [apply pool_hex_roundtrip|done..].
  - rewrite Ejob. apply pow_header_nonempty.
  - rewrite Ejob. cbn. lia.
  - rewrite Ejob. unfold seen_of. cbn [job_id server_pool set_pool].
    assert (dup_seen_job p1 = dup_seen_job (server_pool s)) as -> by (unfold p1, publish_job; by destruct (server_pool s)).
    rewrite (proj2 (Z.eqb_neq _ _)) by done. set_solver.
  - exists s2, r'. rewrite Ejob in E2, Hs2. split; [exact E2|]. split; [exact Hs2|]. split; [|done].
    rewrite Hbl. cbn [server_pool set_pool]. unfold p1, publish_job. by destruct (server_pool s).
Qed.
End Mining.

(** ** Witness *)

#[local] Transparent calculate_pow_hash.

Definition sample_server : HttpRpcServer (ssl := Toy.ssl) :=
  mkServer sample_node (set_state_loaded true (new_pool None)) (Some sample_wallet) true [].
Definition sample_request : bytes := json "{'address':'CZworker','job_id':1,'nonce':0}".

Lemma pool_block_mined_witness :
  exists s1 s2 r',
    pool_job (ssl := Toy.ssl) (iter := listed) 0 true id (alone 120) (alone 121) [] sample_server =
      (Ok (emit_current_job (g_pool_current_job (server_pool s1))), s1, []) /\
    pool_submit (ssl := Toy.ssl) (submit_alone 130 130 SaveDone) sample_request s1 =
      (Ok (submit_response true true true), s2, [AnnounceBlock built_block]) /\
    node_inv (ssl := Toy.ssl) (server_node s2) (node_chain ++ [built_block]) r'.
Proof.
  destruct (pool_block_mined (ssl := Toy.ssl) (iter := listed) sample_server node_chain sample_result1 chain_block1
    built_block built_coinbase_id 120 0 (alone 121) 0 (str "CZworker")) as (job & s1 & E1 & Ej & Ec & Ei & H).
  - apply sample_node_inv.
  - reflexivity.
  - decide_vm.
  - decide_vm.
  - reflexivity.
  - decide_vm.
  - decide_vm.
  - decide_vm.
  - decide_vm.
  - intros q [o Ho]. cbn [utxo sample_result1] in Ho. apply lookup_singleton_Some in Ho as [<- _].
    decide_vm.
  - decide_vm.
  - decide_vm.
  - destruct (mine_inv (ssl := Toy.ssl) _ _ _ _ built_block_mined) as (n & E & Hp). change (with_nonce built_block 0) with built_block.
    exact Hp.
  - decide_vm.
  - reflexivity.
  - discriminate.
  - reflexivity.
  - destruct (H sample_request 130 130 SaveDone) as (s2 & r' & E2 & Hn & _).
    { split; [reflexivity|]. split; [rewrite Ei|]; reflexivity. }
    exists s1, s2, r'. rewrite Ej. split; [exact E1|]. split; [exact E2|exact Hn].
Defined.
