(* ===== verification/Worker.v ===== *)
(** pool_worker.cpp: the client that mines for a pool. It speaks HTTP over a
    socket of its own, asks for a job, tries nonces and posts those that meet
    the share difficulty. The network is the parameter [exchange]: it carries
    the text of a request to a host and returns the text that came back, or
    nothing where there is no connection. Nothing sets [stop], so a thread
    repeats its rounds for ever; [worker_rounds] is any number of them. *)

From S2P Require Import Prelude Serialization Crypto Transaction UTXO Ownership Coinbase.
From S2P Require Import Consensus Block ChainValidator Mempool BlockBuilder Storage Node Text Double PoolState.
From S2P Require Import Wallet Pool PoolFacts PoolPayout PoolMining.
From stdpp Require Import options.
Local Open Scope Z_scope.

(** ** HTTP by hand *)

Record HttpResult := mkHttp { http_status : Z; http_body : bytes; http_ok : bool }.
Definition no_result : HttpResult := mkHttp 0 [] false.

(** A slash before the colon makes the length of the port text wrap, and the
    text runs to the end. *)
Definition parse_host_port (url : bytes) : result (option (bytes * Z)) :=
  let s := if starts_with (str "http://") url then drop 7 url else url in
  let colon := find_str (str ":") s in
  let slash := find_str (str "/") s in
  '(host, port) ←
    match colon with
    | None => Ok (match slash with None => s | Some k => take k s end, 80)
    | Some c =>
        let p := match slash with
                 | None => drop (c + 1) s
                 | Some k => if (c <? k)%nat then substr s (c + 1) (k - c - 1) else drop (c + 1) s
                 end in
        n ← stoi p; Ok (take c s, u16 n)
    end;
  Ok (if negb (bool_decide (host = [])) && negb (port =? 0) then Some (host, port) else None).

Definition request_text (host : bytes) (port : Z) (method path body : bytes) : bytes :=
  let post := bool_decide (method = str "POST") in
  method ++ str " " ++ path ++ str " HTTP/1.1" ++ crlf ++ str "Host: " ++ host ++ str ":" ++ dec_str port ++ crlf
  ++ (if post then str "Content-Type: application/json" ++ crlf ++ str "Content-Length: " ++ dec_str (sizeZ body) ++ crlf else [])
  ++ str "Connection: close" ++ crlf ++ crlf ++ (if post then body else []).

Definition parse_response (resp : bytes) : result HttpResult :=
  match find_str (crlf ++ crlf) resp with
  | None => Ok no_result
  | Some hdr_end =>
      code ← match find_str (str " ") resp with None => Ok 0 | Some sp1 => stoi (substr resp (sp1 + 1) 3) end;
      Ok (mkHttp code (drop (hdr_end + 4) resp) (code =? 200))
  end.

(** ** The process *)

Record WorkerArgs := mkArgs { arg_pool : bytes; arg_address : bytes; arg_name : bytes; arg_threads : Z }.
Definition default_args : WorkerArgs := mkArgs [] [] (str "worker") 1.
Fixpoint parse_args (argv : list bytes) (a : WorkerArgs) : result WorkerArgs :=
  match argv with
  | flag :: ((value :: rest) as tl) =>
      if bool_decide (flag = str "--pool") then parse_args rest (mkArgs value (arg_address a) (arg_name a) (arg_threads a))
      else if bool_decide (flag = str "--address") then parse_args rest (mkArgs (arg_pool a) value (arg_name a) (arg_threads a))
      else if bool_decide (flag = str "--name") then parse_args rest (mkArgs (arg_pool a) (arg_address a) value (arg_threads a))
      else if bool_decide (flag = str "--threads") then
        n ← stoi value; parse_args rest (mkArgs (arg_pool a) (arg_address a) (arg_name a) n)
      else parse_args tl a
  | _ => Ok a
  end.

(** The counters the threads share, beside the world behind the network. *)
Record Worker (S : Type) := mkWorkerState { world : S; hashes_done : Z; submitted : Z; accepted : Z }.
Arguments mkWorkerState {S} world hashes_done submitted accepted.
Arguments world {S} w.
Arguments hashes_done {S} w.
Arguments submitted {S} w.
Arguments accepted {S} w.

Definition count_hash {S} (w : Worker S) : Worker S :=
  mkWorkerState (world w) (u64 (hashes_done w + 1)) (submitted w) (accepted w).
Definition count_submitted {S} (w : Worker S) : Worker S :=
  mkWorkerState (world w) (hashes_done w) (u64 (submitted w + 1)) (accepted w).
Definition count_accepted {S} (w : Worker S) : Worker S :=
  mkWorkerState (world w) (hashes_done w) (submitted w) (u64 (accepted w + 1)).

(** The bodies it posts. *)
Definition register_body (address name : bytes) : bytes :=
  json "{'address':'" ++ address ++ json "','worker':'" ++ name ++ json "'}".
Definition share_body (address : bytes) (job nonce : Z) : bytes :=
  json "{'address':'" ++ address ++ json "','job_id':" ++ dec_str job ++ json ",'nonce':" ++ dec_str nonce ++ json "}".
Definition telemetry_body (address : bytes) (hashes : Z) : bytes :=
  json "{'address':'" ++ address ++ json "','hashes':" ++ dec_str hashes ++ json "}".

Definition first_nonce (tid : Z) : Z := u64 (u64 tid * 1000003).
Definition TESTS : nat := Z.to_nat 50000000.

Section Client.
Context {ssl : OpenSSL} {S : Type} (exchange : bytes -> Z -> bytes -> S -> option bytes * S).
(** The events are the lines it prints. *)
Abbreviation worker_op := (op (Worker S) bytes).

Definition http_request (host : bytes) (port : Z) (method path body : bytes) : worker_op HttpResult := fun w =>
  let '(resp, s) := exchange host port (request_text host port method path body) (world w) in
  (match resp with None => Ok no_result | Some t => parse_response t end,
   mkWorkerState s (hashes_done w) (submitted w) (accepted w), []).

Definition worker_register (host : bytes) (port : Z) (address name : bytes) : worker_op HttpResult :=
  http_request host port (str "POST") (str "/api/pool/register") (register_body address name).

(** Up to the threads: [inl] is the exit code of a process that ends before. *)
Definition worker_setup (argv : list bytes) : worker_op (Z + bytes * Z * WorkerArgs) :=
  a ← reading (fun _ => parse_args argv default_args);
  if bool_decide (arg_pool a = []) || bool_decide (arg_address a = []) then
    _ ← emit (str "usage: caesar_worker --pool http://host:port --address CZ1... [--threads N]"); mret (inl 1)
  else
    hp ← reading (fun _ => parse_host_port (arg_pool a));
    match hp with
    | None => _ ← emit (str "[worker] invalid pool url"); mret (inl 1)
    | Some (host, port) =>
        _ ← emit (str "[worker] pool = " ++ host ++ str ":" ++ dec_str port);
        _ ← emit (str "[worker] address = " ++ arg_address a);
        _ ← emit (str "[worker] threads = " ++ dec_str (arg_threads a));
        r ← worker_register host port (arg_address a) (arg_name a);
        if http_ok r then _ ← emit (str "[worker] registered"); mret (inr (host, port, a))
        else
          _ ← emit (str "[worker] register failed: " ++ dec_str (http_status r) ++ str " " ++ http_body r); mret (inl 1)
    end.

Section Thread.
Context (host : bytes) (port : Z) (address name : bytes) (tid : Z).

(** One share is posted; whether the job turned out to be stale. *)
Definition post_share (job nonce : Z) : worker_op bool :=
  sr ← http_request host port (str "POST") (str "/api/pool/submit") (share_body address job nonce);
  _ ← update count_submitted;
  _ ← (if http_ok sr && bool_decide (find_str (json "'credited':true") (http_body sr) <> None) then update count_accepted
       else mret tt);
  asking (fun w =>
    _ ← emit (str "[worker:" ++ dec_str tid ++ str "] nonce=" ++ dec_str nonce ++ str " acc=" ++ dec_str (accepted w)
              ++ str " total=" ++ dec_str (submitted w));
    if bool_decide (find_str (json "'stale':true") (http_body sr) <> None) then
      _ ← emit (str "[worker:" ++ dec_str tid ++ str "] stale job detected, requesting new job"); mret true
    else mret false).

(** The nonces of one job. *)
Fixpoint worker_scan (tests : nat) (job : Z) (share_diff : Z) (header : bytes) (nonce : Z) : worker_op unit :=
  match tests with
  | O => mret tt
  | Datatypes.S tests =>
      _ ← update count_hash;
      if pow_meets_difficulty (calculate_pow_hash header nonce) share_diff then
        stale ← post_share job nonce;
        if (stale : bool) then mret tt else worker_scan tests job share_diff header (u64 (nonce + 1))
      else worker_scan tests job share_diff header (u64 (nonce + 1))
  end.

(** One turn of a thread's loop; the code has [TESTS] for [tests]. *)
Definition worker_round (tests : nat) : worker_op unit :=
  jr ← http_request host port (str "GET") (str "/api/pool/job?address=" ++ address) [];
  if negb (http_ok jr) then mret tt
  else
    let job := json_u64 (http_body jr) "job_id" in
    let share_diff := u32 (json_u64 (http_body jr) "share_difficulty") in
    let header_hex := json_string (http_body jr) "header_hex" in
    if (job =? 0) || bool_decide (header_hex = []) then mret tt
    else worker_scan tests job share_diff (pool_hex_to_bytes header_hex) (first_nonce tid).
Fixpoint worker_rounds (n : nat) : worker_op unit :=
  match n with O => mret tt | Datatypes.S n => _ ← worker_round TESTS; worker_rounds n end.

(** One turn of the telemetry thread. *)
Definition worker_telemetry : worker_op unit :=
  asking (fun w =>
    tr ← http_request host port (str "POST") (str "/api/pool/telemetry") (telemetry_body address (hashes_done w));
    if http_status tr =? 404 then _ ← worker_register host port address name; mret tt else mret tt).
End Thread.
End Client.

(** ** Texts *)

(** The lines before the body of an answer. *)
Definition head_text (lines : list bytes) : bytes := mjoin ((fun l => l ++ crlf) <$> lines) ++ crlf.
Definition head_line (l : bytes) : Prop := l <> [] /\ u8 13 ∉ l.

Lemma find_cr_skip p m s : u8 13 ∉ m -> find_str (u8 13 :: p) (m ++ s) = (fun i => length m + i)%nat <$> find_str (u8 13 :: p) s.
Proof.
  induction m as [|c m IH]; intros H; [cbn [app length]; by destruct (find_str (u8 13 :: p) s)|]. apply not_elem_of_cons in H as [Hc H].
  cbn [app find_str]. unfold starts_with at 1. cbn [length take]. rewrite bool_decide_false by (intros E; congruence).
  rewrite IH by done. by destruct (find_str (u8 13 :: p) s).
Qed.
Lemma find_head_end lines body :
  lines <> [] -> Forall head_line lines ->
  exists n, find_str (crlf ++ crlf) (head_text lines ++ body) = Some n /\ drop (n + 4) (head_text lines ++ body) = body.
Proof.
  intros Hne H. unfold head_text. induction H as [|l lines [Hl Hr] H IH]; [done|]. clear Hne.
  replace ((mjoin ((fun l => l ++ crlf) <$> l :: lines) ++ crlf) ++ body)
    with (l ++ crlf ++ (mjoin ((fun l => l ++ crlf) <$> lines) ++ crlf) ++ body)
    by (cbn [fmap list_fmap mjoin list_join]; by rewrite <- !app_assoc).
  set (t := (mjoin _ ++ crlf) ++ body) in *. set (p := [u8 10; u8 13; u8 10]).
  change (crlf ++ crlf) with (u8 13 :: p). rewrite find_cr_skip by done.
  assert (exists n, find_str (u8 13 :: p) (crlf ++ t) = Some n /\ drop (n + 4) (crlf ++ t) = body) as (n & -> & Hd).
  2:{ exists (length l + n)%nat. split; [done|]. by rewrite <- Nat.add_assoc, <- (drop_drop _ (n + 4) (length l)), drop_app_length. }
  destruct lines as [|l2 lines]; [exists 0%nat; split; [apply (find_here (u8 13 :: p))|done]|].
  destruct (IH ltac:(done)) as (n & E & Hd). exists (2 + n)%nat. split; [|exact Hd].
  apply Forall_cons in H as [[Hl2 Hr2] _]. destruct l2 as [|c l2]; [done|]. apply not_elem_of_cons in Hr2 as [Hc _].
  assert (exists t', t = c :: t') as [t' Ht] by (unfold t; cbn; eauto).
  change (find_str (u8 13 :: p) t = Some n) in E. change (crlf ++ t) with (u8 13 :: u8 10 :: t).
  cbn [find_str]. rewrite E. unfold starts_with. rewrite Ht. cbn [length take p].
  by rewrite !bool_decide_false by (intros [=]; congruence).
Qed.

Definition http_text (reason : bytes) (headers : list bytes) (r : Response) : bytes :=
  head_text ((str "HTTP/1.1 " ++ dec_str (status r) ++ str " " ++ reason) :: headers) ++ body r.
Lemma status_digits z : 100 <= z <= 999 -> length (dec_str z) = 3%nat /\ stoi (dec_str z) = Ok z.
Proof.
  intros Hz. assert (Forall (fun z => length (dec_str z) = 3%nat /\ stoi (dec_str z) = Ok z) (seqZ 100 900)) as H by decide_vm.
  rewrite Forall_forall in H. apply H, elem_of_seqZ. lia.
Qed.
Lemma parse_http_text reason headers r :
  100 <= status r <= 999 -> u8 13 ∉ reason -> Forall head_line headers ->
  parse_response (http_text reason headers r) = Ok (mkHttp (status r) (body r) (status r =? 200)).
Proof.
  intros Hs Hr Hh. unfold parse_response, http_text. set (first := str "HTTP/1.1 " ++ _).
  assert (head_line first) as Hf.
  { split; [done|]. unfold first. rewrite !elem_of_app. intros [H|[H|[H|H]]]; [| |by apply list_elem_of_singleton in H|done].
    - revert H. change (u8 13 ∉ str "HTTP/1.1 "). decide_vm.
    - revert H. apply dec_str_plain; [lia|done]. }
  destruct (find_head_end (first :: headers) (body r)) as (n & -> & ->); [done|by constructor|].
  set (t := head_text headers ++ body r).
  replace (head_text (first :: headers) ++ body r) with (str "HTTP/1.1" ++ u8 32 :: dec_str (status r) ++ str " " ++ reason ++ crlf ++ t).
  2:{ unfold first, t, head_text. cbn [fmap list_fmap mjoin list_join]. by rewrite <- !app_assoc. }
  change (str " ") with [u8 32] at 1. rewrite find_char by decide_vm. unfold substr.
  change (drop (length (str "HTTP/1.1") + 1) (str "HTTP/1.1" ++ u8 32 :: ?x)) with x.
  destruct (status_digits (status r) Hs) as [Hl Hv]. rewrite take_app_le, firstn_all2 by lia. by rewrite Hv.
Qed.

(** Where a key of a JSON text stands. *)
Lemma key_found t key b k m r :
  t = m ++ [quote] ++ str key ++ [quote] ++ r -> str key = b :: k -> pair_free quote b (m ++ [quote]) = true ->
  find_str ([quote] ++ str key ++ [quote]) t = Some (length m).
Proof.
  intros -> E H. rewrite E. replace (m ++ [quote] ++ (b :: k) ++ [quote] ++ r) with (m ++ quote :: b :: (k ++ [quote]) ++ r)
    by (cbn; by rewrite <- app_assoc). by apply find_pair.
Qed.

Lemma json_string_key t key b k m v r :
  t = m ++ [quote] ++ str key ++ [quote] ++ str ":" ++ [quote] ++ v ++ [quote] ++ r ->
  str key = b :: k -> u8 58 ∉ str key -> pair_free quote b (m ++ [quote]) = true -> quote ∉ v -> json_string t key = v.
Proof. intros Ht E Hk Hm Hv. eapply json_string_at; [exact Ht|by eapply key_found|done..]. Qed.
Lemma json_u64_key t key b k m z c r :
  t = m ++ [quote] ++ str key ++ [quote] ++ str ":" ++ dec_str z ++ c :: r ->
  str key = b :: k -> u8 58 ∉ str key -> pair_free quote b (m ++ [quote]) = true -> is_u64 z -> is_digit c = false ->
  json_u64 t key = z.
Proof. intros Ht E Hk Hm Hz Hc. eapply json_u64_at; [exact Ht|by eapply key_found|done..]. Qed.

Lemma address_head address : starts_with (str "CZ") address = true -> exists r, address = u8 67 :: u8 90 :: r.
Proof.
  unfold starts_with. intros H%bool_decide_eq_true. destruct address as [|a [|b r]]; try done. injection H as -> ->. eauto.
Qed.
Lemma quote_not_digit z : 0 <= z -> quote ∉ dec_str z.
Proof. intros Hz. by apply dec_str_plain. Qed.

(** [pair_free] of a text put together from literals and texts without quotes. *)
Ltac pair_free_parts :=
  rewrite <- ?app_assoc;
  repeat first
    [ apply pair_free_join; [vm_compute; reflexivity| |left; by vm_compute]
    | apply pair_free_join; [vm_compute; reflexivity| |right]
    | rewrite pair_free_app by (done || by apply quote_not_digit; ints)
    | vm_compute; reflexivity ].

Lemma share_body_read address job nonce :
  starts_with (str "CZ") address = true -> quote ∉ address -> is_u64 job -> is_u64 nonce ->
  solution_request (share_body address job nonce) address job nonce.
Proof.
  intros (r & Ea)%address_head Hq Hj Hn. unfold solution_request, share_body. split_and!.
  - eapply (json_string_key _ _ _ _ (json "{")); [reflexivity|reflexivity|decide_vm|reflexivity|done].
  - eapply (json_u64_key _ _ _ _ (json "{'address':'" ++ address ++ json "',"));
      [rewrite <- !app_assoc; reflexivity|reflexivity|decide_vm| |done|done]. pair_free_parts. by rewrite Ea.
  - eapply (json_u64_key _ _ _ _ (json "{'address':'" ++ address ++ json "','job_id':" ++ dec_str job ++ json ","));
      [rewrite <- !app_assoc; reflexivity|reflexivity|decide_vm| |done|done]. pair_free_parts. by rewrite Ea.
Qed.

Lemma hex_text bs c : c ∈ pool_bytes_to_hex bs -> c ∈ str "0123456789abcdef".
Proof.
  unfold pool_bytes_to_hex. intros (l & Hc & Hl)%list_elem_of_join. apply list_elem_of_fmap in Hl as (b & -> & _).
  assert (forall b, Forall (fun c => c ∈ str "0123456789abcdef")
    [hex_digit (Z.land (Z.shiftr (byteZ b) 4) 15); hex_digit (Z.land (byteZ b) 15)]) as H.
  { clear. intros []; decide_vm. }
  by apply (proj1 (Forall_forall _ _) (H b)).
Qed.

Section JobText.
Context {ssl : OpenSSL}.
Lemma job_text_read job :
  is_u64 (job_id job) -> is_u64 (share_difficulty job) -> header_hex job = pool_bytes_to_hex (pow_header (candidate job)) ->
  let t := body (emit_current_job job) in
  json_u64 t "job_id" = job_id job /\ json_u64 t "share_difficulty" = share_difficulty job /\
  json_string t "header_hex" = header_hex job.
Proof.
  intros Hj Hs Hx. cbv zeta. unfold emit_current_job, ok_response. cbn [body].
  assert (quote ∉ header_hex job) as Hq.
  { rewrite Hx. intros H%hex_text. revert H. change (quote ∉ str "0123456789abcdef"). decide_vm. }
  assert (forall r, head (header_hex job ++ r) <> Some (u8 115)) as Hh.
  { pose proof (pow_header_nonempty (candidate job)) as Hne. rewrite <- Hx in Hne. intros r E.
    destruct (header_hex job) as [|c x] eqn:Eh; [done|]. injection E as ->. assert (u8 115 ∈ pool_bytes_to_hex (pow_header (candidate job))) as H.
    { rewrite <- Hx. left. }
    apply hex_text in H. revert H. change (u8 115 ∉ str "0123456789abcdef"). decide_vm. }
  split_and!.
  - eapply (json_u64_key _ _ _ _ (json "{'ok':true,")); [reflexivity|reflexivity|decide_vm|reflexivity|done|done].
  - eapply (json_u64_key _ _ _ _ (json "{'ok':true,'job_id':" ++ dec_str (job_id job) ++ json ",'header_hex':'" ++ header_hex job ++ json "',"));
      [rewrite <- !app_assoc; reflexivity|reflexivity|decide_vm| |done|done]. pair_free_parts. apply Hh.
  - eapply (json_string_key _ _ _ _ (json "{'ok':true,'job_id':" ++ dec_str (job_id job) ++ json ","));
      [rewrite <- !app_assoc; reflexivity|reflexivity|decide_vm| |done]. pair_free_parts.
Qed.
End JobText.

(** ** The pool's side *)

Section Service.
Context {ssl : OpenSSL} {iter : UnorderedMap}.

Lemma shares_at_worker addr f p a :
  (forall w, shares (f w) = u64 (shares w + 1)) ->
  shares (worker_of (at_worker addr f p) a) = if bool_decide (a = addr) then u64 (shares (worker_of p a) + 1) else shares (worker_of p a).
Proof. intros Hf. rewrite at_worker_of. by case_bool_decide. Qed.

Lemma credited_shares owner addr now now' p :
  shares (worker_of (owner_share owner addr now' (worker_share addr now p)) addr) = u64 (shares (worker_of p addr) + 1).
Proof.
  assert (shares (worker_of (worker_share addr now p) addr) = u64 (shares (worker_of p addr) + 1)) as H.
  { unfold worker_share. set (f := fun w : PoolWorkerInfo => _). set (q := at_worker addr f p).
    assert (forall z, worker_of (set_total_shares z q) addr = worker_of q addr) as -> by (intros; by destruct q). unfold q.
    rewrite shares_at_worker, bool_decide_true; [done|done|]. intros w. unfold f. by do 2 case_bool_decide. }
  rewrite <- H. unfold owner_share. set (q := worker_share addr now p). destruct (_ || _) eqn:E; [done|].
  apply orb_false_iff in E as [_ E%bool_decide_eq_false].
  assert (forall z q, worker_of (set_owner_share_accum z q) addr = worker_of q addr) as Hs by (intros z []; done).
  destruct (4 <=? _); rewrite Hs; [|done]. set (f := fun w : PoolWorkerInfo => _). rewrite <- (Hs (u64 (g_pool_owner_share_accum q + 1)) q).
  rewrite shares_at_worker, bool_decide_false; [done|done|]. intros w. unfold f. by case_bool_decide.
Qed.

Lemma credit_share_shares owner addr id nonce now now' p :
  job_open id p ->
  shares (worker_of (credit_share owner addr id nonce now now' p).2 addr)
  = if bool_decide (dup_key addr nonce ∈ seen_of id p) then shares (worker_of p addr) else u64 (shares (worker_of p addr) + 1).
Proof.
  intros [Ha Hi]. unfold credit_share. rewrite Ha, Hi, Z.eqb_refl. cbn [negb orb].
  destruct (dup_reset_seen id p) as (_ & -> & _).
  assert (forall a, worker_of (dup_reset id p) a = worker_of p a) as Hw
    by (intros a; unfold dup_reset; destruct (negb _), p; done).
  case_bool_decide; cbn [snd]; [by rewrite Hw|]. rewrite credited_shares.
  assert (forall x q, worker_of (set_dup_seen x q) addr = worker_of q addr) as -> by (intros x []; done). by rewrite Hw.
Qed.
Lemma credit_share_job owner addr id nonce now now' p :
  g_pool_current_job (credit_share owner addr id nonce now now' p).2 = g_pool_current_job p.
Proof.
  unfold credit_share. destruct (_ || _); [done|]. destruct (dup_reset_seen id p) as (_ & _ & E).
  case_bool_decide; [done|]. cbn [snd]. set (q := set_dup_seen _ _). destruct (share_frame owner addr now now' q) as (-> & _).
  rewrite <- E. unfold q. by destruct (dup_reset id p).
Qed.

(** A job as the pool publishes it. *)
Record mineable (job : PoolJobState) : Prop := {
  mb_active : active job = true;
  mb_id : is_u64 (job_id job) /\ job_id job <> 0;
  mb_hex : header_hex job = pool_bytes_to_hex (pow_header (candidate job));
  mb_share : is_u32 (share_difficulty job);
  mb_block : block_difficulty job <> 0
}.
Definition pow_of (job : PoolJobState) (nonce : Z) : Hash256 := calculate_pow_hash (pow_header (candidate job)) nonce.
(** A share that is not a block. *)
Definition is_share_nonce (job : PoolJobState) (n : Z) : bool := pow_meets_difficulty (pow_of job n) (share_difficulty job).
Definition is_block_nonce (job : PoolJobState) (n : Z) : bool := pow_meets_difficulty (pow_of job n) (block_difficulty job).
Definition known (addr : bytes) (job : PoolJobState) (s : HttpRpcServer) (n : Z) : bool :=
  bool_decide (dup_key addr n ∈ seen_of (job_id job) (server_pool s)).
Definition share_answer (known : bool) : Response :=
  if known then ok_response (json "{'ok':true,'credited':false,'duplicate':true}") else submit_response true false false.

Lemma share_submitted now now' io addr n job s :
  g_pool_current_job (server_pool s) = job -> mineable job -> starts_with (str "CZ") addr = true -> quote ∉ addr -> is_u64 n ->
  is_share_nonce job n = true -> is_block_nonce job n = false ->
  exists s', pool_submit (submit_alone now now' io) (share_body addr (job_id job) n) s = (Ok (share_answer (known addr job s n)), s', []) /\
    server_node s' = server_node s /\ g_pool_current_job (server_pool s') = job /\
    seen_of (job_id job) (server_pool s') = {[dup_key addr n]} ∪ seen_of (job_id job) (server_pool s) /\
    shares (worker_of (server_pool s') addr) = (if known addr job s n then shares (worker_of (server_pool s) addr)
      else u64 (shares (worker_of (server_pool s) addr) + 1)).
Proof.
  intros Hj [Ha [Hi _] Hx _ Hb] Hcz Hq Hn Hs Hnb. destruct (share_body_read addr (job_id job) n Hcz Hq Hi Hn) as (Q1 & Q2 & Q3).
  unfold pool_submit. rewrite Q1, Q2, Q3, Hcz, bool_decide_false by (by intros ->). cbn [negb]. unfold asking at 1.
  rewrite Hj, Ha, Z.eqb_refl. cbn [negb orb]. rewrite Hx, pool_hex_roundtrip, bool_decide_false by apply pow_header_nonempty.
  rewrite (proj2 (Z.eqb_neq _ 0)) by done. cbn [sub_hashing submit_alone]. rewrite run_idle.
  unfold is_share_nonce, is_block_nonce, pow_of in Hs, Hnb. rewrite Hs, Hnb. unfold asking at 1. unfold mbind at 1, op_bind at 1, locked at 1.
  set (owner := my_address (server_wallet s)). assert (job_open (job_id job) (server_pool s)) as Ho by (unfold job_open; by rewrite Hj).
  cbn [sub_now sub_now' submit_alone].
  pose proof (credit_share_spec owner addr (job_id job) n now now' _ Ho) as Hc.
  pose proof (credit_share_shares owner addr (job_id job) n now now' _ Ho) as Hw.
  pose proof (credit_share_job owner addr (job_id job) n now now' (server_pool s)) as Hcj.
  destruct (credit_share owner addr (job_id job) n now now' (server_pool s)) as [cr p1]. destruct Hc as (-> & _ & Hseen).
  fold (known addr job s n) in *. cbn [snd] in *. destruct (known addr job s n).
  - cbn [mret op_ret app]. eexists. split; [reflexivity|]. cbn [server_pool server_node set_pool]. split_and!; [done|congruence|done|done].
  - unfold submit_finish. rewrite run_ret. cbn [sub_finished submit_alone]. rewrite run_idle. cbn [orb]. unfold on_pool. rewrite run_update.
    eexists. split; [reflexivity|]. cbn [server_pool server_node set_pool sub_save submit_alone].
    destruct (save_frame io p1) as (E1 & E2 & E3 & E4 & _). unfold seen_of, worker_of in *. rewrite E1, E2, E3, E4.
    split_and!; [done|congruence|done|done].
Qed.
End Service.

(** What the web server of the pool promises its clients: the handlers answer,
    and their answers are sent as HTTP has it. *)
Class PoolService {ssl : OpenSSL} {iter : UnorderedMap} (host : bytes) (port : Z)
    (exchange : bytes -> Z -> bytes -> HttpRpcServer -> option bytes * HttpRpcServer) := {
  service_submit req s : exists now now' io reason headers, u8 13 ∉ reason /\ Forall head_line headers /\
    forall r s' ev, pool_submit (submit_alone now now' io) req s = (Ok r, s', ev) ->
      exchange host port (request_text host port (str "POST") (str "/api/pool/submit") req) s
        = (Some (http_text reason headers r), s');
  service_job addr s : forallb is_alnum addr = true -> exists now first second reason headers,
    u8 13 ∉ reason /\ Forall head_line headers /\
    forall r s' ev, pool_job now true id first second addr s = (Ok r, s', ev) ->
      exchange host port (request_text host port (str "GET") (str "/api/pool/job?address=" ++ addr) []) s
        = (Some (http_text reason headers r), s')
}.

Section Credit.
Context {ssl : OpenSSL} {iter : UnorderedMap}.
Context (host : bytes) (port : Z) (exchange : bytes -> Z -> bytes -> HttpRpcServer -> option bytes * HttpRpcServer).
Context {service : PoolService host port exchange}.
Context (address : bytes) (tid : Z) (job : PoolJobState).
Context (Hcz : starts_with (str "CZ") address = true) (Hal : forallb is_alnum address = true) (Hjob : mineable job).

(** The worker's counters and what the pool counts for it. *)
Record tally := mkTally { t_hashes : Z; t_submitted : Z; t_accepted : Z; t_shares : Z }.
Definition tally_of (w : Worker HttpRpcServer) : tally :=
  mkTally (hashes_done w) (submitted w) (accepted w) (shares (worker_of (server_pool (world w)) address)).
Definition tally_plus (t : tally) (hashes found new : Z) : tally :=
  mkTally (u64 (t_hashes t + hashes)) (u64 (t_submitted t + found)) (u64 (t_accepted t + new)) (u64 (t_shares t + new)).
Definition on_job (w : Worker HttpRpcServer) : Prop := g_pool_current_job (server_pool (world w)) = job.
Definition seen_in (w : Worker HttpRpcServer) : gset bytes := seen_of (job_id job) (server_pool (world w)).

Lemma tally_plus_plus t a b c a' b' c' :
  tally_plus (tally_plus t a b c) a' b' c' = tally_plus t (a + a') (b + b') (c + c').
Proof.
  unfold tally_plus. cbn. f_equal; unfold u64; rewrite Zplus_mod_idemp_l; f_equal; lia.
Qed.

Lemma quote_free : quote ∉ address.
Proof using Hal.
  intros H%list_elem_of_In. apply (proj1 (forallb_forall _ _) Hal) in H. done.
Qed.

Definition tally_ok (t : tally) : Prop := is_u64 (t_hashes t) /\ is_u64 (t_submitted t) /\ is_u64 (t_accepted t) /\ is_u64 (t_shares t).
Lemma tally_plus_ok t a b c : tally_ok (tally_plus t a b c).
Proof. unfold tally_ok, tally_plus. cbn. auto using u64_range. Qed.
Lemma tally_plus_0 t : tally_ok t -> tally_plus t 0 0 0 = t.
Proof. intros (H1 & H2 & H3 & H4). destruct t. unfold tally_plus. cbn in *. by rewrite !Z.add_0_r, !u64_small by done. Qed.

Lemma share_answer_read b :
  status (share_answer b) = 200 /\ find_str (json "'stale':true") (body (share_answer b)) = None /\
  bool_decide (find_str (json "'credited':true") (body (share_answer b)) <> None) = negb b.
Proof. by destruct b; vm_compute. Qed.

Lemma post_share_run n w :
  on_job w -> tally_ok (tally_of w) -> is_u64 n -> is_share_nonce job n = true -> is_block_nonce job n = false ->
  exists w' log, post_share exchange host port address tid (job_id job) n w = (Ok false, w', log) /\
    on_job w' /\ server_node (world w') = server_node (world w) /\ seen_in w' = {[dup_key address n]} ∪ seen_in w /\
    tally_of w' = tally_plus (tally_of w) 0 1 (if known address job (world w) n then 0 else 1).
Proof using All.
  intros Hw (T1 & T2 & T3 & T4) Hn Hs Hb.
  destruct (service_submit (share_body address (job_id job) n) (world w)) as (now & now' & io & reason & headers & Hr & Hh & Hx).
  destruct (share_submitted now now' io address n job (world w) Hw Hjob Hcz quote_free Hn Hs Hb) as (s' & E & En & Ej & Es & Ew).
  specialize (Hx _ _ _ E). unfold post_share, http_request. unfold mbind at 1, op_bind at 1. rewrite Hx.
  destruct (share_answer_read (known address job (world w) n)) as (A1 & A2 & A3).
  rewrite parse_http_text by (done || by rewrite A1). rewrite run_nil, run_update. rewrite A1. cbn [http_ok http_body].
  change (200 =? 200) with true. rewrite A3, A2, bool_decide_false by (intros H; by apply H). cbn [andb].
  unfold tally_of, tally_plus. cbn [t_hashes t_submitted t_accepted t_shares tally_of] in *.
  destruct (known address job (world w) n); cbn [negb].
  - rewrite run_ret. unfold asking. do 2 eexists. split; [reflexivity|]. split_and!; [exact Ej|exact En|exact Es|].
    cbn. by rewrite Ew, !Z.add_0_r, (u64_small (hashes_done w)), (u64_small (accepted w)), (u64_small (shares _)) by done.
  - rewrite run_update. unfold asking. do 2 eexists. split; [reflexivity|]. split_and!; [exact Ej|exact En|exact Es|].
    cbn. by rewrite Ew, !Z.add_0_r, (u64_small (hashes_done w)) by done.
Qed.

(** The nonces of a scan that are shares, and those the pool had not seen. *)
Definition found (n : Z) (tests : nat) : list Z := List.filter (is_share_nonce job) (seqZ n (Z.of_nat tests)).
Definition fresh (w : Worker HttpRpcServer) (n : Z) (tests : nat) : list Z :=
  List.filter (fun k => negb (known address job (world w) k)) (found n tests).

(** What was not posted in between is as unknown as before. *)
Lemma known_after w w1 n l :
  0 <= n -> Forall (fun k => n < k) l -> seen_in w1 = {[dup_key address n]} ∪ seen_in w ->
  List.filter (fun k => negb (known address job (world w1) k)) l = List.filter (fun k => negb (known address job (world w) k)) l.
Proof.
  intros Hn Hl Hs. induction Hl as [|k l Hk _ IH]; [done|]. cbn [List.filter]. rewrite IH.
  assert (known address job (world w1) k = known address job (world w) k) as ->; [|done].
  unfold known. fold (seen_in w1). fold (seen_in w). rewrite Hs. apply bool_decide_ext. rewrite elem_of_union, elem_of_singleton.
  split; [|by right]. intros [E|H]; [|done]. apply dup_key_inj in E as [_ ->]; lia.
Qed.
Lemma found_after n tests : Forall (fun k => n < k) (found (n + 1) tests).
Proof.
  apply Forall_forall. unfold found. intros k [Hk _]%list_elem_of_In%List.filter_In.
  apply list_elem_of_In, elem_of_seqZ in Hk. lia.
Qed.

Lemma scan_run tests n w :
  on_job w -> tally_ok (tally_of w) -> 0 <= n -> n + Z.of_nat tests <= UINT64_MAX ->
  Forall (fun k => is_block_nonce job k = false) (found n tests) ->
  exists w' log, worker_scan exchange host port address tid tests (job_id job) (share_difficulty job) (pow_header (candidate job)) n w
      = (Ok tt, w', log) /\
    on_job w' /\ server_node (world w') = server_node (world w) /\
    seen_in w' = list_to_set (dup_key address <$> found n tests) ∪ seen_in w /\
    tally_of w' = tally_plus (tally_of w) (Z.of_nat tests) (sizeZ (found n tests)) (sizeZ (fresh w n tests)).
Proof using All.
  revert n w. induction tests as [|tests IH]; intros n w Hw Ht H0 Hn Hb.
  { exists w, []. split; [done|]. split_and!; [done|done|set_solver|]. by rewrite tally_plus_0. }
  cbn [worker_scan]. rewrite run_update. unfold fresh, found in *. rewrite Nat2Z.inj_succ, seqZ_cons in * by lia.
  cbn [List.filter] in *. rewrite Z.pred_succ in *. unfold Z.succ in *.
  fold (pow_of job n). fold (is_share_nonce job n).
  set (w0 := count_hash w).
  assert (tally_of w0 = tally_plus (tally_of w) 1 0 0) as T0.
  { destruct Ht as (T1 & T2 & T3 & T4). unfold w0, tally_of, tally_plus in *. cbn in *. by rewrite !Z.add_0_r, !(u64_small _ T2), !(u64_small _ T3), !(u64_small _ T4). }
  destruct (is_share_nonce job n) eqn:Es.
  - apply Forall_cons in Hb as [Hb Hbs].
    destruct (post_share_run n w0) as (w1 & log1 & E1 & J1 & N1 & S1 & T1); [done|rewrite T0; apply tally_plus_ok|ints|done|done|].
    change (known address job (world w0) n) with (known address job (world w) n) in T1. change (seen_in w0) with (seen_in w) in S1.
    destruct (IH (n + 1) w1) as (w2 & log2 & E2 & J2 & N2 & S2 & T2); [done|rewrite T1; apply tally_plus_ok|lia|lia|done|].
    unfold mbind, op_bind. rewrite E1, u64_small, E2 by ints. do 2 eexists. split; [reflexivity|].
    split_and!; [done|by rewrite N2|rewrite S2, S1; set_solver|].
    rewrite T2, T1, T0, !tally_plus_plus, (known_after w w1 n); [|done|apply found_after|done].
    cbn [List.filter]. destruct (known address job (world w) n); cbn [negb]; rewrite ?sizeZ_cons; f_equal; lia.
  - destruct (IH (n + 1) w0) as (w2 & log2 & E2 & J2 & N2 & S2 & T2); [done|rewrite T0; apply tally_plus_ok|lia|lia|done|].
    rewrite u64_small by ints. exists w2, log2. rewrite E2. split_and!; [done|done|done|done|].
    rewrite T2, T0, tally_plus_plus. f_equal; lia.
Qed.

Lemma heartbeat_frame now p :
  let p' := heartbeat now address p in
  g_pool_current_job p' = g_pool_current_job p /\ seen_of (job_id job) p' = seen_of (job_id job) p /\
  shares (worker_of p' address) = shares (worker_of p address).
Proof.
  unfold heartbeat. destruct (list_find _ _) as [[i [k wk]]|] eqn:E; [|done]. cbv zeta. unfold worker_of, seen_of.
  apply list_find_Some in E as (E & _ & _). apply list_elem_of_lookup_2, elem_of_in_order in E.
  destruct p. cbn in *. split_and!; [done|done|]. destruct (decide (k = address)) as [->|Hk].
  - by rewrite lookup_insert_eq, E.
  - by rewrite lookup_insert_ne.
Qed.

Lemma job_served now first second s c r :
  node_inv (server_node s) c r -> g_pool_current_job (server_pool s) = job -> job_current (tip_height_of c) job = true ->
  exists s' n', pool_job now true id first second address s = (Ok (emit_current_job job), s', []) /\
    server_node s' = n' /\ node_inv n' c r /\ server_pool s' = heartbeat now address (server_pool s).
Proof using All.
  intros Hi Hj Hc. unfold pool_job. rewrite bool_decide_false by (by intros ->). unfold on_pool. rewrite run_update.
  destruct (node_height_spec (server_node s) c r Hi) as (n' & E & Hi' & _).
  rewrite (run_on_node _ _ _ (tip_height_of c) n') by exact E. unfold asking.
  cbn [server_pool set_server_node set_pool]. destruct (heartbeat_frame now (server_pool s)) as (-> & _).
  rewrite Hj, Hc. do 2 eexists. split; [reflexivity|]. done.
Qed.

Lemma round_run tests w c r :
  node_inv (server_node (world w)) c r -> on_job w -> job_current (tip_height_of c) job = true -> tally_ok (tally_of w) ->
  first_nonce tid + Z.of_nat tests <= UINT64_MAX ->
  Forall (fun k => is_block_nonce job k = false) (found (first_nonce tid) tests) ->
  exists w' log, worker_round exchange host port address tid tests w = (Ok tt, w', log) /\
    on_job w' /\ node_inv (server_node (world w')) c r /\
    seen_in w' = list_to_set (dup_key address <$> found (first_nonce tid) tests) ∪ seen_in w /\
    tally_of w' = tally_plus (tally_of w) (Z.of_nat tests) (sizeZ (found (first_nonce tid) tests)) (sizeZ (fresh w (first_nonce tid) tests)).
Proof using All.
  intros Hi Hw Hc Ht Hn Hb. pose proof Hjob as [_ [Hid Hid0] Hx Hsd _].
  destruct (service_job address (world w) Hal) as (now & first & second & reason & headers & Hr & Hh & Hex).
  destruct (job_served now first second (world w) c r Hi Hw Hc) as (s' & n' & E & En & Hi' & Hp). specialize (Hex _ _ _ E).
  unfold worker_round, http_request. unfold mbind at 1, op_bind at 1. rewrite Hex, parse_http_text by done. rewrite run_nil.
  destruct (job_text_read job Hid ltac:(ints) Hx) as (R1 & R2 & R3). cbn [http_ok http_body]. rewrite R1, R2, R3.
  change (negb (status (emit_current_job job) =? 200)) with false.
  rewrite (proj2 (Z.eqb_neq _ 0)) by done. rewrite bool_decide_false by (rewrite Hx; apply pow_header_nonempty).
  cbn [orb]. rewrite Hx, pool_hex_roundtrip, u32_small by done.
  set (w1 := mkWorkerState s' (hashes_done w) (submitted w) (accepted w)).
  destruct (heartbeat_frame now (server_pool (world w))) as (F1 & F2 & F3). rewrite <- Hp in F1, F2, F3.
  assert (tally_of w1 = tally_of w) as T1 by (unfold tally_of, w1; cbn; by rewrite F3).
  destruct (scan_run tests (first_nonce tid) w1) as (w2 & log & E2 & J2 & N2 & S2 & T2);
    [by unfold on_job, w1; cbn; rewrite F1|by rewrite T1|apply u64_range|done|done|].
  exists w2, log. rewrite E2. split; [done|]. split; [done|]. split; [rewrite N2; cbn; by rewrite En|].
  rewrite S2, T2, T1. unfold seen_in, w1. cbn [world]. rewrite F2. split; [done|]. f_equal.
  unfold fresh, known. cbn [world w1]. by rewrite F2.
Qed.

(** ** Claims *)

(** C16: a round of the worker is credited. Where the pool has a job for the
    next block and no nonce of the round solves that block, the worker reads
    the job it is sent, tries the nonces of the round, posts exactly those that
    meet the share difficulty, and counts as accepted, as the pool does for its
    address, each of them that the pool had not seen; the counters of both
    agree to the unit. The address is alphanumeric and starts with CZ, the node
    satisfies its invariant, every request reaches the pool and is answered,
    and nobody else uses the pool meanwhile. *)
Theorem worker_round_credited tests w c r :
  node_inv (server_node (world w)) c r -> on_job w -> job_current (tip_height_of c) job = true -> tally_ok (tally_of w) ->
  first_nonce tid + Z.of_nat tests <= UINT64_MAX ->
  Forall (fun k => is_block_nonce job k = false) (found (first_nonce tid) tests) ->
  exists w' log, worker_round exchange host port address tid tests w = (Ok tt, w', log) /\
    on_job w' /\ node_inv (server_node (world w')) c r /\
    tally_of w' = tally_plus (tally_of w) (Z.of_nat tests) (sizeZ (found (first_nonce tid) tests)) (sizeZ (fresh w (first_nonce tid) tests)).
Proof using All.
  intros Hi Hw Hc Ht Hn Hb. destruct (round_run tests w c r Hi Hw Hc Ht Hn Hb) as (w' & log & E & J & N & _ & T). eauto 10.
Qed.

(** The rounds of a thread repeat each other. Every round starts at the
    same nonce: while the job stays, a second round posts the same nonces
    again, and none of them is credited. *)
Theorem worker_round_repeats tests w c r :
  node_inv (server_node (world w)) c r -> on_job w -> job_current (tip_height_of c) job = true -> tally_ok (tally_of w) ->
  first_nonce tid + Z.of_nat tests <= UINT64_MAX ->
  Forall (fun k => is_block_nonce job k = false) (found (first_nonce tid) tests) ->
  exists w1 log1 w2 log2, worker_round exchange host port address tid tests w = (Ok tt, w1, log1) /\
    worker_round exchange host port address tid tests w1 = (Ok tt, w2, log2) /\
    tally_of w2 = tally_plus (tally_of w1) (Z.of_nat tests) (sizeZ (found (first_nonce tid) tests)) 0.
Proof using All.
  intros Hi Hw Hc Ht Hn Hb. destruct (round_run tests w c r Hi Hw Hc Ht Hn Hb) as (w1 & log1 & E1 & J1 & N1 & S1 & T1).
  destruct (round_run tests w1 c r N1 J1 Hc ltac:(rewrite T1; apply tally_plus_ok) Hn Hb) as (w2 & log2 & E2 & _ & _ & _ & T2).
  exists w1, log1, w2, log2. split_and!; [done|done|]. rewrite T2. f_equal. unfold fresh.
  assert (Forall (fun k => known address job (world w1) k = true) (found (first_nonce tid) tests)) as Hk.
  { apply Forall_forall. intros k Hk. apply bool_decide_eq_true. fold (seen_in w1). rewrite S1. set_solver. }
  clear -Hk. induction Hk as [|k l Hk _ IH]; [done|]. cbn [List.filter]. rewrite Hk. exact IH.
Qed.
End Credit.

(** ** Witnesses *)

#[local] Transparent calculate_pow_hash.
#[local] Existing Instance Toy.ssl.
#[local] Existing Instance listed.

(** A web server in front of the pool. *)
Definition pool_web (host : bytes) (port : Z) (text : bytes) (s : HttpRpcServer) : option bytes * HttpRpcServer :=
  let answer '((r, s', _) : result Response * HttpRpcServer * list Event) :=
    (match r with Ok r => Some (http_text (str "OK") [] r) | Throw _ => None end, s') in
  if starts_with (str "POST") text then
    match find_str (crlf ++ crlf) text with
    | Some n => answer (pool_submit (submit_alone 7 7 SaveDone) (drop (n + 4) text) s)
    | None => (None, s)
    end
  else answer (pool_job 5 true id (alone 5) (alone 5) (take_while is_alnum (drop 26 text)) s).

Lemma request_lines host port path req :
  request_text host port (str "POST") path req
  = head_text [str "POST " ++ path ++ str " HTTP/1.1"; str "Host: " ++ host ++ str ":" ++ dec_str port;
      str "Content-Type: application/json"; str "Content-Length: " ++ dec_str (sizeZ req); str "Connection: close"] ++ req.
Proof.
  unfold request_text, head_text. rewrite bool_decide_true by done. cbn [fmap list_fmap mjoin list_join]. rewrite <- !app_assoc. reflexivity.
Qed.
#[local] Instance pool_web_service : PoolService (str "localhost") 8080 pool_web.
Proof.
  split.
  - intros req s. exists 7, 7, SaveDone, (str "OK"), []. split_and!; [decide_vm|constructor|]. intros r s' ev E.
    unfold pool_web. rewrite request_lines. set (lines := [_; _; _; _; _]).
    assert (Forall head_line lines) as Hl.
    { unfold lines. repeat constructor; try decide_vm. rewrite elem_of_app. intros [H|H]; [revert H; change (u8 13 ∉ str "Content-Length: "); decide_vm|].
      revert H. apply dec_str_plain; [apply sizeZ_nonneg|done]. }
    destruct (find_head_end lines req) as (n & En & Ed); [done|done|].
    replace (starts_with (str "POST") (head_text lines ++ req)) with true by reflexivity. by rewrite En, Ed, E.
  - intros addr s Ha. exists 5, (alone 5), (alone 5), (str "OK"), []. split_and!; [decide_vm|constructor|]. intros r s' ev E.
    unfold pool_web. set (t := request_text _ _ _ _ _).
    assert (take_while is_alnum (drop 26 t) = addr) as ->.
    { change (take_while is_alnum (addr ++ str " HTTP/1.1" ++ crlf ++ str "Host: localhost:8080" ++ crlf ++ str "Connection: close" ++ crlf ++ crlf) = addr). 
      apply take_while_all; [done|]. by intros c u [= <- <-]. }
    replace (starts_with (str "POST") t) with false by reflexivity. by rewrite E.
Qed.

(** A job of difficulty 17: every toy hash is a share of it, and none a block. *)
Definition hard_block : Block :=
  let h := header built_block in
  mkBlock (mkHeader (version h) (height h) (previous_hash h) (header_merkle_root h) (witness_root h) (timestamp h) 0 17)
    (transactions built_block).
Definition hard_pool : PoolState := publish_job hard_block (str "CZowner") (set_state_loaded true (new_pool None)).
Definition hard_worker : Worker HttpRpcServer :=
  mkWorkerState (mkServer sample_node hard_pool (Some sample_wallet) true []) 0 0 0.
Definition hard_job : PoolJobState := g_pool_current_job hard_pool.

Lemma hard_job_mineable : mineable hard_job.
Proof. by split; try reflexivity; decide_vm. Qed.
Lemma hard_nonces n : is_share_nonce hard_job n = true /\ is_block_nonce hard_job n = false.
Proof. split; lazy; reflexivity. Qed.

Lemma worker_round_credited_witness :
  exists w' log, worker_round pool_web (str "localhost") 8080 (str "CZ1abc") 1 2 hard_worker = (Ok tt, w', log) /\
    tally_of (str "CZ1abc") w' = mkTally 2 2 2 2.
Proof.
  destruct (worker_round_credited (str "localhost") 8080 pool_web (str "CZ1abc") 1 hard_job eq_refl eq_refl hard_job_mineable
    2 hard_worker node_chain sample_result1) as (w' & log & E & _ & _ & T).
  - apply sample_node_inv.
  - reflexivity.
  - reflexivity.
  - repeat split; done.
  - decide_vm.
  - apply Forall_forall. intros k _. apply hard_nonces.
  - exists w', log. split; [exact E|]. rewrite T.
    unfold fresh, found. change (seqZ (first_nonce 1) (Z.of_nat 2)) with [1000003; 1000004]. cbn [List.filter].
    rewrite (proj1 (hard_nonces 1000003)), (proj1 (hard_nonces 1000004)). cbn [List.filter]. vm_compute. reflexivity.
Defined.
Lemma worker_round_repeats_witness :
  exists w1 log1 w2 log2, worker_round pool_web (str "localhost") 8080 (str "CZ1abc") 1 2 hard_worker = (Ok tt, w1, log1) /\
    worker_round pool_web (str "localhost") 8080 (str "CZ1abc") 1 2 w1 = (Ok tt, w2, log2) /\
    tally_of (str "CZ1abc") w2 = tally_plus (tally_of (str "CZ1abc") w1) 2 2 0.
Proof.
  destruct (worker_round_repeats (str "localhost") 8080 pool_web (str "CZ1abc") 1 hard_job eq_refl eq_refl hard_job_mineable
    2 hard_worker node_chain sample_result1) as (w1 & log1 & w2 & log2 & E1 & E2 & T).
  - apply sample_node_inv.
  - reflexivity.
  - reflexivity.
  - repeat split; done.
  - decide_vm.
  - apply Forall_forall. intros k _. apply hard_nonces.
  - exists w1, log1, w2, log2. split_and!; [exact E1|exact E2|]. rewrite T. f_equal.
Defined.
