(* ===== verification/Otp.v ===== *)
(** otp_auth.hpp: one-time codes. A code is bound to an identifier, expires,
    can be tried five times and is used once; the table is written to a text
    file after every change and read from it at the start. *)

From S2P Require Import Prelude Crypto Transaction Ownership Text.
From stdpp Require Import options.
Local Open Scope Z_scope.

Record OtpEntry := mkOtp {
  otp_code : bytes;
  created_at_unix : Z;
  expires_at_unix : Z;
  otp_attempts : Z
}.
#[global] Instance OtpEntry_eq_dec : EqDecision OtpEntry.
Proof. solve_decision. Defined.
Record OtpStore := mkOtpStore {
  otp_entries : gmap bytes OtpEntry;
  otp_file : option bytes
}.
Definition set_otp_entries (m : gmap bytes OtpEntry) (s : OtpStore) : OtpStore := mkOtpStore m (otp_file s).

(** Six digits, filled with zeros. *)
Definition zero_padded (width : nat) (s : bytes) : bytes := replicate (width - length s) (u8 48) ++ s.
(** [value] is what [RAND_bytes] puts in the 32-bit integer. *)
Definition generate_code (value : option Z) : result bytes :=
  match value with
  | None => Throw "RAND_bytes failed"
  | Some value => Ok (zero_padded 6 (dec_str (value mod 1000000)))
  end.

(** The decimal of a signed integer. *)
Definition signed_dec (z : Z) : bytes := if z <? 0 then str "-" ++ dec_str (- z) else dec_str z.
Definition otp_line (kv : bytes * OtpEntry) : bytes :=
  kv.1 ++ str " " ++ otp_code kv.2 ++ str " " ++ signed_dec (created_at_unix kv.2) ++ str " "
  ++ signed_dec (expires_at_unix kv.2) ++ str " " ++ signed_dec (otp_attempts kv.2) ++ [u8 10].
(** [save]: creating the directory can throw; the stream is not checked. *)
Definition otp_save (dir_ok : bool) (io : SaveIO) (s : OtpStore) : result unit * OtpStore :=
  if dir_ok then
    (Ok tt, mkOtpStore (otp_entries s) (written io (mjoin (otp_line <$> in_order (otp_entries s))) (otp_file s)))
  else (Throw "filesystem error: cannot create directories", s).

(** [create], with [ttl_seconds] 300; the code is sent by [send], which does
    not touch the store. *)
Definition otp_create (value : option Z) (now : Z) (dir_ok : bool) (io : SaveIO) (identifier : bytes) (s : OtpStore)
    : result bytes * OtpStore :=
  match generate_code value with
  | Throw e => (Throw e, s)
  | Ok code =>
      let s := set_otp_entries (<[identifier := mkOtp code now (now + 300) 0]> (otp_entries s)) s in
      let '(r, s) := otp_save dir_ok io s in
      (_ ← r; Ok code, s)
  end.

Definition otp_verify (now : Z) (dir_ok : bool) (io : SaveIO) (identifier code : bytes) (s : OtpStore)
    : result bool * OtpStore :=
  match otp_entries s !! identifier with
  | None => (Ok false, s)
  | Some e =>
      let erased := set_otp_entries (delete identifier (otp_entries s)) s in
      let finish (s : OtpStore) (answer : bool) := let '(r, s) := otp_save dir_ok io s in (_ ← r; Ok answer, s) in
      if expires_at_unix e <? now then finish erased false
      else
        let tried := otp_attempts e + 1 in
        if 5 <? tried then finish erased false
        else if bool_decide (otp_code e = code) then finish erased true
        else
          finish (set_otp_entries
                    (<[identifier := mkOtp (otp_code e) (created_at_unix e) (expires_at_unix e) tried]> (otp_entries s)) s)
            false
  end.

(** ** Reading the file *)

(** [iss >> word] and [iss >> integer]: the value and what is left. *)
Definition extract_word (s : bytes) : option (bytes * bytes) :=
  let s := drop_while is_space s in
  let w := take_while (fun c => negb (is_space c)) s in
  if bool_decide (w = []) then None else Some (w, drop (length w) s).
Definition extract_int (lo hi : Z) (s : bytes) : option (Z * bytes) :=
  let '(negative, s) := strip_sign (drop_while is_space s) in
  let ds := take_while is_digit s in
  let v := if negative then - dec_value ds else dec_value ds in
  if bool_decide (ds = []) || (v <? lo) || (hi <? v) then None else Some (v, drop (length ds) s).
Definition INT64_MIN : Z := - 2 ^ 63.
Definition INT64_MAX : Z := 2 ^ 63 - 1.
Definition otp_read_line (line : bytes) : option (bytes * OtpEntry) :=
  '(id, s) ← extract_word line;
  '(code, s) ← extract_word s;
  '(created, s) ← extract_int INT64_MIN INT64_MAX s;
  '(expires, s) ← extract_int INT64_MIN INT64_MAX s;
  '(tries, s) ← extract_int (- 2 ^ 31) (2 ^ 31 - 1) s;
  Some (id, mkOtp code created expires tries).
(** [load]: lines that do not parse are passed over. *)
Definition otp_load (file : option bytes) : OtpStore :=
  match file with
  | None => mkOtpStore ∅ None
  | Some text =>
      mkOtpStore (foldl (fun m line => match otp_read_line line with Some (id, e) => <[id := e]> m | None => m end) ∅
                    (split text (u8 10))) file
  end.

(** ** What a code allows *)

(** Calls of [verify] on one identifier, one after the other. *)
Fixpoint otp_tries (identifier : bytes) (l : list (Z * bytes * bool * SaveIO)) (s : OtpStore) : list (result bool) :=
  match l with
  | [] => []
  | (now, code, dir_ok, io) :: l =>
      let '(r, s) := otp_verify now dir_ok io identifier code s in r :: otp_tries identifier l s
  end.

Lemma otp_save_entries dir_ok io s : otp_entries (otp_save dir_ok io s).2 = otp_entries s.
Proof. unfold otp_save. by destruct dir_ok. Qed.

(** Without an entry nothing is accepted any more. *)
Lemma otp_gone identifier l s : otp_entries s !! identifier = None -> Forall (fun r => r = Ok false) (otp_tries identifier l s).
Proof.
  intros H. revert s H. induction l as [|[[[now code] dir_ok] io] l IH]; intros s H; [constructor|].
  cbn [otp_tries]. unfold otp_verify. rewrite H. constructor; [done|]. by apply IH.
Qed.

(** One try: it answers yes only to the code, in time, among the first five,
    and then the entry is gone; otherwise the entry is gone or counts one more. *)
Lemma otp_try now dir_ok io identifier code s e r s' :
  otp_entries s !! identifier = Some e -> otp_verify now dir_ok io identifier code s = (r, s') ->
  (r = Ok true -> code = otp_code e /\ now <= expires_at_unix e /\ otp_attempts e < 5) /\
  (otp_entries s' !! identifier = None \/
   r <> Ok true /\ otp_attempts e < 5 /\ otp_entries s' !! identifier =
     Some (mkOtp (otp_code e) (created_at_unix e) (expires_at_unix e) (otp_attempts e + 1))).
Proof.
  intros He. unfold otp_verify. rewrite He.
  assert (forall (s1 : OtpStore) (a : bool) r s', (let '(r, s) := otp_save dir_ok io s1 in (_ ← r; Ok a, s)) = (r, s') ->
    otp_entries s' = otp_entries s1 /\ (r = Ok true -> a = true)) as Hf.
  { intros s1 a r0 s0. pose proof (otp_save_entries dir_ok io s1) as Hs. destruct (otp_save dir_ok io s1) as [[[]|] s2];
      cbn; intros [= <- <-]; (split; [exact Hs|]); [by intros [= ->]|done]. }
  destruct (Z.ltb_spec (expires_at_unix e) now).
  { intros [E1 E2]%Hf. rewrite E1. cbn. rewrite lookup_delete_eq. split; [intros H'%E2; done|by left]. }
  destruct (Z.ltb_spec 5 (otp_attempts e + 1)).
  { intros [E1 E2]%Hf. rewrite E1. cbn. rewrite lookup_delete_eq. split; [intros H'%E2; done|by left]. }
  case_bool_decide as Hc.
  - intros [E1 E2]%Hf. rewrite E1. cbn. rewrite lookup_delete_eq. split; [|by left]. intros _. split_and!; [done|lia|lia].
  - intros [E1 E2]%Hf. rewrite E1. cbn. rewrite lookup_insert_eq. split; [intros H'%E2; done|]. right. split_and!; [|lia|done].
    intros H'%E2. done.
Qed.

(** However a code is guessed: the answers are yes at most once, and only to
    the code itself, before it expires, among the first five tries. *)
Lemma otp_tries_bounded identifier l s e i :
  otp_entries s !! identifier = Some e -> 0 <= otp_attempts e ->
  otp_tries identifier l s !! i = Some (Ok true) ->
  (exists now dir_ok io, l !! i = Some (now, otp_code e, dir_ok, io) /\ now <= expires_at_unix e) /\
  Z.of_nat i + otp_attempts e < 5 /\ forall j, (j <> i)%nat -> otp_tries identifier l s !! j <> Some (Ok true).
Proof.
  revert s e i. induction l as [|[[[now code] dir_ok] io] l IH]; intros s e i He Hp; [done|]. cbn [otp_tries].
  destruct (otp_verify now dir_ok io identifier code s) as [r s'] eqn:E.
  destruct (otp_try now dir_ok io identifier code s e r s' He E) as [Hr Hs]. destruct i as [|i]; cbn [lookup list_lookup].
  - intros [= ->]. destruct (Hr eq_refl) as (-> & Hle & Ha). split_and!; [by exists now, dir_ok, io|lia|].
    destruct Hs as [Hn|[[] _]]; [|done]. intros [|j] Hj; [done|]. cbn. pose proof (otp_gone identifier l s' Hn) as HF. intros H.
    by apply (Forall_lookup_1 _ _ _ _ HF) in H.
  - intros Hi. destruct Hs as [Hn|(Hr' & Ha & Hs)].
    + pose proof (otp_gone identifier l s' Hn) as HF. by apply (Forall_lookup_1 _ _ _ _ HF) in Hi.
    + destruct (IH s' _ i Hs ltac:(cbn; lia) Hi) as (H1 & H2 & H3). cbn in H1, H2. split_and!; [done|lia|].
      intros [|j] Hj; cbn; [by intros [= ?]|]. apply H3. lia.
Qed.

(** C35: a one-time code can be guessed five times. After a code was made for an
    identifier, whatever codes are then tried for it and whatever the file
    system does, a try is accepted only if it is the code, at most 300 seconds
    after it was made and among the first five tries; and no other try is. *)
Theorem otp_guesses_bounded value now io identifier s0 code s l i :
  otp_create value now true io identifier s0 = (Ok code, s) ->
  otp_tries identifier l s !! i = Some (Ok true) ->
  (exists t dir_ok io', l !! i = Some (t, code, dir_ok, io') /\ t <= now + 300) /\ (i < 5)%nat /\
  forall j, (j <> i)%nat -> otp_tries identifier l s !! j <> Some (Ok true).
Proof.
  unfold otp_create. destruct (generate_code value) as [c|]; [|done]. cbn. intros [= <- <-] Hi.
  apply (otp_tries_bounded _ _ _ (mkOtp c now (now + 300) 0)) in Hi as (H1 & H2 & H3).
  - cbn in *. split_and!; [done|lia|done].
  - apply lookup_insert_eq.
  - cbn. lia.
Qed.

(** The fifth try is accepted; the sixth would not be. *)
Lemma otp_guesses_bounded_witness :
  let try c : Z * bytes * bool * SaveIO := (110, str c, true, SaveDone) in
  let s := (otp_create (Some 42) 100 true SaveDone (str "a@b") (mkOtpStore ∅ None)).2 in
  let l := [try "1"; try "2"; try "3"; try "4"; try "000042"; try "000042"] in
  otp_tries (str "a@b") l s !! 4%nat = Some (Ok true) /\ otp_tries (str "a@b") l s !! 5%nat <> Some (Ok true).
Proof.
  cbv zeta. set (l := [_; _; _; _; _; _]). set (s := snd _). assert (otp_tries (str "a@b") l s !! 4%nat = Some (Ok true)) as H
    by (vm_compute; reflexivity).
  split; [exact H|].
  refine (proj2 (proj2 (otp_guesses_bounded (Some 42) 100 SaveDone (str "a@b") (mkOtpStore ∅ None) (str "000042") s l 4 _ H)) 5%nat _).
  - vm_compute. reflexivity.
  - lia.
Defined.
