(* ===== verification/Session.v ===== *)
(** The accounts of http_rpc.hpp: the PIN, the session, and what the owner's
    wallet does on request. The handlers that change keys and sessions run one
    after the other here; what the system answers to each (random bytes, file
    system calls, the clock) is [AuthEnv]. *)

From S2P Require Import Prelude Serialization Crypto Transaction UTXO Ownership Coinbase Consensus Block Mempool.
From S2P Require Import Storage Node Text PoolState Bip39 Wallet Derivation SecureWallet KeyStore Otp Pool.
From stdpp Require Import options.
Local Open Scope Z_scope.

(** ** Positions in a string

    [size_t] arithmetic on a position that may be [npos]. *)
Definition npos : Z := UINT64_MAX.
Definition find_quote (s : bytes) (from : Z) : Z :=
  if sizeZ s <=? from then npos
  else match find_str_from [quote] s (Z.to_nat from) with Some i => Z.of_nat i | None => npos end.
Definition substr_at (s : bytes) (pos len : Z) : result bytes :=
  if sizeZ s <? pos then Throw "basic_string::substr"
  else Ok (take (Z.to_nat (Z.min len (sizeZ s))) (drop (Z.to_nat pos) s)).
(** The text between the next two quotes after the key, [skip] bytes on. *)
Definition quoted_field (body : bytes) (key : string) (skip : Z) (missing : string) : result bytes :=
  match find_str ([quote] ++ str key ++ [quote]) body with
  | None => Throw missing
  | Some pos =>
      let start := find_quote body (Z.of_nat pos + skip) in
      let stop := find_quote body (u64 (start + 1)) in
      substr_at body (u64 (start + 1)) (u64 (stop - start - 1))
  end.

(** What a handler reads of a request, and what it answers: the token of the
    session cookie when it sets one. *)
Record Request := mkRequest {
  req_remote : bytes;
  req_origin : bytes;
  req_cookie : bytes;
  req_body : bytes
}.
Record Answer := mkAnswer { answer : Response; cookie_set : option bytes }.
Definition plain_answer (r : Response) : Answer := mkAnswer r None.
Definition error_answer (status : Z) (e : bytes) : Answer :=
  plain_answer (mkResponse status (json "{'error':'" ++ e ++ json "'}")).

(** What the system answers during one request. *)
Record AuthEnv := mkAuthEnv {
  env_save : WalletFaults;
  env_seal : WalletFaults;
  env_encrypt : EncryptIO;
  env_entropy : option bytes;
  env_salt : option bytes;
  env_pin_io : SaveIO;
  env_chmod : bool;
  env_pin_readable : bool;
  env_token : option bytes;
  env_session_io : SaveIO;
  env_read : ReadFault;
  env_bio : bool;
  env_key_readable : bool;
  env_now : Z; (* steady clock, in nanoseconds *)
  env_now' : Z;
  env_otp : option Z;
  env_unix : Z;
  env_otp_dir : bool;
  env_otp_io : SaveIO
}.

Section Session.
Context {ssl : OpenSSL} {wssl : WalletSSL} {iter : UnorderedMap} {order : UtxoOrder}.

Record WebServer := mkWeb {
  web_rpc : HttpRpcServer;
  web_key_file : option bytes; (* wallet_path_ *)
  web_key_tmp : option bytes;
  web_in_dir : bool;
  pin_file : option bytes; (* pin_path_ *)
  session_file : option bytes; (* session_file_ *)
  wallet_preexisting_ : bool;
  auth_failures_ : gmap bytes (Z * Z);
  otp_store_ : OtpStore;
  pending_email_ : bytes
}.
Abbreviation web_op := (op WebServer Event).

Definition set_rpc (v : HttpRpcServer) (s : WebServer) : WebServer :=
  let 'mkWeb _ b c d e f g h i j := s in mkWeb v b c d e f g h i j.
Definition set_pin_file (v : option bytes) (s : WebServer) : WebServer :=
  let 'mkWeb a b c d _ f g h i j := s in mkWeb a b c d v f g h i j.
Definition set_session_file (v : option bytes) (s : WebServer) : WebServer :=
  let 'mkWeb a b c d e _ g h i j := s in mkWeb a b c d e v g h i j.
Definition set_failures (v : gmap bytes (Z * Z)) (s : WebServer) : WebServer :=
  let 'mkWeb a b c d e f g _ i j := s in mkWeb a b c d e f g v i j.
Definition set_otp (v : OtpStore) (s : WebServer) : WebServer :=
  let 'mkWeb a b c d e f g h _ j := s in mkWeb a b c d e f g h v j.
Definition set_pending_email (v : bytes) (s : WebServer) : WebServer :=
  let 'mkWeb a b c d e f g h i _ := s in mkWeb a b c d e f g h i v.
Definition set_unlocked (v : bool) (s : WebServer) : WebServer :=
  let r := web_rpc s in set_rpc (mkServer (server_node r) (server_pool r) (server_wallet r) v (session_token_ r)) s.
Definition set_token (v : bytes) (s : WebServer) : WebServer :=
  let r := web_rpc s in set_rpc (mkServer (server_node r) (server_pool r) (server_wallet r) (unlocked_ r) v) s.

(** A call that uses the pool, the node and the wallet only. *)
Definition on_rpc {A} (m : op HttpRpcServer Event A) : web_op A := fun s =>
  let '(r, rpc, ev) := m (web_rpc s) in (r, set_rpc rpc s, ev).
(** A call of [*wallet_], which the constructor makes. *)
Definition web_store (w : PersistentWallet) (s : WebServer) : WalletStore :=
  mkStore w (web_key_file s) (web_key_tmp s) (web_in_dir s).
Definition put_store (st : WalletStore) (s : WebServer) : WebServer :=
  let 'mkWeb a _ _ _ e f g h i j := s in
  mkWeb (mkServer (server_node a) (server_pool a) (Some (stored_wallet st)) (unlocked_ a) (session_token_ a))
    (key_file st) (key_tmp st) (key_in_dir st) e f g h i j.
Definition on_store {A} (m : op WalletStore Event A) : web_op A := fun s =>
  match server_wallet (web_rpc s) with
  | None => (Throw "null wallet", s, [])
  | Some w => let '(r, st, ev) := m (web_store w s) in (r, put_store st s, ev)
  end.
Definition wallet_loaded (s : WebServer) : bool :=
  match server_wallet (web_rpc s) with Some (Some _) => true | _ => false end.
Definition web_address (s : WebServer) : bytes := my_address (server_wallet (web_rpc s)).

(** ** Guards *)

(** [dev]: the environment variable CZR_DEV_NO_AUTH is set. *)
Definition is_authenticated (dev : bool) (req : Request) (s : WebServer) : bool :=
  if dev then true
  else if negb (unlocked_ (web_rpc s)) then false
  else if bool_decide (session_token_ (web_rpc s) = []) then false
  else if bool_decide (req_cookie req = []) then false
  else
    let needle := str "caesar_session=" ++ session_token_ (web_rpc s) in
    match find_str needle (req_cookie req) with
    | None => false
    | Some pos =>
        match drop (pos + length needle) (req_cookie req) with
        | [] => true
        | c :: _ => (byteZ c =? 59) || (byteZ c =? 32)
        end
    end.

Definition is_csrf_safe (req : Request) : bool :=
  let origin := req_origin req in
  if bool_decide (origin = []) then true
  else if starts_with (str "http://127.0.0.1:") origin || starts_with (str "http://localhost:") origin then true
  else bool_decide (origin = str "https://tailscale-termux.tail57075d.ts.net").

(** The failures of an address: how many, and when the last one was. *)
Definition check_rate_limit (now : Z) (ip : bytes) (s : WebServer) : bool * WebServer :=
  match auth_failures_ s !! ip with
  | None => (true, s)
  | Some (n, last) =>
      if 5 <=? n then
        if Z.quot (now - last) 1000000000 <? 300 then (false, s)
        else (true, set_failures (delete ip (auth_failures_ s)) s)
      else (true, s)
  end.
Definition record_auth_failure (now : Z) (ip : bytes) (s : WebServer) : WebServer :=
  let n := match auth_failures_ s !! ip with Some (n, _) => n | None => 0 end in
  set_failures (<[ip := (n + 1, now)]> (auth_failures_ s)) s.
Definition clear_auth_failures (ip : bytes) (s : WebServer) : WebServer :=
  set_failures (delete ip (auth_failures_ s)) s.
Definition client_ip (req : Request) : bytes := if bool_decide (req_remote req = []) then str "local" else req_remote req.

Definition csrf_answer : Answer := error_answer 403 (str "csrf").
(** The guard and the error handling the handlers share. *)
Definition guarded (req : Request) (m : web_op Answer) : web_op Answer :=
  if negb (is_csrf_safe req) then mret csrf_answer else m.
Definition limited (e : AuthEnv) (req : Request) (refusal : string) (m : web_op Answer) : web_op Answer :=
  asking (fun s =>
    let '(ok, s) := check_rate_limit (env_now e) (client_ip req) s in
    _ ← update (fun _ => s);
    if (ok : bool) then m else mret (error_answer 429 (str refusal))).
Definition or_400 (m : web_op Answer) : web_op Answer := catching m (fun e => mret (error_answer 400 (str e))).

(** ** Sessions *)

Definition generate_session_token (random : option bytes) : result bytes :=
  match random with
  | None => Throw "secure session token generation failed"
  | Some raw => Ok (pool_bytes_to_hex raw)
  end.
(** [unlocked_] is set before the token is made. *)
Definition start_session (e : AuthEnv) : web_op bytes :=
  _ ← update (set_unlocked true);
  token ← reading (fun _ => generate_session_token (env_token e));
  _ ← update (set_token token);
  _ ← update (fun s => set_session_file (written (env_session_io e) token (session_file s)) s);
  mret token.
Definition store_pin (e : AuthEnv) (pin : bytes) : web_op unit := fun s =>
  let '(r, file) := save_pin (env_salt e) (env_pin_io e) (env_chmod e) pin (pin_file s) in (r, set_pin_file file s, []).
Definition seal_wallet (e : AuthEnv) (pin : bytes) : web_op unit := on_store (save_encrypted (env_seal e) (env_encrypt e) pin).
Definition check_pin (e : AuthEnv) (pin : bytes) : web_op bool :=
  reading (fun s => verify_pin (env_pin_readable e) (pin_file s) pin).

(** GET /api/auth/auto-unlock. *)
Definition auto_unlock (req : Request) : web_op Answer :=
  if bool_decide (req_remote req ∈ [str "127.0.0.1"; str "::1"; str "localhost"; []]) then
    _ ← update (set_unlocked true); mret (plain_answer (ok_response (json "{'unlocked':true,'local':true}")))
  else mret (error_answer 403 (str "local only")).

(** POST /api/auth/setup. *)
Definition auth_setup (e : AuthEnv) (req : Request) : web_op Answer :=
  guarded req (or_400
    (asking (fun s =>
      _ ← require_op (bool_decide (pin_file s = None)) "PIN already set. Use /api/auth/unlock";
      pin ← reading (fun _ => quoted_field (req_body req) "pin" 5 "missing pin");
      _ ← require_op (4 <=? sizeZ pin) "PIN must be 4+ digits";
      _ ← require_op (wallet_loaded s || negb (wallet_preexisting_ s))
            "existing wallet is unavailable; refusing replacement";
      mnemonic ← (if wallet_preexisting_ s then mret [] else on_store (create_new_hd_wallet (env_save e) (env_entropy e)));
      _ ← seal_wallet e pin;
      _ ← store_pin e pin;
      token ← start_session e;
      reading (fun s' =>
        Ok (mkAnswer (ok_response
              (json "{'status':'ok','unlocked':true"
               ++ (if wallet_loaded s && negb (bool_decide (mnemonic = []))
                   then json ",'mnemonic':'" ++ mnemonic ++ json "'" else [])
               ++ json ",'address':'" ++ web_address s' ++ json "'}")) (Some token)))))).

(** POST /api/auth/unlock. *)
Definition auth_unlock (e : AuthEnv) (req : Request) : web_op Answer :=
  guarded req (limited e req "too many attempts, wait 5 minutes" (or_400
    (pin ← reading (fun _ => quoted_field (req_body req) "pin" 5 "missing pin");
     asking (fun s =>
       _ ← require_op (bool_decide (pin_file s <> None)) "no PIN set";
       ok ← check_pin e pin;
       if (ok : bool) then
         _ ← (if wallet_loaded s then mret tt else on_store (unlock_with_pin (env_read e) (env_bio e) pin));
         asking (fun s =>
           _ ← require_op (wallet_loaded s) "wallet unlock did not load wallet";
           address ← on_store (reading (fun st => persistent_address (stored_wallet st)));
           _ ← require_op (negb (bool_decide (address = []))) "wallet unlock produced no address";
           token ← start_session e;
           _ ← update (clear_auth_failures (client_ip req));
           mret (mkAnswer (ok_response (json "{'status':'ok','unlocked':true}")) (Some token)))
       else
         _ ← update (record_auth_failure (env_now' e) (client_ip req));
         mret (error_answer 401 (str "invalid PIN")))))).

(** POST /api/auth/request-otp. *)
Definition request_otp (e : AuthEnv) (req : Request) : web_op Answer :=
  guarded req (limited e req "too many attempts"
    (catching
      (email ← reading (fun _ => quoted_field (req_body req) "email" 8 "missing email");
       asking (fun s =>
         let '(r, store) := otp_create (env_otp e) (env_unix e) (env_otp_dir e) (env_otp_io e) email (otp_store_ s) in
         _ ← update (set_otp store);
         _ ← reading (fun _ => r);
         _ ← update (clear_auth_failures (client_ip req));
         mret (plain_answer (ok_response (json "{'status':'ok','sent':true}")))))
      (fun err =>
         _ ← update (record_auth_failure (env_now' e) (client_ip req));
         mret (error_answer 400 (str err))))).

(** POST /api/auth/verify-otp. *)
Definition verify_otp (e : AuthEnv) (req : Request) : web_op Answer :=
  guarded req (limited e req "too many attempts" (or_400
    (email ← reading (fun _ => quoted_field (req_body req) "email" 8 "missing email");
     code ← reading (fun _ => quoted_field (req_body req) "code" 7 "missing code");
     asking (fun s =>
       let '(r, store) := otp_verify (env_unix e) (env_otp_dir e) (env_otp_io e) email code (otp_store_ s) in
       _ ← update (set_otp store);
       ok ← reading (fun _ => r);
       if (ok : bool) then
         _ ← update (set_pending_email email);
         _ ← update (clear_auth_failures (client_ip req));
         mret (plain_answer (ok_response (json "{'status':'ok','verified':true}")))
       else
         _ ← update (record_auth_failure (env_now' e) (client_ip req));
         mret (error_answer 401 (str "invalid or expired code")))))).

(** POST /api/auth/recover. *)
Definition auth_recover (e : AuthEnv) (req : Request) : web_op Answer :=
  guarded req (limited e req "too many attempts, wait 5 minutes" (or_400
    (mnemonic ← reading (fun _ => quoted_field (req_body req) "mnemonic" 10 "missing mnemonic");
     new_pin ← reading (fun _ => quoted_field (req_body req) "new_pin" 9 "missing new_pin");
     _ ← require_op (4 <=? sizeZ new_pin) "PIN must be 4+ digits";
     _ ← require_op (validate_mnemonic mnemonic) "invalid mnemonic";
     _ ← on_store (replace_with_mnemonic (env_save e) mnemonic);
     _ ← seal_wallet e new_pin;
     _ ← store_pin e new_pin;
     asking (fun s =>
       token ← start_session e;
       mret (mkAnswer (ok_response (json "{'status':'ok','unlocked':true,'address':'" ++ web_address s ++ json "'}"))
               (Some token)))))).

(** POST /api/auth/encrypt-wallet. *)
Definition encrypt_wallet (e : AuthEnv) (req : Request) : web_op Answer :=
  guarded req (or_400
    (pin ← reading (fun _ => quoted_field (req_body req) "pin" 5 "missing pin");
     _ ← require_op (4 <=? sizeZ pin) "PIN must be 4+ digits";
     asking (fun s =>
       _ ← require_op (bool_decide (pin_file s <> None)) "no PIN set; run /api/auth/setup first";
       ok ← check_pin e pin;
       if negb ok then mret (error_answer 401 (str "invalid PIN"))
       else
         encrypted ← on_store (reading (fun st => Ok (is_file_encrypted (env_key_readable e) st)));
         if (encrypted : bool) then mret (plain_answer (ok_response (json "{'status':'already_encrypted'}")))
         else
           _ ← (if wallet_loaded s then mret tt else on_store (unlock_with_pin (env_read e) (env_bio e) pin));
           _ ← seal_wallet e pin;
           mret (plain_answer (ok_response (json "{'status':'ok','encrypted':true}")))))).

(** POST /api/auth/change-pin. *)
Definition change_pin (e : AuthEnv) (req : Request) : web_op Answer :=
  guarded req (or_400
    (old_pin ← reading (fun _ => quoted_field (req_body req) "old_pin" 10 "missing old_pin");
     new_pin ← reading (fun _ => quoted_field (req_body req) "new_pin" 10 "missing new_pin");
     _ ← require_op (4 <=? sizeZ old_pin) "old PIN too short";
     _ ← require_op (4 <=? sizeZ new_pin) "new PIN must be 4+ digits";
     ok ← check_pin e old_pin;
     if negb ok then mret (error_answer 401 (str "invalid old PIN"))
     else
       asking (fun s =>
         _ ← (if wallet_loaded s then mret tt else on_store (unlock_with_pin (env_read e) (env_bio e) old_pin));
         _ ← seal_wallet e new_pin;
         _ ← store_pin e new_pin;
         mret (plain_answer (ok_response (json "{'status':'ok'}")))))).

(** POST /api/wallet/sign. *)
Definition wallet_sign (req : Request) : web_op Answer :=
  guarded req (or_400
    (asking (fun s =>
       _ ← require_op (wallet_loaded s) "wallet locked";
       message ← reading (fun _ => quoted_field (req_body req) "message" 10 "missing message");
       key ← on_store (reading (fun st => persistent_private_key (stored_wallet st)));
       sig ← reading (fun _ => sign_message key message);
       mret (plain_answer (ok_response (json "{'status':'ok','signature':'" ++ pool_bytes_to_hex sig ++ json "'}")))))).

(** POST /api/wallet/verify. *)
Definition wallet_verify (req : Request) : web_op Answer :=
  or_400
    (asking (fun s =>
       _ ← require_op (wallet_loaded s) "wallet locked";
       message ← reading (fun _ => quoted_field (req_body req) "message" 10 "missing message");
       sig_hex ← reading (fun _ => quoted_field (req_body req) "signature" 12 "missing signature");
       sig ← reading (fun _ => hex_to_bytes sig_hex);
       keys ← on_store (reading (fun st => loaded (stored_wallet st)));
       _ ← require_op (bool_decide (pair_public keys <> None)) "no public key";
       mret (plain_answer (ok_response
         (json "{'valid':" ++ flag_text (verify_signature (pair_public keys) message sig) ++ json "}"))))).
End Session.
