(* ===== verification/SessionFacts.v ===== *)
(** What the accounts guarantee, and what they do not: a client without the
    PIN, the session or the words changes nothing but the flag [unlocked_], and
    that only from the machine itself; guesses of the
    PIN are limited, until one-time codes are asked for in between; and two
    requests need no session at all. *)

From S2P Require Import Prelude Serialization Crypto Transaction UTXO Ownership Coinbase Consensus Block Mempool.
From S2P Require Import Storage Node Text PoolState Bip39 Wallet Derivation SecureWallet KeyStore Otp Pool Session.
From stdpp Require Import options.
Local Open Scope Z_scope.

Section Facts.
Context {ssl : OpenSSL} {wssl : WalletSSL} {iter : UnorderedMap} {order : UtxoOrder}.
Abbreviation web_op := (op WebServer Event).

(** ** Strangers *)



(** The keys, the session and whether it is unlocked, the node and the pool
    are those of [s]. *)
Record kept (s s' : WebServer) : Prop := {
  kept_flag : unlocked_ (web_rpc s') = unlocked_ (web_rpc s);
  kept_node : server_node (web_rpc s') = server_node (web_rpc s);
  kept_pool : server_pool (web_rpc s') = server_pool (web_rpc s);
  kept_wallet : server_wallet (web_rpc s') = server_wallet (web_rpc s);
  kept_token : session_token_ (web_rpc s') = session_token_ (web_rpc s);
  kept_key : web_key_file s' = web_key_file s;
  kept_tmp : web_key_tmp s' = web_key_tmp s;
  kept_pin : pin_file s' = pin_file s;
  kept_session : session_file s' = session_file s
}.
Lemma kept_refl s : kept s s.
Proof. done. Qed.

(** A call that keeps them, emits nothing and whose result satisfies [Q]. *)
Definition keeps (s0 : WebServer) {A} (Q : A -> Prop) (m : web_op A) : Prop :=
  forall s r s' ev, kept s0 s -> m s = (r, s', ev) ->
    kept s0 s' /\ ev = [] /\ match r with Ok a => Q a | Throw _ => True end.

Lemma k_weaken s0 {A} (P Q : A -> Prop) m : (forall a, P a -> Q a) -> keeps s0 P m -> keeps s0 Q m.
Proof.
  intros H Hm s r s' ev Hs E. destruct (Hm _ _ _ _ Hs E) as (H1 & -> & H2). split_and!; [done|done|].
  destruct r; [by apply H|done].
Qed.


Lemma kept_failures s0 s v : kept s0 s -> kept s0 (set_failures v s).
Proof. destruct s. by intros []. Qed.
Lemma rate_limit_kept s0 s now ip : kept s0 s -> kept s0 (check_rate_limit now ip s).2.
Proof.
  intros H. unfold check_rate_limit. destruct (auth_failures_ s !! ip) as [[n last]|]; [|done].
  destruct (5 <=? n); [|done]. destruct (_ <? 300); [done|]. by apply kept_failures.
Qed.








(** ** Guessing the PIN *)

Definition SECOND : Z := 1000000000.
(** One request to unlock with a PIN that is not the one on file. *)
Definition wrong_guess (file : option bytes) (e : AuthEnv) (req : Request) : Prop :=
  is_csrf_safe req = true /\
  exists pin, quoted_field (req_body req) "pin" 5 "missing pin" = Ok pin /\ verify_pin (env_pin_readable e) file pin = Ok false.

(** What such a request does: it is refused or it is evaluated and counted. *)
Lemma wrong_guess_run file e req s :
  wrong_guess file e req -> file <> None -> pin_file s = file ->
  let '(ok, s1) := check_rate_limit (env_now e) (client_ip req) s in
  auth_unlock e req s =
    if ok then (Ok (error_answer 401 (str "invalid PIN")), record_auth_failure (env_now' e) (client_ip req) s1, [])
    else (Ok (error_answer 429 (str "too many attempts, wait 5 minutes")), s1, []).
Proof.
  intros (Hc & pin & Hp & Hv) Hn Hf. unfold auth_unlock, guarded, limited, asking. rewrite Hc. cbn [negb].
  destruct (check_rate_limit (env_now e) (client_ip req) s) as [ok s1] eqn:E.
  assert (pin_file s1 = file) as Hf1.
  { pose proof (rate_limit_kept s s (env_now e) (client_ip req) (kept_refl s)) as H. rewrite E in H. cbn in H.
    by rewrite (kept_pin _ _ H). }
  rewrite run_update. destruct ok; [|done]. unfold or_400, catching. rewrite run_reading, Hp.
  rewrite run_require, bool_decide_true by congruence. unfold check_pin. rewrite run_reading, Hf1, Hv, run_update. done.
Qed.

(** The guesses of one address, with the clock of each. *)
Fixpoint guess_run (l : list (AuthEnv * Request)) (s : WebServer) : list (Z * result Answer) :=
  match l with
  | [] => []
  | (e, req) :: l => let '(r, s1, _) := auth_unlock e req s in (env_now e, r) :: guess_run l s1
  end.
Definition evaluated (r : Z * result Answer) : Z :=
  match r.2 with Ok a => if status (answer a) =? 401 then 1 else 0 | Throw _ => 0 end.
(** The clock does not go back, and the requests all fall in [\[t0, t0 + 300 s)]. *)
Definition within (t0 : Z) (l : list (AuthEnv * Request)) : Prop :=
  Forall (fun x => t0 <= env_now x.1 <= env_now' x.1 /\ env_now x.1 < t0 + 300 * SECOND) l.

(** How many guesses an address has left in a window that began at [t0]. *)
Definition guesses_left (t0 : Z) (f : option (Z * Z)) : Z :=
  match f with
  | None => 5
  | Some (n, last) => if 5 <=? n then (if t0 <=? last then 0 else 5) else 5 - n
  end.

Lemma failures_after now ip s :
  auth_failures_ (record_auth_failure now ip s) !! ip
  = Some ((match auth_failures_ s !! ip with Some (n, _) => n | None => 0 end) + 1, now).
Proof. unfold record_auth_failure. destruct s. cbn. apply lookup_insert_eq. Qed.

(** What is on record when an attempt passes. *)
Lemma rate_limit_passes t0 now ip s s1 :
  check_rate_limit now ip s = (true, s1) -> now < t0 + 300 * SECOND ->
  auth_failures_ s1 !! ip = None /\ guesses_left t0 (auth_failures_ s !! ip) = 5 \/
  exists n last, auth_failures_ s !! ip = Some (n, last) /\ auth_failures_ s1 !! ip = Some (n, last) /\ n < 5.
Proof.
  intros E Hlt. unfold check_rate_limit in E. unfold guesses_left. destruct (auth_failures_ s !! ip) as [[n last]|] eqn:Ef.
  - destruct (Z.leb_spec 5 n).
    + destruct (Z.ltb_spec (Z.quot (now - last) 1000000000) 300) as [|Hq]; [done|]. injection E as <-. left.
      split; [destruct s; cbn; apply lookup_delete_eq|]. destruct (Z.leb_spec t0 last); [|done]. exfalso.
      unfold SECOND in *. assert (Z.quot (now - last) 1000000000 < 300); [|lia].
      destruct (Z.le_gt_cases 0 (now - last)); [apply Z.quot_lt_upper_bound; lia|].
      pose proof (Z.quot_opp_l (last - now) 1000000000 ltac:(lia)) as Hq2.
      replace (- (last - now)) with (now - last) in Hq2 by lia.
      pose proof (Z.quot_pos (last - now) 1000000000 ltac:(lia) ltac:(lia)). lia.
    + injection E as <-. right. by exists n, last.
  - injection E as <-. by left.
Qed.
Definition failures_nonneg (ip : bytes) (s : WebServer) : Prop := forall n last, auth_failures_ s !! ip = Some (n, last) -> 0 <= n.

Lemma guess_run_bound file ip t0 l s :
  file <> None -> pin_file s = file -> Forall (fun x => wrong_guess file x.1 x.2 /\ client_ip x.2 = ip) l -> within t0 l ->
  failures_nonneg ip s ->
  sumZ evaluated (guess_run l s) <= guesses_left t0 (auth_failures_ s !! ip).
Proof.
  intros Hn Hf Hl Hw. revert s Hf. induction l as [|[e req] l IH]; intros s Hf Hpos.
  { cbn. unfold guesses_left. destruct (auth_failures_ s !! ip) as [[n last]|]; [|lia]. repeat case_match; zbool; lia. }
  apply Forall_cons in Hl as [[Hg Hip] Hl]. apply Forall_cons in Hw as [[Ht Hlt] Hw]. cbn [fst snd] in *.
  pose proof (wrong_guess_run file e req s Hg Hn Hf) as Hr. cbn [guess_run].
  pose proof (rate_limit_kept s s (env_now e) (client_ip req) (kept_refl s)) as Hk. rewrite Hip in *.
  destruct (check_rate_limit (env_now e) ip s) as [ok s1] eqn:E. cbn in Hk. rewrite Hr.
  assert (pin_file s1 = file) as Hf1 by (by rewrite (kept_pin _ _ Hk)). destruct ok.
  - unfold sumZ. cbn [foldr]. change (evaluated (env_now e, Ok (error_answer 401 (str "invalid PIN")))) with 1.
    destruct (rate_limit_passes t0 (env_now e) ip s s1 E Hlt) as [[E1 ->]|(n & last & E0 & E1 & Hn5)];
      (specialize (IH Hl Hw (record_auth_failure (env_now' e) ip s1) ltac:(by destruct s1)); unfold failures_nonneg, sumZ in IH;
       rewrite failures_after, E1 in IH).
    + specialize (IH ltac:(by intros ? ? [= <- _])). unfold guesses_left in IH. destruct (Z.leb_spec 5 (0 + 1)); lia.
    + pose proof (Hpos n last E0). specialize (IH ltac:(intros ? ? [= <- _]; lia)). rewrite E0. unfold guesses_left in *.
      destruct (Z.leb_spec 5 n); [lia|]. destruct (Z.leb_spec 5 (n + 1)); [|lia]. destruct (Z.leb_spec t0 (env_now' e)); lia.
  - assert (s1 = s) as ->.
    { unfold check_rate_limit in E. destruct (auth_failures_ s !! ip) as [[n last]|]; [|done]. destruct (5 <=? n); [|done].
      destruct (_ <? 300); [|done]. by injection E. }
    unfold sumZ. cbn [foldr]. change (evaluated (env_now e, Ok (error_answer 429 (str "too many attempts, wait 5 minutes")))) with 0.
    by apply IH.
Qed.

(** ** One-time codes in between *)

(** A request for a code that is granted. *)
Definition otp_granted (e : AuthEnv) (req : Request) : Prop :=
  is_csrf_safe req = true /\ (exists email, quoted_field (req_body req) "email" 8 "missing email" = Ok email) /\
  env_otp e <> None /\ env_otp_dir e = true.
(** Guesses, with a request for a code after each. *)
Fixpoint bypass_run (l : list (AuthEnv * Request)) (eo : AuthEnv) (ro : Request) (s : WebServer) : list (result Answer) :=
  match l with
  | [] => []
  | (e, req) :: l =>
      let '(r, s1, _) := auth_unlock e req s in
      let '(_, s2, _) := request_otp eo ro s1 in
      r :: bypass_run l eo ro s2
  end.

Lemma otp_clears e req s n t :
  otp_granted e req -> auth_failures_ s !! client_ip req = Some (n, t) -> n < 5 ->
  let '(_, s', _) := request_otp e req s in auth_failures_ s' !! client_ip req = None /\ pin_file s' = pin_file s.
Proof.
  intros (Hc & [email He] & Ho & Hd) Hf Hn. unfold request_otp, guarded, limited, asking. rewrite Hc. cbn [negb].
  unfold check_rate_limit. rewrite Hf, (proj2 (Z.leb_gt 5 n)) by done. rewrite run_update. unfold catching.
  rewrite run_reading, He. unfold otp_create, generate_code, otp_save. rewrite Hd. destruct (env_otp e) as [v|]; [|done].
  rewrite run_update, run_reading, run_update. cbn. unfold clear_auth_failures. destruct s. cbn. by rewrite lookup_delete_eq.
Qed.

(** ** The text of a request *)

Lemma message_field m :
  quote ∉ m -> sizeZ m < 2 ^ 63 ->
  quoted_field (json "{'message':'" ++ m ++ json "'}") "message" 10 "missing message" = Ok m.
Proof.
  intros Hq Hm. set (body := json "{'message':'" ++ m ++ json "'}").
  assert (drop 11 body = quote :: m ++ quote :: [u8 125]) as H11 by done.
  assert (drop 12 body = m ++ quote :: [u8 125]) as H12 by done.
  assert (sizeZ body = sizeZ m + 14) as Hsz.
  { unfold sizeZ, body. rewrite !length_app. change (length (json "{'message':'")) with 12%nat. change (length (json "'}")) with 2%nat. lia. }
  unfold quoted_field. change (find_str ([quote] ++ str "message" ++ [quote]) body) with (Some 1%nat). cbv iota zeta.
  pose proof (sizeZ_nonneg m). unfold UINT64_MAX in *.
  assert (find_quote body (Z.of_nat 1 + 10) = 11) as ->.
  { unfold find_quote, find_str_from. rewrite (proj2 (Z.leb_gt _ _)) by lia. change (Z.to_nat (Z.of_nat 1 + 10)) with 11%nat.
    by rewrite H11. }
  change (u64 (11 + 1)) with 12.
  assert (find_quote body 12 = 12 + sizeZ m) as ->.
  { unfold find_quote, find_str_from. rewrite (proj2 (Z.leb_gt _ _)) by lia. change (Z.to_nat 12) with 12%nat.
    rewrite H12, find_char by done. change ((fun i => (12 + i)%nat) <$> Some ?x) with (Some (12 + x)%nat). unfold sizeZ. lia. }
  unfold u64. rewrite (Z.mod_small (12 + sizeZ m - 11 - 1)) by lia. unfold substr_at.
  rewrite (proj2 (Z.ltb_ge _ _)) by lia. change (Z.to_nat 12) with 12%nat. rewrite H12.
  replace (Z.to_nat (Z.min (12 + sizeZ m - 11 - 1) (sizeZ body))) with (length m) by (unfold sizeZ in *; lia).
  by rewrite take_app_length.
Qed.

Lemma put_same w s : server_wallet (web_rpc s) = Some w -> put_store (web_store w s) s = s.
Proof. destruct s as [[]]. cbn. by intros ->. Qed.
(** A question to the wallet. *)
Lemma run_store_reading {A B} w (g : WalletStore -> result A) (f : A -> web_op B) s :
  server_wallet (web_rpc s) = Some w ->
  (on_store (reading g) ≫= f) s = match g (web_store w s) with Ok a => f a s | Throw e => (Throw e, s, []) end.
Proof.
  intros Hw. unfold mbind, op_bind, on_store, reading. rewrite Hw. rewrite (put_same w s Hw). destruct (g _) as [a|]; [|done].
  by destruct (f a s) as [[? ?] ?].
Qed.

(** A request during which no system call fails. *)
Record smooth (e : AuthEnv) (salt raw : bytes) : Prop := {
  sm_save : env_save e = no_wallet_faults;
  sm_seal : env_seal e = no_wallet_faults;
  sm_stream : enc_stream (env_encrypt e) = SaveDone;
  sm_salt : env_salt e = Some salt;
  sm_pin : env_pin_io e = SaveDone;
  sm_chmod : env_chmod e = true;
  sm_token : env_token e = Some raw
}.

(** A call of the wallet whose outcome is known. *)
Lemma run_on_store {A B} w (m : op WalletStore Event A) (f : A -> web_op B) s a st :
  server_wallet (web_rpc s) = Some w -> m (web_store w s) = (Ok a, st, []) ->
  (on_store m ≫= f) s = f a (put_store st s).
Proof.
  intros Hw E. unfold mbind, op_bind, on_store. rewrite Hw, E. by destruct (f a _) as [[? ?] ?].
Qed.
Lemma run_start_session e salt raw s :
  smooth e salt raw ->
  exists s', (forall B (f : bytes -> web_op B), (start_session e ≫= f) s = f (pool_bytes_to_hex raw) s') /\
    server_wallet (web_rpc s') = server_wallet (web_rpc s) /\ web_key_file s' = web_key_file s /\
    session_token_ (web_rpc s') = pool_bytes_to_hex raw.
Proof.
  intros H. set (token := pool_bytes_to_hex raw). set (s1 := set_token token (set_unlocked true s)).
  exists (set_session_file (written (env_session_io e) token (session_file s1)) s1).
  split; [intros B f|by destruct s as [[]]].
  unfold start_session. unfold mbind at 1, op_bind at 1. rewrite run_update, run_reading, (sm_token _ _ _ H).
  cbn [generate_session_token]. rewrite !run_update. unfold mret, op_ret. by destruct (f _ _) as [[? ?] ?].
Qed.
Lemma run_store_pin {B} e salt raw pin h (f : unit -> web_op B) s :
  smooth e salt raw -> hash_pin pin salt = Ok h ->
  (store_pin e pin ≫= f) s = f tt (set_pin_file (Some (salt ++ h)) s).
Proof.
  intros H Hh. unfold mbind, op_bind, store_pin, save_pin. rewrite (sm_salt _ _ _ H), Hh, (sm_pin _ _ _ H), (sm_chmod _ _ _ H).
  cbn. by destruct (f tt _) as [[? ?] ?].
Qed.
End Facts.

(** ** Claims *)


(** Guesses of the PIN are limited. Of the wrong PINs an address sends to
    unlock within any 300 seconds, at most five are looked at; the others are
    refused. *)
Theorem pin_guesses_limited {ssl : OpenSSL} {wssl : WalletSSL} ip t0 l s :
  pin_file s <> None -> Forall (fun x => wrong_guess (pin_file s) x.1 x.2 /\ client_ip x.2 = ip) l -> within t0 l ->
  failures_nonneg ip s ->
  sumZ evaluated (guess_run l s) <= 5.
Proof.
  intros Hp Hl Hw Hn. etransitivity; [by apply (guess_run_bound (pin_file s) ip t0)|].
  unfold guesses_left. destruct (auth_failures_ s !! ip) as [[n last]|] eqn:E; [|done]. pose proof (Hn n last E).
  repeat case_match; lia.
Qed.

(** The limit does not hold. An address that asks for a one-time code
    after each guess has its failures forgotten: any number of wrong PINs are
    looked at, one after the other, without waiting. *)
Theorem lockout_bypassed {ssl : OpenSSL} {wssl : WalletSSL} eo ro l s :
  pin_file s <> None -> auth_failures_ s !! client_ip ro = None -> otp_granted eo ro ->
  Forall (fun x => wrong_guess (pin_file s) x.1 x.2 /\ client_ip x.2 = client_ip ro) l ->
  bypass_run l eo ro s = replicate (length l) (Ok (error_answer 401 (str "invalid PIN"))).
Proof.
  intros Hp Hf Ho. remember (pin_file s) as file eqn:Ef. symmetry in Ef. revert s Ef Hf.
  induction l as [|[e req] l IH]; intros s Ef Hf Hl; [done|]. apply Forall_cons in Hl as [[Hg Hip] Hl]. cbn [fst snd] in *.
  pose proof (wrong_guess_run file e req s Hg Hp Ef) as Hr. unfold check_rate_limit in Hr. rewrite Hip, Hf in Hr.
  cbn [bypass_run]. rewrite Hr. set (s1 := record_auth_failure (env_now' e) (client_ip ro) s).
  assert (auth_failures_ s1 !! client_ip ro = Some (1, env_now' e)) as H1 by (unfold s1; by rewrite failures_after, Hf).
  assert (pin_file s1 = file) as H2 by (by destruct s).
  pose proof (otp_clears eo ro s1 1 _ Ho H1 ltac:(lia)) as Hc. destruct (request_otp eo ro s1) as [[r2 s2] ev2].
  destruct Hc as [Hc1 Hc2]. cbn [length replicate]. f_equal. apply IH; [congruence|done|done].
Qed.

(** The wallet signs for anyone. While the wallet is loaded, a request
    without session, cookie or PIN gets from it the signature of any message
    that holds no quote, so of the message that authorizes an input of a
    transaction: the owner's coins can be spent by whoever can reach the
    server. *)
Theorem wallet_sign_oracle {ssl : OpenSSL} {wssl : WalletSSL} s key tx i m req :
  server_wallet (web_rpc s) = Some (Some (mkKeyPair (Some key) (Some key))) ->
  (i < length (inputs tx))%nat -> transaction_signing_message tx i = Ok m -> quote ∉ m -> sizeZ m < 2 ^ 63 ->
  EVP_DigestSign key m <> [] -> EVP_DigestVerify key m (EVP_DigestSign key m) = true ->
  is_csrf_safe req = true -> req_cookie req = [] -> req_body req = json "{'message':'" ++ m ++ json "'}" ->
  is_authenticated false req s = false /\
  exists sig, wallet_sign req s
    = (Ok (plain_answer (ok_response (json "{'status':'ok','signature':'" ++ pool_bytes_to_hex sig ++ json "'}"))), s, []) /\
    verify_transaction_input_signature tx i (Some key) sig = Ok true.
Proof.
  intros Hw Hi Hm Hq Hsz Hne Hv Hc Hck Hb. split.
  { unfold is_authenticated. rewrite Hck. by repeat case_match. }
  exists (EVP_DigestSign key m). split.
  - unfold wallet_sign, guarded. rewrite Hc. cbn [negb]. unfold or_400, catching, asking, wallet_loaded. rewrite Hw.
    rewrite run_require, run_reading, Hb, (message_field m Hq Hsz).
    rewrite (run_store_reading _ _ _ _ Hw). unfold web_store, persistent_private_key, loaded. cbn [stored_wallet].
    change (keys ← Ok ?x; Ok (pair_private keys)) with (Ok (pair_private x)). cbv iota. rewrite run_reading. reflexivity.
  - unfold verify_transaction_input_signature. rewrite bool_decide_false by lia. rewrite Hm. unfold verify_signature, mbind, result_bind.
    by rewrite bool_decide_false, Hv by done.
Qed.

(** Recovery needs no authority. A request with the words of any wallet
    replaces the loaded wallet, its file and the PIN by the sender's, whatever
    wallet, PIN and session there were, and gives the sender the session. *)
Theorem recover_takes_over {ssl : OpenSSL} {wssl : WalletSSL} {laws : WalletLaws} e salt raw req s w0 words pin key pem data h :
  smooth e salt raw -> server_wallet (web_rpc s) = Some w0 ->
  is_csrf_safe req = true -> auth_failures_ s !! client_ip req = None ->
  quoted_field (req_body req) "mnemonic" 10 "missing mnemonic" = Ok words ->
  quoted_field (req_body req) "new_pin" 9 "missing new_pin" = Ok pin -> 4 <= sizeZ pin ->
  wallet_from_mnemonic words = Ok (mkKeyPair (Some key) (Some key)) -> validate_mnemonic words = true ->
  wallet_valid (mkKeyPair (Some key) (Some key)) = Ok true -> PEM_write_PrivateKey key = Some pem ->
  envelope (env_encrypt e) pin pem = Ok data -> hash_pin pin salt = Ok h ->
  exists a s', auth_recover e req s = (Ok a, s', []) /\ status (answer a) = 200 /\
    cookie_set a = Some (pool_bytes_to_hex raw) /\ session_token_ (web_rpc s') = pool_bytes_to_hex raw /\
    server_wallet (web_rpc s') = Some (Some (mkKeyPair (Some key) (Some key))) /\ web_key_file s' = Some data.
Proof.
  intros Hs Hw Hc Hf Hwords Hpin H4 Hd Hval Hv Hp He Hh. unfold auth_recover, guarded, limited, asking. rewrite Hc. cbn [negb].
  unfold check_rate_limit. rewrite Hf, run_update. unfold or_400, catching. rewrite run_reading, Hwords, run_reading, Hpin.
  rewrite run_require, (proj2 (Z.leb_le _ _)) by done. rewrite run_require, Hval.
  set (keys := mkKeyPair (Some key) (Some key)) in *.
  rewrite (run_on_store w0 _ _ s tt (mkStore (Some keys) (Some pem) None (web_in_dir s)) Hw).
  2:{ unfold replace_with_mnemonic. rewrite run_require, Hval, run_reading, Hd, run_update, (sm_save _ _ _ Hs).
      by rewrite (wallet_save_run _ key pem). }
  set (s1 := put_store _ s). assert (server_wallet (web_rpc s1) = Some (Some keys)) as Hw1 by (by destruct s).
  unfold seal_wallet. rewrite (run_on_store (Some keys) _ _ s1 tt (mkStore (Some keys) (Some data) None (web_in_dir s1)) Hw1).
  2:{ rewrite (sm_seal _ _ _ Hs), (save_encrypted_run _ pin _ key pem data); rewrite ?(sm_stream _ _ _ Hs); done. }
  rewrite (run_store_pin e salt raw pin h _ _ Hs Hh). set (s2 := set_pin_file _ _).
  destruct (run_start_session e salt raw s2 Hs) as (s3 & E3 & H1 & H2 & H3). unfold asking. rewrite E3.
  eexists _, s3. split; [reflexivity|]. split_and!; [done|done|done| |].
  - rewrite H1. by destruct s.
  - rewrite H2. by destruct s.
Qed.

(** ** Witnesses *)

#[local] Existing Instance Toy.ssl.
#[local] Existing Instance ToyWallet.wssl.

Definition toy_keys : KeyPair := mkKeyPair (Some toy_key) (Some toy_key).
Definition toy_web (w : PersistentWallet) : WebServer :=
  mkWeb (mkServer (new_node 0 (mkDisk None None)) (new_pool None) (Some w) false [])
    None None true (Some (replicate 80 Byte.x00)) None true ∅ (mkOtpStore ∅ None) [].
Definition toy_env (now : Z) : AuthEnv :=
  mkAuthEnv no_wallet_faults no_wallet_faults (toy_encrypt SaveDone) None (Some (replicate 16 Byte.x07)) SaveDone true true
    (Some (str "token")) SaveDone ReadFine true true now now (Some 42) 100 true SaveDone.
Definition toy_request (body : bytes) : Request := mkRequest (str "10.0.0.9") [] [] body.
Definition toy_guess (n : string) (t : Z) : AuthEnv * Request :=
  (toy_env (t * SECOND), toy_request (json "{'pin':'" ++ str n ++ json "'}")).
Definition toy_guesses : list (AuthEnv * Request) :=
  [toy_guess "1000" 10; toy_guess "1001" 11; toy_guess "1002" 12; toy_guess "1003" 13; toy_guess "1004" 14;
   toy_guess "1005" 15; toy_guess "1006" 16].
Definition toy_otp : Request := toy_request (json "{'email':'a@b'}").


Lemma toy_wrong_guesses :
  Forall (fun x => wrong_guess (Some (replicate 80 Byte.x00)) x.1 x.2 /\ client_ip x.2 = str "10.0.0.9")
    toy_guesses.
Proof.
  assert (forall n t, verify_pin true (Some (replicate 80 Byte.x00)) (str n) = Ok false ->
    quoted_field (json "{'pin':'" ++ str n ++ json "'}") "pin" 5 "missing pin" = Ok (str n) ->
    wrong_guess (Some (replicate 80 Byte.x00)) (toy_guess n t).1 (toy_guess n t).2 /\
    client_ip (toy_guess n t).2 = str "10.0.0.9") as H.
  { intros n t Hv Hf. split; [|reflexivity]. split; [reflexivity|]. by exists (str n). }
  repeat constructor; apply H; vm_compute; reflexivity.
Qed.

(** Seven wrong PINs in seven seconds: five are looked at. *)
Lemma pin_guesses_limited_witness :
  sumZ evaluated (guess_run toy_guesses (toy_web (Some toy_keys))) = 5 /\
  sumZ evaluated (guess_run toy_guesses (toy_web (Some toy_keys))) <= 5.
Proof.
  split; [vm_compute; reflexivity|].
  apply (pin_guesses_limited (str "10.0.0.9") 0 toy_guesses (toy_web (Some toy_keys))).
  - discriminate.
  - exact toy_wrong_guesses.
  - repeat constructor; vm_compute; (discriminate || reflexivity).
  - intros n last [=].
Defined.

Lemma lockout_bypassed_witness :
  bypass_run toy_guesses (toy_env 0) toy_otp (toy_web (Some toy_keys))
  = replicate 7 (Ok (error_answer 401 (str "invalid PIN"))).
Proof.
  apply (lockout_bypassed (toy_env 0) toy_otp toy_guesses (toy_web (Some toy_keys))).
  - discriminate.
  - reflexivity.
  - split; [reflexivity|]. split; [exists (str "a@b"); vm_compute; reflexivity|]. split; [discriminate|reflexivity].
  - exact toy_wrong_guesses.
Defined.

Definition toy_spend : Transaction := mkTx 1 [] [mkInput (sample_hash 1) 0] [mkOutput 5 (str "CZthief")] (mkWitnessSet []).
Definition toy_message : bytes := Eval vm_compute in
  match transaction_signing_message toy_spend 0 with Ok m => m | Throw _ => [] end.
Definition toy_sign : Request := toy_request (json "{'message':'" ++ toy_message ++ json "'}").
Lemma wallet_sign_oracle_witness :
  exists sig, wallet_sign toy_sign (toy_web (Some toy_keys))
      = (Ok (plain_answer (ok_response (json "{'status':'ok','signature':'" ++ pool_bytes_to_hex sig ++ json "'}"))),
         toy_web (Some toy_keys), []) /\
    verify_transaction_input_signature toy_spend 0 (Some toy_key) sig = Ok true.
Proof.
  refine (proj2 (wallet_sign_oracle (toy_web (Some toy_keys)) toy_key toy_spend 0 toy_message toy_sign _ _ _ _ _ _ _ _ _ _)).
  - reflexivity.
  - cbn. lia.
  - vm_compute. reflexivity.
  - decide_vm.
  - vm_compute. reflexivity.
  - discriminate.
  - vm_compute. reflexivity.
  - reflexivity.
  - reflexivity.
  - reflexivity.
Defined.

(** A wallet that is still locked is taken over with the words of sixteen
    zero bytes. *)
Definition toy_words : bytes := Eval vm_compute in
  match entropy_to_mnemonic (replicate 16 Byte.x00) with Ok w => w | Throw _ => [] end.
Definition thief_key : bytes := Eval vm_compute in
  match wallet_from_mnemonic toy_words with Ok (mkKeyPair (Some k) _) => k | _ => [] end.
Definition thief_file : bytes := Eval vm_compute in
  match envelope (toy_encrypt SaveDone) (str "9999") (u8 45 :: thief_key) with Ok d => d | Throw _ => [] end.
Definition thief_request : Request :=
  toy_request (json "{'mnemonic':'" ++ toy_words ++ json "','new_pin':'9999'}").
Lemma thief_wallet : wallet_from_mnemonic toy_words = Ok (mkKeyPair (Some thief_key) (Some thief_key)).
Proof.
  assert (match wallet_from_mnemonic toy_words with
          | Ok (mkKeyPair (Some a) (Some b)) => bool_decide (a = thief_key) && bool_decide (b = thief_key) | _ => false end = true) as H
    by (vm_compute; reflexivity).
  destruct (wallet_from_mnemonic toy_words) as [[[a|] [b|]]|]; try discriminate H.
  apply andb_prop in H as [->%bool_decide_eq_true ->%bool_decide_eq_true]. reflexivity.
Qed.
Lemma recover_takes_over_witness :
  exists a s', auth_recover (toy_env 0) thief_request (toy_web None) = (Ok a, s', []) /\
    cookie_set a = Some (pool_bytes_to_hex (str "token")) /\ web_key_file s' = Some thief_file.
Proof.
  destruct (recover_takes_over (laws := ToyWallet.laws) (toy_env 0) (replicate 16 Byte.x07) (str "token") thief_request
    (toy_web None) None toy_words (str "9999") thief_key (u8 45 :: thief_key) thief_file
    (pool_bytes_to_hex (ToyWallet.fill 32 (str "9999" ++ replicate 16 Byte.x07)))) as (a & s' & E & _ & Hc & _ & _ & Hf).
  - by constructor.
  - reflexivity.
  - reflexivity.
  - reflexivity.
  - vm_compute. reflexivity.
  - vm_compute. reflexivity.
  - vm_compute. discriminate.
  - exact thief_wallet.
  - vm_compute. reflexivity.
  - vm_compute. reflexivity.
  - vm_compute. reflexivity.
  - vm_compute. reflexivity.
  - vm_compute. reflexivity.
  - exists a, s'. split; [exact E|]. split; [exact Hc|exact Hf].
Defined.
