(* ===== verification/Spending.v ===== *)
(** The owner's money in http_rpc.hpp: GET /api/balance, POST /api/send, GET
    /api/wallet and POST /api/mine_default. *)

From S2P Require Import Prelude Serialization Crypto Transaction UTXO Ownership Coinbase Consensus Block ChainValidator.
From S2P Require Import Mempool Storage Node Text PoolState Bip39 Wallet Derivation SecureWallet KeyStore Otp.
From S2P Require Import Pool PoolFacts PoolPayout Session SessionFacts.
From stdpp Require Import options.
Local Open Scope Z_scope.

(** [get_field]: a quoted text, or what stands before the next comma or brace. *)
Definition get_field (body : bytes) (key : string) : bytes :=
  match find_str ([quote] ++ str key ++ [quote]) body with
  | None => []
  | Some pos =>
      match find_str_from (str ":") body pos with
      | None => []
      | Some colon =>
          match find_first_from (fun c => (byteZ c =? 34) || is_digit c) body colon with
          | None => []
          | Some start =>
              if bool_decide (body !! start = Some quote) then
                match find_str_from [quote] body (start + 1) with
                | None => []
                | Some stop => substr body (start + 1) (stop - start - 1)
                end
              else
                match find_first_from (fun c => (byteZ c =? 44) || (byteZ c =? 125)) body start with
                | None => []
                | Some stop => substr body start (stop - start)
                end
          end
      end
  end.

Section Spending.
Context {ssl : OpenSSL} {wssl : WalletSSL} {iter : UnorderedMap} {order : UtxoOrder}.
Abbreviation web_op := (op WebServer Event).

(** [dev]: the environment variable CZR_DEV_NO_AUTH is set. *)
Definition authenticated (dev : bool) (req : Request) (m : web_op Answer) : web_op Answer :=
  asking (fun s => if is_authenticated dev req s then m else mret (error_answer 401 (str "unauthorized"))).

(** ** The balance *)

(** The address a query asks for, as it is written in the target. *)
Definition query_address (target own : bytes) : bytes :=
  match find_str (str "address=") target with
  | None => own
  | Some pos =>
      let v := drop (pos + 8) target in
      match find_str (str "&") v with None => v | Some stop => take stop v end
  end.
(** The loop of [api_balance] over chain and pool is that of [collect_my_utxos]. *)
Definition balance_of (meanwhile : HttpRpcServer -> HttpRpcServer) (addr : bytes) : op HttpRpcServer Event Z :=
  if bool_decide (addr = []) then mret 0
  else
    chain ← on_node get_chain;
    _ ← update meanwhile;
    pending ← on_node mempool_transactions;
    utxos ← reading (fun _ => my_utxos addr (mjoin (transactions <$> chain) ++ pending));
    mret (sum_u64 (utxo_amount <$> utxos)).
(** GET /api/balance. *)
Definition api_balance (dev : bool) (meanwhile : HttpRpcServer -> HttpRpcServer) (target : bytes) (req : Request)
    : web_op Answer :=
  authenticated dev req (asking (fun s =>
    let addr := query_address target (web_address s) in
    total ← on_rpc (balance_of meanwhile addr);
    reading (fun s =>
      Ok (plain_answer (ok_response (json "{'balance':" ++ dec_str total ++ json ",'address':'" ++ addr
            ++ json "','loaded':'" ++ web_address s ++ json "'}")))))).

(** ** A payment *)

(** Inputs are taken until they cover the amount. *)
Fixpoint take_inputs (amount : Z) (utxos : list WalletUtxo) (gathered : Z) : list TransactionInput * Z :=
  match utxos with
  | [] => ([], gathered)
  | u :: utxos =>
      let input := mkInput (utxo_txid u) (utxo_index u) in
      let gathered := u64 (gathered + utxo_amount u) in
      if amount <=? gathered then ([input], gathered)
      else let '(ins, g) := take_inputs amount utxos gathered in (input :: ins, g)
  end.
(** The signed transaction. *)
Definition send_tx (w : PersistentWallet) (to : bytes) (amount : Z) (utxos : list WalletUtxo) : result Transaction :=
  let '(ins, gathered) := take_inputs amount utxos 0 in
  let change := u64 (gathered - amount) in
  outs ← (if 0 <? change then a ← persistent_address w; Ok [mkOutput amount to; mkOutput change a]
          else Ok [mkOutput amount to]);
  pk ← persistent_public_key w;
  sign_inputs w pk (length ins) 0 (mkTx 1 [] ins outs (mkWitnessSet [])).

(** What a payment meets. *)
Record SendEnv := mkSendEnv {
  send_chain_read : HttpRpcServer -> HttpRpcServer;
  send_collected : HttpRpcServer -> HttpRpcServer;
  send_relay : bool
}.
Definition send_body (e : SendEnv) (body : bytes) : op HttpRpcServer Event Answer :=
  asking (fun s =>
    _ ← require_op (bool_decide (server_wallet s <> None)) "wallet unavailable";
    let to := get_field body "recipient" in
    let amount_s := get_field body "amount" in
    _ ← require_op (negb (bool_decide (to = []) || bool_decide (amount_s = []))) "missing recipient or amount";
    amount ← reading (fun _ => stoull amount_s);
    _ ← require_op (negb (amount =? 0)) "amount must be > 0";
    _ ← require_op (is_valid_address to) "invalid recipient address";
    utxos ← collect_my_utxos (send_chain_read e);
    _ ← require_op (negb (sum_u64 (utxo_amount <$> utxos) <? amount)) "insufficient balance";
    _ ← update (send_collected e);
    tx ← reading (fun s =>
           match server_wallet s with None => Throw "null wallet" | Some w => send_tx w to amount utxos end);
    ok ← on_node (submit_transaction (send_relay e) tx);
    _ ← require_op ok "mempool rejected transaction";
    id ← reading (fun _ => hash_to_hex <$> txid tx);
    mret (plain_answer (ok_response (json "{'status':'ok','txid':'" ++ id ++ json "'}")))).
(** POST /api/send. *)
Definition api_send (dev : bool) (e : SendEnv) (req : Request) : web_op Answer :=
  authenticated dev req (guarded req
    (catching (on_rpc (send_body e (req_body req))) (fun err => mret (error_answer 500 (str err))))).

(** ** Other answers *)

(** GET /api/wallet. *)
Definition api_wallet (dev : bool) (req : Request) : web_op Answer :=
  authenticated dev req (asking (fun s =>
    if wallet_loaded s then
      catching
        (pk ← on_store (reading (fun st => persistent_public_key (stored_wallet st)));
         addr ← on_store (reading (fun st => persistent_address (stored_wallet st)));
         _ ← require_op (negb (bool_decide (pk = []) || bool_decide (addr = []))) "wallet identity unavailable";
         mret (plain_answer (ok_response (json "{'public_key':'" ++ pk ++ json "','address':'" ++ addr ++ json "'}"))))
        (fun _ => mret (error_answer 503 (str "wallet unavailable")))
    else mret (error_answer 401 (str "wallet_locked")))).
(** GET /api/public-address. *)
Definition public_address : web_op Answer :=
  reading (fun s =>
    Ok (if bool_decide (web_address s = []) then
          plain_answer (mkResponse 503 (json "{'ok':false,'error':'wallet address unavailable'}"))
        else plain_answer (ok_response (json "{'ok':true,'address':'" ++ web_address s ++ json "'}")))).

(** POST /api/mine_default; [param] is the query parameter. The reward of a
    block can only go to the loaded wallet. *)
Definition mine_default (dev : bool) (param : option bytes) (req : Request) : web_op Answer :=
  authenticated dev req (guarded req (or_400
    (let wanted := match param with Some a => a | None => json_string (req_body req) "address" end in
     asking (fun s =>
       if negb (wallet_loaded s) then mret (error_answer 401 (str "wallet_locked"))
       else
         own ← on_store (reading (fun st => persistent_address (stored_wallet st)));
         if bool_decide (own = []) then
           mret (error_answer 503 (str "wallet address unavailable; refusing mining reward"))
         else
           let to := if bool_decide (wanted = []) then own else wanted in
           if negb (bool_decide (to = own)) then
             mret (error_answer 400 (str "mining recipient must match the loaded wallet address"))
           else
             started ← on_rpc (on_node (request_mine_one_block to));
             mret (plain_answer
               (if (started : bool) then ok_response (json "{'status':'ok'}")
                else mkResponse 409 (json "{'status':'busy','mining':true}"))))))).
End Spending.
