(* ===== verification/SpendingFacts.v ===== *)
(** What the owner is told and what the owner's payments do: the balance is
    the value of the owner's coins in the set that consensus keeps, and a
    payment spends coins of the wallet for exactly the amount and the change. *)

From S2P Require Import Prelude Serialization Crypto Transaction UTXO Ownership Coinbase Consensus Block ChainValidator.
From S2P Require Import Mempool Storage Node Text PoolState Bip39 Wallet Derivation SecureWallet KeyStore Otp.
From S2P Require Import Pool PoolFacts PoolPayout Session SessionFacts Spending.
From stdpp Require Import options.
Local Open Scope Z_scope.

(** ** The wallet's view of the coins *)

Definition coin (p : OutPoint) (o : TransactionOutput) : WalletUtxo := mkWalletUtxo (op_txid p) (op_index p) (amount o).
(** The coins of an address in the set of unspent outputs. *)
Definition coins_of (addr : bytes) (u : UTXOSet) : list WalletUtxo :=
  (fun kv => coin kv.1 kv.2) <$> List.filter (fun kv => bool_decide (recipient kv.2 = addr)) (map_to_list u).

Lemma output_at_snoc id outs o p :
  output_at id 0 (outs ++ [o]) p =
    if decide (p = mkOutPoint id (Z.of_nat (length outs))) then Some o else output_at id 0 outs p.
Proof.
  unfold output_at. destruct p as [h k]. cbn [op_txid op_index]. case_bool_decide as E; cbn [andb].
  - subst h. destruct (Z.leb_spec 0 k); cbn [andb].
    + case_decide as Ek.
      * injection Ek as ->. replace (Z.to_nat (Z.of_nat (length outs) - 0)) with (length outs) by lia.
        by rewrite list_lookup_middle.
      * rewrite lookup_app. destruct (outs !! Z.to_nat (k - 0)) eqn:El; [done|]. apply lookup_ge_None_1 in El.
        destruct (Z.to_nat (k - 0) - length outs)%nat eqn:Es; [|done]. destruct Ek. f_equal. lia.
    + case_decide as Ek; [|done]. injection Ek. lia.
  - rewrite decide_False; [done|]. congruence.
Qed.
Lemma mine_outputs_lookup addr id outs unspent p :
  sizeZ outs <= UINT32_MAX + 1 ->
  mine_outputs addr id outs unspent !! p =
    match output_at id 0 outs p with
    | Some o => if bool_decide (recipient o = addr) then Some (coin p o) else unspent !! p
    | None => unspent !! p
    end.
Proof.
  unfold mine_outputs. induction outs as [|o outs IH] using rev_ind; intros Hs.
  { unfold output_at. by destruct (_ && _). }
  rewrite sizeZ_app in Hs. unfold sizeZ at 2 in Hs. cbn [length] in Hs.
  rewrite imap_app, foldl_app. cbn [imap foldl]. cbv zeta. rewrite Nat.add_0_r, output_at_snoc.
  rewrite u32_small by (unfold sizeZ in Hs; ints). specialize (IH ltac:(lia)). case_decide as Ep.
  - subst p. case_bool_decide; [by rewrite lookup_insert_eq|]. rewrite IH. unfold output_at. cbn [op_txid op_index].
    rewrite bool_decide_true by done. rewrite (proj2 (Z.leb_le _ _)) by lia. cbn [andb].
    by rewrite lookup_ge_None_2 by lia.
  - case_bool_decide; [by rewrite lookup_insert_ne by congruence|done].
Qed.
Lemma add_outputs_sizes id i outs u u' :
  0 <= i -> add_outputs id i outs u = (true, u') ->
  i + sizeZ outs <= UINT32_MAX + 1 \/ outs = [].
Proof.
  revert i u. induction outs as [|o outs IH]; intros i u Hi; [by right|]. cbn [add_outputs].
  destruct (Z.ltb_spec UINT32_MAX i); [done|]. unfold utxo_add. destruct (u !! _); [done|].
  intros Hr%IH; [|lia]. left. rewrite sizeZ_cons. destruct Hr as [?| ->]; [lia|]. unfold sizeZ. cbn [length]. lia.
Qed.
(** What is added was not there. *)
Lemma add_outputs_new id i outs u u' p :
  0 <= i -> add_outputs id i outs u = (true, u') -> is_Some (output_at id i outs p) -> u !! p = None.
Proof.
  revert i u. induction outs as [|o outs IH]; intros i u Hi; cbn [add_outputs].
  { intros _ [x Hx]. unfold output_at in Hx. by destruct (_ && _). }
  destruct (Z.ltb_spec UINT32_MAX i); [done|]. unfold utxo_add. rewrite u32_small by ints.
  destruct (u !! mkOutPoint id i) eqn:El; [done|]. intros Ha Ho. rewrite output_at_cons in Ho. case_decide as Ep.
  { by subst p. }
  apply (IH (i + 1)) in Ha; [|lia|done]. by rewrite lookup_insert_ne in Ha by congruence.
Qed.

(** The two containers of the wallet next to the set of consensus. *)
Record view (addr : bytes) (spent : gset OutPoint) (unspent : gmap OutPoint WalletUtxo) (u : UTXOSet) : Prop := {
  v_sound p w : unspent !! p = Some w -> p ∉ spent -> exists o, u !! p = Some o /\ recipient o = addr /\ w = coin p o;
  v_complete p o : u !! p = Some o -> recipient o = addr -> p ∉ spent -> unspent !! p = Some (coin p o);
  v_coin p w : unspent !! p = Some w -> mkOutPoint (utxo_txid w) (utxo_index w) = p
}.

Lemma view_step addr spent unspent u spent' u1 id outs u' :
  view addr spent unspent u -> spent ⊆ spent' -> u1 ⊆ u -> (forall p, p ∉ spent' -> u1 !! p = u !! p) ->
  add_outputs id 0 outs u1 = (true, u') ->
  view addr spent' (mine_outputs addr id outs unspent) u'.
Proof.
  intros [Vs Vc Vi] Hsub Hu1 Hkeep Hadd.
  assert (sizeZ outs <= UINT32_MAX + 1) as Hsz
    by (destruct (add_outputs_sizes _ _ _ _ _ (Z.le_refl 0) Hadd) as [?| ->]; unfold sizeZ, UINT32_MAX in *; cbn [length]; lia).
  split; intros p x; rewrite mine_outputs_lookup by done.
  - intros Hp Hns. rewrite (add_outputs_lookup _ _ _ _ _ p (Z.le_refl 0) Hadd).
    destruct (output_at id 0 outs p) as [o|] eqn:Eo.
    + case_bool_decide as Er; [injection Hp as <-; eauto|].
      destruct (Vs p x Hp ltac:(set_solver)) as (o' & Ho' & _). rewrite <- Hkeep in Ho' by done.
      rewrite (add_outputs_new _ _ _ _ _ p (Z.le_refl 0) Hadd) in Ho' by eauto. done.
    + rewrite Hkeep by done. apply (Vs p x Hp). set_solver.
  - intros Hp Hr Hns. rewrite (add_outputs_lookup _ _ _ _ _ p (Z.le_refl 0) Hadd) in Hp.
    destruct (output_at id 0 outs p) as [o|] eqn:Eo.
    + injection Hp as ->. by rewrite bool_decide_true.
    + apply Vc; [by rewrite <- Hkeep|done|set_solver].
  - destruct (output_at id 0 outs p) as [o|] eqn:Eo; [|apply Vi]. case_bool_decide; [|apply Vi].
    intros [= <-]. by destruct p.
Qed.

(** Every point is named by a transaction seen before, or by none. *)
Record distinct_view (ids : list Hash256) (spent : gset OutPoint) (u : UTXOSet) : Prop := {
  d_spent p : p ∈ spent -> op_txid p = zero_hash \/ op_txid p ∈ ids;
  d_coin p : is_Some (u !! p) -> op_txid p <> zero_hash /\ op_txid p ∈ ids /\ p ∉ spent
}.
Lemma distinct_step ids spent u spent' u1 id outs u' :
  distinct_view ids spent u -> id <> zero_hash -> id ∉ ids -> u1 ⊆ u ->
  (forall p, p ∈ spent' -> p ∈ spent \/ op_txid p = zero_hash \/ op_txid p ∈ ids /\ u1 !! p = None) ->
  add_outputs id 0 outs u1 = (true, u') -> distinct_view (ids ++ [id]) spent' u'.
Proof.
  intros [Ds Dc] Hz Hid Hu1 Hsp Hadd. split.
  - intros p [[?|?]%Ds|[?|[? _]]]%Hsp; set_solver.
  - intros p. rewrite (add_outputs_lookup _ _ _ _ _ p (Z.le_refl 0) Hadd).
    destruct (output_at id 0 outs p) as [o|] eqn:Eo.
    + intros _. assert (op_txid p = id) as Ep.
      { unfold output_at in Eo. case_bool_decide; [done|]. done. }
      split_and!; [congruence|set_solver|]. intros [[?|?]%Ds|[?|[? _]]]%Hsp; congruence.
    + intros [o Ho]. destruct (Dc p) as (H0 & H1 & H2); [exists o; by eapply lookup_weaken|].
      split_and!; [done|set_solver|]. intros [?|[?|[_ ?]]]%Hsp; congruence.
Qed.

Section View.
Context {ssl : OpenSSL} {iter : UnorderedMap} {order : UtxoOrder}.

Definition spends (tx : Transaction) (spent : gset OutPoint) : gset OutPoint :=
  foldl (fun s i => {[point i]} ∪ s) spent (inputs tx).
Lemma elem_of_spends tx spent p : p ∈ spends tx spent <-> p ∈ spent \/ p ∈ point <$> inputs tx.
Proof.
  unfold spends. revert spent. induction (inputs tx) as [|i l IH]; intros spent; cbn [foldl]; [set_solver|].
  rewrite IH, fmap_cons. set_solver.
Qed.

(** What the wallet and consensus make of the same transactions. *)
Record in_step (addr : bytes) (ids : list Hash256) (acc : gset OutPoint * gmap OutPoint WalletUtxo) (u : UTXOSet) : Prop := {
  is_view : view addr acc.1 acc.2 u;
  is_distinct : distinct_view ids acc.1 u
}.
Lemma step_apply addr ids acc u tx id u' :
  in_step addr ids acc u -> apply_transaction tx u = Ok (true, u') -> txid tx = Ok id -> id <> zero_hash -> id ∉ ids ->
  exists acc', process_tx addr acc tx = Ok acc' /\ in_step addr (ids ++ [id]) acc' u'.
Proof.
  destruct acc as [spent unspent]. intros [V D] (_ & _ & u1 & id' & Hsp & Hid' & Hadd)%apply_transaction_inv Hid Hz Hn.
  rewrite Hid in Hid'. injection Hid' as <-. cbn [fst snd] in *.
  unfold process_tx. rewrite Hid. fold (spends tx spent). eexists. split; [done|].
  pose proof (spend_inputs_subseteq _ _ _ Hsp) as Hsub. split; cbn [fst snd].
  - eapply view_step; [exact V| |exact Hsub| |exact Hadd].
    + intros p Hp. apply elem_of_spends. by left.
    + intros p Hp. rewrite (spend_inputs_lookup _ _ _ p Hsp). rewrite decide_False; [done|].
      intros Hi. apply Hp, elem_of_spends. by right.
  - eapply distinct_step; [exact D|done|done|exact Hsub| |exact Hadd].
    intros p [?|Hi]%elem_of_spends; [by left|]. right. right.
    rewrite (spend_inputs_lookup _ _ _ p Hsp), decide_True by done. split; [|done].
    apply spend_inputs_spec in Hsp as [[_ Hav] _]. apply list_elem_of_fmap in Hi as (i & -> & Hi).
    by apply (d_coin _ _ _ D), (proj1 (Forall_forall _ _) Hav).
Qed.
Lemma step_coinbase addr ids acc u tx id u' :
  in_step addr ids acc u -> is_coinbase_transaction tx = true -> txid tx = Ok id -> id <> zero_hash -> id ∉ ids ->
  add_outputs id 0 (outputs tx) u = (true, u') ->
  exists acc', process_tx addr acc tx = Ok acc' /\ in_step addr (ids ++ [id]) acc' u'.
Proof.
  destruct acc as [spent unspent]. intros [V D] Hcb Hid Hz Hn Hadd. cbn [fst snd] in *.
  unfold process_tx. rewrite Hid. fold (spends tx spent). eexists. split; [done|]. split; cbn [fst snd].
  - eapply view_step; [exact V| |done|done|exact Hadd]. intros p Hp. apply elem_of_spends. by left.
  - eapply distinct_step; [exact D|done|done|done| |exact Hadd].
    intros p [?|Hi]%elem_of_spends; [by left|]. right. left. apply list_elem_of_fmap in Hi as (i & -> & Hi).
    unfold is_coinbase_transaction in Hcb. destruct (inputs tx) as [|j [|]]; [done| |done].
    apply list_elem_of_singleton in Hi as ->. destruct (negb (output_index j =? _)); [done|].
    destruct (is_zero_hash (previous_txid j)) eqn:Ez; [|done]. by apply is_zero_hash_zero.
Qed.

Lemma foldM_app {A S} (f : S -> A -> result S) s l1 l2 s1 :
  foldM_r f s l1 = Ok s1 -> foldM_r f s (l1 ++ l2) = foldM_r f s1 l2.
Proof.
  revert s. induction l1 as [|a l1 IH]; intros s; cbn [foldM_r app]; [by intros [= ->]|].
  intros (s' & E & H)%bind_Ok. rewrite E. by apply IH.
Qed.

Definition tx_ids (txs : list Transaction) (ids : list Hash256) : Prop := Forall2 (fun tx id => txid tx = Ok id) txs ids.
Lemma steps_apply addr txs tids ids acc u u' :
  in_step addr ids acc u -> apply_transactions txs u = Ok (true, u') -> tx_ids txs tids ->
  NoDup (zero_hash :: ids ++ tids) ->
  exists acc', foldM_r (process_tx addr) acc txs = Ok acc' /\ in_step addr (ids ++ tids) acc' u'.
Proof.
  intros Hs Ha Ht. revert ids acc u Hs Ha. induction Ht as [|tx id txs tids Hid Ht IH]; intros ids acc u Hs Ha Hnd.
  { injection Ha as <-. exists acc. by rewrite app_nil_r. }
  apply apply_transactions_cons_inv in Ha as (u1 & E & Ha). apply NoDup_cons in Hnd as [Hz Hnd].
  assert (id <> zero_hash) by set_solver.
  assert (id ∉ ids) by (apply NoDup_app in Hnd as (_ & Hd & _); intros Hin; apply (Hd id Hin); set_solver).
  destruct (step_apply addr ids acc u tx id u1) as (acc1 & E1 & H1); try done.
  destruct (IH (ids ++ [id]) acc1 u1 H1 Ha) as (acc2 & E2 & H2).
  { rewrite <- app_assoc. by constructor. }
  exists acc2. cbn [foldM_r]. rewrite E1. split; [exact E2|]. by rewrite <- app_assoc in H2.
Qed.
Lemma step_block addr b tids ids acc u u' :
  in_step addr ids acc u -> apply_block_transactions_in_place_after_basic_validation b u = Ok (true, u') ->
  tx_ids (transactions b) tids -> NoDup (zero_hash :: ids ++ tids) ->
  exists acc', foldM_r (process_tx addr) acc (transactions b) = Ok acc' /\ in_step addr (ids ++ tids) acc' u'.
Proof.
  intros Hs (cb & txs & id & u1 & Etx & Hcb & Hid & Hadd & Ha)%apply_block_inv Ht Hnd. rewrite Etx in *.
  inversion Ht as [|? id' ? tids' Hid' Ht']; subst. rewrite Hid in Hid'. injection Hid' as <-.
  pose proof Hnd as [Hz Hnd']%NoDup_cons.
  assert (id ∉ ids) by (apply NoDup_app in Hnd' as (_ & Hd & _); intros Hin; apply (Hd id Hin); set_solver).
  apply coinbase_transaction_spec in Hcb as [Hcb _].
  destruct (step_coinbase addr ids acc u cb id u1) as (acc1 & E1 & H1); try done; [set_solver|].
  destruct (steps_apply addr txs tids' (ids ++ [id]) acc1 u1 u') as (acc2 & E2 & H2); try done.
  { by rewrite <- app_assoc. }
  exists acc2. cbn [foldM_r]. rewrite E1. split; [exact E2|]. by rewrite <- app_assoc in H2.
Qed.

(** Consensus leaves the genesis block out of the set: its transactions spend
    nothing and pay nobody who has a wallet. *)
Definition clear_genesis (addr : bytes) (c : list Block) : Prop :=
  forall g tx, head c = Some g -> tx ∈ transactions g ->
    inputs tx = [] /\ forall o, o ∈ outputs tx -> recipient o <> addr.
Lemma mine_nothing addr id outs m :
  (forall o, o ∈ outs -> recipient o <> addr) -> mine_outputs addr id outs m = m.
Proof.
  unfold mine_outputs. intros H. induction outs as [|o outs IH] using rev_ind; [done|].
  rewrite imap_app, foldl_app, IH by set_solver. cbn. rewrite bool_decide_false; [done|]. apply H. set_solver.
Qed.
Lemma genesis_view addr g tids :
  tx_ids (transactions g) tids -> clear_genesis addr [g] ->
  foldM_r (process_tx addr) (∅, ∅) (transactions g) = Ok (∅, ∅).
Proof.
  intros Ht Hu. assert (forall tx, tx ∈ transactions g -> inputs tx = [] /\ forall o, o ∈ outputs tx -> recipient o <> addr) as Hu'
    by (intros; by eapply Hu).
  clear Hu. induction Ht as [|tx id txs ids Hid Ht IH]; [done|]. destruct (Hu' tx) as [Hi Ho]; [set_solver|].
  assert (process_tx addr (∅, ∅) tx = Ok (∅, ∅)) as E.
  { unfold process_tx. rewrite Hid, Hi. cbn. by rewrite mine_nothing. }
  cbn [foldM_r]. rewrite E. apply IH. intros tx' Htx. apply Hu'. set_solver.
Qed.

Lemma chain_view addr c r ids :
  valid_chain c r -> tx_ids (mjoin (transactions <$> c)) ids -> NoDup (zero_hash :: ids) -> clear_genesis addr c ->
  exists acc, foldM_r (process_tx addr) (∅, ∅) (mjoin (transactions <$> c)) = Ok acc /\ in_step addr ids acc (utxo r).
Proof.
  intros Hc. revert ids. induction Hc as [g Hg|c r b r' Hc IH He]; intros ids Ht Hnd Hu.
  - cbn in *. rewrite app_nil_r in *. exists (∅, ∅). split; [by eapply genesis_view|].
    split; cbn [fst snd utxo]; [split; intros ? ? H; by rewrite lookup_empty in H|].
    split; [intros p Hp; by apply elem_of_empty in Hp|intros ? [? H]; by rewrite lookup_empty in H].
  - rewrite fmap_app, join_app in Ht |- *. cbn in Ht |- *. rewrite app_nil_r in Ht |- *.
    apply Forall2_app_inv_l in Ht as (ids1 & ids2 & Ht1 & Ht2 & ->).
    destruct (IH ids1) as (acc & E & Hs); [done| | |].
    + eapply sublist_NoDup; [exact Hnd|]. apply sublist_skip, sublist_inserts_r. reflexivity.
    + intros g tx Hg. apply (Hu g). destruct c; [done|exact Hg].
    + rewrite (foldM_app _ _ _ _ _ E). eapply step_block; [exact Hs|apply He|exact Ht2|exact Hnd].
Qed.

Lemma elem_of_kept {A} (P : A -> bool) (l : list A) x : x ∈ List.filter P l <-> x ∈ l /\ P x = true.
Proof. by rewrite !list_elem_of_In, filter_In. Qed.
Lemma NoDup_kept {A} (P : A -> bool) (l : list A) : NoDup l -> NoDup (List.filter P l).
Proof. rewrite !NoDup_ListNoDup. apply List.NoDup_filter. Qed.

Lemma elem_of_coins addr u w :
  w ∈ coins_of addr u <-> exists p o, u !! p = Some o /\ recipient o = addr /\ w = coin p o.
Proof.
  unfold coins_of. rewrite list_elem_of_fmap. split.
  - intros ([p o] & -> & [Hin%elem_of_map_to_list Hr%bool_decide_eq_true]%elem_of_kept). by exists p, o.
  - intros (p & o & Hp & Hr & ->). exists (p, o). split; [done|]. apply elem_of_kept.
    rewrite elem_of_map_to_list. split; [done|]. by apply bool_decide_eq_true.
Qed.
Lemma coins_NoDup addr u : NoDup (coins_of addr u).
Proof.
  unfold coins_of. apply NoDup_fmap_2_strong; [|apply NoDup_kept, NoDup_map_to_list].
  intros [p o] [p' o'] [H%elem_of_map_to_list _]%elem_of_kept [H'%elem_of_map_to_list _]%elem_of_kept [= E1 E2 _].
  cbn in *. destruct p, p'. cbn in *. subst. by simplify_map_eq.
Qed.
(** The unspent outputs a view leaves. *)
Lemma view_coins addr ids spent unspent u :
  in_step addr ids (spent, unspent) u ->
  (List.filter (fun e => negb (bool_decide (e.1 ∈ spent))) (utxo_iteration unspent)).*2 ≡ₚ coins_of addr u.
Proof.
  intros [V D]. cbn [fst snd] in *.
  assert (forall e, e ∈ List.filter (fun e => negb (bool_decide (e.1 ∈ spent))) (utxo_iteration unspent) <->
    unspent !! e.1 = Some e.2 /\ e.1 ∉ spent) as Hin.
  { intros [p w]. rewrite elem_of_kept, utxo_iteration_perm, elem_of_map_to_list. cbn. by rewrite negb_true_iff, bool_decide_eq_false. }
  apply NoDup_Permutation.
  - apply NoDup_fmap_2_strong.
    + intros [p w] [p' w'] [H _]%Hin [H' _]%Hin E. cbn in *. subst. f_equal.
      rewrite <- (v_coin _ _ _ _ V _ _ H). by apply (v_coin _ _ _ _ V).
    + apply NoDup_kept. rewrite utxo_iteration_perm. apply NoDup_map_to_list.
  - apply coins_NoDup.
  - intros w. rewrite elem_of_coins, list_elem_of_fmap. split.
    + intros ([p w'] & -> & [H Hn]%Hin). destruct (v_sound _ _ _ _ V p w' H Hn) as (o & ? & ? & ?). by exists p, o.
    + intros (p & o & Hp & Hr & ->). exists (p, coin p o). split; [done|]. apply Hin. cbn.
      destruct (d_coin _ _ _ D p) as (_ & _ & Hn); [by eexists|]. split; [|done]. by apply (v_complete _ _ _ _ V).
Qed.

(** The wallet finds the coins of consensus. *)
Lemma my_utxos_coins addr c r ids :
  valid_chain c r -> tx_ids (mjoin (transactions <$> c)) ids -> NoDup (zero_hash :: ids) -> clear_genesis addr c ->
  exists us, my_utxos addr (mjoin (transactions <$> c)) = Ok us /\ us ≡ₚ coins_of addr (utxo r).
Proof.
  intros Hc Ht Hnd Hg. destruct (chain_view addr c r ids Hc Ht Hnd Hg) as ([spent unspent] & E & Hs).
  unfold my_utxos. rewrite E. eexists. split; [done|]. by eapply view_coins.
Qed.
Lemma coins_value_le addr u : utxo_typed u -> 0 <= sumZ utxo_amount (coins_of addr u) <= utxo_total u.
Proof.
  intros Hu. unfold coins_of, utxo_total. rewrite sumZ_fmap. cbn [utxo_amount coin].
  assert (Forall (fun kv : OutPoint * TransactionOutput => 0 <= amount kv.2) (map_to_list u)) as Hp.
  { apply Forall_forall. intros [p o] H%elem_of_map_to_list. apply (Hu p o H). }
  unfold sumZ. induction Hp as [|kv l Hkv Hl IH]; cbn; [lia|]. destruct (bool_decide _); cbn; lia.
Qed.
Lemma coins_pos addr u : utxo_typed u -> Forall (fun w => 0 <= utxo_amount w) (coins_of addr u).
Proof.
  intros Hu. apply Forall_forall. intros w (p & o & Hp & _ & ->)%elem_of_coins. apply (Hu p o Hp).
Qed.
End View.

(** ** The balance *)

Section Money.
Context {ssl : OpenSSL} {wssl : WalletSSL} {iter : UnorderedMap} {order : UtxoOrder}.

Lemma loaded_typed n c r : node_inv n c r -> Forall block_typed c.
Proof.
  intros H%ni_load%load_spec. destruct H as (_ & [Hs _] & _). eapply Forall_impl; [exact Hs|].
  intros b [(Hh & Ht & _) _]. split; [done|]. eapply Forall_impl; [exact Ht|].
  intros tx [[(Hv & _ & [Hin _] & [Ho _]) _] _]. split_and!; [done|done|]. eapply Forall_impl; [exact Ho|]. by intros o [? _].
Qed.
(** The coins of an idle node. *)
Record quiet_node (n : CaesarNode) (c : list Block) (r : ChainValidationResult) (addr : bytes) : Prop := {
  q_inv : node_inv n c r;
  q_pool : transactions_ (mempool_ n) = ∅;
  q_ids : exists ids, tx_ids (mjoin (transactions <$> c)) ids /\ NoDup (zero_hash :: ids);
  q_genesis : clear_genesis addr c
}.
Lemma quiet_coins n c r addr :
  quiet_node n c r addr ->
  exists us, my_utxos addr (mjoin (transactions <$> c)) = Ok us /\ us ≡ₚ coins_of addr (utxo r) /\
    Forall (fun w => 0 <= utxo_amount w) us /\
    0 <= sumZ utxo_amount us <= CZR_MAX_SUPPLY.
Proof.
  intros [Hi _ (ids & Ht & Hnd) Hg]. destruct (my_utxos_coins addr c r ids (ni_valid _ _ _ Hi) Ht Hnd Hg) as (us & E & Hp).
  exists us. split; [done|]. split; [done|].
  destruct (valid_chain_supply c r (ni_valid _ _ _ Hi) (loaded_typed _ _ _ Hi) (loaded_size _ _ _ Hi)) as (Hu & Ht' & Hle).
  pose proof (coins_value_le addr (utxo r) Hu). pose proof (issued_bound (length c - 1)).
  split; [apply (Permutation_Forall (symmetry Hp)), coins_pos, Hu|]. rewrite (sumZ_perm utxo_amount us _ Hp). lia.
Qed.
Lemma quiet_pool n n' c r addr :
  quiet_node n c r addr -> get_chain n = (Ok c, n', []) ->
  mempool_transactions n' = (Ok [], n', []) /\ mempool_ n' = mempool_ n.
Proof.
  intros Hq [_ Hm]%get_chain_quiet. split; [|done]. unfold mempool_transactions, reading. rewrite Hm, (q_pool _ _ _ _ Hq).
  assert (iteration ∅ = []) as ->; [|done]. apply Permutation_nil_r. by rewrite iteration_perm, map_to_list_empty.
Qed.

Lemma run_rpc {A B} (m : op HttpRpcServer Event A) (f : A -> op WebServer Event B) s r s1 ev :
  m (web_rpc s) = (r, s1, ev) ->
  (on_rpc m ≫= f) s = match r with
                      | Ok a => let '(r2, s2, ev2) := f a (set_rpc s1 s) in (r2, s2, ev ++ ev2)
                      | Throw e => (Throw e, set_rpc s1 s, ev)
                      end.
Proof. intros E. unfold mbind, op_bind, on_rpc. rewrite E. by destruct r. Qed.

(** ** Payments *)

Definition spending (u : WalletUtxo) : TransactionInput := mkInput (utxo_txid u) (utxo_index u).
Lemma take_inputs_spec amt utxos g :
  Forall (fun u => 0 <= utxo_amount u) utxos -> 0 <= g < amt ->
  amt <= g + sumZ utxo_amount utxos <= UINT64_MAX ->
  exists used last, used ++ [last] `prefix_of` utxos /\
    take_inputs amt utxos g = (spending <$> used ++ [last], g + sumZ utxo_amount (used ++ [last])) /\
    g + sumZ utxo_amount used < amt <= g + sumZ utxo_amount (used ++ [last]).
Proof.
  intros Hu. revert g. induction Hu as [|u utxos Hu Hus IH]; intros g Hg Hb; cbn [take_inputs].
  { unfold sumZ in Hb. cbn in Hb. lia. }
  unfold sumZ in Hb. cbn [foldr] in Hb. fold (sumZ utxo_amount utxos) in Hb. pose proof (sumZ_nonneg utxo_amount utxos Hus).
  rewrite u64_small by ints. destruct (Z.leb_spec amt (g + utxo_amount u)) as [Hle|Hlt].
  - exists [], u. split; [by exists utxos|]. unfold sumZ. cbn. split; [do 2 f_equal; lia|lia].
  - destruct (IH (g + utxo_amount u)) as (used & x & Hp & -> & Hs); [lia..|]. exists (u :: used), x.
    split; [by apply prefix_cons|]. unfold sumZ in *. cbn. split; [f_equal; lia|lia].
Qed.
(** Signing leaves what is signed alone. *)
Lemma sign_inputs_keeps w pk n i tx tx' :
  sign_inputs w pk n i tx = Ok tx' ->
  inputs tx' = inputs tx /\ outputs tx' = outputs tx /\
  length (witness_inputs (witness tx')) = (length (witness_inputs (witness tx)) + n)%nat.
Proof.
  revert i tx. induction n as [|n IH]; intros i tx; cbn [sign_inputs]; [intros [= <-]; split_and!; [done..|lia]|].
  intros (key & _ & H)%bind_Ok. apply bind_Ok in H as (sig & _ & (-> & -> & ->)%IH). cbn. rewrite length_app. cbn.
  split_and!; [done..|lia].
Qed.

(** The payment of [amt] to [to] out of the coins [used]. *)
Definition payment_outputs (to own : bytes) (amt total : Z) : list TransactionOutput :=
  mkOutput amt to :: (if 0 <? total - amt then [mkOutput (total - amt) own] else []).
Lemma send_tx_spec w own pk to amt us :
  persistent_address w = Ok own -> persistent_public_key w = Ok pk ->
  Forall (fun u => 0 <= utxo_amount u) us -> 0 < amt <= sumZ utxo_amount us -> sumZ utxo_amount us <= UINT64_MAX ->
  exists used last, used ++ [last] `prefix_of` us /\ sumZ utxo_amount used < amt /\
    send_tx w to amt us = sign_inputs w pk (length (used ++ [last])) 0
      (mkTx 1 [] (spending <$> used ++ [last]) (payment_outputs to own amt (sumZ utxo_amount (used ++ [last]))) (mkWitnessSet [])) /\
    sumZ amount (payment_outputs to own amt (sumZ utxo_amount (used ++ [last]))) = sumZ utxo_amount (used ++ [last]).
Proof.
  intros Ha Hpk Hu Hamt Hmax. destruct (take_inputs_spec amt us 0 Hu) as (used & x & Hp & E & Hs); [lia..|].
  exists used, x. rewrite !Z.add_0_l in *. split; [done|]. split; [lia|].
  pose proof (prefix_sum _ _ Hu Hp) as Hle. set (total := sumZ utxo_amount (used ++ [x])) in *.
  unfold send_tx. rewrite E. cbv zeta. rewrite u64_small by ints. unfold payment_outputs. rewrite length_fmap. split.
  - destruct (0 <? total - amt); [rewrite Ha|]; cbn [mbind result_bind]; by rewrite Hpk.
  - unfold sumZ. cbn [foldr amount]. destruct (Z.ltb_spec 0 (total - amt)); cbn; lia.
Qed.

(** The balance is right. On a node with nothing pending, GET /api/balance
    answers with the value of the coins that consensus holds for the address:
    the outputs to it in the set of unspent outputs of the chain, added up
    without wrapping. *)
Theorem balance_correct c r dev target req s addr :
  quiet_node (server_node (web_rpc s)) c r addr -> addr <> [] ->
  query_address target (web_address s) = addr -> is_authenticated dev req s = true ->
  exists s', api_balance dev id target req s
    = (Ok (plain_answer (ok_response (json "{'balance':" ++ dec_str (sumZ utxo_amount (coins_of addr (utxo r)))
         ++ json ",'address':'" ++ addr ++ json "','loaded':'" ++ web_address s ++ json "'}"))), s', []) /\
    quiet_node (server_node (web_rpc s')) c r addr.
Proof.
  intros Hq Hne Ha Hauth. unfold api_balance, authenticated, asking. rewrite Hauth, Ha.
  destruct (quiet_coins _ c r addr Hq) as (us & Eu & Hp & Hpos & Hb).
  destruct (get_chain_spec _ c r (q_inv _ _ _ _ Hq)) as (n' & Ec & Hi & _).
  destruct (quiet_pool _ n' c r addr Hq Ec) as [Em Hm].
  assert (balance_of id addr (web_rpc s) = (Ok (sumZ utxo_amount us), set_server_node n' (web_rpc s), [])) as E.
  { unfold balance_of. rewrite bool_decide_false by done. rewrite (run_node _ _ _ c n' [] Ec), run_idle.
    rewrite (run_node _ _ _ [] n' []) by exact Em. rewrite run_reading, app_nil_r, Eu.
    rewrite (sum_u64_map utxo_amount us Hpos); [done|]. unfold CZR_MAX_SUPPLY, CZR_ATOMIC_UNITS in Hb. ints. }
  rewrite (run_rpc _ _ _ _ _ _ E). eexists. split.
  - unfold reading. rewrite (sumZ_perm utxo_amount us _ Hp). by destruct s.
  - destruct Hq as [_ H2 H3 H4]. split; [by destruct s| |done|done]. destruct s. cbn. by rewrite Hm.
Qed.

Definition send_alone : SendEnv := mkSendEnv id id true.
(** What the sender is told, given what the node said. *)
Definition send_answer (tx : Transaction) (r : result bool) : Answer :=
  match r with
  | Ok true =>
      match txid tx with
      | Ok id => plain_answer (ok_response (json "{'status':'ok','txid':'" ++ hash_to_hex id ++ json "'}"))
      | Throw e => error_answer 500 (str e)
      end
  | Ok false => error_answer 500 (str "mempool rejected transaction")
  | Throw e => error_answer 500 (str e)
  end.
Lemma send_body_run c r s keys own body to amt us n' :
  quiet_node (server_node s) c r own -> server_wallet s = Some (Some keys) ->
  wallet_address keys = Ok own -> own <> [] ->
  get_field body "recipient" = to -> is_valid_address to = true -> stoull (get_field body "amount") = Ok amt ->
  0 < amt <= sumZ utxo_amount us ->
  my_utxos own (mjoin (transactions <$> c)) = Ok us -> get_chain (server_node s) = (Ok c, n', []) ->
  sum_u64 (utxo_amount <$> us) = sumZ utxo_amount us ->
  send_body send_alone body s =
    match send_tx (Some keys) to amt us with
    | Throw e => (Throw e, set_server_node n' s, [])
    | Ok tx =>
        let '(r1, n1, ev) := submit_transaction true tx n' in
        (match r1 with
         | Ok true => (fun id => plain_answer (ok_response (json "{'status':'ok','txid':'" ++ hash_to_hex id ++ json "'}"))) <$> txid tx
         | Ok false => Throw "mempool rejected transaction"
         | Throw e => Throw e
         end, set_server_node n1 s, ev)
    end.
Proof.
  intros Hq Hw Ha Hne Hto Hval Hst Hamt Eu Ec Esum. destruct (quiet_pool _ n' c r own Hq Ec) as [Em _].
  unfold send_body, asking. rewrite run_require, bool_decide_true by congruence. cbv zeta. rewrite Hto.
  assert (to <> []) by (intros ->; done).
  assert (get_field body "amount" <> []) by (intros E; rewrite E in Hst; done).
  rewrite run_require, !bool_decide_false by done. cbn [orb negb]. rewrite run_reading, Hst.
  rewrite run_require, (proj2 (Z.eqb_neq amt 0)) by lia. cbn [negb]. rewrite run_require, Hval.
  assert (collect_my_utxos (send_chain_read send_alone) s = (Ok us, set_server_node n' s, [])) as Ecol.
  { unfold collect_my_utxos, asking. rewrite Hw. unfold my_address, persistent_address, loaded. cbn [mbind result_bind].
    rewrite Ha, bool_decide_false by done. cbn [send_chain_read send_alone].
    rewrite (run_node _ _ _ c n' [] Ec), run_idle, (run_node _ _ _ [] n' []) by exact Em.
    unfold reading. rewrite app_nil_r, Eu. by destruct s. }
  unfold mbind at 1, op_bind at 1. rewrite Ecol, run_nil, Esum.
  rewrite run_require, (proj2 (Z.ltb_ge _ _)) by lia. cbn [negb send_collected send_alone]. rewrite run_idle, run_reading.
  cbn [server_wallet set_server_node]. rewrite Hw. destruct (send_tx (Some keys) to amt us) as [tx|]; [|done].
  cbn [send_relay send_alone]. unfold mbind at 1, op_bind at 1, on_node. cbn [server_node set_server_node].
  destruct (submit_transaction true tx n') as [[r1 n1] ev]. destruct r1 as [[]|]; [|by rewrite run_require, app_nil_r|done].
  rewrite run_require, run_reading. destruct (txid tx); cbn; by rewrite app_nil_r.
Qed.

(** The request around the payment. *)
Lemma api_send_run dev req s r1 st ev :
  is_authenticated dev req s = true -> is_csrf_safe req = true ->
  send_body send_alone (req_body req) (web_rpc s) = (r1, st, ev) ->
  api_send dev send_alone req s =
    (Ok (match r1 with Ok a => a | Throw e => error_answer 500 (str e) end), set_rpc st s, ev).
Proof.
  intros Hauth Hcsrf E. unfold api_send, authenticated, asking, guarded. rewrite Hauth, Hcsrf. cbn [negb].
  unfold catching, on_rpc. rewrite E. destruct r1; [done|]. cbn. by rewrite app_nil_r.
Qed.
(** The whole request, as [send_exact] states it. *)
Lemma send_run c r dev req s keys own pk to amt :
  quiet_node (server_node (web_rpc s)) c r own -> server_wallet (web_rpc s) = Some (Some keys) ->
  wallet_address keys = Ok own -> own <> [] -> wallet_public_key keys = Ok pk ->
  is_authenticated dev req s = true -> is_csrf_safe req = true ->
  get_field (req_body req) "recipient" = to -> is_valid_address to = true ->
  stoull (get_field (req_body req) "amount") = Ok amt -> 0 < amt <= sumZ utxo_amount (coins_of own (utxo r)) ->
  exists used last n',
    let coins := used ++ [last] in
    let unsigned := mkTx 1 [] (spending <$> coins) (payment_outputs to own amt (sumZ utxo_amount coins)) (mkWitnessSet []) in
    NoDup coins /\ (forall u, u ∈ coins -> u ∈ coins_of own (utxo r)) /\ sumZ utxo_amount used < amt /\
    sumZ amount (outputs unsigned) = sumZ utxo_amount coins /\ quiet_node n' c r own /\
    match sign_inputs (Some keys) pk (length coins) 0 unsigned with
    | Throw e => api_send dev send_alone req s = (Ok (error_answer 500 (str e)), set_rpc (set_server_node n' (web_rpc s)) s, [])
    | Ok tx =>
        inputs tx = inputs unsigned /\ outputs tx = outputs unsigned /\
        length (witness_inputs (witness tx)) = length (inputs tx) /\
        let '(r1, n1, ev) := submit_transaction true tx n' in
        api_send dev send_alone req s = (Ok (send_answer tx r1), set_rpc (set_server_node n1 (web_rpc s)) s, ev)
    end.
Proof.
  intros Hq Hw Ha Hne Hpk Hauth Hcsrf Hto Hval Hst Hamt.
  destruct (quiet_coins _ c r own Hq) as (us & Eu & Hp & Hpos & Hb). rewrite <- (sumZ_perm utxo_amount us _ Hp) in Hamt.
  destruct (get_chain_spec _ c r (q_inv _ _ _ _ Hq)) as (n' & Ec & Hi & _).
  destruct (quiet_pool _ n' c r own Hq Ec) as [_ Hm].
  assert (sumZ utxo_amount us <= UINT64_MAX) as Hmax by (unfold CZR_MAX_SUPPLY, CZR_ATOMIC_UNITS in Hb; ints).
  destruct (send_tx_spec (Some keys) own pk to amt us) as (used & x & Hpre & Hlt & Es & Hsum); [done..|].
  exists used, x, n'. cbv zeta. set (coins := used ++ [x]) in *.
  split_and!; [| |done|exact Hsum|destruct Hq as [_ H2 H3 H4]; split; [done|by rewrite Hm|done|done]|].
  - destruct Hpre as [k E]. assert (NoDup us) as Hnd by (rewrite Hp; apply coins_NoDup). rewrite E in Hnd.
    by apply NoDup_app in Hnd as [? _].
  - intros u Hu. rewrite <- Hp. destruct Hpre as [k ->]. set_solver.
  - pose proof (send_body_run c r (web_rpc s) keys own (req_body req) to amt us n' Hq Hw Ha Hne Hto Hval Hst Hamt Eu Ec
      (sum_u64_map utxo_amount us Hpos Hmax)) as Hrun. rewrite Es in Hrun.
    pose proof (fun r1 st ev => api_send_run dev req s r1 st ev Hauth Hcsrf) as Hapi.
    destruct (sign_inputs _ _ _ _ _) as [tx|e] eqn:Esign; [|by rewrite (Hapi _ _ _ Hrun)].
    destruct (sign_inputs_keeps _ _ _ _ _ _ Esign) as (Hin & Hout & Hwit). split; [done|]. split; [done|].
    split; [rewrite Hwit, Hin; cbn [inputs]; by rewrite length_fmap|].
    destruct (submit_transaction true tx n') as [[r1 n1] ev] eqn:Esub. rewrite (Hapi _ _ _ Hrun).
    unfold send_answer. destruct r1 as [[]|]; [|done|done]. by destruct (txid tx).
Qed.

(** C17: a payment pays exactly. On a node with nothing pending, POST /api/send
    with an amount the wallet holds makes a transaction that spends different
    coins of the wallet, no more than it takes to cover the amount, pays the
    amount to the recipient and everything else back to the wallet, is signed
    for every input, and is handed to the node; the answer is the node's. *)
Theorem send_exact c r dev req s keys own pk to amt :
  quiet_node (server_node (web_rpc s)) c r own -> server_wallet (web_rpc s) = Some (Some keys) ->
  wallet_address keys = Ok own -> own <> [] -> wallet_public_key keys = Ok pk ->
  is_authenticated dev req s = true -> is_csrf_safe req = true ->
  get_field (req_body req) "recipient" = to -> is_valid_address to = true ->
  stoull (get_field (req_body req) "amount") = Ok amt -> 0 < amt <= sumZ utxo_amount (coins_of own (utxo r)) ->
  exists used last n',
    let coins := used ++ [last] in
    let unsigned := mkTx 1 [] (spending <$> coins) (payment_outputs to own amt (sumZ utxo_amount coins)) (mkWitnessSet []) in
    NoDup coins /\ (forall u, u ∈ coins -> u ∈ coins_of own (utxo r)) /\ sumZ utxo_amount used < amt /\
    sumZ amount (outputs unsigned) = sumZ utxo_amount coins /\ quiet_node n' c r own /\
    match sign_inputs (Some keys) pk (length coins) 0 unsigned with
    | Throw e => api_send dev send_alone req s = (Ok (error_answer 500 (str e)), set_rpc (set_server_node n' (web_rpc s)) s, [])
    | Ok tx =>
        inputs tx = inputs unsigned /\ outputs tx = outputs unsigned /\
        length (witness_inputs (witness tx)) = length (inputs tx) /\
        let '(r1, n1, ev) := submit_transaction true tx n' in
        api_send dev send_alone req s = (Ok (send_answer tx r1), set_rpc (set_server_node n1 (web_rpc s)) s, ev)
    end.
Proof. apply send_run. Qed.
End Money.

(** ** Witnesses *)

#[local] Existing Instance Toy.ssl.
#[local] Existing Instance ToyWallet.wssl.
#[local] Existing Instance listed.
#[local] Existing Instance listed_utxos.

Lemma idle_quiet : quiet_node idle_node node_chain sample_result1 sample_owner.
Proof.
  split; [|done| |].
  - pose proof sample_node_inv as [H1 H2 _ _ _]. split; [exact H1|exact H2|done|apply pool_inv_empty|].
    apply map_Forall_empty.
  - exists (toy_txid <$> mjoin (transactions <$> node_chain)). split.
    + apply Forall2_fmap_r, Forall_Forall2_diag. repeat constructor; vm_compute; reflexivity.
    + decide_vm.
  - intros g tx [= <-] Htx. apply list_elem_of_singleton in Htx as ->. split; [reflexivity|].
    intros o Ho%list_elem_of_singleton. subst o. vm_compute. discriminate.
Qed.
Definition owner_web : WebServer :=
  mkWeb (mkServer idle_node (new_pool None) (Some sample_wallet) true (str "tok"))
    None None true (Some (replicate 80 Byte.x00)) None true ∅ (mkOtpStore ∅ None) [].
Definition owner_request (body : bytes) : Request := mkRequest (str "10.0.0.9") [] (str "caesar_session=tok") body.

Lemma balance_correct_witness :
  exists s', api_balance false id [] (owner_request []) owner_web
    = (Ok (plain_answer (ok_response (json "{'balance':" ++ str "5000000000" ++ json ",'address':'" ++ sample_owner
         ++ json "','loaded':'" ++ sample_owner ++ json "'}"))), s', []).
Proof.
  destruct (balance_correct node_chain sample_result1 false [] (owner_request []) owner_web sample_owner) as (s' & E & _).
  - exact idle_quiet.
  - vm_compute. discriminate.
  - vm_compute. reflexivity.
  - vm_compute. reflexivity.
  - assert (dec_str (sumZ utxo_amount (coins_of sample_owner (utxo sample_result1))) = str "5000000000") as Hv
      by (vm_compute; reflexivity).
    assert (web_address owner_web = sample_owner) as Ha by (vm_compute; reflexivity).
    exists s'. rewrite E, Hv, Ha. reflexivity.
Defined.

(** The owner of a coinbase pays 1000 units of it to the own address. *)
Definition owner_payment : Request :=
  owner_request (json "{'recipient':'" ++ sample_owner ++ json "','amount':1000}").
Lemma send_exact_witness :
  exists used last,
    NoDup (used ++ [last]) /\ sumZ utxo_amount used < 1000 /\
    (forall u, u ∈ used ++ [last] -> u ∈ coins_of sample_owner (utxo sample_result1)) /\
    sumZ amount (payment_outputs sample_owner sample_owner 1000 (sumZ utxo_amount (used ++ [last])))
      = sumZ utxo_amount (used ++ [last]).
Proof.
  destruct (send_exact node_chain sample_result1 false owner_payment owner_web
    toy_keys sample_owner sample_key
    sample_owner 1000) as (used & x & n' & H1 & H2 & H3 & H4 & _).
  - exact idle_quiet.
  - reflexivity.
  - vm_compute. reflexivity.
  - vm_compute. discriminate.
  - vm_compute. reflexivity.
  - vm_compute. reflexivity.
  - reflexivity.
  - vm_compute. reflexivity.
  - vm_compute. reflexivity.
  - vm_compute. reflexivity.
  - vm_compute. split; [reflexivity|discriminate].
  - exists used, x. split; [exact H1|]. split; [exact H3|]. split; [exact H2|exact H4].
Defined.
