(* ===== verification/Settlement.v ===== *)
(** From a payment to the chain: what POST /api/send hands to the node, what the
    next block makes of it, and the balances that follow. *)

From S2P Require Import Prelude Serialization Crypto Transaction UTXO Ownership Coinbase Consensus Block ChainValidator.
From S2P Require Import Mempool BlockBuilder Storage Node Text PoolState Bip39 Wallet Derivation SecureWallet KeyStore Otp.
From S2P Require Import Pool PoolFacts PoolPayout Session SessionFacts Spending SpendingFacts.
From stdpp Require Import options.
Local Open Scope Z_scope.

(** ** Balances *)

Definition balance (addr : bytes) (u : UTXOSet) : Z := sumZ utxo_amount (coins_of addr u).
(** What an output is worth to an address. *)
Definition paid (addr : bytes) (o : TransactionOutput) : Z := if bool_decide (recipient o = addr) then amount o else 0.

Lemma balance_paid addr u : balance addr u = sumZ (fun kv => paid addr kv.2) (map_to_list u).
Proof.
  unfold balance, coins_of, paid. rewrite sumZ_fmap. cbn [utxo_amount coin]. unfold sumZ.
  induction (map_to_list u) as [|kv l IH]; cbn; [done|]. destruct (bool_decide _); cbn; lia.
Qed.
Lemma balance_insert addr p o u : u !! p = None -> balance addr (<[p := o]> u) = paid addr o + balance addr u.
Proof. intros H. rewrite !balance_paid. by rewrite map_to_list_insert. Qed.
Lemma balance_delete addr p o u : u !! p = Some o -> balance addr u = paid addr o + balance addr (delete p u).
Proof. intros H. rewrite <- (insert_delete_id u p o H) at 1. apply balance_insert, lookup_delete_eq. Qed.

Lemma add_outputs_balance addr id i outs u u' :
  add_outputs id i outs u = (true, u') -> balance addr u' = balance addr u + sumZ (paid addr) outs.
Proof.
  revert i u. induction outs as [|o outs IH]; intros i u; simpl; [intros [= <-]; lia|].
  destruct (_ <? _); [done|]. unfold utxo_add. destruct (u !! _) eqn:E; [done|].
  intros H%IH. rewrite H, balance_insert by done. lia.
Qed.
(** Spending the coins [coins] of [own]. *)
Lemma spend_inputs_balance addr own coins u u' :
  (forall w, w ∈ coins -> w ∈ coins_of own u) -> spend_inputs (spending <$> coins) u = (true, u') ->
  balance addr u = (if bool_decide (addr = own) then sumZ utxo_amount coins else 0) + balance addr u'.
Proof.
  revert u. induction coins as [|w coins IH]; intros u Hin H.
  { injection H as <-. by destruct (bool_decide _). }
  pose proof H as ([Hnd _] & _)%spend_inputs_spec. cbn in Hnd. apply NoDup_cons in Hnd as [Hni _].
  destruct (proj1 (elem_of_coins own u w) (Hin w ltac:(set_solver))) as (p & o & Hp & Ho & ->).
  assert (point (spending (coin p o)) = p) as Ep by (by destruct p).
  rewrite fmap_cons in H. cbn [spend_inputs] in H. rewrite Ep in H, Hni.
  unfold utxo_spend in H. rewrite bool_decide_true in H by eauto. cbn in H.
  apply IH in H; [|].
  - rewrite (balance_delete addr p o u Hp), H. unfold paid. cbn. rewrite Ho.
    rewrite (bool_decide_ext (own = addr) (addr = own)) by done. destruct (bool_decide (addr = own)); unfold sumZ; cbn; lia.
  - intros w' Hw. destruct (proj1 (elem_of_coins own u w') (Hin w' ltac:(set_solver))) as (p' & o' & Hp' & Ho' & ->).
    apply elem_of_coins. exists p', o'. split; [|done]. rewrite lookup_delete_ne; [done|]. intros ->. apply Hni.
    apply list_elem_of_fmap. exists (spending (coin p' o')). split; [by destruct p'|by apply list_elem_of_fmap_2].
Qed.
Lemma coins_of_subseteq addr u u' : u ⊆ u' -> forall w, w ∈ coins_of addr u -> w ∈ coins_of addr u'.
Proof.
  intros Hs w (p & o & Hp & Ho & ->)%elem_of_coins. apply elem_of_coins. exists p, o. split; [by eapply lookup_weaken|done].
Qed.

Section Settlement.
Context {ssl : OpenSSL} {wssl : WalletSSL} {iter : UnorderedMap} {order : UtxoOrder}.

(** The balances after a block of a coinbase for [miner] and one payment. *)
Lemma payment_block_balances b u u' cb tx miner reward own to amt coins addr :
  apply_block_transactions_in_place_after_basic_validation b u = Ok (true, u') ->
  transactions b = [cb; tx] -> outputs cb = [mkOutput reward miner] ->
  inputs tx = spending <$> coins -> (forall w, w ∈ coins -> w ∈ coins_of own u) ->
  outputs tx = payment_outputs to own amt (sumZ utxo_amount coins) ->
  sumZ amount (outputs tx) = sumZ utxo_amount coins ->
  balance addr u' = balance addr u + (if bool_decide (addr = to) then amt else 0)
    - (if bool_decide (addr = own) then amt else 0) + (if bool_decide (addr = miner) then reward else 0).
Proof.
  intros (cb' & txs & id & u1 & E & _ & _ & Hcb & Ha)%apply_block_inv Etx Ecb Hin Hown Hout Hsum.
  rewrite Etx in E. injection E as <- <-. apply apply_transactions_cons_inv in Ha as (u2 & Ha & [= <-]).
  apply apply_transaction_inv in Ha as (_ & _ & u3 & id' & Hs & _ & Hadd).
  pose proof (add_outputs_subseteq _ _ _ _ _ Hcb) as Hsub. rewrite Hin in Hs.
  apply (spend_inputs_balance addr own) in Hs; [|intros w Hw; by eapply coins_of_subseteq, Hown].
  apply (add_outputs_balance addr) in Hadd, Hcb. rewrite Ecb in Hcb. rewrite Hout in Hadd, Hsum.
  unfold payment_outputs, paid, sumZ in Hadd, Hcb, Hsum. cbn in Hadd, Hcb, Hsum.
  rewrite (bool_decide_ext (miner = addr) (addr = miner)) in Hcb by done.
  rewrite (bool_decide_ext (to = addr) (addr = to)) in Hadd by done.
  set (total := sumZ utxo_amount coins) in *. fold (sumZ utxo_amount coins) in Hadd, Hsum. fold total in Hadd, Hsum.
  destruct (Z.ltb_spec 0 (total - amt)); cbn in Hadd, Hsum;
    [rewrite (bool_decide_ext (own = addr) (addr = own)) in Hadd by done|];
    repeat case_bool_decide; lia.
Qed.

(** An accepted transaction is all the pool of an idle node holds. *)
Lemma accepted_alone n c r tx n1 ev :
  node_inv n c r -> transactions_ (mempool_ n) = ∅ -> submit_transaction true tx n = (Ok true, n1, ev) ->
  exists mp id, n1 = set_mempool mp n /\ running_ n = true /\ txid tx = Ok id /\ transactions_ mp = {[id := tx]} /\
    ((forall q, is_Some (utxo r !! q) -> op_txid q <> id) -> pool_inv (utxo r) mp).
Proof.
  intros Hi Hp. unfold submit_transaction, accept_transaction, load_chain.
  unfold mbind at 1, op_bind at 1. autorewrite with run. destruct (running_ n) eqn:Hrun; [|done].
  rewrite (ni_load _ _ _ Hi). autorewrite with run.
  rewrite bool_decide_eq_false_2 by apply (valid_chain_nonempty _ _ (ni_valid _ _ _ Hi)).
  cbn [negb]. autorewrite with run. rewrite (rebuild_loaded n c r Hi).
  destruct (is_coinbase_transaction tx); [by cbn|].
  unfold mbind, op_bind, reading, update, announce, mret, op_ret.
  destruct (mempool_accept (mempool_ n) tx (utxo r)) as [[reason mp]|] eqn:E; [|done].
  destruct (accepted reason) eqn:Ea; [|by rewrite ?Ea]. apply bool_decide_eq_true in Ea as ->. cbn. intros [= <- <-].
  pose proof E as (id & bs & w & Hid & _ & _ & _ & _ & _ & _ & _ & _ & _ & Emp)%mempool_accept_inv.
  exists mp, id. split_and!; [done|done|done|by rewrite Emp; cbn; rewrite Hp|].
  intros Hfr. eapply mempool_accept_preserves; [apply Hi| |exact E]. intros q Hq. rewrite Hid. intros [= ->]. by apply (Hfr q Hq).
Qed.

Lemma quiet_no_zero n c r addr i : quiet_node n c r addr -> utxo r !! mkOutPoint zero_hash i = None.
Proof.
  intros [Hi _ (ids & Ht & Hnd) Hg]. destruct (chain_view addr c r ids (ni_valid _ _ _ Hi) Ht Hnd Hg) as (acc & _ & [_ Hd]).
  destruct (utxo r !! mkOutPoint zero_hash i) eqn:E; [|done]. by destruct (d_coin _ _ _ Hd (mkOutPoint zero_hash i)).
Qed.

(** The ids of what a pool holds, and of the coinbase to come, are new. *)
Definition fresh_ids (u : UTXOSet) (mp : Mempool) (cbid : Hash256) : Prop :=
  (forall q, is_Some (u !! q) -> op_txid q <> cbid) /\
  forall id, is_Some (transactions_ mp !! id) ->
    id <> zero_hash /\ id <> cbid /\ forall q, is_Some (u !! q) -> op_txid q <> id.

(** What an accepted request leaves on the node. *)
Lemma send_accepted c r dev req s keys own pk to amt a s1 ev :
  quiet_node (server_node (web_rpc s)) c r own -> server_wallet (web_rpc s) = Some (Some keys) ->
  wallet_address keys = Ok own -> own <> [] -> wallet_public_key keys = Ok pk ->
  is_authenticated dev req s = true -> is_csrf_safe req = true ->
  get_field (req_body req) "recipient" = to -> is_valid_address to = true ->
  stoull (get_field (req_body req) "amount") = Ok amt -> 0 < amt <= sumZ utxo_amount (coins_of own (utxo r)) ->
  api_send dev send_alone req s = (Ok a, s1, ev) -> status (answer a) = 200 ->
  exists coins tx id n' mp,
    (forall w, w ∈ coins -> w ∈ coins_of own (utxo r)) /\ inputs tx = spending <$> coins /\
    outputs tx = payment_outputs to own amt (sumZ utxo_amount coins) /\
    sumZ amount (outputs tx) = sumZ utxo_amount coins /\
    server_node (web_rpc s1) = set_mempool mp n' /\ quiet_node n' c r own /\ running_ n' = true /\
    txid tx = Ok id /\ transactions_ mp = {[id := tx]} /\
    ((forall q, is_Some (utxo r !! q) -> op_txid q <> id) -> pool_inv (utxo r) mp).
Proof.
  intros Hq Hw Ha Hne Hpk Hauth Hcsrf Hto Hval Hst Hamt Hsend H200.
  destruct (send_run c r dev req s keys own pk to amt) as (used & x & n' & _ & Hown & _ & Hsum & Hq' & Hm); [done..|].
  cbv zeta in Hm. destruct (sign_inputs _ _ _ _ _) as [tx|e].
  2:{ rewrite Hm in Hsend. injection Hsend as <- _ _. done. }
  destruct Hm as (Hin & Hout & _ & Hm). destruct (submit_transaction true tx n') as [[r1 n1] ev1] eqn:Es.
  rewrite Hm in Hsend. injection Hsend as <- <- _. destruct r1 as [[]|]; [|done|done].
  destruct (accepted_alone _ _ _ _ _ _ (q_inv _ _ _ _ Hq') (q_pool _ _ _ _ Hq') Es) as (mp & id & -> & Hrun & Hid & Hmp & Hpi).
  exists (used ++ [x]), tx, id, n', mp. rewrite Hout. destruct s.
  do 9 (split; [done|]). exact Hpi.
Qed.

(** C18: a payment settles. On a node with nothing pending, when POST
    /api/send answers with success for a payment of [amt] from the wallet's
    address to [to], and the node then mines a block whose transaction ids are
    new, the block is stored and announced, and every balance on the extended
    chain is the old one, plus the amount for the recipient, minus the amount
    for the sender, plus the block subsidy for the miner: no fee is taken, and
    no other address gains or loses. *)
Theorem payment_settles c r dev req s keys own pk to amt a s1 ev prev miner now attempts b b' cbid :
  quiet_node (server_node (web_rpc s)) c r own -> server_wallet (web_rpc s) = Some (Some keys) ->
  wallet_address keys = Ok own -> own <> [] -> wallet_public_key keys = Ok pk ->
  is_authenticated dev req s = true -> is_csrf_safe req = true ->
  get_field (req_body req) "recipient" = to -> is_valid_address to = true ->
  stoull (get_field (req_body req) "amount") = Ok amt -> 0 < amt <= balance own (utxo r) ->
  api_send dev send_alone req s = (Ok a, s1, ev) -> status (answer a) = 200 ->
  let n1 := server_node (web_rpc s1) in
  miner <> [] -> sizeZ c < MAX_BLOCKS -> last c = Some prev ->
  build prev (mempool_ n1) miner (block_time now prev) (expected_next_difficulty c) 0 (Some (utxo r)) = Ok b ->
  (cb ← make_coinbase_transaction (sizeZ c) miner (sizeZ c); txid cb) = Ok cbid ->
  fresh_ids (utxo r) (mempool_ n1) cbid -> mine b 0 attempts = Ok (true, b') -> storable_block b' ->
  exists n2 r2,
    mine_one_block no_faults true miner now attempts n1 = (Ok tt, n2, [AnnounceBlock b']) /\
    node_inv n2 (c ++ [b']) r2 /\
    forall addr, balance addr (utxo r2) = balance addr (utxo r) + (if bool_decide (addr = to) then amt else 0)
      - (if bool_decide (addr = own) then amt else 0)
      + (if bool_decide (addr = miner) then block_subsidy (sizeZ c) else 0).
Proof.
  intros Hq Hw Ha Hne Hpk Hauth Hcsrf Hto Hval Hst Hamt Hsend H200 n1 Hmin Hlen Hlast Hb Hcb [Hfc Hfp] Hm Hsb.
  destruct (send_accepted c r dev req s keys own pk to amt a s1 ev)
    as (coins & tx & id & n' & mp & Hown & Hin & Hout & Hsum & En1 & Hq' & Hrun & Hid & Hmp & Hpi); [done..|].
  subst n1. rewrite En1 in *. cbn [mempool_ set_mempool] in *. destruct (Hfp id) as (Hz & Hc & Hfid); [rewrite Hmp, lookup_singleton_eq; eauto|].
  specialize (Hpi Hfid). pose proof Hq' as [[Hload Hvalid Hcache _ _] _ _ _].
  apply mine_inv in Hm as Hn. destruct Hn as (nonce & Eb' & _).
  pose proof Hb as (cb & txs & Ecb & Hord & Htxs & _)%build_inv.
  destruct (tip_height c r prev Hvalid) as [_ Eh]; [unfold MAX_BLOCKS in Hlen; ints|done|]. rewrite Eh in Ecb.
  destruct (ordered_transactions_spec (utxo r) mp (pi_connectable _ _ Hpi)) as (l & w & Hl & Hlp & _).
  rewrite Hord in Hl. injection Hl as <-. rewrite Hmp, map_to_list_singleton in Hlp. apply Permutation_singleton_r in Hlp as ->.
  assert (transactions b' = [cb; tx]) as Etx by (by rewrite Eb'). 
  assert (node_inv (set_mempool mp n') c r) as Hi.
  { split; [done|done|done|done|]. cbn. rewrite Hmp. apply map_Forall_singleton.
    destruct Hsb as [(_ & Hall & _) _]. rewrite Etx in Hall. by apply Forall_cons in Hall as [_ [[? _] _]%Forall_cons]. }
  destruct (mine_one_block_run true (set_mempool mp n') c r prev miner now attempts b b' cbid) as (n2 & r2 & Hrun2 & Hi2 & _);
    try done; [by eapply loaded_typed|by eapply quiet_no_zero| | |].
  - cbn. rewrite Hmp. by apply lookup_singleton_ne.
  - cbn. rewrite Hmp. by apply lookup_singleton_ne.
  - exists n2, r2. split; [done|]. split; [done|]. intros addr.
    pose proof (ni_valid _ _ _ Hi2) as (r0 & H0 & He)%valid_chain_snoc_inv; [|by eapply valid_chain_nonempty].
    rewrite (valid_chain_functional _ _ _ H0 Hvalid) in He.
    eapply (payment_block_balances b' _ _ cb tx); [apply He|done| |done..].
    unfold make_coinbase_transaction in Ecb. result_inv. done.
Qed.

(** Handing a transaction to a running node. *)
Lemma submit_run n c r tx mp :
  node_inv n c r -> running_ n = true -> is_coinbase_transaction tx = false ->
  mempool_accept (mempool_ n) tx (utxo r) = Ok (None_, mp) ->
  submit_transaction true tx n = (Ok true, set_mempool mp n, [AnnounceTransaction tx]).
Proof.
  intros Hi Hrun Hcb E. unfold submit_transaction, accept_transaction, load_chain.
  unfold mbind at 1, op_bind at 1. autorewrite with run. rewrite Hrun, (ni_load _ _ _ Hi). autorewrite with run.
  rewrite bool_decide_eq_false_2 by apply (valid_chain_nonempty _ _ (ni_valid _ _ _ Hi)).
  cbn [negb]. autorewrite with run. rewrite (rebuild_loaded n c r Hi), Hcb.
  unfold mbind, op_bind, reading, update, announce, mret, op_ret. by rewrite E.
Qed.
End Settlement.

(** ** Witnesses *)

#[local] Existing Instance Toy.ssl.
#[local] Existing Instance ToyWallet.wssl.
#[local] Existing Instance listed.
#[local] Existing Instance listed_utxos.
#[local] Transparent calculate_pow_hash.

(** The owner of a coinbase pays a shop 1000 units, and mines the next block. *)
Definition shop : bytes := Eval vm_compute in let p := str "CZ1" ++ replicate 64 (u8 48) in p ++ address_checksum p.
Definition shop_payment : Request := owner_request (json "{'recipient':'" ++ shop ++ json "','amount':1000}").
Definition shop_coins : list WalletUtxo := Eval vm_compute in
  match my_utxos sample_owner (mjoin (transactions <$> node_chain)) with Ok l => l | Throw _ => [] end.
Definition shop_tx : Transaction := Eval vm_compute in
  match send_tx sample_wallet shop 1000 shop_coins with Ok tx => tx | Throw _ => chain_spend end.
Definition shop_id : Hash256 := Eval vm_compute in toy_txid shop_tx.
Definition shop_pool : Mempool :=
  mkMempool {[shop_id := shop_tx]} {[spent_point]} (tx_size shop_tx).
Definition shop_node : CaesarNode := set_mempool shop_pool idle_node.
Definition shop_answer : Answer := send_answer shop_tx (Ok true).
Definition shop_block : Block := Eval vm_compute in
  match build chain_block1 shop_pool sample_owner 120 12 0 (Some (utxo sample_result1)) with Ok b => b | Throw _ => sample_genesis end.

Lemma shop_sent :
  api_send false send_alone shop_payment owner_web
  = (Ok shop_answer, set_rpc (set_server_node shop_node (web_rpc owner_web)) owner_web, [AnnounceTransaction shop_tx]).
Proof.
  assert (submit_transaction true shop_tx idle_node = (Ok true, shop_node, [AnnounceTransaction shop_tx])) as Es.
  { apply (submit_run idle_node node_chain sample_result1); [apply (q_inv _ _ _ _ idle_quiet)|reflexivity..|decide_vm]. }
  assert (send_tx sample_wallet shop 1000 shop_coins = Ok shop_tx) as Etx by decide_vm.
  pose proof (send_body_run node_chain sample_result1 (web_rpc owner_web) toy_keys sample_owner
    (req_body shop_payment) shop 1000 shop_coins idle_node idle_quiet) as Hb.
  change (Some toy_keys) with sample_wallet in Hb. rewrite Etx, Es in Hb.
  rewrite (api_send_run false shop_payment owner_web _ _ _ ltac:(vm_compute; reflexivity) ltac:(reflexivity)
    (Hb ltac:(reflexivity) ltac:(vm_compute; reflexivity) ltac:(vm_compute; discriminate) ltac:(vm_compute; reflexivity)
      ltac:(vm_compute; reflexivity) ltac:(vm_compute; reflexivity) ltac:(vm_compute; split; [reflexivity|discriminate])
      ltac:(vm_compute; reflexivity) ltac:(reflexivity) ltac:(vm_compute; reflexivity))).
  unfold shop_answer, send_answer. assert (txid shop_tx = Ok shop_id) as -> by decide_vm. reflexivity.
Qed.
Lemma shop_block_mined : mine shop_block 0 1 = Ok (true, shop_block).
Proof.
  rewrite mine_spec by decide_vm. change (difficulty (header shop_block)) with 12.
  rewrite (proj2 (mine_pow_spec (pow_header shop_block) 12 0 1 0 (calculate_pow_hash (pow_header shop_block) 0)
    ltac:(lia) ltac:(ints) ltac:(ints))); [reflexivity|].
  split; [lia|]. split; [ints|]. split; [reflexivity|]. split; [|lia].
  apply pow_meets_difficulty_spec; [lia|]. lazy. reflexivity.
Qed.
Lemma shop_fresh : fresh_ids (utxo sample_result1) shop_pool built_coinbase_id.
Proof.
  assert (forall q, is_Some (utxo sample_result1 !! q) -> q = spent_point) as Hu.
  { intros q [o Ho]. cbn [utxo sample_result1] in Ho. by apply lookup_singleton_Some in Ho as [<- _]. }
  split; [intros q ->%Hu; decide_vm|]. intros id [tx Htx]. cbn [transactions_ shop_pool] in Htx.
  apply lookup_singleton_Some in Htx as [<- _].
  split; [decide_vm|]. split; [decide_vm|]. intros q ->%Hu. decide_vm.
Qed.

Lemma payment_settles_witness :
  exists n2 r2, mine_one_block no_faults true sample_owner 120 1 shop_node = (Ok tt, n2, [AnnounceBlock shop_block]) /\
    node_inv n2 (node_chain ++ [shop_block]) r2 /\ balance shop (utxo r2) = 1000.
Proof.
  destruct (payment_settles node_chain sample_result1 false shop_payment owner_web toy_keys sample_owner sample_key
    shop 1000 shop_answer (set_rpc (set_server_node shop_node (web_rpc owner_web)) owner_web) [AnnounceTransaction shop_tx] chain_block1 sample_owner 120 1 shop_block shop_block built_coinbase_id)
    as (n2 & r2 & H1 & H2 & H3).
  - exact idle_quiet.
  - reflexivity.
  - vm_compute. reflexivity.
  - vm_compute. discriminate.
  - vm_compute. reflexivity.
  - vm_compute. reflexivity.
  - reflexivity.
  - vm_compute. reflexivity.
  - vm_compute. reflexivity.
  - vm_compute. reflexivity.
  - vm_compute. split; [reflexivity|discriminate].
  - exact shop_sent.
  - vm_compute. reflexivity.
  - discriminate.
  - decide_vm.
  - reflexivity.
  - decide_vm.
  - decide_vm.
  - exact shop_fresh.
  - exact shop_block_mined.
  - decide_vm.
  - exists n2, r2. split; [exact H1|]. split; [exact H2|]. rewrite H3. vm_compute. reflexivity.
Defined.
