(* ===== verification/Pages.v ===== *)
(** The requests of http_rpc.hpp that show the chain, the owner's history and
    the pool, and the two that an owner uses to steer the pool: the settings of
    the automatic payout and a payout by hand. *)

From S2P Require Import Prelude Serialization Crypto Transaction UTXO Ownership Coinbase Consensus Block ChainValidator.
From S2P Require Import Mempool Storage Node Text Double PoolState Bip39 Wallet Derivation SecureWallet KeyStore Otp.
From S2P Require Import Pool PoolFacts PoolPayout Session SessionFacts Spending SpendingFacts.
From stdpp Require Import options.
Local Open Scope Z_scope.

(** Items of a JSON array. *)
Fixpoint comma_list (items : list bytes) : bytes :=
  match items with
  | [] => []
  | [x] => x
  | x :: items => x ++ str "," ++ comma_list items
  end.

(** ** The chain *)

(** [limit] as the query gives it. *)
Definition page_limit (param : option bytes) : nat :=
  match param with
  | None => 50
  | Some v =>
      let limit := match stoul v with Ok n => n | Throw _ => 50 end in
      if (limit =? 0) || (500 <? limit) then 50 else Z.to_nat limit
  end.

Section Pages.
Context {ssl : OpenSSL} {wssl : WalletSSL} {iter : UnorderedMap} {order : UtxoOrder}.
Abbreviation web_op := (op WebServer Event).

Definition block_text (b : Block) : bytes :=
  let h := header b in
  json "{'height':" ++ dec_str (height h) ++ json ",'hash':'" ++ hash_to_hex (block_hash b)
  ++ json "','prev':'" ++ hash_to_hex (previous_hash h) ++ json "','timestamp':" ++ dec_str (timestamp h)
  ++ json ",'difficulty':" ++ dec_str (difficulty h) ++ json ",'nonce':" ++ dec_str (nonce h)
  ++ json ",'txs':" ++ dec_str (sizeZ (transactions b)) ++ json "}".
Definition blocks_text (limit : nat) (chain : list Block) : bytes :=
  json "{'height':" ++ dec_str (if bool_decide (chain = []) then 0 else sizeZ chain - 1)
  ++ json ",'count':" ++ dec_str (sizeZ chain) ++ json ",'blocks':["
  ++ comma_list (block_text <$> drop (length chain - limit) chain) ++ json "]}".
(** GET /api/blocks: a chain that cannot be read is shown as empty. *)
Definition api_blocks (param : option bytes) : op HttpRpcServer Event Response :=
  chain ← catching (on_node get_chain) (fun _ => mret []);
  mret (ok_response (blocks_text (page_limit param) chain)).

(** GET /api/status. *)
Definition api_status (lock : bool) (peers uptime : Z) : op HttpRpcServer Event Response :=
  h ← on_node (node_height lock);
  size ← on_node (reading (fun n => Ok (Z.of_nat (size (transactions_ (mempool_ n))))));
  mret (ok_response (json "{'height':" ++ dec_str h ++ json ",'peers':" ++ dec_str peers
    ++ json ",'mempool':" ++ dec_str size ++ json ",'uptime':" ++ dec_str uptime ++ json "}")).

(** ** The owner's history *)

Definition pays (addr : bytes) (tx : Transaction) : bool := existsb (fun o => bool_decide (recipient o = addr)) (outputs tx).
Definition history_item (h : nat) (id : Hash256) : bytes :=
  json "{'block':" ++ dec_str (Z.of_nat h) ++ json ",'txid':'" ++ take 16 (hash_to_hex id) ++ json "'}".
(** The transactions of one block that pay the address. *)
Definition history_of_block (addr : bytes) (h : nat) (b : Block) : result (list bytes) :=
  mapM_r (fun tx => id ← txid tx; Ok (history_item h id)) (List.filter (pays addr) (transactions b)).
(** From the tip down, until a block brings the count to [limit]. *)
Fixpoint history_loop (limit : nat) (addr : bytes) (rev_chain : list Block) (items : list bytes) : result (list bytes) :=
  match rev_chain with
  | [] => Ok items
  | b :: rest =>
      if (length items <? limit)%nat then
        new ← history_of_block addr (length rest) b;
        history_loop limit addr rest (items ++ new)
      else Ok items
  end.
(** GET /api/history. *)
Definition api_history (dev : bool) (req : Request) : web_op Answer :=
  authenticated dev req (asking (fun s =>
    let addr := web_address s in
    chain ← on_rpc (on_node get_chain);
    items ← reading (fun _ => history_loop 20 addr (rev chain) []);
    mret (plain_answer (ok_response (json "{'transactions':[" ++ comma_list items ++ json "]}"))))).

(** The first output to the address. *)
Definition received_item (addr : bytes) (b : Block) (tx : Transaction) : option bytes :=
  o ← List.find (fun o => bool_decide (recipient o = addr)) (outputs tx);
  Some (json "{'block':" ++ dec_str (height (header b)) ++ json ",'timestamp':" ++ dec_str (timestamp (header b))
        ++ json ",'amount':" ++ dec_str (amount o) ++ json ",'direction':'received'}").
Fixpoint received_loop (addr : bytes) (rev_chain : list Block) (items : list bytes) : list bytes :=
  match rev_chain with
  | [] => items
  | b :: rest =>
      if (length items <? 100)%nat then received_loop addr rest (items ++ omap (received_item addr b) (transactions b)) else items
  end.
(** GET /api/wallet/history: it asks for no session. *)
Definition wallet_history : web_op Answer :=
  asking (fun s =>
    if negb (wallet_loaded s) then mret (error_answer 401 (str "locked"))
    else
      addr ← on_store (reading (fun st => persistent_address (stored_wallet st)));
      chain ← on_rpc (on_node get_chain);
      mret (plain_answer (ok_response (json "{'address':'" ++ addr ++ json "','transactions':["
        ++ comma_list (received_loop addr (rev chain) []) ++ json "]}")))).

(** ** The pool *)

Definition worker_active (now : Z) (w : PoolWorkerInfo) : bool :=
  negb (last_seen w =? 0) && (last_seen w <=? now) && (now - last_seen w <=? 180).
Definition worker_item (now : Z) (w : PoolWorkerInfo) : bytes :=
  json "{'address':'" ++ worker_address w ++ json "','name':'" ++ worker_name w ++ json "','shares':" ++ dec_str (shares w)
  ++ json ",'hashrate':" ++ print_double (hashrate w) ++ json ",'active':" ++ flag_text (worker_active now w) ++ json "}".
Definition stats_text (h now : Z) (p : PoolState) : bytes :=
  json "{'ok':true,'fee_percent':" ++ print_double (g_pool_fee_percent p)
  ++ json ",'total_shares':" ++ dec_str (g_pool_total_shares p) ++ json ",'total_blocks':" ++ dec_str (g_pool_total_blocks p)
  ++ json ",'current_height':" ++ dec_str h ++ json ",'auto_enabled':" ++ flag_text (g_pool_auto_enabled p)
  ++ json ",'auto_blocks':" ++ dec_str (g_pool_auto_blocks p)
  ++ json ",'last_payout_height':" ++ dec_str (g_pool_last_payout_height p)
  ++ json ",'workers':[" ++ comma_list ((fun kv => worker_item now kv.2) <$> in_order (g_pool_workers p)) ++ json "]}".
(** GET /api/pool/stats. *)
Definition pool_stats (lock : bool) (now : Z) : op HttpRpcServer Event Response :=
  h ← on_node (node_height lock);
  locked (fun p => let p := load_once p in (ok_response (stats_text h (u64 now) p), p)).

Definition payout_item (r : PoolPayoutRecord) : bytes :=
  json "{'ts':" ++ dec_str (payout_timestamp r) ++ json ",'block':" ++ dec_str (payout_height r)
  ++ json ",'txid':'" ++ payout_txid r ++ json "','total':" ++ dec_str (total_amount r)
  ++ json ",'fee':" ++ dec_str (fee_amount r) ++ json ",'recipients':" ++ dec_str (recipient_count r) ++ json "}".
(** GET /api/pool/payouts. *)
Definition pool_payouts_page : op HttpRpcServer Event Response :=
  reading (fun s =>
    let l := g_pool_payouts (server_pool s) in
    Ok (ok_response (json "{'ok':true,'count':" ++ dec_str (sizeZ l) ++ json ",'items':["
          ++ comma_list (payout_item <$> l) ++ json "]}"))).

(** POST /api/pool/payout. *)
Definition payout_reply (r : PoolPayoutResult) : bytes :=
  let '(ok, error, id, distributed, fee, recipients) :=
    match r with
    | PayoutError e => (false, str e, [], 0, 0, 0)
    | PayoutOk id d f n => (true, [], id, d, f, n)
    end in
  json "{'ok':" ++ flag_text ok ++ json ",'error':'" ++ error ++ json "','txid':'" ++ id
  ++ json "','distributed':" ++ dec_str distributed ++ json ",'fee':" ++ dec_str fee
  ++ json ",'recipients':" ++ dec_str recipients ++ json "}".
Definition pool_payout (dev : bool) (e : PayoutEnv) (req : Request) : web_op Answer :=
  authenticated dev req
    (r ← on_rpc (pool_execute_payout e); mret (plain_answer (ok_response (payout_reply r)))).

(** GET /api/pool/auto/status. *)
Definition auto_status : op HttpRpcServer Event Response :=
  reading (fun s =>
    let p := server_pool s in
    Ok (ok_response (json "{'ok':true,'enabled':" ++ flag_text (g_pool_auto_enabled p) ++ json ",'blocks':"
          ++ dec_str (g_pool_auto_blocks p) ++ json ",'last_payout_height':" ++ dec_str (g_pool_last_payout_height p) ++ json "}"))).

(** The settings a request asks for. *)
Definition body_has (p s : bytes) : bool := bool_decide (find_str p s <> None).
Definition configure (req : bytes) (p : PoolState) : PoolState :=
  let p := if body_has (json "'enabled'") req then
             set_auto_enabled (body_has (json "'enabled':true") req || body_has (json "'enabled': true") req) p
           else p in
  let blk := json_u64 req "blocks" in
  if (1 <=? blk) && (blk <=? 10000) then set_auto_blocks (u32 blk) p else p.
(** POST /api/pool/auto/config. *)
Definition auto_config (dev : bool) (meanwhile : HttpRpcServer -> HttpRpcServer) (io : SaveIO) (req : Request) : web_op Answer :=
  authenticated dev req
    (r ← on_rpc
       (_ ← on_pool (configure (req_body req));
        _ ← update meanwhile;
        _ ← on_pool (pool_save_state_unlocked io);
        reading (fun s =>
          let p := server_pool s in
          Ok (ok_response (json "{'ok':true,'enabled':" ++ flag_text (g_pool_auto_enabled p) ++ json ",'blocks':"
                ++ dec_str (g_pool_auto_blocks p) ++ json "}"))));
     mret (plain_answer r)).

(** GET /api/pool/community; the clock is read twice, and a height that
    cannot be read is shown as 0. *)
Definition active_workers (now : Z) (p : PoolState) : Z :=
  sizeZ (List.filter (fun kv => (last_seen kv.2 <? now) && (now - last_seen kv.2 <? 86400)) (in_order (g_pool_workers p))).
Definition pool_community (lock : bool) (now now' : Z) : op HttpRpcServer Event Response :=
  asking (fun s =>
    let p := server_pool s in
    let first := g_pool_first_seen_unix p in
    h ← catching (on_node (node_height lock)) (fun _ => mret 0);
    mret (ok_response (json "{'ok':true,'total_users':" ++ dec_str (Z.of_nat (size (g_pool_all_users p)))
      ++ json ",'active_24h':" ++ dec_str (active_workers (u64 now) p)
      ++ json ",'total_workers':" ++ dec_str (Z.of_nat (size (g_pool_workers p)))
      ++ json ",'total_shares_ever':" ++ dec_str (g_pool_total_shares p)
      ++ json ",'total_blocks_ever':" ++ dec_str (g_pool_total_blocks p)
      ++ json ",'first_seen_unix':" ++ dec_str first
      ++ json ",'network_age_sec':" ++ dec_str (if first =? 0 then 0 else u64 (u64 now' - first))
      ++ json ",'current_height':" ++ dec_str h ++ json "}"))).

(** ** Who is asking *)

(** GET /api/auth/status; the headers and the parameter it looks at. *)
Definition auth_status (dev : bool) (host forwarded owner : bytes) (req : Request) : web_op Answer :=
  asking (fun s =>
    let exists_pin := bool_decide (pin_file s <> None) in
    let local := body_has (str "127.0.0.1") host || body_has (str "localhost") host in
    let has_pin := if bool_decide (owner = str "1") then exists_pin
                   else if bool_decide (forwarded = []) && local then exists_pin else false in
    mret (plain_answer (ok_response (json "{'has_pin':" ++ flag_text has_pin
      ++ json ",'unlocked':" ++ flag_text (is_authenticated dev req s) ++ json "}")))).
End Pages.

(** ** The history is complete *)

(** The payments in the first [n] blocks from the tip, each with its height. *)
Fixpoint paying (addr : bytes) (rev_chain : list Block) (n : nat) : list (nat * Transaction) :=
  match n, rev_chain with
  | S n, b :: rest => (pair (length rest) <$> List.filter (pays addr) (transactions b)) ++ paying addr rest n
  | _, _ => []
  end.

Section History.
Context {ssl : OpenSSL} {wssl : WalletSSL} {iter : UnorderedMap} {order : UtxoOrder}.

(** The text of a payment names its block and its transaction. *)
Definition names (p : nat * Transaction) (t : bytes) : Prop := exists id, txid p.2 = Ok id /\ t = history_item p.1 id.

Lemma history_block_spec addr h b ids :
  tx_ids (transactions b) ids ->
  exists new, history_of_block addr h b = Ok new /\ Forall2 names (pair h <$> List.filter (pays addr) (transactions b)) new.
Proof.
  unfold history_of_block, tx_ids. induction 1 as [|tx id txs ids Hid _ (new & E & Hn)]; [exists []; split; [done|constructor]|].
  cbn [List.filter]. destruct (pays addr tx); [|by exists new]. cbn [mapM_r fmap list_fmap]. rewrite Hid. cbn [mbind result_bind].
  rewrite E. eexists. split; [reflexivity|]. constructor; [|done]. by exists id.
Qed.
Lemma history_loop_spec limit addr rc items ids :
  tx_ids (mjoin (transactions <$> rc)) ids ->
  exists new n, history_loop limit addr rc items = Ok (items ++ new) /\ (n <= length rc)%nat /\ Forall2 names (paying addr rc n) new /\
    (n = length rc \/ (limit <= length (items ++ new))%nat) /\
    forall m, (m < n)%nat -> (length items + length (paying addr rc m) < limit)%nat.
Proof.
  revert items ids. induction rc as [|b rest IH]; intros items ids Hids.
  { exists [], 0%nat. cbn. rewrite app_nil_r. split_and!; [done|done|constructor|by left|lia]. }
  cbn [fmap list_fmap mjoin list_join] in Hids. apply Forall2_app_inv_l in Hids as (i1 & i2 & H1 & H2 & ->).
  cbn [history_loop]. destruct (length items <? limit)%nat eqn:El.
  - apply Nat.ltb_lt in El. destruct (history_block_spec addr (length rest) b i1 H1) as (new & E & Hn). rewrite E. cbn [mbind result_bind].
    destruct (IH (items ++ new) i2 H2) as (new2 & n & E2 & Hle & Hn2 & Hstop & Hlt). rewrite E2, <- app_assoc.
    exists (new ++ new2), (S n). split; [done|]. cbn [length paying]. split; [lia|]. split; [by apply Forall2_app|].
    split; [rewrite app_assoc; destruct Hstop; [left; lia|by right]|]. intros [|m] Hm; cbn [paying length]; [lia|].
    specialize (Hlt m ltac:(lia)). rewrite length_app in Hlt |- *. rewrite (Forall2_length _ _ _ Hn). lia.
  - apply Nat.ltb_ge in El. exists [], 0%nat. rewrite app_nil_r. split_and!; [done|lia|constructor|by right|lia].
Qed.

(** ** Claim *)

(** The history is complete. The owner is shown the payments to the loaded
    wallet from the tip of the chain down, every one of each block that is
    looked at; all of the chain is looked at, unless the blocks above already
    held twenty payments. *)
Theorem history_complete c r ids dev req s :
  node_inv (server_node (web_rpc s)) c r -> tx_ids (mjoin (transactions <$> rev c)) ids -> is_authenticated dev req s = true ->
  exists s' items n, api_history dev req s
      = (Ok (plain_answer (ok_response (json "{'transactions':[" ++ comma_list items ++ json "]}"))), s', []) /\
    (n <= length c)%nat /\ Forall2 names (paying (web_address s) (rev c) n) items /\
    (n = length c \/ (20 <= length items)%nat) /\
    forall m, (m < n)%nat -> (length (paying (web_address s) (rev c) m) < 20)%nat.
Proof.
  intros Hi Hids Ha. destruct (get_chain_spec _ c r Hi) as (n' & Ec & _).
  destruct (history_loop_spec 20 (web_address s) (rev c) [] ids Hids) as (items & n & E & Hle & Hn & Hstop & Hlt).
  rewrite length_rev in *. unfold api_history, authenticated, asking. rewrite Ha. unfold mbind at 1, op_bind at 1, on_rpc, on_node.
  rewrite Ec, run_reading, E. eexists _, items, n. split; [reflexivity|]. done.
Qed.
End History.

(** ** Witness *)

#[local] Existing Instance Toy.ssl.
#[local] Existing Instance ToyWallet.wssl.
#[local] Existing Instance listed.
#[local] Existing Instance listed_utxos.

Lemma history_complete_witness :
  exists s' item, api_history false (owner_request []) owner_web
    = (Ok (plain_answer (ok_response (json "{'transactions':[" ++ item ++ json "]}"))), s', []).
Proof.
  destruct (history_complete node_chain sample_result1 (toy_txid <$> mjoin (transactions <$> rev node_chain)) false
    (owner_request []) owner_web) as (s' & items & n & E & Hle & Hn & Hstop & _).
  - apply idle_quiet.
  - apply Forall2_fmap_r, Forall_Forall2_diag. repeat constructor; vm_compute; reflexivity.
  - vm_compute. reflexivity.
  - destruct Hstop as [->|Hmany].
    + assert (web_address owner_web = sample_owner) as Hw by (vm_compute; reflexivity). rewrite Hw in Hn.
      apply Forall2_length in Hn. assert (length (paying sample_owner (rev node_chain) (length node_chain)) = 1%nat) as H1 by (vm_compute; reflexivity).
      rewrite H1 in Hn. destruct items as [|item [|]]; try discriminate Hn. exists s', item. exact E.
    + exists s', (comma_list items). exact E.
Defined.
