(* ===== verification/Startup.v ===== *)
(** The constructor of [HttpRpcServer]: the server a process starts with, from
    the files an earlier one left in the data directory. *)

From S2P Require Import Prelude Serialization Crypto Transaction UTXO Ownership Coinbase Consensus Block.
From S2P Require Import Mempool Storage Node Text PoolState Bip39 Wallet Derivation SecureWallet KeyStore Otp.
From S2P Require Import Pool PoolFacts PoolPayout Session SessionFacts Spending SpendingFacts.
From stdpp Require Import options.
Local Open Scope Z_scope.

(** [std::getline]: up to the first line break. *)
Definition first_line (file : option bytes) : bytes :=
  match file with None => [] | Some text => take_while (fun c => negb (byteZ c =? 10)) text end.

Section Startup.
Context {ssl : OpenSSL} {wssl : WalletSSL}.

(** The members before the body runs, on the files of the directory. *)
Definition fresh_server (n : CaesarNode) (files : WebServer) : WebServer :=
  mkWeb (mkServer n (new_pool (pool_state_txt (server_pool (web_rpc files)))) None false [])
    (web_key_file files) (web_key_tmp files) (web_in_dir files) (pin_file files) (session_file files) false ∅
    (mkOtpStore ∅ (otp_file (otp_store_ files))) [].

(** The state of the pool is read, but [g_pool_state_loaded] stays false. *)
Definition load_pool (s : WebServer) : WebServer :=
  set_rpc (set_pool (pool_load_state_unlocked (server_pool (web_rpc s))) (web_rpc s)) s.
Definition set_preexisting (v : bool) (s : WebServer) : WebServer :=
  let 'mkWeb a b c d e f _ h i j := s in mkWeb a b c d e f v h i j.
(** [exists] and [file_size] can fail. *)
Definition preexisting (exists_ok size_ok : bool) (s : WebServer) : bool :=
  exists_ok && match web_key_file s with None => false | Some data => size_ok && (0 <? sizeZ data) end.

(** [std::make_unique<PersistentWallet>(wallet_path_)]. *)
Definition open_wallet (io : LoadIO) (f : WalletFaults) (k : Keygen) : op WebServer Event unit := fun s =>
  let '(r, st, ev) := load_or_defer io f k (web_store None s) in (r, put_store st s, ev).

(** [session_opens]: the session file can be opened. *)
Definition web_start (session_opens exists_ok size_ok : bool) (io : LoadIO) (f : WalletFaults) (k : Keygen)
    : op WebServer Event unit :=
  _ ← update load_pool;
  _ ← update (fun s => set_token (if session_opens then first_line (session_file s) else []) s);
  _ ← update (fun s => set_otp (otp_load (otp_file (otp_store_ s))) s);
  _ ← update (fun s => set_preexisting (preexisting exists_ok size_ok s) s);
  open_wallet io f k.

(** ** Claims *)

Lemma open_wallet_frame io f k s r s' ev :
  open_wallet io f k s = (r, s', ev) ->
  pin_file s' = pin_file s /\ session_file s' = session_file s /\ unlocked_ (web_rpc s') = unlocked_ (web_rpc s) /\
  session_token_ (web_rpc s') = session_token_ (web_rpc s) /\ auth_failures_ s' = auth_failures_ s /\
  (forall data, web_key_file s = Some data -> web_key_file s' = Some data /\ web_key_tmp s' = web_key_tmp s).
Proof.
  unfold open_wallet. destruct (load_or_defer io f k (web_store None s)) as [[r1 st] ev1] eqn:E. intros [= <- <- <-].
  destruct s as [a b c d e g h i j l]. cbn. split_and!; try done. intros data Hd. subst b.
  by apply (load_existing io f k (web_store None (mkWeb a (Some data) c d e g h i j l)) data) in E as (_ & ? & ? & _).
Qed.
Lemma web_start_frame so eo zo io f k n files r s' ev :
  web_start so eo zo io f k (fresh_server n files) = (r, s', ev) ->
  pin_file s' = pin_file files /\ session_file s' = session_file files /\ unlocked_ (web_rpc s') = false /\
  session_token_ (web_rpc s') = (if so then first_line (session_file files) else []) /\ auth_failures_ s' = ∅ /\
  (forall data, web_key_file files = Some data -> web_key_file s' = Some data /\ web_key_tmp s' = web_key_tmp files).
Proof.
  unfold web_start. rewrite !run_update. intros H%open_wallet_frame. destruct files. exact H.
Qed.

(** A restarted server is locked. Whatever files an earlier process left,
    and whatever fails while the new one starts, no request is authenticated
    before somebody unlocks it, the PIN and the session file are as they were,
    and a wallet file that exists is not changed. *)
Theorem restarted_server_locked so eo zo io f k n files r s' ev req :
  web_start so eo zo io f k (fresh_server n files) = (r, s', ev) ->
  is_authenticated false req s' = false /\ pin_file s' = pin_file files /\ session_file s' = session_file files /\
  forall data, web_key_file files = Some data -> web_key_file s' = Some data /\ web_key_tmp s' = web_key_tmp files.
Proof.
  intros (H1 & H2 & H3 & _ & _ & H4)%web_start_frame. split; [|done]. unfold is_authenticated. by rewrite H3.
Qed.

(** A session outlives the process. The token of a session is kept in a
    file and never expires: after a restart, one request from a local address,
    with no PIN, makes the old cookie good again, wherever it comes from. *)
Theorem session_outlives_restart eo zo io f k n files r s' ev local req token rest :
  web_start true eo zo io f k (fresh_server n files) = (r, s', ev) ->
  session_file files = Some token -> token <> [] -> u8 10 ∉ token ->
  req_remote local = str "127.0.0.1" -> req_cookie req = str "caesar_session=" ++ token ++ rest -> (rest = [] \/ head rest = Some (u8 59)) ->
  exists s2 a, auto_unlock local s' = (Ok a, s2, []) /\ is_authenticated false req s2 = true.
Proof.
  intros (_ & _ & _ & Ht & _)%web_start_frame Hs Hne Hnl Hl Hc Hr.
  unfold auto_unlock. rewrite Hl, bool_decide_true by decide_vm. rewrite run_update. do 2 eexists. split; [reflexivity|].
  assert (first_line (session_file files) = token) as Hf.
  { rewrite Hs. cbn. rewrite <- (app_nil_r token) at 1. apply take_while_all; [|done]. apply forallb_forall. intros x Hx%list_elem_of_In.
    destruct (byteZ x =? 10) eqn:E; [|done]. apply Z.eqb_eq in E. assert (x = u8 10) as -> by (by apply byteZ_inj). done. }
  rewrite Hf in Ht. unfold is_authenticated, set_unlocked, set_rpc. destruct s' as [rpc k1 k2 k3 k4 k5 k6 k7 k8 k9].
  cbn [web_rpc unlocked_ session_token_ negb] in *. rewrite Ht, bool_decide_false by done.
  rewrite Hc, bool_decide_false by done. set (needle := str "caesar_session=" ++ token).
  replace (str "caesar_session=" ++ token ++ rest) with (needle ++ rest) by (unfold needle; by rewrite <- app_assoc).
  rewrite find_here. cbv iota. rewrite Nat.add_0_l, drop_app_length. destruct Hr as [->|Hr]; [done|]. destruct rest; [done|]. by injection Hr as ->.
Qed.
End Startup.

(** ** Witnesses *)

#[local] Existing Instance Toy.ssl.
#[local] Existing Instance ToyWallet.wssl.

(** A directory with a session and a short file in the place of the wallet. *)
Definition left_files : WebServer :=
  mkWeb (mkServer idle_node (new_pool None) None false []) (Some (str "key")) None true (Some (str "pin")) (Some (str "tok")) false ∅
    (mkOtpStore ∅ None) [].
Definition restarted : WebServer :=
  (web_start true true true load_fine no_wallet_faults KeygenContext (fresh_server idle_node left_files)).1.2.

Lemma restarted_server_locked_witness :
  is_authenticated false (owner_request []) restarted = false /\ web_key_file restarted = Some (str "key").
Proof.
  unfold restarted. destruct (web_start _ _ _ _ _ _ _) as [[r s'] ev] eqn:E.
  destruct (restarted_server_locked true true true load_fine no_wallet_faults KeygenContext idle_node left_files r s' ev
    (owner_request []) E) as (H1 & _ & _ & H2). destruct (H2 (str "key") eq_refl) as [H3 _]. exact (conj H1 H3).
Defined.
Lemma session_outlives_restart_witness :
  exists s2 a, auto_unlock (mkRequest (str "127.0.0.1") [] [] []) restarted = (Ok a, s2, []) /\
    is_authenticated false (owner_request []) s2 = true.
Proof.
  unfold restarted. destruct (web_start _ _ _ _ _ _ _) as [[r s'] ev] eqn:E.
  apply (session_outlives_restart true true load_fine no_wallet_faults KeygenContext idle_node left_files r s' ev
    (mkRequest (str "127.0.0.1") [] [] []) (owner_request []) (str "tok") [] E).
  - reflexivity.
  - discriminate.
  - decide_vm.
  - reflexivity.
  - reflexivity.
  - left. reflexivity.
Defined.
