(* ===== verification/Daemon.v ===== *)
(** web.cpp's [main] and what joins its parts: the node's calls into the P2P
    server, the thread that keeps a peer connected, and the start of the HTTP
    listener ([HttpRpcServer::start]). *)

From S2P Require Import Prelude Serialization Crypto P2PWire P2PStream PeerManager P2PServer.
From S2P Require Import Transaction UTXO Ownership Coinbase Consensus Block NetworkParams ChainValidator.
From S2P Require Import Mempool BlockBuilder Storage Node Text PoolState Bip39 Wallet Derivation SecureWallet KeyStore Otp.
From S2P Require Import Pool PoolFacts PoolPayout Session SessionFacts Cli Startup.
From stdpp Require Import options.
Local Open Scope Z_scope.

(** ** The node and its P2P server *)

Record Daemon := mkDaemon { daemon_node : CaesarNode; daemon_server : P2PServer }.
(** What can be seen: outbound connections, messages to peers, pauses. *)
Inductive DaemonEvent :=
  | Dials (e : P2PPeerEndpoint)
  | Tells (ev : Event)
  | Sleeps (secs : Z).
Abbreviation daemon_op := (op Daemon DaemonEvent).

Definition of_node {A} (m : node_op A) : daemon_op A := fun d =>
  let '(r, n, ev) := m (daemon_node d) in (r, mkDaemon n (daemon_server d), Tells <$> ev).
Definition of_server {A} (m : server_op A) : daemon_op A := fun d =>
  let '(r, s, ev) := m (daemon_server d) in (r, mkDaemon (daemon_node d) s, Dials <$> ev).

(** [peer_count], [running], [mempool_size], [mempool_contains]. *)
Definition node_peer_count (d : Daemon) : Z := peer_count (server_peers_ (daemon_server d)).
Definition node_running (d : Daemon) : bool := running_ (daemon_node d).
Definition node_mempool_size (d : Daemon) : Z := mempool_size (mempool_ (daemon_node d)).
Definition node_mempool_contains (d : Daemon) (id : Hash256) : bool := mempool_contains (mempool_ (daemon_node d)) id.

Section Peers.
Context {ssl : OpenSSL} {order : PeerOrder} {inet : Inet}.

Definition node_connect_to_peer (o : Outbound) (addr : bytes) (prt : Z) : daemon_op Z := fun d =>
  (_ ← require_op (node_running d) "cannot connect while node is stopped";
   of_server (connect_to_peer o addr prt)) d.

(** One turn of the thread's loop; [settled] is what others do in the pause
    after a connection, [sent] whether the request for headers gets out. *)
Definition peer_round (o : Outbound) (settled : Daemon -> Daemon) (sent : bool) (host : bytes) (prt : Z) : daemon_op unit :=
  asking (fun d =>
    if 0 <? node_peer_count d then emit (Sleeps 5)
    else
      catching
        (id ← node_connect_to_peer o host prt;
         _ ← emit (Sleeps 2);
         _ ← update settled;
         catching
           (_ ← of_node (request_sync_from_peer id); require_op sent "TCP send failed")
           (fun _ => mret tt))
        (fun _ => emit (Sleeps 10))).
End Peers.

(** ** The HTTP listener *)

(** The start-up wait: each look at the listener sees whether it is running
    and whether [listen] has returned; there are at most 5000 / 25 looks. *)
Definition STARTUP_LOOKS : nat := 200.
Fixpoint http_wait (looks : list (bool * bool)) : bool :=
  match looks with
  | [] => false
  | (running, done) :: looks => if running then true else if done then false else http_wait looks
  end.
(** What happens to the listener and its thread. *)
Inductive HttpCall := StopsServer | JoinsThread.
Definition http_start (looks : list (bool * bool)) (running_after listen_ok : bool) : result unit * list HttpCall :=
  if http_wait (take STARTUP_LOOKS looks) then (Ok tt, [])
  else if running_after then (Ok tt, [])
  else (Throw (if listen_ok then "HTTP RPC server failed to become ready on 127.0.0.1:"
               else "HTTP RPC listen failed on 127.0.0.1:"), [StopsServer; JoinsThread]).

(** ** [main] *)

Section Main.
Context {ssl : OpenSSL} {wssl : WalletSSL}.
Abbreviation web_op := (op WebServer Event).

(** The outcomes of the system's calls, and what peers do to the node while
    the program starts, and everybody while it serves. *)
Record WebEnv := mkWebEnv {
  we_faults : Faults;
  we_server_starts : bool;
  we_relay_starts : bool;
  we_peers : CaesarNode -> CaesarNode;
  we_session_opens : bool;
  we_exists_ok : bool;
  we_size_ok : bool;
  we_load : LoadIO;
  we_wallet : WalletFaults;
  we_looks : list (bool * bool);
  we_running : bool;
  we_listen_ok : bool;
  we_lock : bool;
  we_serving : WebServer -> WebServer
}.

Definition on_web_node {A} (m : node_op A) : web_op A := on_rpc (on_node m).

Definition web_run (e : WebEnv) (k : Keygen) : web_op unit :=
  _ ← on_web_node (start (we_faults e) (we_server_starts e) (we_relay_starts e));
  _ ← on_web_node (update (we_peers e));
  _ ← web_start (we_session_opens e) (we_exists_ok e) (we_size_ok e) (we_load e) (we_wallet e) k;
  _ ← reading (fun _ => (http_start (we_looks e) (we_running e) (we_listen_ok e)).1);
  _ ← on_web_node (node_height (we_lock e));
  _ ← update (we_serving e);
  on_web_node stop.

(** The exit code, and the server when one was made; [files] are those of
    the data directory, [disk] the block storage in it. *)
Definition web_main (e : WebEnv) (k : Keygen) (argv : list bytes) (disk : bytes -> Disk) (files : bytes -> WebServer)
    : Z * option WebServer :=
  match parse_web argv default_web with
  | Throw _ => (1, None)
  | Ok None => (0, None)
  | Ok (Some o) =>
      let '(r, s, _) := web_run e k (fresh_server (new_node 1 (disk (web_data_dir o))) (files (web_data_dir o))) in
      (match r with Ok _ => 0 | Throw _ => 1 end, Some s)
  end.
End Main.

(** ** Facts *)

Lemma http_wait_seen looks : http_wait looks = true -> exists d, (true, d) ∈ looks.
Proof.
  induction looks as [|[r d] looks IH]; cbn [http_wait]; [done|]. destruct r; [exists d; set_solver|].
  destruct d; [done|]. intros [d' H]%IH. exists d'. set_solver.
Qed.

(** [start()] returns only if the listener was seen running, in at most 200
    looks and one more; otherwise it throws, and then the listener was told to
    stop and its thread was joined, so that the destructor of the thread does
    not end the process. *)
Theorem http_start_exact looks running_after listen_ok :
  match http_start looks running_after listen_ok with
  | (Ok _, calls) => calls = [] /\ (running_after = true \/ exists d, (true, d) ∈ take STARTUP_LOOKS looks)
  | (Throw _, calls) => calls = [StopsServer; JoinsThread] /\ running_after = false
  end.
Proof.
  unfold http_start. destruct (http_wait _) eqn:E; [apply http_wait_seen in E; auto|]. by destruct running_after; auto.
Qed.

Section Rounds.
Context {ssl : OpenSSL} {order : PeerOrder} {inet : Inet}.

Lemma request_sync_events id n r n' ev :
  request_sync_from_peer id n = (r, n', ev) -> ev = [] \/ exists locator, ev = [SendGetHeaders id locator].
Proof.
  unfold request_sync_from_peer. unfold mbind, op_bind.
  destruct (get_chain n) as [[[c|e] n1] ev1] eqn:E; apply get_chain_quiet in E as [-> _]; intros [= <- <- <-]; eauto.
Qed.

(** A turn of the thread never throws, so the thread lives as long as the
    process; it pauses two to ten seconds; it dials nobody but the peer it was
    given, and only while the node runs and has no peers; and it asks for
    headers only from the peer that this turn connected. *)
Theorem peer_round_safe o settled sent host prt d :
  exists d' ev, peer_round o settled sent host prt d = (Ok tt, d', ev) /\
    (exists secs, Sleeps secs ∈ ev /\ 2 <= secs <= 10) /\
    (forall e, Dials e ∈ ev -> e = mkEndpoint host prt /\ node_peer_count d <= 0 /\ node_running d = true) /\
    (forall m, Tells m ∈ ev -> exists id locator s' tr,
       m = SendGetHeaders id locator /\ connect_to_peer o host prt (daemon_server d) = (Ok id, s', tr)).
Proof.
  unfold peer_round, asking. destruct (Z.ltb_spec 0 (node_peer_count d)) as [Hp|Hp].
  { eexists _, _. split; [reflexivity|]. split; [exists 5; split; [set_solver|lia]|]. split; intros x Hx; set_solver. }
  unfold catching, node_connect_to_peer. unfold mbind at 1, op_bind at 1. rewrite run_require.
  destruct (node_running d) eqn:Hrun.
  2:{ eexists _, _. split; [reflexivity|]. split; [exists 10; split; [set_solver|lia]|]. split; intros x Hx; set_solver. }
  unfold of_server. destruct (connect_to_peer o host prt (daemon_server d)) as [[r s'] tr] eqn:E.
  assert (forall e, Dials e ∈ Dials <$> tr -> e = mkEndpoint host prt) as Hd.
  { intros e (e' & [= ->] & He)%list_elem_of_fmap. apply connect_trace in E as [[-> _]| ->]; set_solver. }
  destruct r as [id|err].
  2:{ eexists _, _. split; [reflexivity|]. split; [exists 10; split; [set_solver|lia]|]. split.
      - intros e [He|He]%elem_of_app; [split; [by apply Hd|done]|set_solver].
      - intros m [(e & [=] & _)%list_elem_of_fmap|He]%elem_of_app. set_solver. }
  unfold mbind, op_bind, emit, update, of_node. cbn [daemon_node].
  destruct (request_sync_from_peer id _) as [[r n'] ev'] eqn:Er. apply request_sync_events in Er.
  assert (forall m, Tells m ∈ Tells <$> ev' -> exists locator, m = SendGetHeaders id locator) as Ht.
  { intros m (m' & [= ->] & Hm)%list_elem_of_fmap. destruct Er as [->|[l ->]]; [set_solver|].
    apply list_elem_of_singleton in Hm as ->. eauto. }
  destruct r as [[]|]; [destruct sent|]; (eexists _, ((Dials <$> tr) ++ [Sleeps 2] ++ (Tells <$> ev')); split;
    [cbn; by rewrite ?app_nil_r|]);
    (split; [exists 2; split; [set_solver|lia]|]; split;
      [intros e [He|[He|(? & [=] & _)%list_elem_of_fmap]%elem_of_app]%elem_of_app; [split; [by apply Hd|done]|set_solver]
      |intros m [(? & [=] & _)%list_elem_of_fmap|[Hm|[l ->]%Ht]%elem_of_app]%elem_of_app; [set_solver|by exists id, l, s', tr]]).
Qed.
End Rounds.

Section Serving.
Context {ssl : OpenSSL} {wssl : WalletSSL}.

(** What a call of the node leaves alone. *)
Lemma on_web_node_frame {A} (m : node_op A) s r s' ev :
  on_web_node m s = (r, s', ev) -> exists n, s' = set_rpc (set_server_node n (web_rpc s)) s.
Proof.
  unfold on_web_node, on_rpc, on_node. destruct (m (server_node (web_rpc s))) as [[r1 n] ev1]. intros [= _ <- _]. by exists n.
Qed.
Lemma fresh_node n n' files : set_rpc (set_server_node n' (web_rpc (fresh_server n files))) (fresh_server n files) = fresh_server n' files.
Proof. by destruct files. Qed.
Lemma node_frame_auth n s req :
  let s' := set_rpc (set_server_node n (web_rpc s)) s in
  is_authenticated false req s' = is_authenticated false req s /\ pin_file s' = pin_file s /\ session_file s' = session_file s.
Proof. by destruct s as [[] ? ? ? ? ? ? ? ? ?]. Qed.

(** A run of the program that ends with 0 and made a server had a good
    command line, saw the listener running before it served, served from a
    state in which no request is authenticated and the PIN and session files
    are those found, and stopped the node at the end. *)
Theorem web_main_served e k argv disk files s :
  web_main e k argv disk files = (0, Some s) ->
  exists o s1, parse_web argv default_web = Ok (Some o) /\
    (we_running e = true \/ exists d, (true, d) ∈ take STARTUP_LOOKS (we_looks e)) /\
    (forall req, is_authenticated false req s1 = false) /\
    pin_file s1 = pin_file (files (web_data_dir o)) /\ session_file s1 = session_file (files (web_data_dir o)) /\
    s = set_rpc (set_server_node (set_running false (server_node (web_rpc (we_serving e s1)))) (web_rpc (we_serving e s1)))
          (we_serving e s1).
Proof.
  unfold web_main. destruct (parse_web argv default_web) as [[o|]|]; [|done|done].
  destruct (web_run _ _ _) as [[[[]|] s'] ev] eqn:E; [|done]. intros [= <-]. exists o.
  apply bind_returns in E as ([] & s2 & ev1 & ev2 & E1 & E & _). apply on_web_node_frame in E1 as [n1 ->]. rewrite fresh_node in E.
  apply bind_returns in E as ([] & s3 & ev3 & ev4 & E2 & E & _). apply on_web_node_frame in E2 as [n2 ->]. rewrite fresh_node in E.
  apply bind_returns in E as ([] & s4 & ev5 & ev6 & E3 & E & _). apply web_start_frame in E3 as (Hpin & Hsess & Hlock & _).
  apply reading_returns in E as ([] & Hh & E).
  apply bind_returns in E as (h & s5 & ev7 & ev8 & E5 & E & _). apply on_web_node_frame in E5 as [n5 ->].
  set (s5 := set_rpc (set_server_node n5 (web_rpc s4)) s4) in *. exists s5. rewrite run_update in E.
  pose proof (fun req => node_frame_auth n5 s4 req) as Hf. cbv zeta in Hf. fold s5 in Hf.
  split; [done|]. split; [|split; [|split; [|split]]].
  - pose proof (http_start_exact (we_looks e) (we_running e) (we_listen_ok e)) as Hx.
    destruct (http_start _ _ _) as [[[]|] calls]; [apply Hx|done].
  - intros req. rewrite (proj1 (Hf req)). unfold is_authenticated. by rewrite Hlock.
  - rewrite <- Hpin. apply (Hf (mkRequest [] [] [] [])).
  - rewrite <- Hsess. apply (Hf (mkRequest [] [] [] [])).
  - unfold on_web_node, on_rpc, on_node, stop, update in E. by injection E as <- _.
Qed.
End Serving.
