(* ===== verification/Users.v ===== *)
(** The users of http_rpc.hpp: registration by address or by name, login, and
    the tree of invitations. [g_pool_mutex] is a [std::mutex]: a thread that
    locks it while it holds it waits for itself, which is [Stuck] here. *)

From S2P Require Import Prelude Serialization Crypto Transaction UTXO Ownership Coinbase Consensus Block Mempool.
From S2P Require Import Storage Node Text PoolState Bip39 Wallet Derivation SecureWallet Pool Session.
From stdpp Require Import options.
Local Open Scope Z_scope.

(** ** Locks *)

Record UserServer := mkUserServer {
  users_pool : PoolState;
  user_files : gmap bytes bytes; (* users/<address>.enc *)
  pool_locked : bool (* the running thread holds g_pool_mutex *)
}.
Inductive Outcome (A : Type) := Done (a : A) | Failed (e : string) | Stuck.
Arguments Done {A} a.
Arguments Failed {A} e.
Arguments Stuck {A}.
Definition user_op (A : Type) : Type := UserServer -> Outcome A * UserServer.
#[global] Instance user_op_ret : MRet user_op := fun A a s => (Done a, s).
#[global] Instance user_op_bind : MBind user_op := fun A B f m s =>
  match m s with
  | (Done a, s) => f a s
  | (Failed e, s) => (Failed e, s)
  | (Stuck, s) => (Stuck, s)
  end.
Definition of_result {A} (r : result A) : user_op A := fun s =>
  match r with Ok a => (Done a, s) | Throw e => (Failed e, s) end.
Definition check (c : bool) (e : string) : user_op unit := of_result (if c then Ok tt else Throw e).
Definition set_lock (b : bool) (s : UserServer) : UserServer := mkUserServer (users_pool s) (user_files s) b.
Definition set_users_pool (p : PoolState) (s : UserServer) : UserServer := mkUserServer p (user_files s) (pool_locked s).
Definition set_user_files (m : gmap bytes bytes) (s : UserServer) : UserServer :=
  mkUserServer (users_pool s) m (pool_locked s).
(** [std::lock_guard<std::mutex> lock(g_pool_mutex)] around the rest of a scope. *)
Definition with_lock {A} (m : user_op A) : user_op A := fun s =>
  if pool_locked s then (Stuck, s)
  else
    match m (set_lock true s) with
    | (Stuck, s) => (Stuck, s)
    | (r, s) => (r, set_lock false s)
    end.
(** [try { m } catch (const std::exception& e) { h }]. *)
Definition trying {A} (m : user_op A) (h : string -> user_op A) : user_op A := fun s =>
  match m s with (Failed e, s) => h e s | r => r end.
Definition on_users {A} (f : PoolState -> A * PoolState) : user_op A := fun s =>
  let '(a, p) := f (users_pool s) in (Done a, set_users_pool p s).

(** ** Registration *)

Definition refusal (code : Z) (e : bytes) : Response := mkResponse code (json "{'ok':false,'error':'" ++ e ++ json "'}").
Definition FOUNDERS : Z := 1000.

(** [g_pool_users\[parent\].children.push_back(addr)], when there is such a parent. *)
Definition add_child (parent_ addr : bytes) (m : gmap bytes PoolUserRecord) : gmap bytes PoolUserRecord :=
  if bool_decide (parent_ = []) || bool_decide (parent_ = addr) then m
  else
    match m !! parent_ with
    | None => m
    | Some u =>
        <[parent_ := mkUser (user_address u) (username u) (parent u) (children u ++ [addr]) (joined_at u)
                       (user_number u) (is_founder u)]> m
    end.
(** A new record and its place in the tables. *)
Definition enroll (addr name parent_ : bytes) (now : Z) (io : SaveIO) (p : PoolState) : PoolUserRecord * PoolState :=
  let number := u32 (g_pool_next_user_number p) in
  let u := mkUser addr name parent_ [] (u64 now) number (number <=? FOUNDERS) in
  let p := set_next_user_number (u64 (g_pool_next_user_number p + 1)) p in
  let p := set_total_registered (u64 (g_pool_total_registered p + 1)) p in
  let p := set_users (<[addr := u]> (add_child parent_ addr (g_pool_users p))) p in
  (u, pool_save_state_unlocked io p).

Definition enrolled_text (already : bool) (u : PoolUserRecord) (total : Z) : bytes :=
  json "{'ok':true,'already':" ++ flag_text already ++ json ",'user_number':" ++ dec_str (user_number u)
  ++ json ",'is_founder':" ++ flag_text (is_founder u) ++ json ",'total':" ++ dec_str total ++ json "}".
(** By address only. *)
Definition register_address (now : Z) (io : SaveIO) (addr parent_ : bytes) (p : PoolState) : Response * PoolState :=
  let p := load_once p in
  match g_pool_users p !! addr with
  | Some u => (ok_response (enrolled_text true u (g_pool_total_registered p)), p)
  | None =>
      let '(u, p) := enroll addr [] parent_ now io p in
      (ok_response (enrolled_text false u (g_pool_total_registered p)), p)
  end.

Section Users.
Context {ssl : OpenSSL} {wssl : WalletSSL}.

(** What a request meets: the clock, the file of the pool, [RAND_bytes] and
    the stream of the encrypted file. *)
Record UserEnv := mkUserEnv {
  user_now : Z;
  user_save : SaveIO;
  user_entropy : option bytes;
  user_encrypt : EncryptIO;
  user_read : ReadFault;
  user_token : option bytes
}.

Definition name_char (c : byte) : bool :=
  is_digit c || ((65 <=? byteZ c) && (byteZ c <=? 90)) || ((97 <=? byteZ c) && (byteZ c <=? 122))
  || (byteZ c =? 95) || (byteZ c =? 45).
Definition user_named (name : bytes) (p : PoolState) : option PoolUserRecord :=
  snd <$> (snd <$> list_find (fun kv => username kv.2 = name) (in_order (g_pool_users p))).

(** [SecureWalletStorage::encrypt(enc_path, pin, plaintext)]. *)
Definition write_user_file (io : EncryptIO) (addr pin plaintext : bytes) : user_op unit := fun s =>
  match encrypt io pin plaintext (user_files s !! addr) with
  | Ok file => (Done tt, set_user_files (partial_alter (fun _ => file) addr (user_files s)) s)
  | Throw e => (Failed e, s)
  end.
(** The [try] block of a registration by name. *)
Definition register_wallet (e : UserEnv) (name pin parent_ : bytes) : user_op Response :=
  trying
    (entropy ← of_result (match user_entropy e with Some x => Ok x | None => Throw "RAND_bytes failed" end);
     mnemonic ← of_result (entropy_to_mnemonic entropy);
     keys ← of_result (wallet_from_mnemonic mnemonic);
     new_addr ← of_result (wallet_address keys);
     new_pub ← of_result (wallet_public_key keys);
     _ ← check (negb (bool_decide (new_addr = []))) "failed to derive wallet address";
     _ ← write_user_file (user_encrypt e) new_addr pin mnemonic;
     u ← with_lock (on_users (fun p => enroll new_addr name parent_ (user_now e) (user_save e) (load_once p)));
     on_users (fun p =>
       (ok_response (json "{'ok':true,'address':'" ++ new_addr ++ json "','public_key':'" ++ new_pub
          ++ json "','username':'" ++ name ++ json "','mnemonic':'" ++ mnemonic
          ++ json "','user_number':" ++ dec_str (user_number u) ++ json ",'is_founder':" ++ flag_text (is_founder u)
          ++ json ",'total':" ++ dec_str (g_pool_total_registered p) ++ json "}"), p)))
    (fun err => mret (refusal 500 (str err))).

(** POST /api/user/register. *)
Definition user_register (e : UserEnv) (req : bytes) : user_op Response :=
  let name := json_string req "username" in
  let pin := json_string req "pin" in
  let parent_ := json_string req "parent" in
  let addr := json_string req "address" in
  if bool_decide (name = []) || bool_decide (pin = []) then
    if bool_decide (addr = []) then mret (refusal 400 (str "username+pin or address required"))
    else with_lock (on_users (register_address (user_now e) (user_save e) addr parent_))
  else if (sizeZ name <? 3) || (32 <? sizeZ name) then mret (refusal 400 (str "Username must be 3-32 characters"))
  else if (sizeZ pin <? 4) || (12 <? sizeZ pin) then mret (refusal 400 (str "PIN must be 4-12 digits"))
  else if negb (forallb name_char name) then mret (refusal 400 (str "Username: only letters, digits, _ and -"))
  else
    with_lock
      (_ ← on_users (fun p => (tt, load_once p));
       taken ← on_users (fun p => (bool_decide (is_Some (user_named name p)), p));
       if (taken : bool) then mret (refusal 200 (str "Username already taken"))
       else register_wallet e name pin parent_).

(** ** Login *)

Definition new_user : PoolUserRecord := mkUser [] [] [] [] 0 0 false.
(** [g_pool_users\[addr\]]: the index makes a record. *)
Definition user_at (addr : bytes) (p : PoolState) : PoolUserRecord * PoolState :=
  match g_pool_users p !! addr with
  | Some u => (u, p)
  | None => (new_user, set_users (<[addr := new_user]> (g_pool_users p)) p)
  end.
(** POST /api/user/login; the token is the new cookie. *)
Definition user_login (e : UserEnv) (req : bytes) : user_op Answer :=
  let name := json_string req "username" in
  let pin := json_string req "pin" in
  if bool_decide (name = []) || bool_decide (pin = []) then mret (plain_answer (refusal 400 (str "username and pin required")))
  else
    with_lock
      (_ ← on_users (fun p => (tt, load_once p));
       found ← on_users (fun p => (default [] (user_address <$> user_named name p), p));
       if bool_decide (found = []) then mret (plain_answer (refusal 404 (str "User not found")))
       else fun s =>
         match user_files s !! found with
         | None => (Done (plain_answer (refusal 404 (str "Wallet file missing"))), s)
         | Some file =>
             trying
               (mnemonic ← of_result (decrypt (user_read e) (Some file) pin);
                keys ← of_result (wallet_from_mnemonic mnemonic);
                derived ← of_result (wallet_address keys);
                if negb (bool_decide (derived = found)) then mret (plain_answer (refusal 500 (str "Address mismatch")))
                else
                  session ← of_result (generate_session_token (user_token e));
                  u ← on_users (user_at found);
                  pk ← of_result (wallet_public_key keys);
                  mret (mkAnswer (ok_response (json "{'ok':true,'address':'" ++ found ++ json "','public_key':'" ++ pk
                          ++ json "','username':'" ++ name ++ json "','user_number':" ++ dec_str (user_number u)
                          ++ json ",'is_founder':" ++ flag_text (is_founder u) ++ json ",'session':'" ++ session
                          ++ json "'}")) (Some session)))
               (fun _ => mret (plain_answer (refusal 401 (str "Wrong PIN or corrupted wallet")))) s
         end).
End Users.

(** ** The tree of invitations *)

(** [visit], with the levels that are left: child, level and parent. *)
Fixpoint visit (depth : nat) (level : Z) (m : gmap bytes PoolUserRecord) (a : bytes) : list (bytes * Z * bytes) :=
  match depth with
  | O => []
  | S depth =>
      match m !! a with
      | None => []
      | Some u => mjoin ((fun child => (child, level, a) :: visit depth (level + 1) m child) <$> children u)
      end
  end.
Definition LEVELS : nat := 4.
(** [levels\[lvl\].size()]: every item was pushed to its level. *)
Definition level_size (items : list (bytes * Z * bytes)) (lvl : Z) : Z :=
  sizeZ (List.filter (fun x => x.1.2 =? lvl) items).
Definition member_text (x : bytes * Z * bytes) : bytes :=
  json "{'address':'" ++ x.1.1 ++ json "','level':" ++ dec_str x.1.2 ++ json ",'parent':'" ++ x.2 ++ json "'}".
Definition commas (l : list bytes) : bytes :=
  match l with [] => [] | x :: l => foldl (fun t y => t ++ str "," ++ y) x l end.
Definition tree_text (root : bytes) (items : list (bytes * Z * bytes)) : bytes :=
  json "{'ok':true,'root':'" ++ root ++ json "'"
  ++ mjoin ((fun lvl => json ",'level" ++ dec_str lvl ++ json "':" ++ dec_str (level_size items lvl)) <$> [1; 2; 3; 4])
  ++ json ",'total':" ++ dec_str (sizeZ items) ++ json ",'members':[" ++ commas (member_text <$> items) ++ json "]}".
(** GET /api/user/tree; [root] is the query parameter. *)
Definition user_tree (root : bytes) : user_op Response :=
  if bool_decide (root = []) then mret (refusal 200 (str "address required"))
  else
    with_lock (on_users (fun p =>
      let p := load_once p in (ok_response (tree_text root (visit LEVELS 1 (g_pool_users p) root)), p))).

(** GET /api/user/me. *)
Definition user_me (addr : bytes) : user_op Response :=
  if bool_decide (addr = []) then mret (refusal 200 (str "address required"))
  else
    with_lock (on_users (fun p =>
      let p := load_once p in
      (match g_pool_users p !! addr with
       | None => refusal 200 (str "not_registered")
       | Some u =>
           ok_response (json "{'ok':true,'address':'" ++ user_address u ++ json "','user_number':" ++ dec_str (user_number u)
             ++ json ",'is_founder':" ++ flag_text (is_founder u) ++ json ",'parent':'" ++ parent u
             ++ json "','direct_children':" ++ dec_str (sizeZ (children u)) ++ json ",'joined_at':" ++ dec_str (joined_at u)
             ++ json ",'total_registered':" ++ dec_str (g_pool_total_registered p) ++ json "}")
       end, p))).

(** GET /api/network/stats. *)
Definition network_stats : user_op Response :=
  with_lock (on_users (fun p =>
    let p := load_once p in
    (ok_response (json "{'ok':true,'total_registered':" ++ dec_str (g_pool_total_registered p)
       ++ json ",'next_number':" ++ dec_str (g_pool_next_user_number p) ++ json ",'founder_cap':1000,'founders_remaining':"
       ++ dec_str (if g_pool_next_user_number p <=? FOUNDERS then u64 (FOUNDERS - g_pool_next_user_number p + 1) else 0)
       ++ json "}"), p))).
