(* ===== verification/UsersFacts.v ===== *)
(** The register of users is a forest numbered in the order of arrival, its
    tree is read off exactly, and a registration by name never ends. *)

From S2P Require Import Prelude Serialization Crypto Transaction UTXO Ownership Coinbase Consensus Block Mempool.
From S2P Require Import Storage Node Text PoolState Bip39 Wallet Derivation SecureWallet KeyStore Pool Session SessionFacts Users.
From stdpp Require Import options.
Local Open Scope Z_scope.

(** ** The register *)

Definition sizeM (m : gmap bytes PoolUserRecord) : Z := Z.of_nat (size m).
Record users_wf (p : PoolState) : Prop := {
  w_loaded : g_pool_state_loaded p = true;
  w_next : g_pool_next_user_number p = sizeM (g_pool_users p) + 1;
  w_total : g_pool_total_registered p = sizeM (g_pool_users p);
  w_named : g_pool_users p !! [] = None;
  w_record a u : g_pool_users p !! a = Some u ->
    user_address u = a /\ 1 <= user_number u <= sizeM (g_pool_users p) /\ is_founder u = (user_number u <=? FOUNDERS);
  w_number a b u v : g_pool_users p !! a = Some u -> g_pool_users p !! b = Some v -> user_number u = user_number v -> a = b;
  w_child a u c : g_pool_users p !! a = Some u ->
    c ∈ children u <-> exists v, g_pool_users p !! c = Some v /\ parent v = a /\ user_number u < user_number v;
  w_nodup a u : g_pool_users p !! a = Some u -> NoDup (children u)
}.

Definition with_children (l : list bytes) (u : PoolUserRecord) : PoolUserRecord :=
  mkUser (user_address u) (username u) (parent u) l (joined_at u) (user_number u) (is_founder u).
(** What becomes of the others when [addr] joins. *)
Lemma add_child_lookup par addr m a :
  add_child par addr m !! a =
    (fun u => if bool_decide (a = par) && negb (bool_decide (par = [])) && negb (bool_decide (par = addr))
              then with_children (children u ++ [addr]) u else u) <$> m !! a.
Proof.
  unfold add_child. destruct (bool_decide (par = [])) eqn:E1; cbn [orb negb].
  { rewrite andb_false_r. cbn [andb]. by destruct (m !! a). }
  destruct (bool_decide (par = addr)) eqn:E2; cbn [negb].
  { rewrite andb_false_r. by destruct (m !! a). }
  rewrite !andb_true_r. destruct (m !! par) as [u|] eqn:E.
  - destruct (decide (a = par)) as [->|Hne]; [by rewrite lookup_insert_eq, E, bool_decide_true|].
    rewrite lookup_insert_ne, bool_decide_false by done. by destruct (m !! a).
  - destruct (decide (a = par)) as [->|Hne]; [by rewrite E|]. rewrite bool_decide_false by done. by destruct (m !! a).
Qed.
Lemma add_child_size par addr m : size (add_child par addr m) = size m.
Proof.
  unfold add_child. destruct (_ || _); [done|]. destruct (m !! par) as [u|] eqn:E; [|done].
  by rewrite map_size_insert_Some by eauto.
Qed.

Lemma saved_users io p :
  let p' := pool_save_state_unlocked io p in
  g_pool_users p' = g_pool_users p /\ g_pool_next_user_number p' = g_pool_next_user_number p /\
  g_pool_total_registered p' = g_pool_total_registered p /\ g_pool_state_loaded p' = g_pool_state_loaded p.
Proof. unfold pool_save_state_unlocked. by destruct io, p. Qed.
Lemma enroll_parts p addr name par now io n :
  g_pool_next_user_number p = n + 1 -> g_pool_total_registered p = n -> g_pool_state_loaded p = true ->
  g_pool_users p !! addr = None -> sizeM (g_pool_users p) = n -> 0 <= n < UINT32_MAX ->
  let '(u, p') := enroll addr name par now io p in
  u = mkUser addr name par [] (u64 now) (n + 1) (n + 1 <=? FOUNDERS) /\
  g_pool_users p' = <[addr := u]> (add_child par addr (g_pool_users p)) /\
  sizeM (g_pool_users p') = n + 1 /\ g_pool_next_user_number p' = n + 2 /\
  g_pool_total_registered p' = n + 1 /\ g_pool_state_loaded p' = true.
Proof.
  intros Hn Ht Hl Hnew Hs Hr. unfold enroll. cbv zeta. rewrite Hn, u32_small by ints.
  assert (add_child par addr (g_pool_users p) !! addr = None) as Ha by (rewrite add_child_lookup, Hnew; done).
  split; [done|]. match goal with |- context [pool_save_state_unlocked io ?q] => pose proof (saved_users io q) as (-> & -> & -> & ->) end.
  destruct p. cbn in *. rewrite Ht, (u64_small (n + 1 + 1)), (u64_small (n + 1)) by ints.
  split_and!; try done; [|lia]. unfold sizeM in *. rewrite map_size_insert_None, add_child_size by done. lia.
Qed.

Section Enroll.
Variables (p : PoolState) (addr name par : bytes) (now : Z) (io : SaveIO).
Hypothesis Hwf : users_wf p.
Hypothesis Hnew : g_pool_users p !! addr = None.
Hypothesis Haddr : addr <> [].
Hypothesis Hroom : sizeM (g_pool_users p) < UINT32_MAX.

Lemma enroll_wf : users_wf (enroll addr name par now io p).2.
Proof using All.
  assert (0 <= sizeM (g_pool_users p)) as Hn0 by (unfold sizeM; lia).
  pose proof (enroll_parts p addr name par now io (sizeM (g_pool_users p)) (w_next _ Hwf) (w_total _ Hwf) (w_loaded _ Hwf)
    Hnew eq_refl ltac:(lia)) as H. destruct (enroll addr name par now io p) as [u p']. destruct H as (Eu & Em & Es & En & Et & El).
  cbn [snd]. set (n := sizeM (g_pool_users p)) in *.
  (* The record of an older user, before and after. *)
  assert (forall a v', a <> addr -> g_pool_users p' !! a = Some v' ->
    exists v l, g_pool_users p !! a = Some v /\ v' = with_children l v /\
      l = if bool_decide (a = par) && negb (bool_decide (par = [])) && negb (bool_decide (par = addr))
          then children v ++ [addr] else children v) as Hold.
  { intros a v' Ha. rewrite Em, lookup_insert_ne, add_child_lookup by done.
    destruct (g_pool_users p !! a) as [v|]; [|done]. cbn. intros [= <-]. destruct (_ && _); exists v; eexists; split_and!; try done.
    by destruct v. }
  assert (forall a v, g_pool_users p !! a = Some v -> a <> addr /\ exists l, g_pool_users p' !! a = Some (with_children l v)) as Hkeep.
  { intros a v Ha. assert (a <> addr) by congruence. split; [done|]. rewrite Em, lookup_insert_ne, add_child_lookup, Ha by done.
    cbn. destruct (_ && _); [by eexists|]. exists (children v). by destruct v. }
  assert (g_pool_users p' !! addr = Some u) as Hu by (rewrite Em; apply lookup_insert_eq).
  assert (forall a v, g_pool_users p !! a = Some v -> user_number v <= n) as Hle.
  { intros a v Ha. apply (w_record _ Hwf) in Ha. lia. }
  split; [done|lia|lia| | | | |].
  - rewrite Em, lookup_insert_ne, add_child_lookup, (w_named _ Hwf) by done. done.
  - intros a v Ha. destruct (decide (a = addr)) as [->|Hne].
    + rewrite Hu in Ha. injection Ha as <-. rewrite Eu. cbn. unfold n, sizeM in *. split_and!; [done|lia|lia|done].
    + destruct (Hold a v Hne Ha) as (v0 & l & H0 & -> & _). apply (w_record _ Hwf) in H0 as (H1 & H2 & H3). cbn. split_and!; [done|lia|lia|done].
  - intros a b v w Ha Hb E. destruct (decide (a = addr)) as [->|Ha'], (decide (b = addr)) as [->|Hb']; [done| | |].
    + rewrite Hu in Ha. injection Ha as <-. destruct (Hold b w Hb' Hb) as (w0 & l & H0 & -> & _). apply Hle in H0. rewrite Eu in E. cbn in E. lia.
    + rewrite Hu in Hb. injection Hb as <-. destruct (Hold a v Ha' Ha) as (v0 & l & H0 & -> & _). apply Hle in H0. rewrite Eu in E. cbn in E. lia.
    + destruct (Hold a v Ha' Ha) as (v0 & l & H0 & -> & _), (Hold b w Hb' Hb) as (w0 & l' & H0' & -> & _).
      by apply (w_number _ Hwf a b v0 w0).
  - intros a v c Ha. destruct (decide (a = addr)) as [->|Hne].
    + rewrite Hu in Ha. injection Ha as <-. rewrite Eu at 1. cbn [children]. split; [intros Hc; by apply not_elem_of_nil in Hc|].
      intros (w & Hc & _ & Hlt). rewrite Eu in Hlt. cbn in Hlt. destruct (decide (c = addr)) as [->|Hc'].
      * rewrite Hu in Hc. injection Hc as <-. rewrite Eu in Hlt. cbn in Hlt. lia.
      * destruct (Hold c w Hc' Hc) as (w0 & l & H0 & -> & _). apply Hle in H0. cbn in Hlt. lia.
    + destruct (Hold a v Hne Ha) as (v0 & l & H0 & -> & El0). cbn [children with_children user_number].
      assert (c ∈ l <-> c ∈ children v0 \/ c = addr /\ a = par) as Hl.
      { rewrite El0. assert (a <> []) by (intros ->; rewrite (w_named _ Hwf) in H0; done).
        destruct (bool_decide (a = par)) eqn:E; [apply bool_decide_eq_true in E|apply bool_decide_eq_false in E]; cbn [andb].
        - subst par. rewrite !bool_decide_false by done. cbn [negb andb]. rewrite elem_of_app, list_elem_of_singleton. naive_solver.
        - naive_solver. }
      rewrite Hl, (w_child _ Hwf a v0 c H0). split.
      * intros [(w & Hw & Hp & Hlt)|[-> ->]].
        -- destruct (Hkeep c w Hw) as [_ [l' Hc]]. exists (with_children l' w). done.
        -- exists u. rewrite Eu at 2 3. cbn. split_and!; [done|done|]. apply Hle in H0. lia.
      * intros (w & Hw & Hp & Hlt). destruct (decide (c = addr)) as [->|Hc'].
        -- rewrite Hu in Hw. injection Hw as <-. rewrite Eu in Hp. cbn in Hp. by right.
        -- destruct (Hold c w Hc' Hw) as (w0 & l' & H0' & -> & _). left. by exists w0.
  - intros a v Ha. destruct (decide (a = addr)) as [->|Hne].
    + rewrite Hu in Ha. injection Ha as <-. rewrite Eu. cbn. constructor.
    + destruct (Hold a v Hne Ha) as (v0 & l & H0 & -> & ->). cbn [children with_children].
      pose proof (w_nodup _ Hwf a v0 H0). destruct (_ && _); [|done]. apply NoDup_app. split_and!; [done| |apply NoDup_singleton].
      intros c Hc ->%list_elem_of_singleton. apply (w_child _ Hwf a v0 addr H0) in Hc as (w & Hw & _). congruence.
Qed.
End Enroll.

Lemma load_once_idle p : g_pool_state_loaded p = true -> load_once p = p.
Proof. unfold load_once. intros H. rewrite H. destruct p. cbn in *. by rewrite H. Qed.

(** A registration by address. *)
Lemma register_address_wf now io addr par p :
  users_wf p -> addr <> [] -> sizeM (g_pool_users p) < UINT32_MAX ->
  let p' := (register_address now io addr par p).2 in
  users_wf p' /\ dom (g_pool_users p') = dom (g_pool_users p) ∪ {[addr]} /\
  sizeM (g_pool_users p') <= sizeM (g_pool_users p) + 1.
Proof.
  intros Hwf Ha Hr. unfold register_address. rewrite (load_once_idle _ (w_loaded _ Hwf)).
  destruct (g_pool_users p !! addr) as [u|] eqn:E; cbn [snd].
  { split; [done|]. split; [|lia]. assert (addr ∈ dom (g_pool_users p)) by (by apply elem_of_dom_2 in E). set_solver. }
  pose proof (enroll_wf p addr [] par now io Hwf E Ha Hr) as H.
  pose proof (enroll_parts p addr [] par now io (sizeM (g_pool_users p)) (w_next _ Hwf) (w_total _ Hwf) (w_loaded _ Hwf)
    E eq_refl ltac:(unfold sizeM in *; lia)) as Hp.
  destruct (enroll addr [] par now io p) as [u p']. cbn [snd] in *. destruct Hp as (_ & Em & Es & _).
  split; [done|]. split; [|lia]. rewrite Em, dom_insert_L.
  assert (dom (add_child par addr (g_pool_users p)) = dom (g_pool_users p)) as ->; [|set_solver].
  apply set_eq. intros a. rewrite !elem_of_dom, add_child_lookup. unfold is_Some. destruct (g_pool_users p !! a); cbn; naive_solver.
Qed.

(** ** The tree *)

Section Tree.
Context (p : PoolState) (Hwf : users_wf p).
Notation m := (g_pool_users p).

(** Who invited a user, if that one was registered first. *)
Definition sponsor (c : bytes) : option bytes :=
  v ← m !! c; u ← m !! parent v; if user_number u <? user_number v then Some (parent v) else None.
(** The ancestor [k] levels up. *)
Fixpoint ancestor (k : nat) (c : bytes) : option bytes :=
  match k with O => Some c | S k => ancestor k c ≫= sponsor end.

Lemma sponsor_child a c : sponsor c = Some a <-> exists u, m !! a = Some u /\ c ∈ children u.
Proof using Hwf.
  unfold sponsor. split.
  - destruct (m !! c) as [v|] eqn:Ec; [|done]. cbn. destruct (m !! parent v) as [u|] eqn:Eu; [|done]. cbn.
    destruct (Z.ltb_spec (user_number u) (user_number v)); [|done]. intros [= <-]. exists u. split; [done|].
    apply (w_child _ Hwf _ u c Eu). by exists v.
  - intros (u & Hu & Hc). apply (w_child _ Hwf a u c Hu) in Hc as (v & Hv & <- & Hlt). rewrite Hv. cbn. rewrite Hu. cbn.
    by rewrite (proj2 (Z.ltb_lt _ _)).
Qed.
Lemma elem_of_visit depth level a c lvl q :
  (c, lvl, q) ∈ visit depth level m a <->
  exists k, (k < depth)%nat /\ lvl = level + Z.of_nat k /\ ancestor (S k) c = Some a /\ sponsor c = Some q.
Proof using Hwf.
  revert level a. induction depth as [|d IH]; intros level a; cbn [visit].
  { split; [intros H; by apply not_elem_of_nil in H|intros (k & Hk & _); lia]. }
  destruct (m !! a) as [u|] eqn:Ea.
  2:{ split; [intros H; by apply not_elem_of_nil in H|]. intros (k & _ & _ & Hs & _). cbn in Hs.
      destruct (ancestor k c) as [b|]; [|done]. cbn in Hs. apply sponsor_child in Hs as (u & Hu & _). congruence. }
  rewrite list_elem_of_join. split.
  - intros (l & Hin & (child & -> & Hc)%list_elem_of_fmap).
    assert (sponsor child = Some a) as Hs by (apply sponsor_child; eauto).
    apply elem_of_cons in Hin as [[= -> -> ->]|(k & Hk & -> & Hanc & Hq)%IH].
    + exists 0%nat. cbn. split_and!; [lia|lia|done|done].
    + exists (S k). split_and!; [lia|lia| |done]. change (ancestor (S (S k)) c) with (ancestor (S k) c ≫= sponsor). by rewrite Hanc.
  - intros (k & Hk & -> & Hanc & Hq). destruct k as [|k].
    + cbn in Hanc. rewrite Hanc in Hq. injection Hq as <-. exists ((c, level, a) :: visit d (level + 1) m c).
      split; [rewrite Z.add_0_r; by left|]. apply list_elem_of_fmap. exists c. split; [done|].
      apply sponsor_child in Hanc as (u' & Hu' & ?). by simplify_eq.
    + change (ancestor (S (S k)) c) with (ancestor (S k) c ≫= sponsor) in Hanc.
      destruct (ancestor (S k) c) as [child|] eqn:Ec; [|done]. cbn in Hanc.
      exists ((child, level, a) :: visit d (level + 1) m child). split.
      * right. apply IH. exists k. split_and!; [lia|lia|done|done].
      * apply list_elem_of_fmap. exists child. split; [done|]. apply sponsor_child in Hanc as (u' & Hu' & ?). by simplify_eq.
Qed.
Lemma NoDup_visit depth level a : NoDup (visit depth level m a).
Proof using Hwf.
  revert level a. induction depth as [|d IH]; intros level a; cbn [visit]; [constructor|].
  destruct (m !! a) as [u|] eqn:Ea; [|constructor]. pose proof (w_nodup _ Hwf a u Ea) as Hnd.
  induction Hnd as [|c l Hc Hnd IHl]; cbn; [constructor|]. constructor.
  - rewrite elem_of_app, list_elem_of_join. intros [(k & _ & Hl & _)%elem_of_visit|(l' & Hin & (c' & -> & Hc')%list_elem_of_fmap)]; [lia|].
    apply elem_of_cons in Hin as [[= ->]|(k & _ & Hl & _)%elem_of_visit]; [done|lia].
  - apply NoDup_app. split_and!; [apply IH| |exact IHl]. intros [[x lvl] q] (k & _ & Hl & Hx & _)%elem_of_visit.
    rewrite list_elem_of_join. intros (l' & Hin & (c' & -> & Hc')%list_elem_of_fmap).
    apply elem_of_cons in Hin as [[= _ -> _]|(k' & _ & Hl' & Hx' & _)%elem_of_visit]; [lia|].
    assert (k' = k) as -> by lia. congruence.
Qed.

(** Going up, the numbers fall. *)
Lemma ancestor_number k c a u v :
  ancestor (S k) c = Some a -> m !! a = Some u -> m !! c = Some v -> user_number u < user_number v.
Proof using Hwf.
  revert a u. induction k as [|k IH]; intros a u; cbn [ancestor].
  - cbn. intros Hs Hu Hv. apply sponsor_child in Hs as (u' & Hu' & Hc). rewrite Hu in Hu'. injection Hu' as <-.
    apply (w_child _ Hwf a u c Hu) in Hc as (v' & ? & _ & ?). by simplify_eq.
  - change (ancestor k c ≫= sponsor) with (ancestor (S k) c). destruct (ancestor (S k) c) as [b|] eqn:Eb; [|done]. cbn.
    intros Hs Hu Hv. apply sponsor_child in Hs as (u' & Hu' & Hc). rewrite Hu in Hu'. injection Hu' as <-.
    apply (w_child _ Hwf a u b Hu) in Hc as (w & Hw & _ & ?). pose proof (IH b w eq_refl Hw Hv). lia.
Qed.
Lemma ancestor_add i j c : ancestor (i + j) c = ancestor j c ≫= ancestor i.
Proof.
  induction i as [|i IH]; cbn; [by destruct (ancestor j c)|]. rewrite IH. by destruct (ancestor j c).
Qed.
Lemma ancestor_level i j c a : ancestor (S i) c = Some a -> ancestor (S j) c = Some a -> i = j.
Proof using Hwf.
  assert (forall i j, (i < j)%nat -> ancestor (S i) c = Some a -> ancestor (S j) c = Some a -> False) as H.
  { intros i' j' Hlt Hi Hj. replace (S j') with (S (j' - i' - 1) + S i')%nat in Hj by lia.
    rewrite ancestor_add, Hi in Hj. change (Some a ≫= ancestor (S (j' - i' - 1))) with (ancestor (S (j' - i' - 1)) a) in Hj.
    assert (exists u, m !! a = Some u) as [u Hu].
    { cbn in Hi. destruct (ancestor i' c) as [b|]; [|done]. cbn in Hi. apply sponsor_child in Hi as (u & Hu & _). eauto. }
    pose proof (ancestor_number _ _ _ _ _ Hj Hu Hu). lia. }
  intros Hi Hj. destruct (Nat.lt_trichotomy i j) as [?|[?|?]]; [exfalso; eauto|done|exfalso; eauto].
Qed.
End Tree.

(** ** Claims *)

Section Claims.
Context {ssl : OpenSSL} {wssl : WalletSSL}.

Definition register_run (l : list (UserEnv * bytes)) (s : UserServer) : UserServer :=
  foldl (fun s x => (user_register x.1 x.2 s).2) s l.
(** The addresses the requests name. *)
Definition named_addresses (l : list (UserEnv * bytes)) : gset bytes :=
  list_to_set (List.filter (fun a => negb (bool_decide (a = []))) ((fun x => json_string x.2 "address") <$> l)).

Lemma registered l s :
  users_wf (users_pool s) -> pool_locked s = false ->
  Forall (fun x => json_string x.2 "username" = []) l ->
  sizeM (g_pool_users (users_pool s)) + sizeZ l <= UINT32_MAX ->
  let s' := register_run l s in
  users_wf (users_pool s') /\ pool_locked s' = false /\
  dom (g_pool_users (users_pool s')) = dom (g_pool_users (users_pool s)) ∪ named_addresses l.
Proof.
  intros Hwf Hlk Hl. revert s Hwf Hlk. induction Hl as [|[e req] l Hx Hl IH]; intros s Hwf Hlk Hr.
  { split_and!; [done|done|]. unfold named_addresses. cbn. set_solver. }
  rewrite sizeZ_cons in Hr. pose proof (sizeZ_nonneg l). cbn [snd] in Hx.
  set (addr := json_string req "address"). assert (exists s1, (user_register e req s).2 = s1 /\ users_wf (users_pool s1) /\
    pool_locked s1 = false /\ sizeM (g_pool_users (users_pool s1)) <= sizeM (g_pool_users (users_pool s)) + 1 /\
    dom (g_pool_users (users_pool s1)) = dom (g_pool_users (users_pool s)) ∪ named_addresses [(e, req)]) as (s1 & E & H1 & H2 & H3 & H4).
  { eexists. split; [done|]. unfold user_register, named_addresses. cbn [fmap list_fmap List.filter snd]. fold addr. rewrite Hx.
    rewrite (bool_decide_true ([] = [])) by done. cbn [orb].
    destruct (bool_decide (addr = [])) eqn:Ea; cbn [negb].
    { cbn. split_and!; [done|done|lia|set_solver]. }
    apply bool_decide_eq_false in Ea. unfold with_lock, on_users. rewrite Hlk. cbn [users_pool set_lock].
    destruct (register_address_wf (user_now e) (user_save e) addr (json_string req "parent") (users_pool s) Hwf Ea ltac:(lia)) as (R1 & R2 & R3).
    destruct (register_address _ _ _ _ (users_pool s)) as [resp p']. cbn in *. split_and!; [done|done|done|]. rewrite R2. set_solver. }
  unfold register_run. cbn [foldl fst snd]. rewrite E. destruct (IH s1 H1 H2 ltac:(lia)) as (R1 & R2 & R3).
  split; [exact R1|]. split; [exact R2|]. unfold register_run in R3. rewrite R3, H4. unfold named_addresses. cbn [fmap list_fmap List.filter snd].
  destruct (negb _); cbn; set_solver.
Qed.

(** C28: the register of users stays well formed. Whatever registrations by
    address, without a user name, arrive at a register that is well formed and
    in memory, while no request is stuck with the pool's lock, in any order and
    as often as they like and fewer than 2^32 in all: every address is
    registered once, the numbers are those from one to the count, only the
    first thousand are founders, the counters agree with the table, and the
    children of a user are exactly the later users who named that one as
    parent, each once; so invitations form a forest. *)
Theorem users_well_formed l s :
  users_wf (users_pool s) -> pool_locked s = false ->
  Forall (fun x => json_string x.2 "username" = []) l ->
  sizeM (g_pool_users (users_pool s)) + sizeZ l <= UINT32_MAX ->
  let s' := register_run l s in
  users_wf (users_pool s') /\ pool_locked s' = false /\
  dom (g_pool_users (users_pool s')) = dom (g_pool_users (users_pool s)) ∪ named_addresses l.
Proof. apply registered. Qed.

(** C34: the tree of a user. In a well-formed register (every child is listed
    by its parent, and by no other user, as registrations by address keep it
    within a process) that is in memory, and while no request is stuck with the
    pool's lock, GET /api/user/tree lists exactly the users whose line of
    sponsors reaches the root within four steps, each once, with the number of
    steps and the direct sponsor. After a restart the register need not be well
    formed: the loader puts a user's own name in place of the children. *)
Theorem user_tree_exact root s :
  users_wf (users_pool s) -> pool_locked s = false -> root <> [] ->
  exists items, user_tree root s = (Done (ok_response (tree_text root items)), s) /\
    NoDup ((fun x => x.1.1) <$> items) /\
    forall c lvl q, (c, lvl, q) ∈ items <->
      exists k, lvl = Z.of_nat k /\ 1 <= lvl <= 4 /\ ancestor (users_pool s) k c = Some root /\ sponsor (users_pool s) c = Some q.
Proof.
  intros Hwf Hlk Hr. exists (visit LEVELS 1 (g_pool_users (users_pool s)) root). split_and!.
  - unfold user_tree, with_lock, on_users. rewrite bool_decide_false, Hlk by done. cbn [users_pool set_lock].
    rewrite (load_once_idle _ (w_loaded _ Hwf)). destruct s. cbn in *. by subst.
  - apply NoDup_fmap_2_strong; [|by apply NoDup_visit].
    intros [[c lvl] q] [[c' lvl'] q'] (k & _ & -> & Ha & Hq)%(elem_of_visit _ Hwf) (k' & _ & -> & Ha' & Hq')%(elem_of_visit _ Hwf).
    cbn. intros <-. rewrite Hq in Hq'. injection Hq' as <-. by rewrite (ancestor_level _ Hwf _ _ _ _ Ha Ha').
  - intros c lvl q. rewrite (elem_of_visit _ Hwf). unfold LEVELS. split.
    + intros (k & Hk & -> & Ha & Hq). exists (S k). split_and!; [lia..|done|done].
    + intros (k & -> & Hk & Ha & Hq). destruct k as [|k]; [lia|]. exists k. split_and!; [lia..|done|done].
Qed.

(** Nobody can register with a name. A request with a free name, an
    acceptable PIN and everything the wallet needs writes the encrypted words
    of the new wallet, then locks the mutex it holds: there is no answer, the
    user is not in the register, and from then on every request that needs
    the pool is stuck too. *)
Theorem username_registration_stuck e req s entropy keys addr pub data mnemonic :
  let name := json_string req "username" in
  let pin := json_string req "pin" in
  users_wf (users_pool s) -> pool_locked s = false ->
  3 <= sizeZ name <= 32 -> 4 <= sizeZ pin <= 12 -> forallb name_char name = true -> user_named name (users_pool s) = None ->
  user_entropy e = Some entropy -> entropy_to_mnemonic entropy = Ok mnemonic -> wallet_from_mnemonic mnemonic = Ok keys ->
  wallet_address keys = Ok addr -> addr <> [] -> wallet_public_key keys = Ok pub ->
  envelope (user_encrypt e) pin mnemonic = Ok data -> enc_stream (user_encrypt e) = SaveDone ->
  exists s', user_register e req s = (Stuck, s') /\ users_pool s' = users_pool s /\
    user_files s' = <[addr := data]> (user_files s) /\
    forall A (m : user_op A), with_lock m s' = (Stuck, s').
Proof.
  intros name pin Hwf Hlk Hn Hp Hc Hfree He Hm Hk Ha Hne Hpub Henv Hio.
  exists (set_lock true (set_user_files (<[addr := data]> (user_files s)) s)).
  split; [|split_and!; [done|done|intros A m; done]].
  unfold user_register. fold name. fold pin. assert (name <> []) by (intros E; rewrite E in Hn; unfold sizeZ in Hn; cbn in Hn; lia).
  assert (pin <> []) by (intros E; rewrite E in Hp; unfold sizeZ in Hp; cbn in Hp; lia). rewrite !bool_decide_false by done. cbn [orb].
  rewrite (proj2 (Z.ltb_ge (sizeZ name) 3)), (proj2 (Z.ltb_ge 32 (sizeZ name))) by lia. cbn [orb].
  rewrite (proj2 (Z.ltb_ge (sizeZ pin) 4)), (proj2 (Z.ltb_ge 12 (sizeZ pin))) by lia. cbn [orb]. rewrite Hc. cbn [negb].
  unfold with_lock at 1. rewrite Hlk. unfold mbind, user_op_bind, on_users at 1 2. cbn [users_pool set_lock set_users_pool].
  rewrite (load_once_idle _ (w_loaded _ Hwf)), Hfree, (bool_decide_false (is_Some None)) by (by intros [? [=]]).
  unfold register_wallet, trying, mbind, user_op_bind, check, of_result.
  rewrite He, Hm, Hk, Ha, Hpub, (bool_decide_false (addr = [])) by done. cbn [negb]. unfold write_user_file, encrypt. rewrite Henv.
  cbn [mbind result_bind]. rewrite Hio. cbn. by destruct s.
Qed.
End Claims.

(** ** Witnesses *)

#[local] Existing Instance Toy.ssl.
#[local] Existing Instance ToyWallet.wssl.

Definition no_users : UserServer := mkUserServer (set_state_loaded true (new_pool None)) ∅ false.
Lemma no_users_wf : users_wf (users_pool no_users).
Proof. by split; cbn; intros; try lia; simplify_map_eq. Qed.
Definition toy_user_env : UserEnv :=
  mkUserEnv 100 SaveDone (Some (replicate 16 Byte.x00)) (toy_encrypt SaveDone) ReadFine (Some (str "token")).
Definition arrivals : list (UserEnv * bytes) :=
  (fun r => (toy_user_env, json r)) <$>
    ["{'address':'CZann'}"; "{'address':'CZbob','parent':'CZann'}"; "{'address':'CZann','parent':'CZbob'}"]%string.

Lemma users_well_formed_witness :
  let p := users_pool (register_run arrivals no_users) in
  users_wf p /\ (user_number <$> g_pool_users p !! str "CZbob") = Some 2 /\
  (children <$> g_pool_users p !! str "CZann") = Some [str "CZbob"].
Proof.
  cbv zeta. split; [|vm_compute; split; reflexivity].
  refine (proj1 (users_well_formed arrivals no_users no_users_wf eq_refl _ _)).
  - repeat constructor; vm_compute; reflexivity.
  - vm_compute. discriminate.
Defined.

Lemma user_tree_exact_witness :
  exists items, user_tree (str "CZann") (register_run arrivals no_users)
      = (Done (ok_response (tree_text (str "CZann") items)), register_run arrivals no_users) /\
    (str "CZbob", 1, str "CZann") ∈ items.
Proof.
  assert (users_wf (users_pool (register_run arrivals no_users)) /\ pool_locked (register_run arrivals no_users) = false) as [Hw Hl].
  { destruct (registered arrivals no_users no_users_wf eq_refl) as (H1 & H2 & _); [|vm_compute; discriminate|split; [exact H1|exact H2]].
    repeat constructor; vm_compute; reflexivity. }
  destruct (user_tree_exact (str "CZann") (register_run arrivals no_users) Hw Hl) as (items & E & _ & Hin); [discriminate|].
  exists items. split; [exact E|]. apply Hin. exists 1%nat. split; [reflexivity|]. split; [lia|]. vm_compute. split; reflexivity.
Defined.

Definition name_request : bytes := json "{'username':'alice','pin':'1234'}".
Definition alice_words : bytes := Eval vm_compute in
  match entropy_to_mnemonic (replicate 16 Byte.x00) with Ok w => w | Throw _ => [] end.
Definition alice_address : bytes := Eval vm_compute in
  match wallet_from_mnemonic alice_words with Ok keys => match wallet_address keys with Ok a => a | Throw _ => [] end | Throw _ => [] end.
Definition alice_file : bytes := Eval vm_compute in
  match envelope (toy_encrypt SaveDone) (str "1234") alice_words with Ok d => d | Throw _ => [] end.
Lemma username_registration_stuck_witness :
  exists s', user_register toy_user_env name_request no_users = (Stuck, s') /\ user_files s' = {[alice_address := alice_file]}.
Proof.
  destruct (username_registration_stuck toy_user_env name_request no_users (replicate 16 Byte.x00)
    (mkKeyPair (ssl := Toy.ssl) (Some thief_key) (Some thief_key)) alice_address (bytes_to_hex thief_key) alice_file alice_words) as (s' & E & _ & Hf & _).
  - exact no_users_wf.
  - reflexivity.
  - vm_compute. split; discriminate.
  - vm_compute. split; discriminate.
  - vm_compute. reflexivity.
  - vm_compute. reflexivity.
  - reflexivity.
  - vm_compute. reflexivity.
  - exact thief_wallet.
  - vm_compute. reflexivity.
  - vm_compute. discriminate.
  - vm_compute. reflexivity.
  - vm_compute. reflexivity.
  - reflexivity.
  - exists s'. split; [exact E|exact Hf].
Defined.
