(* ===== verification/Mail.v ===== *)
(** smtp_sender.hpp: mail through a curl command. A configuration file gives
    the account; [send] writes the message to a file and builds the command
    line that a shell is given. What the shell makes of a quoted word is the
    specification [sh_words], after the quoting rules of POSIX. *)

From S2P Require Import Prelude Crypto Transaction Ownership Text.
From stdpp Require Import options.
Local Open Scope Z_scope.

Record SmtpConfig := mkSmtp {
  smtp_host : bytes;
  smtp_port : Z;
  smtp_username : bytes;
  smtp_password : bytes;
  from_address : bytes;
  from_name : bytes;
  enabled : bool
}.
Definition smtp_defaults : SmtpConfig := mkSmtp (str "smtp.gmail.com") 465 [] [] [] (str "Caesar CZR") false.

Definition set_option (key val : bytes) (c : SmtpConfig) : SmtpConfig :=
  let 'mkSmtp h p u w fa fn e := c in
  if bool_decide (key = str "host") then mkSmtp val p u w fa fn e
  else if bool_decide (key = str "port") then mkSmtp h (match stoi val with Ok n => n | Throw _ => p end) u w fa fn e
  else if bool_decide (key = str "username") then mkSmtp h p val w fa fn e
  else if bool_decide (key = str "password") then mkSmtp h p u val fa fn e
  else if bool_decide (key = str "from_address") then mkSmtp h p u w val fn e
  else if bool_decide (key = str "from_name") then mkSmtp h p u w fa val e
  else c.
Definition strip_return (line : bytes) : bytes :=
  match last line with Some c => if byteZ c =? 13 then take (length line - 1) line else line | None => line end.
Definition config_line (c : SmtpConfig) (line : bytes) : SmtpConfig :=
  let line := strip_return line in
  match line with
  | [] => c
  | first :: _ =>
      if byteZ first =? 35 then c
      else
        match find_str (str "=") line with
        | None => c
        | Some pos => set_option (take pos line) (drop (pos + 1) line) c
        end
  end.
(** [load_config]: a file that does not open leaves the default. *)
Definition load_config (file : option bytes) : SmtpConfig :=
  match file with
  | None => smtp_defaults
  | Some text =>
      let 'mkSmtp h p u w fa fn _ := foldl config_line smtp_defaults (split text (u8 10)) in
      mkSmtp h p u w fa fn (negb (bool_decide (u = [])) && negb (bool_decide (w = [])) && negb (bool_decide (fa = [])))
  end.

(** ** A message *)

Definition apostrophe : byte := u8 39.
Definition backslash : byte := u8 92.
(** The lambda [quote], and [shell_escape] of auth_google.cpp. *)
Definition shell_quote (s : bytes) : bytes :=
  apostrophe :: mjoin ((fun c => if byteZ c =? 39 then [apostrophe; backslash; apostrophe; apostrophe] else [c]) <$> s) ++ [apostrophe].

Definition message_text (c : SmtpConfig) (to subject body : bytes) : bytes :=
  str "From: " ++ from_name c ++ str " <" ++ from_address c ++ str ">" ++ crlf
  ++ str "To: <" ++ to ++ str ">" ++ crlf
  ++ str "Subject: " ++ subject ++ crlf
  ++ str "MIME-Version: 1.0" ++ crlf
  ++ str "Content-Type: text/plain; charset=UTF-8" ++ crlf
  ++ crlf ++ body ++ crlf.
(** The words of the command, up to the redirection. *)
Definition signed_port (p : Z) : bytes := if p <? 0 then str "-" ++ dec_str (- p) else dec_str p.
Definition mail_words (c : SmtpConfig) (to path : bytes) : bytes :=
  str "curl -s --url 'smtps://" ++ smtp_host c ++ str ":" ++ signed_port (smtp_port c) ++ str "'"
  ++ str " --mail-from " ++ shell_quote (from_address c)
  ++ str " --mail-rcpt " ++ shell_quote to
  ++ str " --user " ++ shell_quote (smtp_username c ++ str ":" ++ smtp_password c)
  ++ str " --ssl-reqd"
  ++ str " --upload-file " ++ shell_quote path.
Definition mail_command (c : SmtpConfig) (to path : bytes) : bytes := mail_words c to path ++ str " 2>&1".
(** [c_str()]: what a C string shows of the bytes. *)
Definition command_text (s : bytes) : bytes := take_while (fun c => negb (byteZ c =? 0)) s.

(** What the system does: the message file opens, the shell starts, its exit
    status. *)
Record MailIO := mkMailIO { mail_opens : bool; shell_starts : bool; exit_status : Z }.
(** [send]: the answer, the message written and the command the shell was given. *)
Definition smtp_send (c : SmtpConfig) (path to subject body : bytes) (io : MailIO) : bool * option bytes * option bytes :=
  if negb (enabled c) then (false, None, None)
  else if negb (mail_opens io) then (false, None, None)
  else
    let message := message_text c to subject body in
    if negb (shell_starts io) then (false, Some message, None)
    else (exit_status io =? 0, Some message, Some (command_text (mail_command c to path))).

(** ** Words of a shell *)

(** Outside quotes a blank ends a word, an apostrophe opens a quotation in
    which nothing is special, and a backslash takes the next byte literally;
    a byte that means anything else to a shell makes the reader give up. *)
Definition plain_char (c : byte) : bool :=
  is_digit c || ((65 <=? byteZ c) && (byteZ c <=? 90)) || ((97 <=? byteZ c) && (byteZ c <=? 122))
  || (byteZ c =? 45) || (byteZ c =? 46) || (byteZ c =? 47) || (byteZ c =? 58) || (byteZ c =? 95) || (byteZ c =? 64)
  || (128 <=? byteZ c).
Inductive ShMode := ShBlank | ShWord (w : bytes) | ShQuote (w : bytes) | ShEscape (w : bytes).
Fixpoint sh_read (s : bytes) (mode : ShMode) : option (list bytes) :=
  match s, mode with
  | [], ShBlank => Some []
  | [], ShWord w => Some [w]
  | [], _ => None
  | c :: s, ShQuote w => if byteZ c =? 39 then sh_read s (ShWord w) else sh_read s (ShQuote (w ++ [c]))
  | c :: s, ShEscape w => if byteZ c =? 10 then None else sh_read s (ShWord (w ++ [c]))
  | c :: s, ShBlank =>
      if byteZ c =? 32 then sh_read s ShBlank
      else if byteZ c =? 39 then sh_read s (ShQuote [])
      else if byteZ c =? 92 then sh_read s (ShEscape [])
      else if plain_char c then sh_read s (ShWord [c]) else None
  | c :: s, ShWord w =>
      if byteZ c =? 32 then (fun l => w :: l) <$> sh_read s ShBlank
      else if byteZ c =? 39 then sh_read s (ShQuote w)
      else if byteZ c =? 92 then sh_read s (ShEscape w)
      else if plain_char c then sh_read s (ShWord (w ++ [c])) else None
  end.
Definition sh_words (s : bytes) : option (list bytes) := sh_read s ShBlank.

(** ** Quoting *)

(** The four bytes that stand for an apostrophe inside a quotation. *)
Lemma sh_apostrophe w rest :
  sh_read (apostrophe :: backslash :: apostrophe :: apostrophe :: rest) (ShQuote w) = sh_read rest (ShQuote (w ++ [apostrophe])).
Proof. done. Qed.
Lemma sh_quoted s w rest :
  sh_read (mjoin ((fun c => if byteZ c =? 39 then [apostrophe; backslash; apostrophe; apostrophe] else [c]) <$> s) ++ apostrophe :: rest)
    (ShQuote w) = sh_read rest (ShWord (w ++ s)).
Proof.
  revert w. induction s as [|c s IH]; intros w; [by rewrite app_nil_r|]. cbn [fmap list_fmap].
  change (mjoin (?x :: ?l)) with (x ++ mjoin l). destruct (byteZ c =? 39) eqn:E.
  - cbn [app]. assert (c = apostrophe) as -> by (apply byteZ_inj; zbool; done).
    rewrite sh_apostrophe, IH. by rewrite <- app_assoc.
  - cbn [app sh_read]. rewrite E, IH. by rewrite <- app_assoc.
Qed.
Lemma sh_shell_quote s rest : sh_read (shell_quote s ++ rest) ShBlank = sh_read rest (ShWord s).
Proof.
  unfold shell_quote. cbn [app]. rewrite <- app_assoc. cbn [app sh_read]. apply (sh_quoted s []).
Qed.
Lemma sh_blank rest w : sh_read (u8 32 :: rest) (ShWord w) = (fun l => w :: l) <$> sh_read rest ShBlank.
Proof. done. Qed.
Lemma quote_plain s :
  apostrophe ∉ s ->
  mjoin ((fun c => if byteZ c =? 39 then [apostrophe; backslash; apostrophe; apostrophe] else [c]) <$> s) = s.
Proof.
  induction s as [|c s IH]; intros H; [done|]. apply not_elem_of_cons in H as [Hc H]. cbn [fmap list_fmap].
  change (mjoin (?x :: ?l)) with (x ++ mjoin l). rewrite IH by done. destruct (byteZ c =? 39) eqn:E; [|done].
  destruct Hc. symmetry. apply byteZ_inj. by zbool.
Qed.
Lemma sh_plain_quote s w rest : apostrophe ∉ s -> sh_read (s ++ apostrophe :: rest) (ShQuote w) = sh_read rest (ShWord (w ++ s)).
Proof. intros H. rewrite <- (sh_quoted s w rest). by rewrite quote_plain. Qed.

Lemma c_str_whole s : Byte.x00 ∉ s -> command_text s = s.
Proof.
  unfold command_text. induction s as [|c s IH]; intros H; [done|]. apply not_elem_of_cons in H as [Hc H]. cbn [take_while].
  destruct (byteZ c =? 0) eqn:E; [|by rewrite (IH H)]. destruct Hc. symmetry. apply byteZ_inj. by zbool.
Qed.
Lemma port_plain p b : is_digit b = false -> b <> u8 45 -> b ∉ signed_port p.
Proof.
  intros Hb Hm. unfold signed_port. destruct (Z.ltb_spec p 0).
  - rewrite elem_of_app. intros [H1%list_elem_of_singleton|H1]; [done|]. by apply (dec_str_plain (- p) b) in H1; [|lia|].
  - by apply dec_str_plain.
Qed.

(** An unquoted word, and an option between two blanks. *)
Lemma plain_char_not c : plain_char c = true -> (byteZ c =? 32) = false /\ (byteZ c =? 39) = false /\ (byteZ c =? 92) = false.
Proof.
  unfold plain_char, is_digit. intros H. repeat split; apply Z.eqb_neq; intros E; rewrite E in H; discriminate H.
Qed.
Lemma sh_word n w rest : forallb plain_char n = true -> sh_read (n ++ rest) (ShWord w) = sh_read rest (ShWord (w ++ n)).
Proof.
  revert w. induction n as [|c n IH]; intros w H; [by rewrite app_nil_r|]. cbn [forallb] in H. apply andb_prop in H as [Hc H].
  destruct (plain_char_not c Hc) as (H1 & H2 & H3). cbn [app sh_read]. rewrite H1, H2, H3, Hc, IH by done. by rewrite <- app_assoc.
Qed.
Lemma sh_option text n w rest :
  text = str " " ++ n ++ str " " -> forallb plain_char n = true -> n <> [] ->
  sh_read (text ++ rest) (ShWord w) = (fun l => w :: n :: l) <$> sh_read rest ShBlank.
Proof.
  intros -> H Hn. rewrite <- !app_assoc. destruct n as [|c n]; [done|]. change (str " ") with [u8 32]. cbn [app]. rewrite sh_blank.
  cbn [forallb] in H. apply andb_prop in H as [Hc H]. destruct (plain_char_not c Hc) as (H1 & H2 & H3).
  cbn [sh_read]. rewrite H1, H2, H3, Hc, sh_word by done. cbn [app]. rewrite sh_blank. by destruct (sh_read rest ShBlank).
Qed.

(** The fixed start of the command. *)
Lemma sh_curl rest :
  sh_read (str "curl -s --url 'smtps://" ++ rest) ShBlank =
    (fun l => str "curl" :: str "-s" :: str "--url" :: l) <$> sh_read rest (ShQuote (str "smtps://")).
Proof.
  trans ((fun l => str "curl" :: l) <$> ((fun l => str "-s" :: l) <$> ((fun l => str "--url" :: l) <$> sh_read rest (ShQuote (str "smtps://"))))); [reflexivity|].
  by destruct (sh_read rest _).
Qed.

(** ** Bytes of a command *)

Definition nul_free (s : bytes) : Prop := Byte.x00 ∉ s.
Lemma nul_free_app s t : nul_free (s ++ t) <-> nul_free s /\ nul_free t.
Proof. apply not_elem_of_app. Qed.
Lemma nul_free_literal s : forallb (fun x => negb (byteZ x =? 0)) s = true -> nul_free s.
Proof. intros H. rewrite forallb_forall in H. intros Hin%list_elem_of_In%H. discriminate Hin. Qed.
Lemma nul_free_quote s : nul_free s -> nul_free (shell_quote s).
Proof.
  intros Hn. unfold nul_free, shell_quote. rewrite not_elem_of_cons, elem_of_app, list_elem_of_join, list_elem_of_singleton.
  split; [discriminate|]. intros [(l & Hl & (x & -> & Hx)%list_elem_of_fmap)|E]; [|discriminate E].
  destruct (byteZ x =? 39); [repeat (apply elem_of_cons in Hl as [E|Hl]; [discriminate E|]); by apply not_elem_of_nil in Hl|].
  by apply list_elem_of_singleton in Hl as <-.
Qed.

(** ** Claims *)

(** A recipient cannot break out of the command. Whatever bytes but NUL
    the address, the account and the path hold, the shell reads the command as
    the same thirteen words, and the recipient is the one word after
    --mail-rcpt. *)
Theorem mail_command_safe c to path subject body io :
  enabled c = true -> mail_opens io = true -> shell_starts io = true -> apostrophe ∉ smtp_host c ->
  Forall nul_free [smtp_host c; from_address c; to; smtp_username c; smtp_password c; path] ->
  smtp_send c path to subject body io =
    (exit_status io =? 0, Some (message_text c to subject body), Some (mail_words c to path ++ str " 2>&1")) /\
  sh_words (mail_words c to path) = Some
    [str "curl"; str "-s"; str "--url"; str "smtps://" ++ smtp_host c ++ str ":" ++ signed_port (smtp_port c);
     str "--mail-from"; from_address c; str "--mail-rcpt"; to;
     str "--user"; smtp_username c ++ str ":" ++ smtp_password c; str "--ssl-reqd"; str "--upload-file"; path].
Proof.
  intros He Ho Hs Hq Hz. rewrite !Forall_cons in Hz. destruct Hz as (Z1 & Z2 & Z3 & Z4 & Z5 & Z6 & _). split.
  - assert (nul_free (mail_command c to path)) as Hn.
    { unfold mail_command, mail_words. rewrite !nul_free_app. split_and!; try done; try (apply nul_free_literal; reflexivity);
        try (by apply port_plain); apply nul_free_quote; rewrite ?nul_free_app; try split_and!; try done.
      apply nul_free_literal. reflexivity. }
    unfold smtp_send. rewrite He, Ho, Hs. cbn [negb]. by rewrite c_str_whole.
  - unfold sh_words, mail_words. rewrite sh_curl.
    assert (forall X, smtp_host c ++ str ":" ++ signed_port (smtp_port c) ++ str "'" ++ X
      = (smtp_host c ++ str ":" ++ signed_port (smtp_port c)) ++ apostrophe :: X) as -> by (intros X; by rewrite <- !app_assoc).
    rewrite sh_plain_quote
      by (rewrite !not_elem_of_app; split_and!; [done|by intros ?%list_elem_of_singleton|by apply port_plain]).
    rewrite (sh_option (str " --mail-from ") (str "--mail-from")), sh_shell_quote by done.
    rewrite (sh_option (str " --mail-rcpt ") (str "--mail-rcpt")), sh_shell_quote by done.
    rewrite (sh_option (str " --user ") (str "--user")), sh_shell_quote by done.
    assert (forall X w, sh_read (str " --ssl-reqd" ++ X) (ShWord w) = (fun l => w :: l) <$> sh_read X (ShWord (str "--ssl-reqd"))) as ->
      by done.
    rewrite (sh_option (str " --upload-file ") (str "--upload-file")) by done. rewrite <- (app_nil_r (shell_quote path)), sh_shell_quote. done.
Qed.

(** The lines of a message. *)
Definition message_lines (ls : list bytes) : bytes := mjoin ((fun l => l ++ crlf) <$> ls).
(** An address with a line break adds a header of the sender's choice. *)
Lemma mail_header_injected c a h b subject body :
  message_text c (a ++ str ">" ++ crlf ++ h ++ crlf ++ str "X: <" ++ b) subject body = message_lines
    [str "From: " ++ from_name c ++ str " <" ++ from_address c ++ str ">"; str "To: <" ++ a ++ str ">"; h;
     str "X: <" ++ b ++ str ">"; str "Subject: " ++ subject; str "MIME-Version: 1.0";
     str "Content-Type: text/plain; charset=UTF-8"; []; body].
Proof. unfold message_text, message_lines. cbn [fmap list_fmap mjoin list_join]. by rewrite <- !app_assoc. Qed.

(** ** Witness *)

Definition toy_config : SmtpConfig :=
  load_config (Some (str "username=pool" ++ [u8 10] ++ str "password=it's" ++ [u8 10] ++ str "from_address=a@b" ++ [u8 10])).
Lemma mail_command_safe_witness :
  sh_words (mail_words toy_config (str "x'; rm -rf '") (str "data/outgoing.eml")) = Some
    [str "curl"; str "-s"; str "--url"; str "smtps://smtp.gmail.com:465"; str "--mail-from"; str "a@b";
     str "--mail-rcpt"; str "x'; rm -rf '"; str "--user"; str "pool:it's"; str "--ssl-reqd"; str "--upload-file";
     str "data/outgoing.eml"].
Proof.
  refine (proj2 (mail_command_safe toy_config (str "x'; rm -rf '") (str "data/outgoing.eml") [] [] (mkMailIO true true 0) _ _ _ _ _)).
  - vm_compute. reflexivity.
  - reflexivity.
  - reflexivity.
  - decide_vm.
  - decide_vm.
Defined.
