(* ===== verification/GoogleAuth.v ===== *)
(** auth_google.cpp: signing in with a Google account. The token comes from a
    curl command; its middle part is base64 text with the address of the user
    in it, from which two "wallets" are derived. *)

From S2P Require Import Prelude Crypto Transaction Ownership Text Mail.
From stdpp Require Import options.
Local Open Scope Z_scope.

(** [int] arithmetic: shifts wrap in C++20. *)
Definition i32 (z : Z) : Z := (z + 2 ^ 31) mod 2 ^ 32 - 2 ^ 31.

(** ** Base 64 *)

Definition B64URL : bytes := str "ABCDEFGHIJKLMNOPQRSTUVWXYZabcdefghijklmnopqrstuvwxyz0123456789-_".
Definition B64STD : bytes := str "ABCDEFGHIJKLMNOPQRSTUVWXYZabcdefghijklmnopqrstuvwxyz0123456789+/".
Definition b64_char (i : Z) : byte := nth (Z.to_nat i) B64URL Byte.x00.
(** [while (valb >= 0) { out.push_back(lookup\[(val >> valb) & 0x3F\]); valb -= 6; }]: at most twice. *)
Fixpoint b64_emit (fuel : nat) (val valb : Z) : bytes * Z :=
  match fuel with
  | O => ([], valb)
  | S fuel =>
      if 0 <=? valb then
        let '(out, valb') := b64_emit fuel val (valb - 6) in (b64_char (Z.land (Z.shiftr val valb) 63) :: out, valb')
      else ([], valb)
  end.
Fixpoint b64_loop (s : bytes) (val valb : Z) : bytes * Z * Z :=
  match s with
  | [] => ([], val, valb)
  | c :: s =>
      let val := i32 (i32 (Z.shiftl val 8) + byteZ c) in
      let '(out, valb) := b64_emit 3 val (valb + 8) in
      let '(rest, val, valb) := b64_loop s val valb in (out ++ rest, val, valb)
  end.
Definition equals : byte := u8 61.
(** [while (out.size() % 4) out.push_back('=')]. *)
Definition b64_pad (out : bytes) : bytes := out ++ replicate ((4 - length out mod 4) mod 4) equals.
Definition b64_text (s : bytes) : bytes :=
  let '(out, val, valb) := b64_loop s 0 (-6) in
  if -6 <? valb then out ++ [b64_char (Z.land (Z.shiftr (i32 (Z.shiftl val 8)) (valb + 8)) 63)] else out.
Definition b64url_encode (s : bytes) : bytes := b64_pad (b64_text s).

(** The table [T]; -1 ends the text. *)
Definition b64_index (c : byte) : option Z := (fun p => Z.of_nat p.1) <$> list_find (fun x => x = c) B64STD.
Fixpoint b64_decode_loop (s : bytes) (val valb : Z) : bytes :=
  match s with
  | [] => []
  | c :: s =>
      match b64_index c with
      | None => []
      | Some i =>
          let val := i32 (i32 (Z.shiftl val 6) + i) in
          let valb := valb + 6 in
          if 0 <=? valb then u8 (Z.land (Z.shiftr val valb) 255) :: b64_decode_loop s val (valb - 8)
          else b64_decode_loop s val valb
      end
  end.
Definition b64_decode_std (s : bytes) : bytes := b64_decode_loop s 0 (-8).

(** ** Texts *)

Definition url_encode (s : bytes) : bytes :=
  mjoin ((fun c => if is_alnum c || bool_decide (c ∈ str "-_.~") then [c]
                   else str "%" ++ bytes_to_hex [c]) <$> s).

Section Google.
Context {ssl : OpenSSL}.

Definition sha256_raw (data : bytes) : bytes := hash_bytes (sha256 data).
Definition derive_wallet (email extra : bytes) : bytes :=
  str "CZ1" ++ bytes_to_hex (take 20 (hash_bytes (sha256 (email ++ extra)))).

(** The redirection to Google; [verifier] is what [random_string] gives. *)
Definition google_redirect (client_id redirect_uri verifier : bytes) : bytes :=
  str "https://accounts.google.com/o/oauth2/v2/auth?response_type=code&client_id=" ++ url_encode client_id
  ++ str "&redirect_uri=" ++ url_encode redirect_uri ++ str "&scope=" ++ url_encode (str "openid email profile")
  ++ str "&code_challenge=" ++ b64url_encode (sha256_raw verifier)
  ++ str "&code_challenge_method=S256&access_type=offline&prompt=consent".
(** The command of [https_post]. *)
Definition post_command (url body : bytes) : bytes :=
  str "curl -s -X POST " ++ shell_quote url ++ str " -H 'Content-Type: application/x-www-form-urlencoded'"
  ++ str " --data " ++ shell_quote body ++ str " 2>/dev/null".

(** A field of a JSON text: what stands between the key with its opening quote
    and the next quote, or everything when there is none. *)
Definition json_after (key : bytes) (s : bytes) : option bytes :=
  match find_str key s with
  | None => None
  | Some pos =>
      let v := drop (pos + length key) s in
      Some (match find_str [quote] v with Some stop => take stop v | None => v end)
  end.
(** The two calls of [std::replace]. *)
Definition std_char (c : byte) : byte := if byteZ c =? 45 then u8 43 else if byteZ c =? 95 then u8 47 else c.
(** The middle of a token, made standard base 64. *)
Definition token_payload (id_token : bytes) : option bytes :=
  match find_str (str ".") id_token with
  | None => None
  | Some dot1 =>
      let rest := drop (dot1 + 1) id_token in
      match find_str (str ".") rest with
      | None => None
      | Some dot2 =>
          Some (std_char <$> b64_pad (take dot2 rest))
      end
  end.
(** The address in the answer to the token request; empty when there is none. *)
Definition token_email (resp : bytes) : bytes :=
  default []
    (id_token ← json_after ([quote] ++ str "id_token" ++ [quote] ++ str ":" ++ [quote]) resp;
     payload ← token_payload id_token;
     json_after ([quote] ++ str "email" ++ [quote] ++ str ":" ++ [quote]) (b64_decode_std payload)).

Inductive GooglePage :=
  | MissingCode
  | ExchangeFailed
  | NoEmail
  | SignedIn (email wallet1 wallet2 : bytes).
(** The callback; [resp] is what curl printed, empty on failure. *)
Definition google_callback (code resp : bytes) : GooglePage :=
  if bool_decide (code = []) then MissingCode
  else if bool_decide (resp = []) then ExchangeFailed
  else
    let email := token_email resp in
    if bool_decide (email = []) then NoEmail
    else SignedIn email (derive_wallet email []) (derive_wallet email (str "secondary")).
End Google.

(** ** The integer wraps, the bits that are used do not *)

Lemma i32_mod z : exists q, i32 z = z + 2 ^ 32 * q.
Proof. unfold i32. exists (- ((z + 2 ^ 31) / 2 ^ 32)). pose proof (Z.div_mod (z + 2 ^ 31) (2 ^ 32) ltac:(lia)). lia. Qed.
Lemma i32_shift k w z : 0 <= k -> 0 <= w -> k + w <= 32 -> Z.land (Z.shiftr (i32 z) k) (Z.ones w) = (z / 2 ^ k) mod 2 ^ w.
Proof.
  intros Hk Hw Hs. rewrite Z.land_ones, Z.shiftr_div_pow2 by done. destruct (i32_mod z) as [q ->].
  replace (2 ^ 32) with (2 ^ k * (2 ^ w * 2 ^ (32 - k - w))) by (rewrite <- !Z.pow_add_r by lia; f_equal; lia).
  replace (z + 2 ^ k * (2 ^ w * 2 ^ (32 - k - w)) * q) with (z + (2 ^ w * (2 ^ (32 - k - w) * q)) * 2 ^ k) by lia.
  rewrite Z.div_add by lia. rewrite (Z.mul_comm (2 ^ w)), Z.mod_add by lia. done.
Qed.
Lemma i32_step z k c : 0 <= k -> i32 (i32 (Z.shiftl (i32 z) k) + c) = i32 (z * 2 ^ k + c).
Proof.
  intros Hk. rewrite Z.shiftl_mul_pow2 by done. destruct (i32_mod z) as [q ->], (i32_mod ((z + 2 ^ 32 * q) * 2 ^ k)) as [q' ->].
  unfold i32. f_equal. replace ((z + 2 ^ 32 * q) * 2 ^ k + 2 ^ 32 * q' + c + 2 ^ 31)
    with (z * 2 ^ k + c + 2 ^ 31 + (q * 2 ^ k + q') * 2 ^ 32) by lia. by rewrite Z.mod_add.
Qed.

(** ** One round of each loop *)

Definition digit6 (X k : Z) : byte := b64_char ((X / 2 ^ k) mod 64).
Lemma emit_digit X k : 0 <= k <= 8 -> b64_char (Z.land (Z.shiftr (i32 X) k) 63) = digit6 X k.
Proof. intros Hk. unfold digit6. change 63 with (Z.ones 6). by rewrite i32_shift by lia. Qed.
Lemma emit_2 X : b64_emit 3 (i32 X) 2 = ([digit6 X 2], -4).
Proof. by rewrite <- emit_digit by lia. Qed.
Lemma emit_4 X : b64_emit 3 (i32 X) 4 = ([digit6 X 4], -2).
Proof. by rewrite <- emit_digit by lia. Qed.
Lemma emit_6 X : b64_emit 3 (i32 X) 6 = ([digit6 X 6; digit6 X 0], -6).
Proof. by rewrite <- !emit_digit by lia. Qed.
Lemma loop_step c s X valb :
  b64_loop (c :: s) (i32 X) valb =
    (let '(out, valb') := b64_emit 3 (i32 (X * 256 + byteZ c)) (valb + 8) in
     let '(rest, v, b) := b64_loop s (i32 (X * 256 + byteZ c)) valb' in (out ++ rest, v, b)).
Proof. cbn [b64_loop]. by rewrite (i32_step X 8) by lia. Qed.
Lemma loop_three a b c s X :
  let X1 := X * 256 + byteZ a in let X2 := X1 * 256 + byteZ b in let X3 := X2 * 256 + byteZ c in
  b64_loop (a :: b :: c :: s) (i32 X) (-6) =
    (let '(rest, v, e) := b64_loop s (i32 X3) (-6) in
     ([digit6 X1 2; digit6 X2 4; digit6 X3 6; digit6 X3 0] ++ rest, v, e)).
Proof.
  intros X1 X2 X3. rewrite loop_step. change (-6 + 8) with 2. rewrite emit_2, loop_step. change (-4 + 8) with 4.
  rewrite emit_4, loop_step. change (-2 + 8) with 6. rewrite emit_6. fold X1. fold X2. fold X3.
  by destruct (b64_loop s _ _) as [[rest v] e].
Qed.
Lemma decode_step i s Y valb :
  0 <= i < 64 ->
  b64_decode_loop (std_char (b64_char i) :: s) (i32 Y) valb =
    (if 0 <=? valb + 6 then u8 (Z.land (Z.shiftr (i32 (Y * 64 + i)) (valb + 6)) 255) :: b64_decode_loop s (i32 (Y * 64 + i)) (valb + 6 - 8)
     else b64_decode_loop s (i32 (Y * 64 + i)) (valb + 6)).
Proof.
  intros Hi. cbn [b64_decode_loop]. assert (b64_index (std_char (b64_char i)) = Some i) as ->.
  { assert (forall n, (n < 64)%nat -> b64_index (std_char (b64_char (Z.of_nat n))) = Some (Z.of_nat n)) as H.
    { intros n Hn. do 64 (destruct n as [|n]; [vm_compute; reflexivity|]). lia. }
    specialize (H (Z.to_nat i) ltac:(lia)). by rewrite Z2Nat.id in H by lia. }
  by rewrite (i32_step Y 6) by lia.
Qed.
Lemma i32_shl z k : 0 <= k -> i32 (Z.shiftl (i32 z) k) = i32 (z * 2 ^ k).
Proof.
  intros Hk. rewrite Z.shiftl_mul_pow2 by done. destruct (i32_mod z) as [q ->]. unfold i32. f_equal.
  replace ((z + 2 ^ 32 * q) * 2 ^ k + 2 ^ 31) with (z * 2 ^ k + 2 ^ 31 + (q * 2 ^ k) * 2 ^ 32) by lia. by rewrite Z.mod_add.
Qed.
(** The byte that two digits make. *)
Lemma decode_byte Y k b : 0 <= k <= 8 -> (Y / 2 ^ k) mod 256 = byteZ b -> u8 (Z.land (Z.shiftr (i32 Y) k) 255) = b.
Proof.
  intros Hk E. change 255 with (Z.ones 8). rewrite i32_shift by lia. change (2 ^ 8) with 256. rewrite E. apply u8_byteZ.
Qed.
Lemma digit6_range X k : 0 <= (X / 2 ^ k) mod 64 < 64.
Proof. apply Z.mod_pos_bound. lia. Qed.

(** Decoding starts a byte at its first digit. *)
Lemma decode_first X a Y t :
  let X1 := X * 256 + byteZ a in
  b64_decode_loop (std_char (digit6 X1 2) :: t) (i32 Y) (-8) = b64_decode_loop t (i32 (Y * 64 + (X1 / 4) mod 64)) (-2).
Proof. intros X1. unfold digit6. rewrite decode_step by apply digit6_range. done. Qed.
Lemma decode_second X1 a Y d t :
  X1 mod 256 = byteZ a -> 0 <= d < 64 -> d / 16 = X1 mod 4 ->
  b64_decode_loop (std_char (b64_char d) :: t) (i32 (Y * 64 + (X1 / 4) mod 64)) (-2) =
    a :: b64_decode_loop t (i32 ((Y * 64 + (X1 / 4) mod 64) * 64 + d)) (-4).
Proof.
  intros Ha Hd Hq. rewrite decode_step by done. change (0 <=? -2 + 6) with true. change (-2 + 6) with 4. cbv iota. f_equal.
  apply decode_byte; [lia|]. change (2 ^ 4) with 16. pose proof (byteZ_bound a). Z.to_euclidean_division_equations. lia.
Qed.
Lemma decode_third Y d b e t :
  0 <= e < 64 -> 0 <= d < 64 -> byteZ b = 16 * (d mod 16) + e / 4 ->
  b64_decode_loop (std_char (b64_char e) :: t) (i32 (Y * 64 + d)) (-4) = b :: b64_decode_loop t (i32 ((Y * 64 + d) * 64 + e)) (-6).
Proof.
  intros He Hd Hb. rewrite decode_step by done. change (0 <=? -4 + 6) with true. change (-4 + 6) with 2. cbv iota. f_equal.
  apply decode_byte; [lia|]. change (2 ^ 2) with 4. rewrite Hb. Z.to_euclidean_division_equations. lia.
Qed.
Lemma decode_fourth Y e c f t :
  0 <= f < 64 -> 0 <= e < 64 -> byteZ c = 64 * (e mod 4) + f ->
  b64_decode_loop (std_char (b64_char f) :: t) (i32 (Y * 64 + e)) (-6) = c :: b64_decode_loop t (i32 ((Y * 64 + e) * 64 + f)) (-8).
Proof.
  intros Hf He Hc. rewrite decode_step by done. change (0 <=? -6 + 6) with true. change (-6 + 6) with 0. cbv iota. f_equal.
  apply decode_byte; [lia|]. change (2 ^ 0) with 1. rewrite Hc, Z.div_1_r. Z.to_euclidean_division_equations. lia.
Qed.

(** What the encoder writes from a state whose integer is [X]. *)
Definition text_from (s : bytes) (X : Z) : bytes :=
  let '(out, val, valb) := b64_loop s (i32 X) (-6) in
  if -6 <? valb then out ++ [b64_char (Z.land (Z.shiftr (i32 (Z.shiftl val 8)) (valb + 8)) 63)] else out.
Lemma text_one a X : let X1 := X * 256 + byteZ a in text_from [a] X = [digit6 X1 2; digit6 (X1 * 256) 4].
Proof.
  intros X1. unfold text_from. rewrite loop_step. change (-6 + 8) with 2. rewrite emit_2. cbn [b64_loop].
  change (-6 <? -4) with true. cbv iota. change (-4 + 8) with 4. rewrite i32_shl, emit_digit by lia. done.
Qed.
Lemma text_two a b X :
  let X1 := X * 256 + byteZ a in let X2 := X1 * 256 + byteZ b in
  text_from [a; b] X = [digit6 X1 2; digit6 X2 4; digit6 (X2 * 256) 6].
Proof.
  intros X1 X2. unfold text_from. rewrite loop_step. change (-6 + 8) with 2. rewrite emit_2, loop_step. change (-4 + 8) with 4.
  rewrite emit_4. cbn [b64_loop]. change (-6 <? -2) with true. cbv iota. change (-2 + 8) with 6. rewrite i32_shl, emit_digit by lia. done.
Qed.
Lemma text_three a b c s X :
  let X1 := X * 256 + byteZ a in let X2 := X1 * 256 + byteZ b in let X3 := X2 * 256 + byteZ c in
  text_from (a :: b :: c :: s) X = [digit6 X1 2; digit6 X2 4; digit6 X3 6; digit6 X3 0] ++ text_from s X3.
Proof.
  intros X1 X2 X3. unfold text_from. rewrite loop_three. fold X1 X2 X3. destruct (b64_loop s (i32 X3) (-6)) as [[rest v] e].
  destruct (-6 <? e); [by rewrite app_assoc|done].
Qed.
Lemma decode_padding pad Y k : Forall (fun c => c = equals) pad -> b64_decode_loop (std_char <$> pad) (i32 Y) k = [].
Proof. intros [|c p' ->]; [done|]. cbn [fmap list_fmap b64_decode_loop]. by replace (b64_index (std_char equals)) with (@None Z). Qed.

Ltac euclid := Z.to_euclidean_division_equations; lia.
Lemma decode_text n s X Y pad :
  (length s <= n)%nat -> Forall (fun c => c = equals) pad ->
  b64_decode_loop (std_char <$> (text_from s X ++ pad)) (i32 Y) (-8) = s.
Proof.
  intros Hn Hpad. revert s X Y Hn. induction n as [|n IH]; intros s X Y Hn.
  { destruct s; [|cbn in Hn; lia]. by apply decode_padding. }
  destruct s as [|a [|b [|c s]]].
  - by apply decode_padding.
  - rewrite text_one. set (X1 := X * 256 + byteZ a). pose proof (byteZ_bound a). cbn [app fmap list_fmap]. unfold X1 at 1.
    rewrite decode_first. fold X1. unfold digit6. change (2 ^ 4) with 16.
    rewrite (decode_second X1 a) by (apply Z.mod_pos_bound; lia) || (unfold X1; euclid). by rewrite decode_padding.
  - rewrite text_two. set (X1 := X * 256 + byteZ a). set (X2 := X1 * 256 + byteZ b). pose proof (byteZ_bound a). pose proof (byteZ_bound b).
    cbn [app fmap list_fmap]. unfold X1 at 1. rewrite decode_first. fold X1. unfold digit6. change (2 ^ 4) with 16. change (2 ^ 6) with 64.
    rewrite (decode_second X1 a) by (apply Z.mod_pos_bound; lia) || (unfold X2, X1; euclid).
    rewrite (decode_third _ _ b) by (apply Z.mod_pos_bound; lia) || (unfold X2, X1; euclid). by rewrite decode_padding.
  - rewrite text_three. set (X1 := X * 256 + byteZ a). set (X2 := X1 * 256 + byteZ b). set (X3 := X2 * 256 + byteZ c).
    pose proof (byteZ_bound a). pose proof (byteZ_bound b). pose proof (byteZ_bound c). rewrite <- app_assoc.
    cbn [app fmap list_fmap]. unfold X1 at 1. rewrite decode_first. fold X1. unfold digit6. change (2 ^ 4) with 16. change (2 ^ 6) with 64.
    change (2 ^ 0) with 1.
    rewrite (decode_second X1 a) by (apply Z.mod_pos_bound; lia) || (unfold X2, X1; euclid).
    rewrite (decode_third _ _ b) by (apply Z.mod_pos_bound; lia) || (unfold X3, X2, X1; euclid).
    rewrite (decode_fourth _ _ c) by (apply Z.mod_pos_bound; lia) || (unfold X3, X2, X1; euclid).
    f_equal. f_equal. f_equal. apply IH. cbn in Hn. lia.
Qed.

Lemma b64_roundtrip s : b64_decode_std (std_char <$> b64url_encode s) = s.
Proof.
  unfold b64_decode_std, b64url_encode, b64_pad, b64_text. change 0 with (i32 0). fold (text_from s 0).
  apply (decode_text (length s)); [lia|]. by apply Forall_replicate.
Qed.

Lemma digit6_url X k : digit6 X k ∈ B64URL.
Proof.
  unfold digit6, b64_char. pose proof (digit6_range X k). apply list_elem_of_In, nth_In. change (length B64URL) with 64%nat. lia.
Qed.
Lemma text_url n s X : (length s <= n)%nat -> Forall (fun c => c ∈ B64URL) (text_from s X).
Proof.
  revert s X. induction n as [|n IH]; intros s X Hn; [destruct s; [constructor|cbn in Hn; lia]|].
  destruct s as [|a [|b [|c s]]]; [constructor| | |].
  - rewrite text_one, !Forall_cons. auto using digit6_url.
  - rewrite text_two, !Forall_cons. auto using digit6_url.
  - rewrite text_three. apply Forall_app. split; [rewrite !Forall_cons; auto using digit6_url|]. apply IH. cbn in Hn. lia.
Qed.

Section Claims.
Context {ssl : OpenSSL}.

Lemma derive_wallet_invalid email extra : is_valid_address (derive_wallet email extra) = false.
Proof.
  unfold is_valid_address. rewrite bool_decide_false; [done|]. unfold derive_wallet. rewrite length_app, bytes_to_hex_length, length_take, hash_length.
  cbn. lia.
Qed.

(** Signing in with Google finds the right account. Whatever payload a
    token carries, its base 64 text is read back byte for byte, although the
    integer the digits are shifted through overflows, so the page is for the
    address in the payload. The two wallets it shows are no addresses: no
    payment to them is accepted. *)
Theorem google_sign_in code resp header payload sig email :
  code <> [] -> u8 46 ∉ header -> email <> [] ->
  json_after ([quote] ++ str "id_token" ++ [quote] ++ str ":" ++ [quote]) resp
    = Some (header ++ str "." ++ b64_text payload ++ str "." ++ sig) ->
  json_after ([quote] ++ str "email" ++ [quote] ++ str ":" ++ [quote]) payload = Some email ->
  exists w1 w2, google_callback code resp = SignedIn email w1 w2 /\
    is_valid_address w1 = false /\ is_valid_address w2 = false.
Proof.
  intros Hc Hd He Ht Hp. exists (derive_wallet email []), (derive_wallet email (str "secondary")).
  split; [|split; apply derive_wallet_invalid]. unfold google_callback. rewrite bool_decide_false by done.
  rewrite bool_decide_false by (intros ->; done).
  assert (token_email resp = email) as ->; [|by rewrite bool_decide_false].
  unfold token_email. rewrite Ht. cbn [mbind option_bind]. unfold token_payload. change (str ".") with [u8 46]. cbn [app].
  rewrite find_char by done. rewrite drop_app_add. cbn [drop]. rewrite drop_0, find_char.
  2:{ unfold b64_text. change 0 with (i32 0). fold (text_from payload 0). intros Hin.
      apply (proj1 (Forall_forall _ _) (text_url _ payload 0 (le_n _))) in Hin. revert Hin. decide_vm. }
  rewrite take_app_length. cbn [mbind option_bind].
  change (b64_pad (b64_text payload)) with (b64url_encode payload). rewrite b64_roundtrip.
  cbn [app] in Hp. by rewrite Hp.
Qed.
End Claims.

(** ** Witness *)

Definition toy_payload : bytes := json "{'sub':'7','email':'ann@example.org'}".
Definition toy_answer : bytes :=
  json "{'access_token':'x','id_token':'" ++ str "e30." ++ b64_text toy_payload ++ str ".sig" ++ json "'}".
Lemma google_sign_in_witness :
  exists w1 w2, google_callback (ssl := Toy.ssl) (str "4/0A") toy_answer = SignedIn (str "ann@example.org") w1 w2.
Proof.
  destruct (google_sign_in (ssl := Toy.ssl) (str "4/0A") toy_answer (str "e30") toy_payload (str "sig") (str "ann@example.org"))
    as (w1 & w2 & E & _).
  - discriminate.
  - decide_vm.
  - discriminate.
  - vm_compute. reflexivity.
  - vm_compute. reflexivity.
  - exists w1, w2. exact E.
Defined.
